(** * tinyclaw-trading: orchestration layer, shallow embedding and properties

    The file has two parts.  Part I embeds the relevant TypeScript and shell
    code as executable Rocq definitions, one module per source component.
    Part II states and proves the properties of those definitions.

    Conventions of the embedding:
    - a JavaScript string is the list of its UTF-16 code units ([list N]);
    - an integral JavaScript number (a count, an epoch timestamp, a delay) is
      a [Z]; the model leaves the 2^53 precision limit of doubles aside;
      where the code is read for numbers that need not be integral
      ([maxRetries]), the number has a type of its own;
    - a promise is its eventual outcome; an asynchronous function is a pure
      function from the behaviour of its environment (what the operation,
      the subprocess, the HTTP endpoint or the database answers) to that
      outcome together with the trace of effects it performed;
    - the text a shell script holds is the list of its characters; the
      programs it calls (jq, date, curl, python3, the heartbeat scripts) are
      part of its environment, and a command whose failure ends the script
      under [set -e] is a step that may exit. *)

From Stdlib Require Import ZArith NArith List String Ascii Bool Lia DecimalString SpecFloat.
From stdpp Require Import base option list gmap strings.

#[local] Set Warnings "-register-all".


(* ===================================================================== *)
(** * Part I: the embedding *)
(* ===================================================================== *)

(** ** JavaScript strings and the String.prototype methods the code uses *)

Module JS.

Abbreviation jsstring := (list N).

(** A Rocq string literal read as code units (ASCII literals only). *)
Fixpoint str (s : string) : jsstring :=
  match s with
  | EmptyString => []
  | String a r => N_of_ascii a :: str r
  end.

(** Decimal rendering of an integral number, as template literals do. *)
Definition dec (z : Z) : jsstring := str (NilZero.string_of_int (Z.to_int z)).

(** WhiteSpace and LineTerminator code units, the set [trim] strips. *)
Definition is_ws (c : N) : bool :=
  existsb (N.eqb c)
    [9; 10; 11; 12; 13; 32; 160; 5760; 8232; 8233; 8239; 8287; 12288; 65279]%N
  || ((8192 <=? c)%N && (c <=? 8202)%N).

Fixpoint trimStart (s : jsstring) : jsstring :=
  match s with
  | [] => []
  | c :: r => if is_ws c then trimStart r else s
  end.

Definition trimEnd (s : jsstring) : jsstring := rev (trimStart (rev s)).

Definition trim (s : jsstring) : jsstring := trimEnd (trimStart s).

(** Clamp an index argument to [0, len]. *)
Definition clamp (len : nat) (i : Z) : nat :=
  Z.to_nat (Z.min (Z.max i 0) (Z.of_nat len)).

(** [s.substring(start, end)]: both indices clamped, swapped when reversed. *)
Definition substring (s : jsstring) (start end_ : Z) : jsstring :=
  let a := clamp (length s) start in
  let b := clamp (length s) end_ in
  take (Nat.max a b - Nat.min a b) (drop (Nat.min a b) s).

(** [s.substring(start)]. *)
Definition substring_from (s : jsstring) (start : Z) : jsstring :=
  substring s start (Z.of_nat (length s)).

Fixpoint starts_with (pat s : jsstring) : bool :=
  match pat, s with
  | [], _ => true
  | _ :: _, [] => false
  | p :: pr, c :: sr => N.eqb p c && starts_with pr sr
  end.

Definition match_at (s pat : jsstring) (k : nat) : bool :=
  starts_with pat (drop k s).

(** Scan downwards from [k]; -1 when no position matches. *)
Fixpoint last_match (s pat : jsstring) (k : nat) : Z :=
  if match_at s pat k then Z.of_nat k
  else match k with
       | O => (-1)%Z
       | S k' => last_match s pat k'
       end.

(** [s.lastIndexOf(pat, pos)]. *)
Definition lastIndexOf (s pat : jsstring) (pos : Z) : Z :=
  if (length s <? length pat)%nat then (-1)%Z
  else last_match s pat (Nat.min (clamp (length s) pos) (length s - length pat)).

(** [pat] occurs somewhere in [s]: what [/pat/.test(s)] decides for a
    pattern without metacharacters. *)
Fixpoint includes (s pat : jsstring) : bool :=
  match s with
  | [] => starts_with pat []
  | _ :: r => starts_with pat s || includes r pat
  end.

(** Canonicalisation of the [i] flag (no [u] flag): ASCII letters fold to
    upper case, code units from 128 on never fold onto ASCII. *)
Definition canon (c : N) : N :=
  if ((97 <=? c) && (c <=? 122))%N then (c - 32)%N else c.

(** [/pat/i.test(s)] for a literal pattern. *)
Definition includes_ci (s pat : jsstring) : bool :=
  includes (map canon s) (map canon pat).

(** [s.split(sep)] for a one-unit separator. *)
Fixpoint split_on (sep : N) (s : jsstring) : list jsstring :=
  match s with
  | [] => [[]]
  | c :: r =>
      if N.eqb c sep then [] :: split_on sep r
      else match split_on sep r with
           | h :: t => (c :: h) :: t
           | [] => [[c]]
           end
  end.

Definition LF : N := 10%N.
Definition SPACE : N := 32%N.
Definition DQUOTE : N := 34%N.

(** [parts.join(sep)]. *)
Fixpoint join (sep : jsstring) (parts : list jsstring) : jsstring :=
  match parts with
  | [] => []
  | [p] => p
  | p :: rest => p ++ sep ++ join sep rest
  end.

End JS.

(** ** src/lib/retry.ts *)

Module Retry.
Import JS.

(** [TRANSIENT_PATTERNS]: pattern text and whether it carries the [i] flag. *)
Definition TRANSIENT_PATTERNS : list (jsstring * bool) :=
  [ (str "ECONNREFUSED", true);
    (str "ECONNRESET", true);
    (str "ETIMEDOUT", true);
    (str "EPIPE", true);
    (str "timeout", true);
    (str "network", true);
    (str "socket hang up", true);
    (str "503", false);
    (str "502", false);
    (str "429", false) ].

Definition pattern_test (p : jsstring * bool) (msg : jsstring) : bool :=
  if snd p then includes_ci msg (fst p) else includes msg (fst p).

(** What one call of the operation settles to. *)
Inductive attempt_result (T E : Type) : Type :=
  | Fulfilled (v : T)
  | Failed (err : E).
Arguments Fulfilled {T E} v.
Arguments Failed {T E} err.

(** How [withRetry] itself settles; [ThrewExhausted] is the final
    [throw new Error(...)] after the loop. *)
Inductive retry_result (T E : Type) : Type :=
  | Returned (v : T)
  | Threw (err : E)
  | ThrewExhausted.
Arguments Returned {T E} v.
Arguments Threw {T E} err.
Arguments ThrewExhausted {T E}.

(** The observable run: calls made to the operation and delays slept. *)
Record run (T E : Type) : Type := mkRun {
  result : retry_result T E;
  attempts : nat;
  sleeps : list Z
}.
Arguments mkRun {T E} _ _ _.
Arguments result {T E} _.
Arguments attempts {T E} _.
Arguments sleeps {T E} _.

Section WithRetry.
Context {T E : Type}.
(** [err instanceof Error ? err.message : String(err)] *)
Variable message_of : E -> jsstring.
(** The operation: what its n-th call (from 0) settles to. *)
Variable fn : nat -> attempt_result T E.
Variable maxRetries : Z.
Variable baseDelayMs : Z.

Definition isTransientError (err : E) : bool :=
  existsb (fun p => pattern_test p (message_of err)) TRANSIENT_PATTERNS.

(** The [for (attempt = 0; attempt <= maxRetries; attempt++)] loop; [fuel]
    bounds the iterations and [None] means the bound was too small. *)
Fixpoint retry_loop (fuel : nat) (attempt : Z) (calls : nat) (slept : list Z)
  : option (run T E) :=
  match fuel with
  | O => None
  | S fuel' =>
      if (attempt <=? maxRetries)%Z then
        match fn calls with
        | Fulfilled v => Some (mkRun (Returned v) (S calls) slept)
        | Failed err =>
            if (attempt =? maxRetries)%Z || negb (isTransientError err)
            then Some (mkRun (Threw err) (S calls) slept)
            else
              let delay := (baseDelayMs * 2 ^ attempt)%Z in
              retry_loop fuel' (attempt + 1)%Z (S calls) (slept ++ [delay])
        end
      else Some (mkRun ThrewExhausted calls slept)
  end.

Definition withRetry_fuel : nat := S (Z.to_nat (maxRetries + 1)).

Definition withRetry : option (run T E) := retry_loop withRetry_fuel 0%Z 0 [].

End WithRetry.

(** The delay slept after failed attempt number [i] (from 0). *)
Definition backoff (baseDelayMs : Z) (i : nat) : Z := (baseDelayMs * 2 ^ Z.of_nat i)%Z.

(** A run scripted by a list of outcomes: the operation's n-th call settles
    to the n-th entry, and succeeds with [dflt] once the script is over. *)
Definition scripted {T E : Type} (script : list (attempt_result T E)) (dflt : T)
  (n : nat) : attempt_result T E :=
  nth n script (Fulfilled dflt).

(** The time a run spends sleeping between attempts. *)
Definition total_delay {T E : Type} (r : run T E) : Z :=
  fold_right Z.add 0%Z (sleeps r).

(** *** [maxRetries] over every JavaScript number

    The loop compares its integral counter with [maxRetries] twice, by
    [<=] and by [===].  For these two tests a number is an integer, a
    finite number strictly between an integer [below] and [below + 1], an
    infinity, or NaN. *)
Inductive number : Type :=
  | Integer (z : Z)
  | Fraction (below : Z)
  | Infinity
  | NegInfinity
  | NaN.

(** [attempt <= maxRetries] *)
Definition le_number (attempt : Z) (x : number) : bool :=
  match x with
  | Integer z => (attempt <=? z)%Z
  | Fraction below => (attempt <=? below)%Z
  | Infinity => true
  | NegInfinity | NaN => false
  end.

(** [attempt === maxRetries] *)
Definition eq_number (attempt : Z) (x : number) : bool :=
  match x with
  | Integer z => (attempt =? z)%Z
  | _ => false
  end.

Section WithRetryNumber.
Context {T E : Type}.
Variable message_of : E -> jsstring.
Variable fn : nat -> attempt_result T E.
Variable maxRetries : number.
Variable baseDelayMs : Z.

(** The loop of [withRetry] for any number as [maxRetries]. *)
Fixpoint retry_loop_number (fuel : nat) (attempt : Z) (calls : nat) (slept : list Z)
  : option (run T E) :=
  match fuel with
  | O => None
  | S fuel' =>
      if le_number attempt maxRetries then
        match fn calls with
        | Fulfilled v => Some (mkRun (Returned v) (S calls) slept)
        | Failed err =>
            if eq_number attempt maxRetries || negb (isTransientError message_of err)
            then Some (mkRun (Threw err) (S calls) slept)
            else
              let delay := (baseDelayMs * 2 ^ attempt)%Z in
              retry_loop_number fuel' (attempt + 1)%Z (S calls) (slept ++ [delay])
        end
      else Some (mkRun ThrewExhausted calls slept)
  end.

(** [withRetry] run for at most [fuel] turns of the loop. *)
Definition withRetry_number (fuel : nat) : option (run T E) :=
  retry_loop_number fuel 0%Z 0 [].

End WithRetryNumber.

(** How many turns the head of the loop admits; [None] when it admits
    every turn. *)
Definition budget (x : number) : option nat :=
  match x with
  | Integer z => Some (Z.to_nat (z + 1))
  | Fraction below => Some (Z.to_nat (below + 1))
  | Infinity => None
  | NegInfinity | NaN => Some 0%nat
  end.

(** The number rounded up, and 0 when it is negative or NaN. *)
Definition ceiling (x : number) : Z :=
  match x with
  | Integer z => Z.max 0 z
  | Fraction below => Z.max 0 (below + 1)
  | _ => 0%Z
  end.

Definition is_integer (x : number) : bool :=
  match x with
  | Integer _ => true
  | _ => false
  end.

Definition exhausted {T E : Type} (r : run T E) : bool :=
  match result r with
  | ThrewExhausted => true
  | _ => false
  end.

End Retry.

(** ** checkRateLimit (trading command handlers) *)

Module RateLimit.

Definition RATE_LIMIT_WINDOW_MS : Z := 60000.
Definition RATE_LIMIT_MAX : nat := 5.

(** The module-level array [claudeSpawnTimestamps], oldest entry first. *)
Abbreviation timestamps := (list Z).

(** The [while] loop: shift expired entries off the front. *)
Fixpoint evict (now : Z) (ts : timestamps) : timestamps :=
  match ts with
  | [] => []
  | t :: rest =>
      if (t <=? now - RATE_LIMIT_WINDOW_MS)%Z then evict now rest else ts
  end.

(** One call at clock reading [now]: the answer and the array afterwards. *)
Definition checkRateLimit (now : Z) (ts : timestamps) : bool * timestamps :=
  let ts' := evict now ts in
  if (RATE_LIMIT_MAX <=? length ts')%nat then (false, ts')
  else (true, ts' ++ [now]).

(** A sequence of calls at the given clock readings. *)
Fixpoint calls (nows : list Z) (ts : timestamps) : list bool * timestamps :=
  match nows with
  | [] => ([], ts)
  | now :: rest =>
      let '(ok, ts1) := checkRateLimit now ts in
      let '(oks, ts2) := calls rest ts1 in
      (ok :: oks, ts2)
  end.

(** An admission still inside the window at clock reading [now]: the
    negation of the loop's expiry test. *)
Definition in_window (now t : Z) : bool := negb (t <=? now - RATE_LIMIT_WINDOW_MS)%Z.

(** Arrays the running module can hold: it starts empty and only
    [checkRateLimit] writes it. *)
Inductive reachable : timestamps -> Prop :=
  | reach_init : reachable []
  | reach_call now ts : reachable ts -> reachable (snd (checkRateLimit now ts)).

(** The timestamps of the calls a sequence of calls admits, in order. *)
Fixpoint admitted (nows : list Z) (ts : timestamps) : list Z :=
  match nows with
  | [] => []
  | now :: rest =>
      let '(ok, ts1) := checkRateLimit now ts in
      (if ok then [now] else []) ++ admitted rest ts1
  end.

(** Clock readings that never go back, none before [prev]. *)
Fixpoint monotone (prev : Z) (nows : list Z) : Prop :=
  match nows with
  | [] => True
  | now :: rest => (prev <= now)%Z /\ monotone now rest
  end.

(** The 60 s window that ends at [s]. *)
Definition in_window_ending (s t : Z) : bool :=
  in_window s t && (t <=? s)%Z.

(** An array in clock order. *)
Fixpoint ascending (ts : timestamps) : Prop :=
  match ts with
  | [] => True
  | t :: rest => Forall (Z.le t) rest /\ ascending rest
  end.

(** The array against the log of all admissions so far, [last] being the
    latest clock reading: the array is the tail of the log, what precedes
    it has left the window, and the array is in clock order with nothing
    later than [last]. *)
Definition tail_of_log (log : list Z) (ts : timestamps) (last : Z) : Prop :=
  (exists dropped,
      log = dropped ++ ts /\
      Forall (fun u => in_window last u = false) dropped) /\
  ascending ts /\
  Forall (fun u => (u <= last)%Z) ts.

End RateLimit.

(** ** Team Chain Orchestrator *)

Module Chain.
Import JS.

Abbreviation agent_id := (list N).

(** TeamDescriptor of the data model. *)
Record TeamDescriptor : Type := mkTeam {
  team_id : jsstring;
  members : list agent_id;
  leader : agent_id
}.

(** The chain events of the closed event set; timestamps are left out. *)
Inductive event : Type :=
  | ChainStarted (team : jsstring) (agents : list agent_id)
  | StepStarted (agent : agent_id) (step : nat)
  | StepDone (agent : agent_id) (output : jsstring)
  | Handoff (from to : agent_id) (step : nat)
  | ChainEnded (team : jsstring) (agents : list agent_id).

Inductive chain_result : Type :=
  | ChainDone (response : jsstring)
  | ChainFailed (missing : agent_id).

Section Orchestrator.
(** The agent configuration set and the Invocation Engine; a failed
    invocation is surfaced as response text, so [invoke] is total. *)
Context {AgentDescriptor : Type}.
Variable agents : gmap agent_id AgentDescriptor.
Variable invoke : AgentDescriptor -> jsstring -> jsstring.

(** Modelled from the spec: the per-member loop of the Team Chain
    Orchestrator (section 4.3); the queue processor that runs chains is not
    among the sources, only the visualizer consuming its events is.  For
    each member in order: step-started, one Invocation Engine call on the
    running message, step-done with the output, and a handoff (from, to,
    step index) when another member follows.  A member absent from the
    agent configuration is a fatal chain error: the chain stops there. *)
Fixpoint steps (i : nat) (ms : list agent_id) (current : jsstring)
  : list event * chain_result :=
  match ms with
  | [] => ([], ChainDone current)
  | m :: rest =>
      match agents !! m with
      | None => ([], ChainFailed m)
      | Some a =>
          let out := invoke a current in
          let handoff :=
            match rest with
            | [] => []
            | next :: _ => [Handoff m next i]
            end in
          let '(evs, res) := steps (S i) rest out in
          (StepStarted m i :: StepDone m out :: handoff ++ evs, res)
      end
  end.

(** Modelled from the spec: one chain execution (section 4.3), from
    Routing to the terminal chain-ended event carrying the member list; the
    final member's output is the response. *)
Definition run_chain (team : TeamDescriptor) (payload : jsstring)
  : list event * chain_result :=
  let '(evs, res) := steps 0 (members team) payload in
  match res with
  | ChainDone out =>
      (ChainStarted (team_id team) (members team)
         :: evs ++ [ChainEnded (team_id team) (members team)],
       ChainDone out)
  | ChainFailed m =>
      (ChainStarted (team_id team) (members team) :: evs, ChainFailed m)
  end.

End Orchestrator.

(** Observations on an event trace. *)
Inductive kind : Type := KStepDone | KHandoff | KChainEnded.

Definition kind_of (e : event) : option kind :=
  match e with
  | StepDone _ _ => Some KStepDone
  | Handoff _ _ _ => Some KHandoff
  | ChainEnded _ _ => Some KChainEnded
  | _ => None
  end.

Definition is_step_done (e : event) : bool :=
  match e with StepDone _ _ => true | _ => false end.

Definition is_handoff (e : event) : bool :=
  match e with Handoff _ _ _ => true | _ => false end.

Definition is_chain_ended (e : event) : bool :=
  match e with ChainEnded _ _ => true | _ => false end.

Definition step_done_agent (e : event) : option agent_id :=
  match e with StepDone a _ => Some a | _ => None end.

Definition handoff_of (e : event) : option (agent_id * agent_id * nat) :=
  match e with Handoff a b i => Some (a, b, i) | _ => None end.

(** Consecutive pairs of a member list with their step index. *)
Fixpoint consecutive (i : nat) (ms : list agent_id)
  : list (agent_id * agent_id * nat) :=
  match ms with
  | a :: (b :: _) as rest => (a, b, i) :: consecutive (S i) rest
  | _ => []
  end.

End Chain.

(** ** Heartbeat scheduler (the tick loop of the heartbeat shell script) *)

Module Heartbeat.
Import JS.

(** Text as the shell holds it: the list of its characters (the code
    points of a UTF-8 locale), NUL excluded.  [str] reads an ASCII
    literal; the shell leaves a backslash inside double quotes alone, so
    the two characters backslash and n of the script are written as they
    stand. *)
Abbreviation text := (list N).

Definition TAB : N := 9%N.
Definition BACKSLASH : N := 92%N.

(** *** What bash does with text *)

Fixpoint drop_newlines (s : text) : text :=
  match s with
  | c :: r => if N.eqb c LF then drop_newlines r else s
  | [] => []
  end.

(** [$(command)]: the output of the command without its trailing
    newlines. *)
Definition substitution (out : text) : text := rev (drop_newlines (rev out)).

(** The replacement the here-document makes in PROMPT: every double quote
    gets a backslash before it, and nothing else is escaped. *)
Definition escape_quotes (s : text) : text :=
  flat_map (fun c => if N.eqb c DQUOTE then [BACKSLASH; DQUOTE] else [c]) s.

(** The builtin [echo] takes an argument made of a dash and letters among
    n, e and E as options. *)
Definition is_echo_flag (c : N) : bool := existsb (N.eqb c) [110; 101; 69]%N.

Definition is_echo_option (s : text) : bool :=
  match s with
  | c :: f :: flags => N.eqb c 45 && forallb is_echo_flag (f :: flags)
  | _ => false
  end.

(** What [echo "$s"] writes. *)
Definition echo_out (s : text) : text :=
  if is_echo_option s then (if existsb (N.eqb 110) s then [] else [LF])
  else s ++ [LF].

(** Field splitting of an unquoted expansion with the default IFS: the
    fields are the maximal runs without space, tab and newline. *)
Definition is_ifs (c : N) : bool := N.eqb c SPACE || N.eqb c TAB || N.eqb c LF.

Fixpoint split_ifs (s : text) : list text :=
  match s with
  | [] => [[]]
  | c :: r =>
      if is_ifs c then [] :: split_ifs r
      else match split_ifs r with
           | h :: t => (c :: h) :: t
           | [] => [[c]]
           end
  end.

Definition fields (s : text) : list text :=
  List.filter (fun w => match w with [] => false | _ => true end) (split_ifs s).

(** The characters that make a word a pathname pattern. *)
Definition is_glob (c : N) : bool := existsb (N.eqb c) [42; 63; 91]%N.

(** How [test] reads an operand of [-lt]: white space, an optional sign,
    decimal digits, then blanks only, within the 64-bit range; anything
    else is not an integer. *)
Definition is_space (c : N) : bool := existsb (N.eqb c) [9; 10; 11; 12; 13; 32]%N.
Definition is_blank (c : N) : bool := N.eqb c SPACE || N.eqb c TAB.

Definition digit_of (c : N) : option Z :=
  if ((48 <=? c) && (c <=? 57))%N then Some (Z.of_N c - 48)%Z else None.

Fixpoint skip (p : N -> bool) (s : text) : text :=
  match s with
  | c :: r => if p c then skip p r else s
  | [] => []
  end.

Fixpoint read_digits (acc : Z) (s : text) : Z * text :=
  match s with
  | c :: r =>
      match digit_of c with
      | Some d => read_digits (10 * acc + d)%Z r
      | None => (acc, s)
      end
  | [] => (acc, [])
  end.

Definition shell_int (s : text) : option Z :=
  let s1 := skip is_space s in
  let '(sign, s2) :=
    match s1 with
    | c :: r => if N.eqb c 45 then ((-1)%Z, r)
                else if N.eqb c 43 then (1%Z, r) else (1%Z, s1)
    | [] => (1%Z, [])
    end in
  match s2 with
  | c :: _ =>
      match digit_of c with
      | Some _ =>
          let '(v, rest) := read_digits 0 s2 in
          let n := (sign * v)%Z in
          match skip is_blank rest with
          | [] => if ((- 2 ^ 63 <=? n) && (n <=? 2 ^ 63 - 1))%Z then Some n else None
          | _ => None
          end
      | None => None
      end
  | [] => None
  end.

(** [if [ "$ELAPSED" -lt "$INTERVAL" ]]: is the branch taken.  When
    INTERVAL is not an integer, [test] fails with status 2 and the branch
    is not taken. *)
Definition test_lt (ELAPSED : Z) (INTERVAL : text) : bool :=
  match shell_int INTERVAL with
  | Some n => (ELAPSED <? n)%Z
  | None => false
  end.

(** *** Settings, environment and state *)

(** An agent of settings.json whose [heartbeat_interval] is not null, with
    the values the loop reads for it: INTERVAL is what [jq -r] prints for
    [.agents."<id>".heartbeat_interval // GLOBAL_INTERVAL], MODE what it
    prints for [.agents."<id>".heartbeat_mode // "claude"]. *)
Record agent : Type := mkAgent {
  agent_id : text;
  heartbeat_interval : text;
  heartbeat_mode : text
}.

(** The commands of the tick whose failure ends the script under
    [set -euo pipefail]. *)
Inductive command : Type :=
  | JqIds
  | JqAgent (word : text)
  | CatRecord (word : text)
  | Tee (line : nat)
  | CatPrompt (word : text)
  | WriteQueue (message_id : text)
  | Rm (file : text)
  | WriteRecord (word : text).

(** A file the loop over queue/outgoing visits: its name and what
    [jq -r '.message'] prints for it ([None] when jq fails; for a file
    without a message jq prints null). *)
Record response_file : Type := mkResponseFile {
  rf_name : text;
  rf_message : option text
}.

(** What the script finds outside itself. *)
Record env : Type := mkEnv {
  WEBHOOK_URL : text;
  (** [$$] *)
  pid : Z;
  (** the k-th reading of [date +%s] (from 0) *)
  date : nat -> Z;
  (** does this command fail *)
  fails : command -> bool;
  (** INTERVAL and MODE as jq prints them for a word that is not the key
      of an agent, or that changes the jq program spliced around it *)
  jq_stray : text -> text * text;
  (** the file names a pathname pattern matches *)
  pathnames : text -> list text;
  (** output (stdout and stderr) of an executable
      workspace/<agent>/heartbeat.sh; [None] when there is none *)
  script_run : text -> option text;
  (** content of workspace/<agent>/heartbeat.md; [None] when there is none *)
  heartbeat_md : text -> option text;
  (** the regular files queue/outgoing/<MESSAGE_ID>*.json expands to after
      the 5 s wait *)
  response_files : text -> list response_file;
  (** does the python one-liner encode this input *)
  python_ok : text -> bool;
  (** does the k-th POST (from 0) go through *)
  curl_ok : nat -> bool
}.

Inductive log_entry : Type :=
  | Due (agent : text) (elapsed : Z) (interval mode : text)
  | RunningScript (agent : text)
  | ScriptOutput (shown : text)
  | NoScript (agent : text)
  | UsingHeartbeatMd (agent : text)
  | UsingDefaultPrompt
  | Queued (agent message_id : text)
  | Response (agent shown : text)
  | WebhookFailed.

(** A file written to queue/incoming: the values the here-document
    expands. *)
Record queue_file : Type := mkQueueFile {
  qf_agent : text;
  qf_message_id : text;
  qf_now : Z;
  (** the message field as written, quotes escaped *)
  qf_message : text
}.

(** The body of a POST: [Dumped c] is the JSON object whose content is the
    string [c], encoded by [json.dumps]; [Spliced c] is the fallback, [c]
    put between double quotes as it is. *)
Inductive post : Type :=
  | Dumped (content : text)
  | Spliced (content : text).

Definition post_content (p : post) : text :=
  match p with
  | Dumped c => c
  | Spliced c => c
  end.

Record state : Type := mkState {
  (** heartbeat-state/<agent>.last, epoch seconds; only the script writes
      these files *)
  records : gmap text Z;
  (** how often [date +%s] has been read *)
  reads : nat;
  (** files written to queue/incoming *)
  queued : list queue_file;
  (** bodies posted to the webhook *)
  posted : list post;
  (** runs of a heartbeat.sh, by agent *)
  ran : list text;
  (** response files removed *)
  removed : list text;
  log : list log_entry
}.

Definition quoted (s : text) : text := [DQUOTE] ++ s ++ [DQUOTE].

Definition json_line (name value : text) (more : bool) : text :=
  str "  " ++ quoted name ++ str ": " ++ value
    ++ (if more then str "," else []) ++ [LF].

(** The text of the queue file, as the here-document produces it. *)
Definition queue_file_text (q : queue_file) : text :=
  str "{" ++ [LF]
  ++ json_line (str "channel") (quoted (str "heartbeat")) true
  ++ json_line (str "sender") (quoted (str "System")) true
  ++ json_line (str "senderId") (quoted (str "heartbeat_" ++ qf_agent q)) true
  ++ json_line (str "message") (quoted (qf_message q)) true
  ++ json_line (str "timestamp") (dec (qf_now q) ++ str "000") true
  ++ json_line (str "messageId") (quoted (qf_message_id q)) true
  ++ json_line (str "agent") (quoted (qf_agent q)) true
  ++ json_line (str "command") (quoted (str "heartbeat")) false
  ++ str "}" ++ [LF].

Definition DEFAULT_PROMPT : text :=
  str "Quick status check: Any pending tasks? Keep response brief.".

Definition with_records (f : gmap text Z -> gmap text Z) (st : state) : state :=
  mkState (f (records st)) (reads st) (queued st) (posted st) (ran st) (removed st) (log st).

Definition add_log (l : log_entry) (st : state) : state :=
  mkState (records st) (reads st) (queued st) (posted st) (ran st) (removed st) (log st ++ [l]).

Definition enqueue (q : queue_file) (st : state) : state :=
  mkState (records st) (reads st) (queued st ++ [q]) (posted st) (ran st) (removed st) (log st).

Definition add_post (p : post) (st : state) : state :=
  mkState (records st) (reads st) (queued st) (posted st ++ [p]) (ran st) (removed st) (log st).

Definition add_run (w : text) (st : state) : state :=
  mkState (records st) (reads st) (queued st) (posted st) (ran st ++ [w]) (removed st) (log st).

Definition add_removed (name : text) (st : state) : state :=
  mkState (records st) (reads st) (queued st) (posted st) (ran st) (removed st ++ [name]) (log st).

(** *** The script as a state and exit monad *)

(** A step of the script: [None] when the script has exited. *)
Definition sh (A : Type) : Type := state -> option A * state.

Definition ret {A : Type} (x : A) : sh A := fun st => (Some x, st).

Definition bind {A B : Type} (m : sh A) (k : A -> sh B) : sh B :=
  fun st =>
    match m st with
    | (Some x, st') => k x st'
    | (None, st') => (None, st')
    end.

#[local] Notation "x <- m ;; k" := (bind m (fun x => k))
  (at level 100, m at next level, right associativity).
#[local] Notation "m ;;; k" := (bind m (fun _ => k))
  (at level 100, right associativity).

Definition modify (f : state -> state) : sh unit := fun st => (Some tt, f st).

(** A command that ends the script when it fails. *)
Definition guard (e : env) (c : command) : sh unit :=
  fun st => if fails e c then (None, st) else (Some tt, st).

(** [$(date +%s)] *)
Definition read_date (e : env) : sh Z :=
  fun st =>
    (Some (date e (reads st)),
     mkState (records st) (S (reads st)) (queued st) (posted st) (ran st) (removed st)
       (log st)).

(** [log "..."]: echo piped into [tee -a]. *)
Definition log_line (e : env) (l : log_entry) : sh unit :=
  fun st => (guard e (Tee (length (log st))) ;;; modify (add_log l)) st.

Fixpoint for_each {A : Type} (body : A -> sh unit) (l : list A) : sh unit :=
  match l with
  | [] => ret tt
  | x :: rest => body x ;;; for_each body rest
  end.

(** [get_last_heartbeat]: the record file when there is one, else 0. *)
Definition last_of (id : text) (st : state) : Z :=
  match records st !! id with
  | Some t => t
  | None => 0%Z
  end.

Definition get_last_heartbeat (e : env) (id : text) : sh Z :=
  fun st =>
    match records st !! id with
    | Some t => (guard e (CatRecord id) ;;; ret t) st
    | None => (Some 0%Z, st)
    end.

(** [date +%s > heartbeat-state/<agent>.last] *)
Definition set_last_heartbeat (e : env) (id : text) : sh unit :=
  guard e (WriteRecord id) ;;;
  t <- read_date e ;;
  modify (with_records (insert id t)).

(** The body [post_webhook] sends for a content. *)
Definition body_of (e : env) (content : text) : post :=
  if python_ok e (echo_out content) then Dumped (echo_out content)
  else Spliced content.

Definition post_webhook (e : env) (content : text) : sh unit :=
  match WEBHOOK_URL e with
  | [] => ret tt
  | _ =>
      fun st =>
        let st1 := add_post (body_of e content) st in
        if curl_ok e (length (posted st)) then (Some tt, st1)
        else log_line e WebhookFailed st1
  end.

(** Script mode: run heartbeat.sh when it is executable and forward a
    non-empty output, whole; otherwise only warn. *)
Definition fire_script (e : env) (id : text) : sh unit :=
  match script_run e id with
  | Some out =>
      log_line e (RunningScript id) ;;;
      modify (add_run id) ;;;
      let SCRIPT_OUTPUT := substitution out in
      log_line e (ScriptOutput (take 200 SCRIPT_OUTPUT)) ;;;
      match SCRIPT_OUTPUT with
      | [] => ret tt
      | _ => post_webhook e SCRIPT_OUTPUT
      end
  | None => log_line e (NoScript id)
  end.

Definition HEADER (id : text) : text := str "**@" ++ id ++ str " heartbeat:**\n".

(** The body of the loop over the response files. *)
Definition collect (e : env) (id : text) (f : response_file) : sh unit :=
  let RESPONSE :=
    substitution (match rf_message f with Some out => out | None => [] end) in
  match RESPONSE with
  | [] => ret tt
  | _ =>
      log_line e (Response id (take 120 RESPONSE)) ;;;
      post_webhook e (HEADER id ++ take 1800 RESPONSE) ;;;
      guard e (Rm (rf_name f)) ;;;
      modify (add_removed (rf_name f))
  end.

Definition MESSAGE_ID_of (e : env) (id : text) (stamp : Z) : text :=
  str "heartbeat_" ++ id ++ str "_" ++ dec stamp ++ str "_" ++ dec (pid e).

(** The prompt of an agent in claude mode. *)
Definition prompt_of (e : env) (id : text) : text :=
  match heartbeat_md e id with
  | Some content => substitution content
  | None => DEFAULT_PROMPT
  end.

(** Claude mode: queue the prompt, wait, forward the responses found. *)
Definition fire_claude (e : env) (NOW : Z) (id : text) : sh unit :=
  match heartbeat_md e id with
  | Some _ => guard e (CatPrompt id) ;;; log_line e (UsingHeartbeatMd id)
  | None => log_line e UsingDefaultPrompt
  end ;;;
  stamp <- read_date e ;;
  let MESSAGE_ID := MESSAGE_ID_of e id stamp in
  guard e (WriteQueue MESSAGE_ID) ;;;
  modify (enqueue (mkQueueFile id MESSAGE_ID NOW (escape_quotes (prompt_of e id)))) ;;;
  log_line e (Queued id MESSAGE_ID) ;;;
  for_each (collect e id) (response_files e MESSAGE_ID).

(** The two jq calls of the loop body.  The word is spliced into the jq
    program between double quotes, so it selects the agent of that key
    only when it holds neither a double quote nor a backslash. *)
Definition is_jq_key (w : text) : bool :=
  forallb (fun c => negb (N.eqb c DQUOTE || N.eqb c BACKSLASH)) w.

Definition settings_for (e : env) (agents : list agent) (w : text) : text * text :=
  match (if is_jq_key w
         then List.find (fun a => bool_decide (agent_id a = w)) agents
         else None) with
  | Some a => (heartbeat_interval a, heartbeat_mode a)
  | None => jq_stray e w
  end.

(** The body of [for AGENT_ID in $AGENT_IDS]. *)
Definition heartbeat_agent (e : env) (agents : list agent) (NOW : Z) (w : text)
  : sh unit :=
  guard e (JqAgent w) ;;;
  let INTERVAL := fst (settings_for e agents w) in
  let MODE := snd (settings_for e agents w) in
  LAST <- get_last_heartbeat e w ;;
  let ELAPSED := (NOW - LAST)%Z in
  if test_lt ELAPSED INTERVAL then ret tt
  else
    log_line e (Due w ELAPSED INTERVAL MODE) ;;;
    (if bool_decide (MODE = str "script") then fire_script e w
     else fire_claude e NOW w) ;;;
    set_last_heartbeat e w.

(** The agent loop with [NOW] fixed. *)
Definition visit (e : env) (agents : list agent) (NOW : Z) (words : list text)
  : sh unit :=
  for_each (heartbeat_agent e agents NOW) words.

(** AGENT_IDS: jq prints one key per line. *)
Definition AGENT_IDS (agents : list agent) : text :=
  substitution (flat_map (fun a => agent_id a ++ [LF]) agents).

(** Pathname expansion of a word: a pattern that matches is replaced by
    the names it matches. *)
Definition expand (e : env) (w : text) : list text :=
  if existsb is_glob w then
    match pathnames e w with
    | [] => [w]
    | found => found
    end
  else [w].

(** The words [for AGENT_ID in $AGENT_IDS] runs over: the expansion is
    not quoted, so it is split into fields and each field is expanded. *)
Definition words_of (e : env) (agents : list agent) : list text :=
  flat_map (expand e) (fields (AGENT_IDS agents)).

(** One tick: [NOW] is read once, then the words are visited in order. *)
Definition tick (e : env) (agents : list agent) : sh unit :=
  NOW <- read_date e ;;
  guard e JqIds ;;;
  visit e agents NOW (words_of e agents).

(** [n] turns of [while true] (sleep TICK_INTERVAL, then tick), as long as
    the script has not exited. *)
Fixpoint turns (e : env) (agents : list agent) (n : nat) : sh unit :=
  match n with
  | O => ret tt
  | S n' => tick e agents ;;; turns e agents n'
  end.

(** *** Reading a run *)

Definition is_due_entry (id : text) (l : log_entry) : bool :=
  match l with
  | Due id' _ _ _ => bool_decide (id' = id)
  | _ => false
  end.

(** How often the agent has come due. *)
Definition fired_count (id : text) (st : state) : nat :=
  length (List.filter (is_due_entry id) (log st)).

Definition queued_for (id : text) (st : state) : list queue_file :=
  List.filter (fun q => bool_decide (qf_agent q = id)) (queued st).

Definition runs_of (id : text) (st : state) : nat :=
  length (List.filter (fun w => bool_decide (w = id)) (ran st)).

(** An id the shell, jq and the file system leave alone: not empty,
    without IFS white space, pattern characters, double quotes,
    backslashes and slashes. *)
Definition is_plain_char (c : N) : bool :=
  negb (is_ifs c || is_glob c || N.eqb c DQUOTE || N.eqb c BACKSLASH || N.eqb c 47).

Definition is_plain (w : text) : bool :=
  match w with
  | [] => false
  | _ => forallb is_plain_char w
  end.

(** No command the script depends on fails. *)
Definition calm (e : env) : Prop := forall c, fails e c = false.

(** The clock does not go back. *)
Definition clock_monotone (e : env) : Prop := forall k, (date e k <= date e (S k))%Z.

(** The test of the loop body, for the agent's own INTERVAL. *)
Definition due (NOW : Z) (st : state) (a : agent) : bool :=
  negb (test_lt (NOW - last_of (agent_id a) st) (heartbeat_interval a)).

Definition is_script (a : agent) : bool := bool_decide (heartbeat_mode a = str "script").

(** The POST [post_webhook] makes for a content. *)
Definition webhook_posts (e : env) (content : text) : list post :=
  match WEBHOOK_URL e with
  | [] => []
  | _ => [body_of e content]
  end.

(** What the fire path of a script-mode agent runs and posts. *)
Definition script_runs (e : env) (id : text) : list text :=
  match script_run e id with
  | Some _ => [id]
  | None => []
  end.

Definition script_posts (e : env) (id : text) : list post :=
  match script_run e id with
  | Some out =>
      match substitution out with
      | [] => []
      | SCRIPT_OUTPUT => webhook_posts e SCRIPT_OUTPUT
      end
  | None => []
  end.

(** What the loop over the response files posts for one file. *)
Definition response_posts (e : env) (id : text) (f : response_file) : list post :=
  match substitution (match rf_message f with Some out => out | None => [] end) with
  | [] => []
  | RESPONSE => webhook_posts e (HEADER id ++ take 1800 RESPONSE)
  end.

(** The file a claude-mode agent queues when [date +%s] has been read
    [k] times before its MESSAGE_ID is made. *)
Definition queue_file_of (e : env) (NOW : Z) (id : text) (k : nat) : queue_file :=
  mkQueueFile id (MESSAGE_ID_of e id (date e k)) NOW (escape_quotes (prompt_of e id)).

(** What the fire path of an agent posts, by its MODE. *)
Definition fire_posts (e : env) (MODE id : text) (k : nat) : list post :=
  if bool_decide (MODE = str "script") then script_posts e id
  else flat_map (response_posts e id) (response_files e (MESSAGE_ID_of e id (date e k))).

(** What the fire path of an agent does, by its MODE: how often it reads
    the clock, what it queues and which scripts it runs. *)
Definition fire_reads (MODE : text) : nat :=
  if bool_decide (MODE = str "script") then 0%nat else 1%nat.

Definition fire_queue (e : env) (NOW : Z) (MODE id : text) (k : nat) : list queue_file :=
  if bool_decide (MODE = str "script") then [] else [queue_file_of e NOW id k].

Definition fire_runs (e : env) (MODE id : text) : list text :=
  if bool_decide (MODE = str "script") then script_runs e id else [].

(** [st'] comes from [st] by a fire path: [k] more readings of the clock,
    the files [qs] queued, the bodies [ps] posted, the scripts [rs] run;
    the records and the Due lines of the log are as they were. *)
Definition fired (st st' : state) (k : nat) (qs : list queue_file) (ps : list post)
  (rs : list text) : Prop :=
  records st' = records st /\
  reads st' = (reads st + k)%nat /\
  queued st' = queued st ++ qs /\
  posted st' = posted st ++ ps /\
  ran st' = ran st ++ rs /\
  forall id, List.filter (is_due_entry id) (log st')
             = List.filter (is_due_entry id) (log st).

(** What a queue file says: agent, message field and timestamp (without
    the three zeros appended). *)
Definition queue_entry (q : queue_file) : text * text * Z :=
  (qf_agent q, qf_message q, qf_now q).

(** What a due agent queues. *)
Definition work_items (e : env) (NOW : Z) (a : agent) : list (text * text * Z) :=
  if is_script a then []
  else [(agent_id a, escape_quotes (prompt_of e (agent_id a)), NOW)].

(** Sample environment: a webhook, nothing in the workspace, no response,
    the clock read at 1000 and then every 5 s. *)
Definition sample_env : env :=
  mkEnv (str "https://discord.example/hook") 4242 (fun k => (1000 + 5 * Z.of_nat k)%Z)
    (fun _ => false) (fun _ => (str "3600", str "claude")) (fun _ => [])
    (fun _ => None) (fun _ => None) (fun _ => []) (fun _ => true) (fun _ => true).

(** The same with an executable heartbeat.sh that prints [out] for every
    agent. *)
Definition script_env (out : text) : env :=
  mkEnv (WEBHOOK_URL sample_env) (pid sample_env) (date sample_env) (fails sample_env)
    (jq_stray sample_env) (pathnames sample_env) (fun _ => Some out)
    (heartbeat_md sample_env) (response_files sample_env) (python_ok sample_env)
    (curl_ok sample_env).


(** The same with a heartbeat.md for every agent and one response file
    per message, for which jq prints [out]. *)
Definition answering_env (prompt out : text) : env :=
  mkEnv (WEBHOOK_URL sample_env) (pid sample_env) (date sample_env) (fails sample_env)
    (jq_stray sample_env) (pathnames sample_env) (script_run sample_env)
    (fun _ => Some prompt)
    (fun mid => [mkResponseFile (mid ++ str ".json") (Some out)])
    (python_ok sample_env) (curl_ok sample_env).

(** Records 29 s and 31 s old at the first reading of the sample clock. *)
Definition sample_state : state :=
  mkState (<[str "early" := 971%Z]> (<[str "late" := 969%Z]> ∅)) 0 [] [] [] [] [].

End Heartbeat.


(** ** src/lib/invoke.ts *)

Module Invoke.
Import JS.

(** *** JavaScript values, as far as JSON.parse produces them

    A number is its IEEE 754 double, in the form of [SpecFloat]. *)

Inductive value : Type :=
  | VUndefined
  | VNull
  | VBool (b : bool)
  | VNum (f : spec_float)
  | VStr (s : jsstring)
  | VArr (items : list value)
  | VObj (fields : list (jsstring * value)).

Fixpoint assoc (key : jsstring) (fields : list (jsstring * value)) : option value :=
  match fields with
  | [] => None
  | (k, v) :: rest => if bool_decide (k = key) then Some v else assoc key rest
  end.

(** [v.key] for the keys the code reads (type, item, text): [None] is the
    TypeError raised on null and undefined. *)
Definition get_prop (v : value) (key : jsstring) : option value :=
  match v with
  | VUndefined | VNull => None
  | VObj fields =>
      match assoc key fields with
      | Some x => Some x
      | None => Some VUndefined
      end
  | _ => Some VUndefined
  end.

(** [v?.key] *)
Definition get_prop_opt (v : value) (key : jsstring) : option value :=
  match v with
  | VUndefined | VNull => Some VUndefined
  | _ => get_prop v key
  end.

(** [v === 'literal'] *)
Definition strict_eq_str (v : value) (s : jsstring) : bool :=
  match v with
  | VStr s' => bool_decide (s' = s)
  | _ => false
  end.

(** ToBoolean *)
Definition truthy (v : value) : bool :=
  match v with
  | VUndefined | VNull => false
  | VBool b => b
  | VNum f => match f with S754_zero _ | S754_nan => false | _ => true end
  | VStr s => match s with [] => false | _ => true end
  | VArr _ | VObj _ => true
  end.

Definition truthy_str (s : jsstring) : bool :=
  match s with [] => false | _ => true end.

(** *** What the module imports and does not define *)

Class Host : Type := mkHost {
  (** node's path.join and path.isAbsolute *)
  path_join : jsstring -> jsstring -> jsstring;
  path_isAbsolute : jsstring -> bool;
  (** ./config: the install directory and the provider's model table lookup *)
  SCRIPT_DIR : jsstring;
  resolveClaudeModel : jsstring -> jsstring;
  resolveCodexModel : jsstring -> jsstring;
  (** JSON.parse; [None] is the SyntaxError *)
  JSON_parse : jsstring -> option value
}.

(** *** Promises and subprocesses *)

Inductive outcome (A : Type) : Type :=
  | Resolved (v : A)
  | Rejected (message : jsstring)
  | Pending.
Arguments Resolved {A} v.
Arguments Rejected {A} message.
Arguments Pending {A}.

Definition outcome_map {A B : Type} (f : A -> B) (o : outcome A) : outcome B :=
  match o with
  | Resolved v => Resolved (f v)
  | Rejected m => Rejected m
  | Pending => Pending
  end.

(** What a child process and the timer deliver to the handlers, in order. *)
Inductive proc_event : Type :=
  | Stdout (chunk : jsstring)
  | Stderr (chunk : jsstring)
  | TimerFired
  | ErrorEvent (message : jsstring)
  | Close (code : option Z).

Record spawn_request : Type := mkSpawn {
  command : jsstring;
  args : list jsstring;
  cwd : option jsstring;
  (** what is written to the child's stdin; [None] when stdin is 'ignore' *)
  stdin : option jsstring
}.

(** The behaviour of the processes this machine can start. *)
Abbreviation world := (spawn_request -> list proc_event).

(** [`${code}`] of an exit code; [null] when a signal ended the process. *)
Definition code_text (code : option Z) : jsstring :=
  match code with
  | Some n => dec n
  | None => str "null"
  end.

(** [`${ms / 1000}`] *)
Definition seconds_text (ms : Z) : jsstring :=
  let q := (Z.abs ms / 1000)%Z in
  let r := (Z.abs ms mod 1000)%Z in
  let frac :=
    if (r =? 0)%Z then []
    else if (r mod 100 =? 0)%Z then str "." ++ dec (r / 100)
    else if (r mod 10 =? 0)%Z then
      str "." ++ (if (r <? 100)%Z then str "0" else []) ++ dec (r / 10)
    else
      str "." ++ (if (r <? 10)%Z then str "00" else if (r <? 100)%Z then str "0" else [])
        ++ dec r in
  (if (ms <? 0)%Z then str "-" else []) ++ dec q ++ frac.

(** The closure state of one promise body: collected streams, the pending
    timer, and the settlement (a promise settles once). *)
Record run_state : Type := mkRunState {
  out : jsstring;
  err : jsstring;
  timer_armed : bool;
  settled : option (outcome jsstring)
}.

Definition settle (r : outcome jsstring) (st : run_state) : run_state :=
  match settled st with
  | Some _ => st
  | None => mkRunState (out st) (err st) (timer_armed st) (Some r)
  end.

Definition clearTimeout (st : run_state) : run_state :=
  mkRunState (out st) (err st) false (settled st).

Definition result_of (st : run_state) : outcome jsstring :=
  match settled st with
  | Some r => r
  | None => Pending
  end.

Definition LOCAL_TIMEOUT_MS : Z := 5 * 60 * 1000.
Definition REMOTE_TIMEOUT_MS : Z := 10 * 60 * 1000.

(** [a || b] on strings *)
Definition or_else (a b : jsstring) : jsstring :=
  if truthy_str a then a else b.

(** The handlers [runCommand] installs. *)
Definition runCommand_step (timeoutMs : Z) (st : run_state) (ev : proc_event) : run_state :=
  match ev with
  | Stdout chunk => mkRunState (out st ++ chunk) (err st) (timer_armed st) (settled st)
  | Stderr chunk => mkRunState (out st) (err st ++ chunk) (timer_armed st) (settled st)
  | TimerFired =>
      if timer_armed st then
        settle (Rejected (str "Command timed out after " ++ seconds_text timeoutMs ++ str "s"))
               (clearTimeout st)
      else st
  | ErrorEvent message => settle (Rejected message) (clearTimeout st)
  | Close code =>
      let st := clearTimeout st in
      match code with
      | Some 0%Z => settle (Resolved (out st)) st
      | _ =>
          let errorMessage :=
            or_else (trim (err st)) (str "Command exited with code " ++ code_text code) in
          settle (Rejected errorMessage) st
      end
  end.

(** [runCommand(command, args, cwd, timeoutMs)] against the events of the
    spawned child; a [timeoutMs] of 0 stands for an absent one. *)
Definition runCommand (timeoutMs : Z) (events : list proc_event) : outcome jsstring :=
  result_of
    (fold_left (runCommand_step timeoutMs) events
       (mkRunState [] [] (negb (timeoutMs =? 0)%Z) None)).

(** *** runCommandRemote *)

Definition tmpFile (now : Z) : jsstring :=
  str "/tmp/tinyclaw-prompt-" ++ dec now ++ str ".txt".

Definition ssh_target (user host : jsstring) : jsstring := user ++ str "@" ++ host.

(** argv of the ssh process that writes the prompt file *)
Definition write_args (host user : jsstring) (now : Z) : list jsstring :=
  [ssh_target user host; str "cat > " ++ tmpFile now].

Definition remoteCmd (remoteProjectRoot : jsstring) (claudeArgs : list jsstring) (now : Z)
  : jsstring :=
  let argsStr := join (str " ") claudeArgs in
  join (str " && ")
    [ str "cd " ++ remoteProjectRoot;
      str "source /etc/trading-signal-ai.env 2>/dev/null || true";
      str "PROMPT=$(cat " ++ tmpFile now ++ str ")";
      str "rm -f " ++ tmpFile now;
      str "claude " ++ argsStr ++ str " -p " ++ [DQUOTE] ++ str "$PROMPT" ++ [DQUOTE] ].

(** argv of the ssh process that runs the agent *)
Definition exec_args (host user remoteProjectRoot : jsstring) (claudeArgs : list jsstring)
  (now : Z) : list jsstring :=
  [ssh_target user host; remoteCmd remoteProjectRoot claudeArgs now].

(** Step 1: only 'close' and 'error' are listened to. *)
Definition write_step (st : run_state) (ev : proc_event) : run_state :=
  match ev with
  | Close code =>
      match code with
      | Some 0%Z => settle (Resolved []) st
      | _ => settle (Rejected (str "Failed to write prompt via SSH (exit "
                                 ++ code_text code ++ str ")")) st
      end
  | ErrorEvent message => settle (Rejected message) st
  | _ => st
  end.

(** Step 3: the handlers of the executing ssh child. *)
Definition remote_step (st : run_state) (ev : proc_event) : run_state :=
  match ev with
  | Stdout chunk => mkRunState (out st ++ chunk) (err st) (timer_armed st) (settled st)
  | Stderr chunk => mkRunState (out st) (err st ++ chunk) (timer_armed st) (settled st)
  | TimerFired =>
      if timer_armed st then
        settle (Rejected (str "Remote command timed out after "
                            ++ seconds_text REMOTE_TIMEOUT_MS ++ str "s"))
               (clearTimeout st)
      else st
  | Close code =>
      let st := clearTimeout st in
      match code with
      | Some 0%Z => settle (Resolved (trim (out st))) st
      | _ => settle (Rejected (or_else (trim (err st))
                                 (str "Remote exit code " ++ code_text code))) st
      end
  | ErrorEvent message => settle (Rejected message) (clearTimeout st)
  end.

(** [runCommandRemote(host, user, remoteProjectRoot, claudeArgs, prompt)]:
    the outcome and the processes spawned, in order.  [now] is the reading
    of [Date.now()] that names the temp file. *)
Definition runCommandRemote (w : world) (now : Z)
  (host user remoteProjectRoot : jsstring) (claudeArgs : list jsstring) (prompt : jsstring)
  : outcome jsstring * list spawn_request :=
  let writeProc := mkSpawn (str "ssh") (write_args host user now) None (Some prompt) in
  match result_of (fold_left write_step (w writeProc) (mkRunState [] [] false None)) with
  | Resolved _ =>
      let child :=
        mkSpawn (str "ssh") (exec_args host user remoteProjectRoot claudeArgs now) None None in
      (result_of (fold_left remote_step (w child) (mkRunState [] [] true None)),
       [writeProc; child])
  | Rejected m => (Rejected m, [writeProc])
  | Pending => (Pending, [writeProc])
  end.

(** *** invokeAgent *)

Inductive invoke_mode_t : Type := Local | Remote.

Record AgentConfig : Type := mkAgentConfig {
  name : jsstring;
  provider : jsstring;
  model : jsstring;
  working_directory : jsstring;
  invoke_mode : option invoke_mode_t;
  remote_host : option jsstring;
  remote_user : option jsstring;
  remote_project_root : option jsstring
}.

(** Effects of one call, in order.  The two set-up helpers of
    ./agent-setup only touch the agent directory. *)
Inductive effect : Type :=
  | EnsureAgentDirectory (agentDir : jsstring)
  | UpdateAgentTeammates (agentDir agentId : jsstring)
  | Spawn (req : spawn_request).

Definition spawns_of (effects : list effect) : list spawn_request :=
  omap (fun e => match e with Spawn r => Some r | _ => None end) effects.

Definition CODEX_FALLBACK : jsstring :=
  str "Sorry, I could not generate a response from Codex.".

(** The body of the [try] for one line of Codex output; [None] is a thrown
    exception. *)
Definition codex_try `{Host} (response : value) (line : jsstring) : option value :=
  json ← JSON_parse line;
  ty ← get_prop json (str "type");
  if strict_eq_str ty (str "item.completed") then
    item ← get_prop json (str "item");
    ity ← get_prop_opt item (str "type");
    if strict_eq_str ity (str "agent_message") then get_prop item (str "text")
    else Some response
  else Some response.

(** [try { ... } catch (e) { }] *)
Definition codex_line `{Host} (response : value) (line : jsstring) : value :=
  match codex_try response line with
  | Some response' => response'
  | None => response
  end.

(** "Parse JSONL output and extract final agent_message" *)
Definition parseCodexOutput `{Host} (codexOutput : jsstring) : value :=
  let lines := split_on LF (trim codexOutput) in
  let response := fold_left codex_line lines (VStr []) in
  if truthy response then response else VStr CODEX_FALLBACK.

Definition missing_remote_message (agentId : jsstring) : jsstring :=
  str "Agent " ++ agentId
    ++ str " has invoke_mode=remote but missing remote_host/remote_user/remote_project_root".

Definition falsy_opt (o : option jsstring) : bool :=
  match o with
  | Some (_ :: _) => false
  | _ => true
  end.

Definition opt_str (o : option jsstring) : jsstring :=
  match o with Some s => s | None => [] end.

(** The child [runCommand] spawns: [cwd || SCRIPT_DIR], stdin ignored. *)
Definition local_spawn `{Host} (cmd : jsstring) (argv : list jsstring) (dir : jsstring)
  : spawn_request :=
  mkSpawn cmd argv (Some (or_else dir SCRIPT_DIR)) None.

Definition model_args (modelId : jsstring) : list jsstring :=
  if truthy_str modelId then [str "--model"; modelId] else [].

Definition invokeAgent `{Host} (w : world) (now : Z)
  (agent : AgentConfig) (agentId message workspacePath : jsstring) (shouldReset : bool)
  : outcome value * list effect :=
  let agentDir := path_join workspacePath agentId in
  let setup := [EnsureAgentDirectory agentDir; UpdateAgentTeammates agentDir agentId] in
  let workingDir :=
    if truthy_str (working_directory agent) then
      if path_isAbsolute (working_directory agent) then working_directory agent
      else path_join workspacePath (working_directory agent)
    else agentDir in
  let provider := or_else (provider agent) (str "anthropic") in
  match invoke_mode agent with
  | Some Remote =>
      if falsy_opt (remote_host agent) || falsy_opt (remote_user agent)
         || falsy_opt (remote_project_root agent)
      then (Rejected (missing_remote_message agentId), setup)
      else
        let modelId := resolveClaudeModel (model agent) in
        let claudeArgs :=
          [str "--dangerously-skip-permissions"] ++ model_args modelId
            ++ (if shouldReset then [] else [str "-c"]) in
        let '(res, procs) :=
          runCommandRemote w now (opt_str (remote_host agent)) (opt_str (remote_user agent))
            (opt_str (remote_project_root agent)) claudeArgs message in
        (outcome_map VStr res, setup ++ map Spawn procs)
  | _ =>
      if bool_decide (provider = str "openai") then
        let modelId := resolveCodexModel (model agent) in
        let codexArgs :=
          [str "exec"] ++ (if shouldReset then [] else [str "resume"; str "--last"])
            ++ model_args modelId
            ++ [str "--skip-git-repo-check"; str "--dangerously-bypass-approvals-and-sandbox";
                str "--json"; message] in
        let req := local_spawn (str "codex") codexArgs workingDir in
        (outcome_map parseCodexOutput (runCommand LOCAL_TIMEOUT_MS (w req)),
         setup ++ [Spawn req])
      else
        let modelId := resolveClaudeModel (model agent) in
        let claudeArgs :=
          [str "--dangerously-skip-permissions"] ++ model_args modelId
            ++ (if shouldReset then [] else [str "-c"])
            ++ [str "-p"; message] in
        let req := local_spawn (str "claude") claudeArgs workingDir in
        (outcome_map VStr (runCommand LOCAL_TIMEOUT_MS (w req)), setup ++ [Spawn req])
  end.

(** *** Reading the output the way the specification words it *)

(** The value a parsed line contributes as a final answer: the [text] of a
    record whose [type] is item.completed and whose [item.type] is
    agent_message. *)
Definition final_answer (json : value) : option value :=
  match json with
  | VObj fields =>
      match assoc (str "type") fields, assoc (str "item") fields with
      | Some (VStr t), Some (VObj ifields) =>
          if bool_decide (t = str "item.completed") then
            match assoc (str "type") ifields with
            | Some (VStr it) =>
                if bool_decide (it = str "agent_message") then
                  Some (match assoc (str "text") ifields with
                        | Some x => x
                        | None => VUndefined
                        end)
                else None
            | _ => None
            end
          else None
      | _, _ => None
      end
  | _ => None
  end.

(** The final answers of an output, line by line; lines that do not parse
    contribute nothing. *)
Definition final_answers `{Host} (codexOutput : jsstring) : list value :=
  omap (fun line => JSON_parse line ≫= final_answer) (split_on LF (trim codexOutput)).

(** A table-driven JSON.parse for worked examples: the listed lines parse
    to the listed values, every other line is a syntax error. *)
Definition table_host (table : list (jsstring * value)) : Host :=
  mkHost (fun a b => a ++ str "/" ++ b)
         (fun p => match p with 47%N :: _ => true | _ => false end)
         (str "/opt/tinyclaw")
         (fun m => m) (fun m => m)
         (fun line => assoc line table).

End Invoke.


(** Observations on the events of a child, used to state what
    [runCommand] settles to. *)
Module InvokeObs.
Import JS Invoke.

Definition is_data (ev : proc_event) : bool :=
  match ev with
  | Stdout _ | Stderr _ => true
  | _ => false
  end.

(** Everything the child wrote to stdout, in order. *)
Fixpoint stdout_of (events : list proc_event) : jsstring :=
  match events with
  | [] => []
  | Stdout chunk :: rest => chunk ++ stdout_of rest
  | _ :: rest => stdout_of rest
  end.

Fixpoint stderr_of (events : list proc_event) : jsstring :=
  match events with
  | [] => []
  | Stderr chunk :: rest => chunk ++ stderr_of rest
  | _ :: rest => stderr_of rest
  end.

(** What the 'close' handler of [runCommand] asks the promise to settle to. *)
Definition close_settlement (stdout stderr : jsstring) (code : option Z) : outcome jsstring :=
  match code with
  | Some 0%Z => Resolved stdout
  | _ => Rejected (or_else (trim stderr) (str "Command exited with code " ++ code_text code))
  end.

(** A JSON string literal without escapes. *)
Definition quoted (s : string) : jsstring := [DQUOTE] ++ str s ++ [DQUOTE].

(** Events that leave the promise of [runCommand] pending: output chunks,
    and a timer event when no timer was set. *)
Definition is_quiet (timeoutMs : Z) (ev : proc_event) : bool :=
  match ev with
  | Stdout _ | Stderr _ => true
  | TimerFired => (timeoutMs =? 0)%Z
  | _ => false
  end.

(** The first 'close' or 'error' event of a process, the two the upload
    step of [runCommandRemote] listens to. *)
Fixpoint first_exit (events : list proc_event) : option proc_event :=
  match events with
  | [] => None
  | Close code :: _ => Some (Close code)
  | ErrorEvent message :: _ => Some (ErrorEvent message)
  | _ :: rest => first_exit rest
  end.


Definition is_exit (ev : proc_event) : bool :=
  match ev with
  | Close _ | ErrorEvent _ => true
  | _ => false
  end.

(** A process that closed with exit code 0 before any other close event
    and before any error event. *)
Definition clean_exit (events : list proc_event) : Prop :=
  exists pre post,
    events = pre ++ Close (Some 0%Z) :: post /\
    Forall (fun ev => is_exit ev = false) pre.

End InvokeObs.


(** Sample Codex output lines and the values JSON.parse gives for them. *)
Module CodexSamples.
Import JS Invoke InvokeObs.

Definition agent_message_line (text : string) : jsstring :=
  str "{" ++ quoted "type" ++ str ":" ++ quoted "item.completed" ++ str ","
    ++ quoted "item" ++ str ":{" ++ quoted "type" ++ str ":" ++ quoted "agent_message"
    ++ str "," ++ quoted "text" ++ str ":" ++ quoted text ++ str "}}".

Definition agent_message_value (text : string) : value :=
  VObj [ (str "type", VStr (str "item.completed"));
         (str "item", VObj [ (str "type", VStr (str "agent_message"));
                             (str "text", VStr (str text)) ]) ].

Definition reasoning_line : jsstring :=
  str "{" ++ quoted "type" ++ str ":" ++ quoted "item.completed" ++ str ","
    ++ quoted "item" ++ str ":{" ++ quoted "type" ++ str ":" ++ quoted "reasoning"
    ++ str "," ++ quoted "text" ++ str ":" ++ quoted "thinking" ++ str "}}".

Definition reasoning_value : value :=
  VObj [ (str "type", VStr (str "item.completed"));
         (str "item", VObj [ (str "type", VStr (str "reasoning"));
                             (str "text", VStr (str "thinking")) ]) ].

Definition sample_host : Host :=
  table_host
    [ (agent_message_line "first", agent_message_value "first");
      (agent_message_line "final", agent_message_value "final");
      (agent_message_line EmptyString, agent_message_value EmptyString);
      (reasoning_line, reasoning_value);
      (str "null", VNull) ].

Definition codex_agent : AgentConfig :=
  mkAgentConfig (str "Coder") (str "openai") (str "gpt-5.3-codex") [] None None None None.

Definition remote_codex_agent : AgentConfig :=
  mkAgentConfig (str "Coder") (str "openai") (str "gpt-5.3-codex") [] (Some Remote)
    (Some (str "ct110")) (Some (str "root")) (Some (str "/opt/trading")).

Definition remote_agent_no_host : AgentConfig :=
  mkAgentConfig (str "Researcher") (str "anthropic") (str "opus") [] (Some Remote)
    None (Some (str "root")) (Some (str "/opt/trading")).

Definition remote_agent : AgentConfig :=
  mkAgentConfig (str "Researcher") (str "anthropic") (str "opus") [] (Some Remote)
    (Some (str "ct110")) (Some (str "root")) (Some (str "/opt/trading")).

End CodexSamples.


(** ** Discord webhook helpers (sendDiscord, sendDiscordChunked) *)

Module Discord.
Import JS.

(** Discord limit is 2000, leave buffer *)
Definition MAX_MESSAGE_LENGTH : Z := 1900.

(** What [fetch] does with one POST: it throws, or it answers with a
    response whose [ok] flag is given. *)
Inductive fetch_result : Type :=
  | FetchThrows
  | Response (ok : bool).

(** The webhook endpoint: the fate of the n-th POST (from 0). *)
Abbreviation endpoint := (nat -> fetch_result).

Inductive net_event : Type :=
  | Post (content : jsstring)
  | Sleep (ms : Z).

Definition posts_of (trace : list net_event) : list jsstring :=
  omap (fun ev => match ev with Post c => Some c | Sleep _ => None end) trace.

(** [sendDiscord(message)] with the module constant WEBHOOK_URL and the
    trace of network events so far; returns the boolean and the new trace. *)
Definition sendDiscord (WEBHOOK_URL : jsstring) (ep : endpoint)
  (message : jsstring) (trace : list net_event) : bool * list net_event :=
  match WEBHOOK_URL with
  | [] => (false, trace)
  | _ =>
      let content := substring message 0 2000 in
      let trace' := trace ++ [Post content] in
      match ep (length (posts_of trace)) with
      | FetchThrows => (false, trace')
      | Response ok => (ok, trace')
      end
  end.

(** The first index among the three separators tried, else the maximum. *)
Definition split_index (remaining : jsstring) : Z :=
  let splitIndex := lastIndexOf remaining [LF; LF] MAX_MESSAGE_LENGTH in
  let splitIndex :=
    if (splitIndex =? -1)%Z then lastIndexOf remaining [LF] MAX_MESSAGE_LENGTH
    else splitIndex in
  let splitIndex :=
    if (splitIndex =? -1)%Z then lastIndexOf remaining [SPACE] MAX_MESSAGE_LENGTH
    else splitIndex in
  if (splitIndex =? -1)%Z then MAX_MESSAGE_LENGTH else splitIndex.

(** The [while (remaining.length > 0)] loop; [None] when [fuel] runs out. *)
Fixpoint chunk_loop (fuel : nat) (remaining : jsstring) (chunks : list jsstring)
  : option (list jsstring) :=
  match fuel with
  | O => None
  | S fuel' =>
      if (0 <? Z.of_nat (length remaining))%Z then
        if (Z.of_nat (length remaining) <=? MAX_MESSAGE_LENGTH)%Z
        then Some (chunks ++ [remaining])
        else
          let splitIndex := split_index remaining in
          chunk_loop fuel'
            (trim (substring_from remaining splitIndex))
            (chunks ++ [substring remaining 0 splitIndex])
      else Some chunks
  end.

(** The [for (const chunk of chunks)] loop. *)
Fixpoint send_chunks (WEBHOOK_URL : jsstring) (ep : endpoint)
  (chunks : list jsstring) (allOk : bool) (trace : list net_event)
  : bool * list net_event :=
  match chunks with
  | [] => (allOk, trace)
  | chunk :: rest =>
      let '(ok, trace1) := sendDiscord WEBHOOK_URL ep chunk trace in
      send_chunks WEBHOOK_URL ep rest (if ok then allOk else false)
        (trace1 ++ [Sleep 500])
  end.

Definition chunks_of (message : jsstring) : option (list jsstring) :=
  chunk_loop (S (length message)) message [].

Definition sendDiscordChunked (WEBHOOK_URL : jsstring) (ep : endpoint)
  (message : jsstring) (trace : list net_event) : option (bool * list net_event) :=
  if (Z.of_nat (length message) <=? MAX_MESSAGE_LENGTH)%Z
  then Some (sendDiscord WEBHOOK_URL ep message trace)
  else
    match chunks_of message with
    | Some chunks => Some (send_chunks WEBHOOK_URL ep chunks true trace)
    | None => None
    end.

(** Chunks laid out in order with a gap after each one. *)
Fixpoint weave (chunks gaps : list jsstring) : jsstring :=
  match chunks, gaps with
  | c :: cs, g :: gs => c ++ g ++ weave cs gs
  | _, _ => []
  end.

Definition all_ws (s : jsstring) : Prop := Forall (fun c => is_ws c = true) s.

(** Did the POST come back with [response.ok]? *)
Definition answered_ok (r : fetch_result) : bool :=
  match r with
  | Response true => true
  | _ => false
  end.

End Discord.


(** ** /activate: buildActivatePrompt and the database helpers it calls *)

Module Commands.
Import JS.

(** The columns of strategist.strategies the code reads or writes. *)
Record strategy_row : Type := mkStrategy {
  strategy_id : jsstring;
  status : jsstring;
  backtest_results : option jsstring;
  updated_at : Z
}.

Record conversation_row : Type := mkConversation {
  role : jsstring;
  content : jsstring;
  command : option jsstring
}.

Record db : Type := mkDb {
  strategies : list strategy_row;
  conversations : list conversation_row
}.

(** What lies outside the function: whether each of its three queries
    reaches the database, the database clock, the state directory, and the
    two text builders (the backtest quality note and [buildPrompt], which
    only read; [None] is a rejected [buildPrompt]). *)
Record env : Type := mkEnv {
  log_query_ok : bool;
  get_query_ok : bool;
  activate_query_ok : bool;
  db_now : Z;
  stateDir : jsstring;
  qualityWarning : jsstring -> jsstring;
  buildPrompt : jsstring -> option jsstring
}.

Definition in_range (lo hi c : N) : bool := ((lo <=? c) && (c <=? hi))%N.

(** The character class [a-zA-Z0-9_-] *)
Definition is_id_char (c : N) : bool :=
  in_range 97 122 c || in_range 65 90 c || in_range 48 57 c
  || N.eqb c 95 || N.eqb c 45.

(** [STRATEGY_ID_RE.test(id)] for /^[a-zA-Z0-9_-]{1,50}$/ *)
Definition STRATEGY_ID_RE_test (id : jsstring) : bool :=
  (1 <=? length id)%nat && (length id <=? 50)%nat && forallb is_id_char id.

Definition validateStrategyId (id : jsstring) : option jsstring :=
  if negb (STRATEGY_ID_RE_test id)
  then Some (str "Invalid strategy_id. Use only letters, numbers, hyphens, underscores (max 50 chars).")
  else None.

(** INSERT INTO strategist.conversations; a failed query is only logged. *)
Definition logConversation (ok : bool) (r c : jsstring) (cmd : option jsstring) (d : db) : db :=
  if ok
  then mkDb (strategies d)
            (conversations d ++ [mkConversation r (substring c 0 10000) cmd])
  else d.

Definition has_id (id : jsstring) (row : strategy_row) : bool :=
  bool_decide (strategy_id row = id).

(** SELECT ... WHERE strategy_id = $1, first row; a failed query gives null. *)
Definition getStrategy (ok : bool) (id : jsstring) (d : db) : option strategy_row :=
  if ok then head (List.filter (has_id id) (strategies d)) else None.

Definition set_paper (now : Z) (id : jsstring) (row : strategy_row) : strategy_row :=
  if has_id id row
  then mkStrategy (strategy_id row) (str "paper") (backtest_results row) now
  else row.

(** UPDATE strategist.strategies SET status = 'paper', updated_at = NOW()
    WHERE strategy_id = $1; [None] when the query throws. *)
Definition activateStrategy (ok : bool) (now : Z) (id : jsstring) (d : db)
  : option (bool * db) :=
  if ok
  then Some (negb (Nat.eqb (length (List.filter (has_id id) (strategies d))) 0),
             mkDb (map (set_paper now id) (strategies d)) (conversations d))
  else None.

Inductive activate_result : Type :=
  | Reply (prompt : jsstring) (error : option jsstring)
  | Throws.

Definition falsy_text (o : option jsstring) : bool :=
  match o with
  | Some (_ :: _) => false
  | _ => true
  end.

Definition BACKTICK : N := 96%N.

Definition strategy_label (id : jsstring) : jsstring :=
  str "Strategy " ++ [BACKTICK] ++ id ++ [BACKTICK].

Definition buildActivatePrompt (e : env) (strategyId : jsstring) (d : db)
  : activate_result * db :=
  match validateStrategyId strategyId with
  | Some idError => (Reply [] (Some idError), d)
  | None =>
      let d1 :=
        logConversation (log_query_ok e) (str "user") (str "/activate " ++ strategyId)
          (Some (str "/activate")) d in
      match getStrategy (get_query_ok e) strategyId d1 with
      | None =>
          (Reply [] (Some (strategy_label strategyId
                             ++ str " not found. Use /strategies to see available strategies.")),
           d1)
      | Some strategy =>
          if bool_decide (status strategy = str "paper")
             || bool_decide (status strategy = str "live")
          then
            (Reply [] (Some (strategy_label strategyId ++ str " is already active (status: "
                               ++ status strategy ++ str ").")),
             d1)
          else if falsy_text (backtest_results strategy)
          then
            (Reply [] (Some (strategy_label strategyId
                               ++ str " has no backtest results. Run `/research` first to validate it.")),
             d1)
          else
            let warning :=
              qualityWarning e
                (match backtest_results strategy with Some t => t | None => [] end) in
            match activateStrategy (activate_query_ok e) (db_now e) strategyId d1 with
            | None => (Throws, d1)
            | Some (_, d2) =>
                match buildPrompt e
                        (str "Strategy '" ++ strategyId
                           ++ str "' has been activated for paper trading." ++ warning
                           ++ str " Refresh " ++ stateDir e
                           ++ str "/active-strategies.json with all active strategies from the DB. "
                           ++ str "Confirm activation with the strategy details.")
                with
                | Some prompt => (Reply prompt None, d2)
                | None => (Throws, d2)
                end
            end
      end
  end.

(** The validations, as the handler's contract words them: the id is
    well-formed, the strategy exists, it is not active yet, and it has
    backtest results. *)
Definition validations_pass (e : env) (strategyId : jsstring) (d : db) : Prop :=
  STRATEGY_ID_RE_test strategyId = true /\
  exists strategy,
    getStrategy (get_query_ok e) strategyId d = Some strategy /\
    status strategy <> str "paper" /\
    status strategy <> str "live" /\
    falsy_text (backtest_results strategy) = false.

Definition sample_env : env :=
  mkEnv true true true 1700000000 (str "/srv/state")
    (fun _ => []) (fun task => Some (str "PROMPT: " ++ task)).

Definition sample_db : db :=
  mkDb [ mkStrategy (str "btc-momentum") (str "draft") (Some (str "{}")) 5;
         mkStrategy (str "eth_mean_rev") (str "paper") (Some (str "{}")) 6;
         mkStrategy (str "untested") (str "draft") None 7 ]
       [].

(** [validateTextInput(text, maxLen, fieldName)] *)
Definition validateTextInput (text : jsstring) (maxLen : Z) (fieldName : jsstring)
  : option jsstring :=
  if (maxLen <? Z.of_nat (length text))%Z
  then Some (fieldName ++ str " too long (max " ++ dec maxLen ++ str " chars, got "
               ++ dec (Z.of_nat (length text)) ++ str ").")
  else None.

(** How a prompt builder settles: with the prompt, by [throw new
    Error(message)], or because [buildPrompt] rejected. *)
Inductive prompt_result : Type :=
  | Prompt (prompt : jsstring)
  | ThrowsError (message : jsstring)
  | Rejects.

Definition prompt_of (o : option jsstring) : prompt_result :=
  match o with
  | Some p => Prompt p
  | None => Rejects
  end.

Definition REGIME_TASK : jsstring :=
  str "Fetch current prices for ALL tickers from the OHLCV service (localhost:8812): BTC-USD, ETH-USD, SOL-USD, XRP-USD, BNB-USD, DOGE-USD. "
  ++ str "Calculate 24h change percentages. Determine regime (RALLY if BTC >+3%, SELLOFF if <-3%, NEUTRAL otherwise). "
  ++ str "Assess trading bias for all active tickers (ETH, SOL, XRP, BNB, DOGE) based on BTC regime. "
  ++ str "INSERT into strategist.regime_log with exact columns: "
  ++ str "(assessed_at, btc_price, btc_24h_change, eth_price, eth_24h_change, regime, trading_bias, confidence, reasoning, ticker_data). "
  ++ str "Use NOW() for assessed_at. Confidence as 0.0-1.0 decimal, not percentage. "
  ++ str "Store SOL/XRP/BNB/DOGE prices in ticker_data as JSONB: '{" ++ [DQUOTE]
  ++ str "SOL-USD" ++ [DQUOTE] ++ str ": {" ++ [DQUOTE] ++ str "price" ++ [DQUOTE]
  ++ str ": N, " ++ [DQUOTE] ++ str "change_24h" ++ [DQUOTE] ++ str ": N}, ...}'::jsonb. "
  ++ str "Do NOT alter or recreate the table. "
  ++ str "Then give a 2-3 sentence trading assessment covering all active tickers.".

Definition PERFORMANCE_TASK (stateDir : jsstring) : jsstring :=
  str "Query ALL position tables for recent trades: "
  ++ str "paper_trading.arksignal_v1_30m_positions (paper, 30m), "
  ++ str "paper_trading.arksignal_v1_1h_positions (paper, 1h), "
  ++ str "live_trading.positions (live trades). "
  ++ str "Calculate win rate, total P&L, and identify best/worst trades. Break down by ticker and timeframe. "
  ++ str "Write summary to " ++ stateDir ++ str "/performance-log.json. "
  ++ str "Give a concise performance report with key insights.".

Definition STRATEGIES_TASK : jsstring :=
  str "Query strategist.strategies table and list all strategies with their status, asset, direction, and last backtest results. "
  ++ str "Format as a clean list. If no strategies exist, say so.".

(** The three builders without arguments: log the command, then build. *)
Definition buildFixedPrompt (e : env) (cmd task : jsstring) (d : db)
  : prompt_result * db :=
  (prompt_of (buildPrompt e task),
   logConversation (log_query_ok e) (str "user") cmd (Some cmd) d).

Definition buildRegimePrompt (e : env) (d : db) : prompt_result * db :=
  buildFixedPrompt e (str "/regime") REGIME_TASK d.

Definition buildPerformancePrompt (e : env) (d : db) : prompt_result * db :=
  buildFixedPrompt e (str "/performance") (PERFORMANCE_TASK (stateDir e)) d.

Definition buildStrategiesPrompt (e : env) (d : db) : prompt_result * db :=
  buildFixedPrompt e (str "/strategies") STRATEGIES_TASK d.

(** [buildAskPrompt(question)] *)
Definition buildAskPrompt (e : env) (question : jsstring) (d : db)
  : prompt_result * db :=
  match validateTextInput question 2000 (str "Question") with
  | Some qError => (ThrowsError qError, d)
  | None =>
      (prompt_of (buildPrompt e question),
       logConversation (log_query_ok e) (str "user") (str "/ask " ++ question)
         (Some (str "/ask")) d)
  end.

(** [buildResearchCommandPrompt(description)]; [buildResearchPrompt] of the
    prompt builder is a template around the description and cannot fail. *)
Definition buildResearchCommandPrompt (e : env)
  (buildResearchPrompt : jsstring -> jsstring) (description : jsstring) (d : db)
  : prompt_result * db :=
  match validateTextInput description 500 (str "Description") with
  | Some descError => (ThrowsError descError, d)
  | None =>
      (Prompt (buildResearchPrompt description),
       logConversation (log_query_ok e) (str "user") (str "/research " ++ description)
         (Some (str "/research")) d)
  end.

End Commands.


(** The fixed text of the two remote command lines: every code unit of an
    argv string that comes from [runCommandRemote] itself rather than from
    its host, user, project-root or flag arguments. *)
Module RemoteText.
Import JS Invoke.

Definition DIGITS : jsstring := str "0123456789-".

Definition COMMAND_TEXT : jsstring :=
  str "@" ++ str "cat > " ++ str "/tmp/tinyclaw-prompt-" ++ str ".txt" ++ DIGITS
    ++ str " && " ++ str "cd "
    ++ str "source /etc/trading-signal-ai.env 2>/dev/null || true"
    ++ str "PROMPT=$(cat " ++ str ")" ++ str "rm -f " ++ str "claude " ++ str " "
    ++ str " -p " ++ [DQUOTE] ++ str "$PROMPT".

End RemoteText.

(** ** The Discord client (src/channels/discord-client.ts) *)

Module DiscordClient.
Import JS.

(** [remaining.replace(/^\n/, '')] *)
Definition strip_newline (s : jsstring) : jsstring :=
  match s with
  | c :: r => if N.eqb c LF then r else s
  | [] => []
  end.

(** The index [splitMessage] cuts at: the last newline at or before
    [maxLength], else the last blank, else [maxLength]; an index of 0 counts
    as not found. *)
Definition splitIndex_of (maxLength : Z) (remaining : jsstring) : Z :=
  let splitIndex := lastIndexOf remaining [LF] maxLength in
  let splitIndex :=
    if (splitIndex <=? 0)%Z then lastIndexOf remaining [SPACE] maxLength
    else splitIndex in
  if (splitIndex <=? 0)%Z then maxLength else splitIndex.

(** The [while (remaining.length > 0)] loop; [None] when [fuel] runs out. *)
Fixpoint splitMessage_loop (fuel : nat) (maxLength : Z) (remaining : jsstring)
  (chunks : list jsstring) : option (list jsstring) :=
  match fuel with
  | O => None
  | S fuel' =>
      if (0 <? Z.of_nat (length remaining))%Z then
        if (Z.of_nat (length remaining) <=? maxLength)%Z
        then Some (chunks ++ [remaining])
        else
          let splitIndex := splitIndex_of maxLength remaining in
          splitMessage_loop fuel' maxLength
            (strip_newline (substring_from remaining splitIndex))
            (chunks ++ [substring remaining 0 splitIndex])
      else Some chunks
  end.

(** [splitMessage(text, maxLength = 2000)] *)
Definition splitMessage (text : jsstring) (maxLength : Z) : option (list jsstring) :=
  if (Z.of_nat (length text) <=? maxLength)%Z then Some [text]
  else splitMessage_loop (S (length text)) maxLength text [].

Definition DEFAULT_MAX_LENGTH : Z := 2000.

(** What is dropped at a cut: nothing, or one newline. *)
Definition newline_gap (g : jsstring) : Prop := g = [] \/ g = [LF].

(** *** File names *)

(** The character class of the regular expression: the nine marks
    less-than, greater-than, colon, double quote, slash, backslash, bar,
    question mark and star, and the control characters U+0000 to U+001F. *)
Definition is_forbidden (c : N) : bool :=
  existsb (N.eqb c) [60; 62; 58; 34; 47; 92; 124; 63; 42]%N || (c <=? 31)%N.

Definition UNDERSCORE : N := 95%N.

(** [sanitizeFileName(fileName)]; [basename] is node's path.basename. *)
Definition sanitizeFileName (basename : jsstring -> jsstring) (fileName : jsstring)
  : jsstring :=
  let baseName :=
    trim (map (fun c => if is_forbidden c then UNDERSCORE else c) (basename fileName)) in
  if (0 <? length baseName)%nat then baseName else str "file.bin".

(** *** Authorization *)

(** [v?.key] for a key that no primitive value and no prototype carries. *)
Definition opt_get (v : Invoke.value) (key : jsstring) : Invoke.value :=
  match v with
  | Invoke.VObj fields =>
      match Invoke.assoc key fields with
      | Some x => x
      | None => Invoke.VUndefined
      end
  | _ => Invoke.VUndefined
  end.

(** What a call finds outside the process: the text of settings.json
    ([None] when the file cannot be read) and the variable DISCORD_USER_ID. *)
Record auth_env : Type := mkAuthEnv {
  settings_text : option jsstring;
  DISCORD_USER_ID : option jsstring
}.

Definition loadSettings `{Invoke.Host} (a : auth_env) : Invoke.value :=
  match settings_text a ≫= Invoke.JSON_parse with
  | Some settings => settings
  | None => Invoke.VObj []
  end.

(** [settings?.channels?.discord?.user_id || process.env.DISCORD_USER_ID] *)
Definition allowedUserId `{Invoke.Host} (a : auth_env) : Invoke.value :=
  let settings := loadSettings a in
  let configured :=
    opt_get (opt_get (opt_get settings (str "channels")) (str "discord")) (str "user_id") in
  if Invoke.truthy configured then configured
  else match DISCORD_USER_ID a with
       | Some s => Invoke.VStr s
       | None => Invoke.VUndefined
       end.

(** [isAuthorized(userId)]; [None] is the error it throws. *)
Definition isAuthorized `{Invoke.Host} (a : auth_env) (userId : jsstring) : option bool :=
  let allowed := allowedUserId a in
  if negb (Invoke.truthy allowed) then None
  else Some (Invoke.strict_eq_str allowed userId).

(** *** The slash command handler

    One run of the InteractionCreate listener, taken as a whole: the
    listener awaits only the calls modelled here. *)

(** A QueueData file written to queue/incoming. *)
Record queue_message : Type := mkQueueMessage {
  q_channel : jsstring;
  q_sender : jsstring;
  q_senderId : jsstring;
  q_message : jsstring;
  q_timestamp : Z;
  q_messageId : jsstring;
  q_agent : option jsstring;
  q_command : option jsstring
}.

Inductive pending_type : Type := PendingMessage | PendingInteraction.

Record pending : Type := mkPending {
  p_type : pending_type;
  p_timestamp : Z
}.

(** The state the listeners share: the limiter's array, the map
    [pendingResponses], the files written to queue/incoming (oldest first),
    the reset_flag file, and the strategist database. *)
Record bot : Type := mkBot {
  claudeSpawnTimestamps : RateLimit.timestamps;
  pendingResponses : gmap jsstring pending;
  incoming : list queue_message;
  reset_flag : bool;
  database : Commands.db
}.

(** The calls made on the interaction. *)
Inductive api_call : Type :=
  | ReplyCall (content : jsstring) (ephemeral : bool)
  | DeferReply
  | EditReply (content : jsstring).

(** The interaction received. [getString(name, true)] throws on a missing
    option. *)
Record interaction : Type := mkInteraction {
  user_id : jsstring;
  username : jsstring;
  commandName : jsstring;
  getString : jsstring -> option jsstring
}.

(** What one run finds outside the process. *)
Record client_env : Type := mkClientEnv {
  auth : auth_env;
  commands : Commands.env;
  buildResearchPrompt : jsstring -> jsstring;
  (** [handleStatusCommand()]; [None] when it rejects *)
  statusText : option jsstring;
  (** [handleHelpCommand()] *)
  helpText : jsstring;
  (** does the n-th call on the interaction (from 0) go through *)
  api_ok : nat -> bool;
  (** does [fs.writeFileSync] go through *)
  write_ok : bool;
  (** the message of an error thrown by the environment *)
  failure : jsstring;
  (** [Date.now()] as read by checkRateLimit, by writeQueueMessage, for the
      pending entry, and by cleanOldPending *)
  now_limit : Z;
  now_queue : Z;
  now_pending : Z;
  now_clean : Z;
  (** [generateMessageId()] *)
  fresh_id : jsstring
}.

(** The state of a run: the shared state, the calls made so far, and
    [command.deferred]. *)
Record run_state : Type := mkRun {
  shared : bot;
  calls : list api_call;
  deferred : bool
}.

Inductive result (A : Type) : Type :=
  | Ok (a : A)
  | Thrown (message : jsstring).
Arguments Ok {A} a.
Arguments Thrown {A} message.

(** A step of the listener: it returns or throws, and leaves a state. *)
Definition M (A : Type) : Type := run_state -> result A * run_state.

Definition ret {A : Type} (a : A) : M A := fun s => (Ok a, s).

Definition throw {A : Type} (message : jsstring) : M A := fun s => (Thrown message, s).

Definition bind {A B : Type} (m : M A) (k : A -> M B) : M B :=
  fun s =>
    match m s with
    | (Ok a, s') => k a s'
    | (Thrown message, s') => (Thrown message, s')
    end.

(** [try { m } catch (e) { handler(e.message) }] *)
Definition try_catch {A : Type} (m : M A) (handler : jsstring -> M A) : M A :=
  fun s =>
    match m s with
    | (Ok a, s') => (Ok a, s')
    | (Thrown message, s') => handler message s'
    end.

Notation "x <- m ;; k" := (bind m (fun x => k))
  (at level 100, m at next level, right associativity).
Notation "m ;;; k" := (bind m (fun _ => k))
  (at level 100, right associativity).

Definition update (f : bot -> bot) : M unit :=
  fun s => (Ok tt, mkRun (f (shared s)) (calls s) (deferred s)).

(** A call on the interaction; a [deferReply] that goes through sets
    [command.deferred]. *)
Definition api (e : client_env) (c : api_call) : M unit :=
  fun s =>
    let made := calls s ++ [c] in
    if api_ok e (length (calls s)) then
      (Ok tt,
       mkRun (shared s) made
         (match c with DeferReply => true | _ => deferred s end))
    else (Thrown (failure e), mkRun (shared s) made (deferred s)).

Definition reply (e : client_env) (content : jsstring) (ephemeral : bool) : M unit :=
  api e (ReplyCall content ephemeral).

Definition deferReply (e : client_env) : M unit := api e DeferReply.

Definition editReply (e : client_env) (content : jsstring) : M unit :=
  api e (EditReply content).

Definition checkRateLimit (e : client_env) : M bool :=
  fun s =>
    let '(ok, ts) :=
      RateLimit.checkRateLimit (now_limit e) (claudeSpawnTimestamps (shared s)) in
    (Ok ok,
     mkRun (mkBot ts (pendingResponses (shared s)) (incoming (shared s))
              (reset_flag (shared s)) (database (shared s)))
       (calls s) (deferred s)).

(** A prompt builder of the command handlers, run on the database. *)
Definition build (e : client_env)
  (builder : Commands.db -> Commands.prompt_result * Commands.db) : M jsstring :=
  fun s =>
    let '(r, d) := builder (database (shared s)) in
    let s' :=
      mkRun (mkBot (claudeSpawnTimestamps (shared s)) (pendingResponses (shared s))
               (incoming (shared s)) (reset_flag (shared s)) d)
        (calls s) (deferred s) in
    match r with
    | Commands.Prompt prompt => (Ok prompt, s')
    | Commands.ThrowsError message => (Thrown message, s')
    | Commands.Rejects => (Thrown (failure e), s')
    end.

Definition buildActivate (e : client_env) (strategyId : jsstring)
  : M (jsstring * option jsstring) :=
  fun s =>
    let '(r, d) := Commands.buildActivatePrompt (commands e) strategyId (database (shared s)) in
    let s' :=
      mkRun (mkBot (claudeSpawnTimestamps (shared s)) (pendingResponses (shared s))
               (incoming (shared s)) (reset_flag (shared s)) d)
        (calls s) (deferred s) in
    match r with
    | Commands.Reply prompt error => (Ok (prompt, error), s')
    | Commands.Throws => (Thrown (failure e), s')
    end.

(** [writeQueueMessage(opts)] *)
Definition writeQueueMessage (e : client_env)
  (sender senderId message agent command : jsstring) : M jsstring :=
  if write_ok e then
    update (fun b =>
      mkBot (claudeSpawnTimestamps b) (pendingResponses b)
        (incoming b ++ [mkQueueMessage (str "discord") sender senderId message
                          (now_queue e) (fresh_id e) (Some agent) (Some command)])
        (reset_flag b) (database b)) ;;;
    ret (fresh_id e)
  else throw (failure e).

(** [pendingResponses.set(msgId, { type: 'interaction', ... })] *)
Definition set_pending (e : client_env) (msgId : jsstring) : M unit :=
  update (fun b =>
    mkBot (claudeSpawnTimestamps b)
      (<[msgId := mkPending PendingInteraction (now_pending e)]> (pendingResponses b))
      (incoming b) (reset_flag b) (database b)).

Definition is_fresh (tenMinutesAgo : Z) (p : pending) : Prop :=
  ~ (p_timestamp p < tenMinutesAgo)%Z.

#[global] Instance is_fresh_dec tenMinutesAgo p : Decision (is_fresh tenMinutesAgo p).
Proof. unfold is_fresh. apply _. Defined.

Definition cleanOldPending (e : client_env) : M unit :=
  let tenMinutesAgo := (now_clean e - 10 * 60 * 1000)%Z in
  update (fun b =>
    mkBot (claudeSpawnTimestamps b)
      (filter (fun kv => is_fresh tenMinutesAgo (snd kv)) (pendingResponses b))
      (incoming b) (reset_flag b) (database b)).

Definition RATE_LIMITED : jsstring := str "Rate limited. Try again in a minute.".

Definition queue_and_track (e : client_env) (i : interaction)
  (prompt agent command : jsstring) : M unit :=
  msgId <- writeQueueMessage e (username i) (user_id i) prompt agent command ;;
  set_pending e msgId.

(** The cases regime, performance and strategies. *)
Definition fixed_command (e : client_env) (i : interaction)
  (builder : Commands.db -> Commands.prompt_result * Commands.db)
  (agent command : jsstring) : M unit :=
  ok <- checkRateLimit e ;;
  if negb ok then reply e RATE_LIMITED true
  else
    deferReply e ;;;
    prompt <- build e builder ;;
    queue_and_track e i prompt agent command ;;;
    cleanOldPending e.

(** The cases research and ask: the builder and the queue write sit in a
    [try] of their own. *)
Definition text_command (e : client_env) (i : interaction) (option_name : jsstring)
  (builder : jsstring -> Commands.db -> Commands.prompt_result * Commands.db)
  (agent command : jsstring) : M unit :=
  match getString i option_name with
  | None => throw (failure e)
  | Some text =>
      ok <- checkRateLimit e ;;
      if negb ok then reply e RATE_LIMITED true
      else
        deferReply e ;;;
        try_catch
          (prompt <- build e (builder text) ;;
           queue_and_track e i prompt agent command)
          (fun message => editReply e message) ;;;
        cleanOldPending e
  end.

Definition activate_command (e : client_env) (i : interaction) : M unit :=
  match getString i (str "strategy_id") with
  | None => throw (failure e)
  | Some strategyId =>
      ok <- checkRateLimit e ;;
      if negb ok then reply e RATE_LIMITED true
      else
        deferReply e ;;;
        r <- buildActivate e strategyId ;;
        if negb (Commands.falsy_text (snd r))
        then editReply e (match snd r with Some error => error | None => [] end)
        else
          queue_and_track e i (fst r) (str "strategist") (str "/activate") ;;;
          cleanOldPending e
  end.

Definition status_command (e : client_env) : M unit :=
  deferReply e ;;;
  match statusText e with
  | Some text => editReply e text
  | None => throw (failure e)
  end.

Definition reset_command (e : client_env) : M unit :=
  (if write_ok e then
     update (fun b =>
       mkBot (claudeSpawnTimestamps b) (pendingResponses b) (incoming b) true
         (database b))
   else throw (failure e)) ;;;
  reply e (str "Conversation reset! Next message will start a fresh conversation.") true.

(** [switch (command.commandName)] *)
Definition dispatch (e : client_env) (i : interaction) : M unit :=
  let name := commandName i in
  if bool_decide (name = str "status") then status_command e
  else if bool_decide (name = str "help") then reply e (helpText e) false
  else if bool_decide (name = str "regime") then
    fixed_command e i (Commands.buildRegimePrompt (commands e))
      (str "regime-analyst") (str "/regime")
  else if bool_decide (name = str "performance") then
    fixed_command e i (Commands.buildPerformancePrompt (commands e))
      (str "trade-reviewer") (str "/performance")
  else if bool_decide (name = str "strategies") then
    fixed_command e i (Commands.buildStrategiesPrompt (commands e))
      (str "strategist") (str "/strategies")
  else if bool_decide (name = str "activate") then activate_command e i
  else if bool_decide (name = str "research") then
    text_command e i (str "query")
      (fun text => Commands.buildResearchCommandPrompt (commands e) (buildResearchPrompt e) text)
      (str "researcher") (str "/research")
  else if bool_decide (name = str "ask") then
    text_command e i (str "question") (Commands.buildAskPrompt (commands e))
      (str "strategist") (str "/ask")
  else if bool_decide (name = str "reset") then reset_command e
  else reply e (str "Unknown command: /" ++ name) true.

(** The [catch] of the listener. *)
Definition on_error (e : client_env) : M unit :=
  try_catch
    (fun s =>
       if deferred s
       then editReply e (str "An error occurred processing your command.") s
       else reply e (str "An error occurred.") true s)
    (fun _ => ret tt).

(** The listener for a chat input command. The reply to a user who is not
    authorized sits inside the [try] of the authorization check, so its
    failure leads to the [catch] of that check as well. *)
Definition on_interaction `{Invoke.Host} (e : client_env) (i : interaction) : M unit :=
  match isAuthorized (auth e) (user_id i) with
  | Some true => try_catch (dispatch e i) (fun _ => on_error e)
  | Some false =>
      try_catch (reply e (str "Unauthorized.") true)
        (fun _ => reply e (str "Authorization not configured.") true)
  | None => reply e (str "Authorization not configured.") true
  end.

(** One interaction against the shared state: how the listener ends, the
    shared state it leaves, and the calls it made on the interaction. *)
Definition handle `{Invoke.Host} (e : client_env) (i : interaction) (b : bot)
  : result unit * bot * list api_call :=
  let '(r, s) := on_interaction e i (mkRun b [] false) in
  (r, shared s, calls s).

(** The commands that reach Claude and the agent each one is queued for,
    as the head of the file lists them. *)
Definition agent_for (name : jsstring) : option jsstring :=
  if bool_decide (name = str "regime") then Some (str "regime-analyst")
  else if bool_decide (name = str "performance") then Some (str "trade-reviewer")
  else if bool_decide (name = str "strategies") then Some (str "strategist")
  else if bool_decide (name = str "activate") then Some (str "strategist")
  else if bool_decide (name = str "research") then Some (str "researcher")
  else if bool_decide (name = str "ask") then Some (str "strategist")
  else None.

(** The file a command that went through leaves in queue/incoming. *)
Definition queued_for (e : client_env) (i : interaction) (agent prompt : jsstring)
  : queue_message :=
  mkQueueMessage (str "discord") (username i) (user_id i) prompt (now_queue e)
    (fresh_id e) (Some agent) (Some (str "/" ++ commandName i)).

(** [pendingResponses] after a command that went through. *)
Definition tracked (e : client_env) (b : bot) : gmap jsstring pending :=
  filter (fun kv => is_fresh (now_clean e - 10 * 60 * 1000)%Z (snd kv))
    (<[fresh_id e := mkPending PendingInteraction (now_pending e)]> (pendingResponses b)).

(** What a run of a command that reaches Claude can leave behind, [b]
    being the state before: the limiter has been consulted; then either
    nothing was queued, and with a refusal by the limiter the database and
    the pending map are untouched, or the limiter admitted the call and one
    file was queued and is tracked. *)
Definition claude_outcome (e : client_env) (i : interaction) (agent : jsstring)
  (b b' : bot) : Prop :=
  let verdict := RateLimit.checkRateLimit (now_limit e) (claudeSpawnTimestamps b) in
  b' = b \/
  (claudeSpawnTimestamps b' = snd verdict /\
   reset_flag b' = reset_flag b /\
   ((incoming b' = incoming b /\
     (fst verdict = false ->
      database b' = database b /\ pendingResponses b' = pendingResponses b)) \/
    (fst verdict = true /\ write_ok e = true /\
     pendingResponses b' = tracked e b /\
     exists prompt, incoming b' = incoming b ++ [queued_for e i agent prompt]))).

(** What a run of any other command can leave behind: at most the
    reset_flag file. *)
Definition instant_outcome (b b' : bot) : Prop :=
  claudeSpawnTimestamps b' = claudeSpawnTimestamps b /\
  pendingResponses b' = pendingResponses b /\
  incoming b' = incoming b /\
  database b' = database b.


(** The shared state one interaction leaves. *)
Definition state_after `{Invoke.Host} (e : client_env) (i : interaction) (b : bot) : bot :=
  snd (fst (handle e i b)).

(** The calls one interaction makes. *)
Definition calls_of `{Invoke.Host} (e : client_env) (i : interaction) (b : bot)
  : list api_call :=
  snd (handle e i b).



(** *** The outgoing queue watcher *)

(** A ResponseData file as JSON.parse returns it; [r_message] is [None]
    when the field is undefined or null. *)
Record response_data : Type := mkResponse {
  r_messageId : jsstring;
  r_message : option jsstring;
  r_files : list jsstring
}.

(** A file of queue/outgoing: its name and what reading and parsing it
    gives ([None]: one of the two throws). *)
Record outgoing_file : Type := mkOutgoing {
  file_name : jsstring;
  parsed : option response_data
}.

(** The calls made on the Discord objects kept for a message id. *)
Inductive delivery : Type :=
  | InteractionEdit (id content : jsstring) (files : list jsstring)
  | InteractionFollowUp (id content : jsstring)
  | ChannelSendFiles (id : jsstring) (files : list jsstring)
  | MessageReply (id content : jsstring)
  | ChannelSend (id content : jsstring).

Definition delivery_id (d : delivery) : jsstring :=
  match d with
  | InteractionEdit id _ _ | InteractionFollowUp id _ | ChannelSendFiles id _
  | MessageReply id _ | ChannelSend id _ => id
  end.

Record out_env : Type := mkOutEnv {
  (** [fs.existsSync] *)
  file_exists : jsstring -> bool;
  (** does the n-th call on Discord (from 0) go through *)
  send_ok : nat -> bool
}.

Record out_state : Type := mkOut {
  processingOutgoingQueue : bool;
  pending_map : gmap jsstring pending;
  outbox : list outgoing_file;
  sent : list delivery
}.

(** [f.startsWith('discord_') && f.endsWith('.json')] *)
Definition is_response_file (name : jsstring) : bool :=
  starts_with (str "discord_") name && starts_with (rev (str ".json")) (rev name).

(** [splitMessage(responseText)]; the loop ends for the limit 2000. *)
Definition chunks_of_text (responseText : option jsstring) : list jsstring :=
  match responseText with
  | Some ((_ :: _) as text) =>
      match splitMessage text DEFAULT_MAX_LENGTH with
      | Some chunks => chunks
      | None => []
      end
  | _ => []
  end.

(** The calls the interaction branch makes, in order. *)
Definition interaction_plan (id : jsstring) (chunks attachments : list jsstring)
  : list delivery :=
  match chunks with
  | first :: rest =>
      InteractionEdit id first attachments :: map (InteractionFollowUp id) rest
  | [] =>
      match attachments with
      | [] => []
      | _ => [InteractionEdit id (str "Done.") attachments]
      end
  end.

(** The calls the message branch makes, in order. *)
Definition message_plan (id : jsstring) (chunks attachments : list jsstring)
  : list delivery :=
  (match attachments with [] => [] | _ => [ChannelSendFiles id attachments] end)
  ++ match chunks with
     | first :: rest => MessageReply id first :: map (ChannelSend id) rest
     | [] => []
     end.

(** Awaited calls in sequence: the first one that throws ends them. *)
Fixpoint send_all (e : out_env) (plan : list delivery) (s : out_state)
  : bool * out_state :=
  match plan with
  | [] => (true, s)
  | d :: rest =>
      let s1 :=
        mkOut (processingOutgoingQueue s) (pending_map s) (outbox s) (sent s ++ [d]) in
      if send_ok e (length (sent s)) then send_all e rest s1 else (false, s1)
  end.

(** [pendingResponses.delete(messageId); fs.unlinkSync(filePath)] *)
Definition finish (id name : jsstring) (s : out_state) : out_state :=
  mkOut (processingOutgoingQueue s) (delete id (pending_map s))
    (List.filter (fun f => negb (bool_decide (file_name f = name))) (outbox s))
    (sent s).

Definition unlink (name : jsstring) (s : out_state) : out_state :=
  mkOut (processingOutgoingQueue s) (pending_map s)
    (List.filter (fun f => negb (bool_decide (file_name f = name))) (outbox s))
    (sent s).

(** The body of [for (const file of files)] with its [try ... catch]. *)
Definition process_file (e : out_env) (f : outgoing_file) (s : out_state) : out_state :=
  match parsed f with
  | None => s
  | Some data =>
      let id := r_messageId data in
      match pending_map s !! id with
      | None => unlink (file_name f) s
      | Some p =>
          let attachments := List.filter (file_exists e) (r_files data) in
          let chunks := chunks_of_text (r_message data) in
          let '(ok, s1) :=
            match p_type p with
            | PendingInteraction =>
                (* errors of the interaction are caught and logged *)
                (true, snd (send_all e (interaction_plan id chunks attachments) s))
            | PendingMessage => send_all e (message_plan id chunks attachments) s
            end in
          if ok then
            match r_message data with
            | None => s1          (* [responseText.length] throws *)
            | Some _ => finish id (file_name f) s1
            end
          else s1
      end
  end.

Definition checkOutgoingQueue (e : out_env) (s : out_state) : out_state :=
  if processingOutgoingQueue s then s
  else
    let files := List.filter (fun f => is_response_file (file_name f)) (outbox s) in
    fold_left (fun s f => process_file e f s) files s.

(** *** A worked configuration *)

Definition sample_host : Invoke.Host :=
  Invoke.table_host
    [(str "{settings}",
      Invoke.VObj
        [(str "channels",
          Invoke.VObj
            [(str "discord", Invoke.VObj [(str "user_id", Invoke.VStr (str "42"))])])])].

Definition sample_client_env : client_env :=
  mkClientEnv (mkAuthEnv (Some (str "{settings}")) None) Commands.sample_env
    (fun description => str "RESEARCH: " ++ description)
    (Some (str "status")) (str "help") (fun _ => true) true (str "boom")
    1000 1001 1002 1003 (str "1001_abc").

Definition sample_bot : bot := mkBot [] ∅ [] false Commands.sample_db.

(** The limiter's budget used up within the last minute. *)
Definition busy_bot : bot :=
  mkBot [990; 991; 992; 993; 994]%Z ∅ [] false Commands.sample_db.

Definition stranger_activate : interaction :=
  mkInteraction (str "7") (str "eve") (str "activate") (fun _ => Some (str "btc-momentum")).

Definition owner_activate : interaction :=
  mkInteraction (str "42") (str "sam") (str "activate") (fun _ => Some (str "btc-momentum")).

Definition owner_status : interaction :=
  mkInteraction (str "42") (str "sam") (str "status") (fun _ => None).

Definition sample_out_env : out_env := mkOutEnv (fun _ => false) (fun n => negb (n =? 0)%nat).

Definition sample_response : outgoing_file :=
  mkOutgoing (str "discord_1001_abc.json")
    (Some (mkResponse (str "1001_abc") (Some (str "Regime: NEUTRAL")) [])).

Definition sample_out_state : out_state :=
  mkOut false (<[str "1001_abc" := mkPending PendingInteraction 1002]> ∅)
    [sample_response] [].

End DiscordClient.

(** ** State files (src/plugins/trading-db/state.ts) *)

Module StateFile.
Import JS.

(** The files on disk: path to content. *)
Abbreviation files := (gmap jsstring jsstring).

(** How [writeFile] ends: it writes the whole text, or it fails and leaves
    at the path what it had written so far ([None]: nothing was created). *)
Inductive write_outcome : Type :=
  | Written
  | WriteFails (left_behind : option jsstring).

(** What one call of [writeState] meets. *)
Record fs_env : Type := mkFsEnv {
  mkdir_ok : bool;
  write_result : write_outcome;
  rename_ok : bool
}.

Section StateFiles.
(** The type of the state, with JSON.stringify(data, null, 2) and
    JSON.parse on it, and path.join. *)
Context {T : Type}.
Variable stringify : T -> jsstring.
Variable parse : jsstring -> option T.
Variable join : jsstring -> jsstring -> jsstring.

(** [readState(filename)]: null on any error. *)
Definition readState (STATE_DIR filename : jsstring) (fs : files) : option T :=
  fs !! join STATE_DIR filename ≫= parse.

(** [writeState(filename, data)]: did the promise resolve, and the files
    afterwards. *)
Definition writeState (env : fs_env) (STATE_DIR filename : jsstring) (data : T)
  (fs : files) : bool * files :=
  if negb (mkdir_ok env) then (false, fs)
  else
    let filePath := join STATE_DIR filename in
    let tmpPath := filePath ++ str ".tmp" in
    match write_result env with
    | WriteFails None => (false, fs)
    | WriteFails (Some text) => (false, <[tmpPath := text]> fs)
    | Written =>
        let fs1 := <[tmpPath := stringify data]> fs in
        if rename_ok env
        then (true, <[filePath := stringify data]> (delete tmpPath fs1))
        else (false, fs1)
    end.

End StateFiles.

End StateFile.

(** ** Team visualizer: the event reducer of the dashboard *)

Module Visualizer.
Import JS.

Inductive AgentStatus : Type := Idle | Active | Done | Error | Waiting.

Definition status_text (st : AgentStatus) : jsstring :=
  match st with
  | Idle => str "idle"
  | Active => str "active"
  | Done => str "done"
  | Error => str "error"
  | Waiting => str "waiting"
  end.

(** A property value of an entry of the board. *)
Inductive value : Type :=
  | VUndefined
  | VString (s : jsstring)
  | VNumber (z : Z).

#[global] Instance value_eq_dec : EqDecision value.
Proof. solve_decision. Defined.

(** An object as the reducer reads and copies it: its own enumerable
    properties. *)
Abbreviation object := (gmap jsstring value).

(** [agentStates]: a plain object used as a map.  Its own properties are
    the entries of the board.  A read [board[key]] that finds no own
    property goes on to the prototype, which is Object.prototype unless
    an assignment to the key __proto__ has replaced it. *)
Record board : Type := mkBoard {
  own : gmap jsstring object;
  replaced_prototype : option object
}.

(** The board [{}] the component starts with. *)
#[global] Instance board_empty : Empty board := mkBoard ∅ None.

Definition STATUS : jsstring := str "status".
Definition LAST_ACTIVITY : jsstring := str "lastActivity".
Definition RESPONSE_LENGTH : jsstring := str "responseLength".
Definition PROTO : jsstring := str "__proto__".

(** The property names of Object.prototype. *)
Definition OBJECT_PROTOTYPE : list jsstring :=
  [ str "constructor"; str "__defineGetter__"; str "__defineSetter__";
    str "hasOwnProperty"; str "__lookupGetter__"; str "__lookupSetter__";
    str "isPrototypeOf"; str "propertyIsEnumerable"; str "toString";
    str "valueOf"; str "__proto__"; str "toLocaleString" ].

Definition is_builtin (key : jsstring) : bool :=
  existsb (fun name => bool_decide (name = key)) OBJECT_PROTOTYPE.

(** What [board[key]] evaluates to: nothing, an entry, a function of
    Object.prototype (or Object.prototype itself, for __proto__), the
    object that replaced the prototype, or a property of that object. *)
Inductive found : Type :=
  | Missing
  | Entry (o : object)
  | Builtin
  | Prototype (p : object)
  | Primitive (v : value).

Definition get (b : board) (key : jsstring) : found :=
  match own b !! key with
  | Some o => Entry o
  | None =>
      match replaced_prototype b with
      | Some p =>
          match p !! key with
          | Some v => Primitive v
          | None =>
              if bool_decide (key = PROTO) then Prototype p
              else if is_builtin key then Builtin else Missing
          end
      | None => if is_builtin key then Builtin else Missing
      end
  end.

(** [if (board[key])] *)
Definition truthy (f : found) : bool :=
  match f with
  | Missing => false
  | Primitive VUndefined => false
  | Primitive (VString s) => match s with [] => false | _ => true end
  | Primitive (VNumber z) => negb (z =? 0)%Z
  | Entry _ | Builtin | Prototype _ => true
  end.

(** The index properties of a string. *)
Definition index_properties (s : jsstring) : object :=
  list_to_map (imap (fun i c => (dec (Z.of_nat i), VString [c])) s).

(** [{ ...board[key] }]: the own enumerable properties of the value; a
    function has none. *)
Definition spread (f : found) : object :=
  match f with
  | Entry o => o
  | Prototype p => p
  | Primitive (VString s) => index_properties s
  | _ => ∅
  end.

Definition with_status (o : object) (st : AgentStatus) : object :=
  <[STATUS := VString (status_text st)]> o.

Definition with_activity (o : object) (activity : jsstring) : object :=
  <[LAST_ACTIVITY := VString activity]> o.

Definition with_length (o : object) (len : Z) : object :=
  <[RESPONSE_LENGTH := VNumber len]> o.

(** [{ ...prev, [key]: o }]: a new object, with the key as an own
    property whatever its name. *)
Definition literal_with (prev : board) (key : jsstring) (o : object) : board :=
  mkBoard (<[key := o]> (own prev)) None.

(** [{ ...prev }] *)
Definition copy (prev : board) : board := mkBoard (own prev) None.

(** [updated[key] = o]: an own property is written, except that the key
    __proto__, when no own or inherited data property has that name,
    reaches the setter of Object.prototype and replaces the prototype. *)
Definition assign (updated : board) (key : jsstring) (o : object) : board :=
  let inherited :=
    match replaced_prototype updated with
    | Some p => bool_decide (is_Some (p !! key))
    | None => false
    end in
  if bool_decide (key = PROTO)
     && negb (bool_decide (is_Some (own updated !! key))) && negb inherited
  then mkBoard (own updated) (Some o)
  else mkBoard (<[key := o]> (own updated)) (replaced_prototype updated).

(** [if (!prev[aid]) return prev; return { ...prev, [aid]: f({ ...prev[aid] }) }] *)
Definition replace_known (aid : jsstring) (f : object -> object) (prev : board) : board :=
  if truthy (get prev aid) then literal_with prev aid (f (spread (get prev aid)))
  else prev.

(** [if (updated[aid]) updated[aid] = f({ ...updated[aid] })] *)
Definition update_known (aid : jsstring) (f : object -> object) (updated : board) : board :=
  if truthy (get updated aid) then assign updated aid (f (spread (get updated aid)))
  else updated.

(** The entry the effect that reads the settings writes for an agent:
    idle, with numeric heartbeat data where there is any. *)
Record AgentState : Type := mkAgentState {
  id : jsstring;
  name : jsstring;
  provider : jsstring;
  model : jsstring;
  status : AgentStatus;
  lastActivity : jsstring;
  lastHeartbeat : option Z;
  heartbeatInterval : option Z
}.

Definition optional (z : option Z) : value :=
  match z with
  | Some n => VNumber n
  | None => VUndefined
  end.

Definition entry_of (a : AgentState) : object :=
  list_to_map
    [ (str "id", VString (id a)); (str "name", VString (name a));
      (str "provider", VString (provider a)); (str "model", VString (model a));
      (STATUS, VString (status_text (status a)));
      (LAST_ACTIVITY, VString (lastActivity a));
      (str "lastHeartbeat", optional (lastHeartbeat a));
      (str "heartbeatInterval", optional (heartbeatInterval a)) ].

Record ChainArrow : Type := mkArrow {
  from : jsstring;
  to : jsstring;
  step : Z;
  timestamp : Z
}.

Record LogEntry : Type := mkLogEntry {
  time : jsstring;
  icon : jsstring;
  text : jsstring;
  color : jsstring
}.

(** The events of the queue processor the reducer knows, with the fields
    it reads; [OtherEvent] is any other type. *)
Inductive event_body : Type :=
  | ProcessorStart
  | MessageReceived (channel sender : jsstring) (message : option jsstring)
  | AgentRouted (agentId : jsstring) (isTeamRouted : bool)
  | TeamChainStart (teamName : jsstring) (agents : list jsstring)
  | ChainStepStart (agentId : jsstring) (step : Z)
  | ChainStepDone (agentId : jsstring) (responseLength : Z) (responseText : option jsstring)
  | ChainHandoff (fromAgent toAgent : jsstring) (step : Z)
  | TeamChainEnd (agents : list jsstring)
  | ResponseReady
  | OtherEvent.

Record TinyClawEvent : Type := mkEvent {
  ev_timestamp : Z;
  ev_body : event_body
}.

(** The state of the App component the reducer writes, with the number of
    settings reloads asked for and of reset timers started.  A reload of
    the settings makes React build the board anew from settings.json,
    after the updates of the reducer. *)
Record app : Type := mkApp {
  agentStates : board;
  arrows : list ChainArrow;
  logEntries : list LogEntry;
  totalProcessed : Z;
  processorAlive : bool;
  settingsReloads : nat;
  resetTimers : nat
}.

Definition ELLIPSIS : N := 8230%N.

(** [s.slice(0, n)] for an index that may be negative. *)
Definition slice_to (s : jsstring) (n : Z) : jsstring :=
  if (n <? 0)%Z then take (Z.to_nat (Z.max 0 (Z.of_nat (length s) + n))) s
  else take (Z.to_nat n) s.

(** [truncate(s, max)] *)
Definition truncate (s : jsstring) (max : Z) : jsstring :=
  if (Z.of_nat (length s) <=? max)%Z then s
  else slice_to s (max - 1) ++ [ELLIPSIS].

(** [addLog(icon, text, color)]; [stamp] is [shortTime(Date.now())]. *)
Definition addLog (stamp icon text color : jsstring) (prev : list LogEntry)
  : list LogEntry :=
  let next := prev ++ [mkLogEntry stamp icon text color] in
  if (50 <? length next)%nat then drop (length next - 50) next else next.

(** [entry.status === 'active'] *)
Definition is_active (o : object) : bool :=
  bool_decide (o !! STATUS = Some (VString (status_text Active))).

(** [entry.status === 'done' || entry.status === 'error'] *)
Definition is_finished (o : object) : bool :=
  bool_decide (o !! STATUS = Some (VString (status_text Done)))
  || bool_decide (o !! STATUS = Some (VString (status_text Error))).

Definition mentions (sep : jsstring) (agents : list jsstring) : jsstring :=
  join sep (map (fun a => str "@" ++ a) agents).

Definition log_into (s : app) (stamp icon text color : jsstring) : app :=
  mkApp (agentStates s) (arrows s) (addLog stamp icon text color (logEntries s))
    (totalProcessed s) (processorAlive s) (settingsReloads s) (resetTimers s).

Definition set_agents (s : app) (b : board) : app :=
  mkApp b (arrows s) (logEntries s) (totalProcessed s) (processorAlive s)
    (settingsReloads s) (resetTimers s).

Definition set_arrows (s : app) (l : list ChainArrow) : app :=
  mkApp (agentStates s) l (logEntries s) (totalProcessed s) (processorAlive s)
    (settingsReloads s) (resetTimers s).

(** The loop of chain_step_start over [Object.keys(updated)]: every other
    entry shown active is set to waiting. *)
Definition demote (aid : jsstring) (prev : board) : board :=
  mkBoard
    (map_imap (fun key o =>
                 Some (if negb (bool_decide (key = aid)) && is_active o
                       then with_status o Waiting else o))
       (own prev))
    None.

(** [handleEvent(event)]; the state updates are applied in the order they
    are queued. *)
Definition handleEvent (stamp : jsstring) (event : TinyClawEvent) (s : app) : app :=
  match ev_body event with
  | ProcessorStart =>
      let s1 :=
        mkApp (agentStates s) (arrows s) (logEntries s) (totalProcessed s) true
          (S (settingsReloads s)) (resetTimers s) in
      log_into s1 stamp [9889%N] (str "Queue processor started") (str "green")
  | MessageReceived channel sender message =>
      let body := match message with Some ((_ :: _) as m) => m | _ => [] end in
      log_into s stamp [9993%N]
        (str "[" ++ channel ++ str "] " ++ sender ++ str ": " ++ truncate body 50)
        (str "white")
  | AgentRouted aid isTeamRouted =>
      let s1 :=
        set_agents s
          (replace_known aid
             (fun o => with_activity (with_status o Active) (str "Routing..."))
             (agentStates s)) in
      if isTeamRouted
      then log_into s1 stamp [9873%N] (str "Routed to @" ++ aid ++ str " (via team)")
             (str "cyan")
      else log_into s1 stamp [8594%N] (str "Routed to @" ++ aid) (str "cyan")
  | TeamChainStart teamName agents =>
      set_arrows
        (log_into s stamp [9939%N]
           (str "Chain started: " ++ teamName ++ str " [" ++ mentions (str ", ") agents
              ++ str "]")
           (str "magenta"))
        []
  | ChainStepStart aid n =>
      set_agents s
        (update_known aid
           (fun o => with_activity (with_status o Active) (str "Step " ++ dec n))
           (demote aid (agentStates s)))
  | ChainStepDone aid len responseText =>
      let s1 :=
        set_agents s
          (replace_known aid (fun o => with_length (with_status o Done) len)
             (agentStates s)) in
      let shown :=
        match responseText with
        | Some ((_ :: _) as t) => t
        | _ => str "(" ++ dec len ++ str " chars)"
        end in
      log_into s1 stamp [55357%N; 56492%N] (str "@" ++ aid ++ str ": " ++ shown)
        (str "white")
  | ChainHandoff fromAgent toAgent n =>
      let s1 :=
        set_arrows s (arrows s ++ [mkArrow fromAgent toAgent n (ev_timestamp event)]) in
      let s2 :=
        set_agents s1
          (update_known toAgent
             (fun o => with_activity (with_status o Waiting)
                         (str "Handoff from @" ++ fromAgent))
             (copy (agentStates s1))) in
      log_into s2 stamp [8594%N]
        (str "@" ++ fromAgent ++ str " " ++ [8594%N] ++ str " @" ++ toAgent) (str "yellow")
  | TeamChainEnd chainAgents =>
      let s1 :=
        log_into s stamp [10004%N]
          (str "Chain complete [" ++ mentions (str " " ++ [8594%N] ++ str " ") chainAgents
             ++ str "]")
          (str "green") in
      set_agents s1
        (fold_left (fun b aid => update_known aid (fun o => with_status o Done) b)
           chainAgents (copy (agentStates s1)))
  | ResponseReady =>
      mkApp (agentStates s) (arrows s) (logEntries s) (totalProcessed s + 1)%Z
        (processorAlive s) (settingsReloads s) (S (resetTimers s))
  | OtherEvent => s
  end.

(** The callback of the 3 s timer that [response_ready] starts:
    [timeAgo(Date.now())] reads "just now". *)
Definition delayedReset (s : app) : app :=
  set_arrows
    (set_agents s
       (mkBoard
          (fmap (fun o => if is_finished o
                          then with_activity (with_status o Idle) (str "just now")
                          else o)
             (own (agentStates s)))
          None))
    [].

(** The agent ids an event makes the reducer look up on the board. *)
Definition looked_up (b : event_body) : list jsstring :=
  match b with
  | AgentRouted aid _ => [aid]
  | ChainStepStart aid _ => [aid]
  | ChainStepDone aid _ _ => [aid]
  | ChainHandoff _ toAgent _ => [toAgent]
  | TeamChainEnd agents => agents
  | _ => []
  end.

(** The properties of an entry no event writes are the same in [o'] as
    in [o]. *)
Definition same_identity (o o' : object) : Prop :=
  forall key, key <> STATUS -> key <> LAST_ACTIVITY -> key <> RESPONSE_LENGTH ->
    o' !! key = o !! key.

(** A board [b'] holds the agents of [b], each with the identity it had. *)
Definition keeps (b b' : board) : Prop :=
  replaced_prototype b' = None /\
  forall key,
    match own b !! key, own b' !! key with
    | Some o, Some o' => same_identity o o'
    | None, None => True
    | _, _ => False
    end.

(** A board of two agents, one of them active. *)
Definition sample_board : board :=
  mkBoard
    (<[str "scout" := entry_of (mkAgentState (str "scout") (str "Scout") (str "anthropic")
                                  (str "sonnet") Active (str "Step 1") None None)]>
       (<[str "trader" := entry_of (mkAgentState (str "trader") (str "Trader")
                                      (str "openai") (str "gpt") Idle [] (Some 1700000000%Z)
                                      (Some 3600%Z))]> ∅))
    None.

End Visualizer.


(* ===================================================================== *)
(** * Part II: properties *)
(* ===================================================================== *)

(** ** String helpers *)

Module JSFacts.
Import JS.

Lemma trimStart_split (s : jsstring) :
  exists l, s = l ++ trimStart s /\ Forall (fun c => is_ws c = true) l.
Proof.
  induction s as [|c r IH]; simpl.
  - exists []. split; [reflexivity | constructor].
  - destruct (is_ws c) eqn:Hc.
    + destruct IH as (l & Heq & Hl). exists (c :: l). split.
      * simpl. f_equal. exact Heq.
      * constructor; assumption.
    + exists []. split; [reflexivity | constructor].
Qed.

(** [trim] removes a run of white space at each end and nothing else. *)
Lemma trim_split (s : jsstring) :
  exists l r, s = l ++ trim s ++ r /\
              Forall (fun c => is_ws c = true) l /\
              Forall (fun c => is_ws c = true) r.
Proof.
  destruct (trimStart_split s) as (l & Hl & Hlws).
  destruct (trimStart_split (rev (trimStart s))) as (r' & Hr & Hrws).
  exists l, (rev r'). split; [|split].
  - unfold trim, trimEnd. rewrite Hl at 1. f_equal.
    rewrite <- rev_app_distr, <- Hr, rev_involutive. reflexivity.
  - exact Hlws.
  - apply Forall_rev. exact Hrws.
Qed.

Lemma trim_length (s : jsstring) : (length (trim s) <= length s)%nat.
Proof.
  destruct (trim_split s) as (l & r & Heq & _).
  rewrite Heq at 2. rewrite !length_app. lia.
Qed.

Lemma trimStart_length (s : jsstring) : (length (trimStart s) <= length s)%nat.
Proof.
  destruct (trimStart_split s) as (l & Heq & _).
  rewrite Heq at 2. rewrite length_app. lia.
Qed.

(** A string that starts with white space gets strictly shorter. *)
Lemma trim_head_ws (c : N) (s : jsstring) :
  is_ws c = true -> (length (trim (c :: s)) < length (c :: s))%nat.
Proof.
  intros Hc. unfold trim. simpl trimStart. rewrite Hc.
  unfold trimEnd. rewrite length_rev.
  pose proof (trimStart_length (rev (trimStart s))) as H1.
  rewrite length_rev in H1.
  pose proof (trimStart_length s) as H2. simpl. lia.
Qed.

Lemma last_match_range (s pat : jsstring) (k : nat) :
  last_match s pat k = (-1)%Z \/
  ((0 <= last_match s pat k <= Z.of_nat k)%Z /\
   match_at s pat (Z.to_nat (last_match s pat k)) = true).
Proof.
  induction k as [|k IH]; simpl.
  - destruct (match_at s pat 0) eqn:Hm; [right | left; reflexivity].
    split; [lia | exact Hm].
  - destruct (match_at s pat (S k)) eqn:Hm.
    + right. split; [lia|]. rewrite Nat2Z.id. exact Hm.
    + destruct IH as [IH|(IH & Hm')]; [left; exact IH | right].
      split; [lia | exact Hm'].
Qed.

Lemma lastIndexOf_range (s pat : jsstring) (pos : Z) :
  (0 <= pos)%Z ->
  lastIndexOf s pat pos = (-1)%Z \/
  ((0 <= lastIndexOf s pat pos <= pos)%Z /\
   (lastIndexOf s pat pos <= Z.of_nat (length s))%Z /\
   match_at s pat (Z.to_nat (lastIndexOf s pat pos)) = true).
Proof.
  intros Hpos. unfold lastIndexOf.
  destruct (length s <? length pat)%nat; [left; reflexivity|].
  destruct (last_match_range s pat
              (Nat.min (clamp (length s) pos) (length s - length pat)))
    as [H|(H & Hm)]; [left; exact H | right].
  unfold clamp in *. split; [lia | split; [lia | exact Hm]].
Qed.

Lemma substring_prefix (s : jsstring) (i : Z) :
  (0 <= i <= Z.of_nat (length s))%Z ->
  substring s 0 i = take (Z.to_nat i) s /\
  substring_from s i = drop (Z.to_nat i) s.
Proof.
  intros Hi. unfold substring_from, substring, clamp.
  replace (Z.to_nat (Z.min (Z.max 0 0) (Z.of_nat (length s)))) with 0%nat by lia.
  replace (Z.to_nat (Z.min (Z.max i 0) (Z.of_nat (length s)))) with (Z.to_nat i) by lia.
  replace (Z.to_nat (Z.min (Z.max (Z.of_nat (length s)) 0) (Z.of_nat (length s))))
    with (length s) by lia.
  split.
  - rewrite Nat.max_r, Nat.min_l by lia. rewrite Nat.sub_0_r. reflexivity.
  - rewrite Nat.max_r, Nat.min_l by lia.
    apply take_ge. rewrite length_drop. lia.
Qed.

Lemma substring_0_length (s : jsstring) (n : Z) :
  (0 <= n)%Z -> (Z.of_nat (length (substring s 0 n)) <= n)%Z.
Proof.
  intros Hn. unfold substring, clamp.
  replace (Z.to_nat (Z.min (Z.max 0 0) (Z.of_nat (length s)))) with 0%nat by lia.
  rewrite Nat.min_l, Nat.max_r by lia. rewrite Nat.sub_0_r.
  rewrite length_take. simpl drop. lia.
Qed.

Lemma substring_0_prefix (s : jsstring) (n : Z) :
  (0 <= n)%Z -> substring s 0 n = take (Z.to_nat n) s.
Proof.
  intros Hn. unfold substring, clamp.
  replace (Z.to_nat (Z.min (Z.max 0 0) (Z.of_nat (length s)))) with 0%nat by lia.
  rewrite Nat.min_l, Nat.max_r by lia. rewrite Nat.sub_0_r. simpl drop.
  destruct (Z_le_gt_dec n (Z.of_nat (length s))).
  - f_equal. lia.
  - rewrite (take_ge s (Z.to_nat n)) by lia. apply take_ge. lia.
Qed.

End JSFacts.

(** ** Retry wrapper *)

Module RetryFacts.
Import JS Retry.

Section Facts.
Context {T E : Type}.
Variable message_of : E -> jsstring.
Variable maxRetries : Z.
Variable baseDelayMs : Z.

Lemma backoff_shift (a : nat) (k : nat) :
  map (fun i => (baseDelayMs * 2 ^ (Z.of_nat a + 1 + Z.of_nat i))%Z) (seq 0 k)
  = map (fun i => (baseDelayMs * 2 ^ (Z.of_nat a + Z.of_nat i))%Z) (seq 1 k).
Proof.
  rewrite <- seq_shift, map_map. apply map_ext. intros i.
  do 2 f_equal. lia.
Qed.

(** Loop invariant for a run of [k] transient failures followed by a
    success, started at any attempt number. *)
Lemma retry_loop_prefix (fn : nat -> attempt_result T E) (v : T) (k : nat) :
  forall (fuel a calls : nat) (slept : list Z),
    (Z.of_nat a + Z.of_nat k <= maxRetries)%Z ->
    (k < fuel)%nat ->
    (forall i, (i < k)%nat ->
       exists e, fn (calls + i)%nat = Failed e /\
                 isTransientError message_of e = true) ->
    fn (calls + k)%nat = Fulfilled v ->
    retry_loop message_of fn maxRetries baseDelayMs fuel (Z.of_nat a) calls slept
    = Some (mkRun (Returned v) (S (calls + k))
              (slept ++ map (fun i => (baseDelayMs * 2 ^ (Z.of_nat a + Z.of_nat i))%Z)
                            (seq 0 k))).
Proof.
  induction k as [|k IH]; intros fuel a calls slept Hle Hfuel Hfail Hok.
  - destruct fuel as [|fuel]; [lia|]. simpl.
    replace (Z.of_nat a <=? maxRetries)%Z with true by (symmetry; apply Z.leb_le; lia).
    rewrite Nat.add_0_r in Hok. rewrite Hok, app_nil_r, Nat.add_0_r. reflexivity.
  - destruct fuel as [|fuel]; [lia|]. simpl retry_loop.
    replace (Z.of_nat a <=? maxRetries)%Z with true by (symmetry; apply Z.leb_le; lia).
    destruct (Hfail 0%nat ltac:(lia)) as (e & He & Htr).
    rewrite Nat.add_0_r in He. rewrite He, Htr.
    replace (Z.of_nat a =? maxRetries)%Z with false by (symmetry; apply Z.eqb_neq; lia).
    simpl orb. cbv iota.
    replace (Z.of_nat a + 1)%Z with (Z.of_nat (S a)) by lia.
    rewrite (IH fuel (S a) (S calls) (slept ++ [(baseDelayMs * 2 ^ Z.of_nat a)%Z])).
    + f_equal. f_equal; [lia|].
      rewrite <- app_assoc. f_equal. simpl app.
      change (seq 0 (S k)) with (0%nat :: seq 1 k). simpl map.
      rewrite Z.add_0_r. f_equal.
      rewrite <- backoff_shift. apply map_ext. intros i. do 2 f_equal. lia.
    + lia.
    + lia.
    + intros i Hi. destruct (Hfail (S i) ltac:(lia)) as (e' & He' & Htr').
      exists e'. split; [|exact Htr'].
      rewrite <- He'. f_equal. lia.
    + rewrite <- Hok. f_equal. lia.
Qed.

(** The loop returns whenever the fuel covers the attempts that remain, and
    it never calls the operation more often than that. *)
Lemma retry_loop_total (fn : nat -> attempt_result T E) :
  forall (fuel : nat) (attempt : Z) (calls : nat) (slept : list Z),
    (Z.to_nat (maxRetries + 2 - attempt) <= fuel)%nat ->
    (0 < fuel)%nat ->
    exists r,
      retry_loop message_of fn maxRetries baseDelayMs fuel attempt calls slept = Some r /\
      (attempts r <= calls + Z.to_nat (maxRetries + 1 - attempt))%nat.
Proof.
  induction fuel as [|fuel IH]; intros attempt calls slept Hfuel Hpos; [lia|].
  simpl. destruct (Z.leb_spec attempt maxRetries) as [Hle|Hgt].
  - destruct (fn calls) as [v|err].
    + eexists; split; [reflexivity|]. simpl. lia.
    + destruct ((attempt =? maxRetries)%Z || negb (isTransientError message_of err)) eqn:Hstop.
      * eexists; split; [reflexivity|]. simpl. lia.
      * apply orb_false_iff in Hstop as [Hne _]. apply Z.eqb_neq in Hne.
        destruct (IH (attempt + 1)%Z (S calls)
                    (slept ++ [(baseDelayMs * 2 ^ attempt)%Z])) as (r & Hr & Hb);
          [lia | lia |].
        exists r. split; [exact Hr|]. lia.
  - eexists; split; [reflexivity|]. simpl. lia.
Qed.

Lemma withRetry_total (fn : nat -> attempt_result T E) :
  exists r,
    withRetry message_of fn maxRetries baseDelayMs = Some r /\
    (attempts r <= Z.to_nat (maxRetries + 1))%nat.
Proof.
  unfold withRetry, withRetry_fuel.
  destruct (retry_loop_total fn (S (Z.to_nat (maxRetries + 1))) 0%Z 0%nat [])
    as (r & Hr & Hb); [lia | lia |].
  exists r. split; [exact Hr|]. rewrite Z.sub_0_r in Hb. lia.
Qed.

End Facts.

Example withRetry_two_timeouts :
  withRetry (fun e : jsstring => e)
    (scripted [Failed (str "connect ETIMEDOUT"); Failed (str "HTTP 503")] 7%Z) 3 5000
  = Some (mkRun (Returned 7%Z) 3 [5000; 10000]%Z).
Proof. vm_compute. reflexivity. Qed.

Example withRetry_non_transient :
  withRetry (fun e : jsstring => e)
    (scripted [Failed (str "syntax error")] 7%Z) 3 5000
  = Some (mkRun (Threw (str "syntax error")) 1 []).
Proof. vm_compute. reflexivity. Qed.

Example withRetry_last_attempt_fails :
  withRetry (fun e : jsstring => e)
    (scripted [Failed (str "Timeout"); Failed (str "socket hang up")] 7%Z) 1 100
  = Some (mkRun (Threw (str "socket hang up")) 2 [100]%Z).
Proof. vm_compute. reflexivity. Qed.

(** C1. If the operation fails with a transient error exactly [k] times,
    [k < maxRetries], and then succeeds, [withRetry] returns that success
    value after [k + 1] calls, having slept exactly the [k] delays
    [baseDelayMs * 2^0, ..., baseDelayMs * 2^(k-1)] in that order; and
    whatever the operation does, [withRetry] settles after at most
    [maxRetries + 1] calls. *)
Theorem withRetry_transient_then_success
  {T E : Type} (message_of : E -> jsstring) (maxRetries baseDelayMs : Z)
  (fn : nat -> attempt_result T E) (k : nat) (v : T) :
  (Z.of_nat k < maxRetries)%Z ->
  (forall i, (i < k)%nat ->
     exists e, fn i = Failed e /\ isTransientError message_of e = true) ->
  fn k = Fulfilled v ->
  (exists r,
     withRetry message_of fn maxRetries baseDelayMs = Some r /\
     result r = Returned v /\
     attempts r = S k /\
     sleeps r = map (backoff baseDelayMs) (seq 0 k)) /\
  (forall fn' : nat -> attempt_result T E,
     exists r',
       withRetry message_of fn' maxRetries baseDelayMs = Some r' /\
       (Z.of_nat (attempts r') <= maxRetries + 1)%Z).
Proof.
  intros Hk Hfail Hok. split.
  - eexists. split.
    + unfold withRetry, withRetry_fuel.
      apply (retry_loop_prefix message_of maxRetries baseDelayMs fn v k _ 0%nat 0%nat []).
      * lia.
      * lia.
      * intros i Hi. exact (Hfail i Hi).
      * exact Hok.
    + simpl. repeat split.
  - intros fn'.
    destruct (withRetry_total message_of maxRetries baseDelayMs fn') as (r' & Hr' & Hb).
    exists r'. split; [exact Hr'|]. lia.
Qed.

Lemma withRetry_transient_then_success_witness :
  (exists r,
     withRetry (fun e : jsstring => e)
       (scripted [Failed (str "connect ETIMEDOUT"); Failed (str "HTTP 503")] 7%Z)
       3 5000 = Some r /\
     result r = Returned 7%Z /\
     attempts r = 3%nat /\
     sleeps r = map (backoff 5000) (seq 0 2)) /\
  (forall fn' : nat -> attempt_result Z jsstring,
     exists r',
       withRetry (fun e : jsstring => e) fn' 3 5000 = Some r' /\
       (Z.of_nat (attempts r') <= 3 + 1)%Z).
Proof.
  apply (withRetry_transient_then_success (fun e : jsstring => e) 3 5000
           (scripted [Failed (str "connect ETIMEDOUT"); Failed (str "HTTP 503")] 7%Z)
           2 7%Z).
  - lia.
  - intros i Hi. destruct i as [|[|i]].
    + exists (str "connect ETIMEDOUT"). split; [reflexivity | vm_compute; reflexivity].
    + exists (str "HTTP 503"). split; [reflexivity | vm_compute; reflexivity].
    + lia.
  - reflexivity.
Defined.

(** *** Every run of [withRetry] *)

Section Runs.
Context {T E : Type}.
Variable message_of : E -> jsstring.
Variable maxRetries : Z.
Variable baseDelayMs : Z.

(** What a finished loop says about the operation: when it was entered at
    attempt [a] with [calls] calls made, then [j] more calls failed with a
    transient error, each followed by its delay, and the call after them
    decided the result. *)
Lemma retry_loop_sound (fn : nat -> attempt_result T E) :
  forall (fuel a calls : nat) (slept : list Z) (r : run T E),
    (Z.of_nat a <= maxRetries)%Z ->
    retry_loop message_of fn maxRetries baseDelayMs fuel (Z.of_nat a) calls slept
    = Some r ->
    exists j : nat,
      attempts r = S (calls + j) /\
      sleeps r = slept ++ map (fun i => backoff baseDelayMs (a + i)) (seq 0 j) /\
      (Z.of_nat (a + j) <= maxRetries)%Z /\
      (forall i, (i < j)%nat ->
         exists e, fn (calls + i)%nat = Failed e /\
                   isTransientError message_of e = true) /\
      match result r with
      | Returned v => fn (calls + j)%nat = Fulfilled v
      | Threw e =>
          fn (calls + j)%nat = Failed e /\
          (Z.of_nat (a + j) = maxRetries \/ isTransientError message_of e = false)
      | ThrewExhausted => False
      end.
Proof.
  induction fuel as [|fuel IH]; intros a calls slept r Ha Hrun; [discriminate|].
  simpl in Hrun.
  replace (Z.of_nat a <=? maxRetries)%Z with true in Hrun
    by (symmetry; apply Z.leb_le; exact Ha).
  destruct (fn calls) as [v|err] eqn:Hfn.
  - injection Hrun as <-. exists 0%nat. simpl. rewrite !Nat.add_0_r, app_nil_r.
    repeat split; [lia | intros i Hi; lia | exact Hfn].
  - destruct ((Z.of_nat a =? maxRetries)%Z || negb (isTransientError message_of err))
      eqn:Hstop.
    + injection Hrun as <-. exists 0%nat. simpl. rewrite !Nat.add_0_r, app_nil_r.
      repeat split; [lia | intros i Hi; lia | exact Hfn |].
      apply orb_true_iff in Hstop as [H|H].
      * left. apply Z.eqb_eq. exact H.
      * right. apply negb_true_iff. exact H.
    + apply orb_false_iff in Hstop as [Hne Htr].
      apply Z.eqb_neq in Hne. apply negb_false_iff in Htr.
      replace (Z.of_nat a + 1)%Z with (Z.of_nat (S a)) in Hrun by lia.
      destruct (IH (S a) (S calls) _ r ltac:(lia) Hrun)
        as (j & Hatt & Hsl & Hle & Hfail & Hres).
      exists (S j). repeat split.
      * rewrite Hatt. f_equal. lia.
      * rewrite Hsl, <- app_assoc. f_equal.
        change (seq 0 (S j)) with (0%nat :: seq 1 j). simpl map. simpl app.
        f_equal; [unfold backoff; rewrite Nat.add_0_r; reflexivity|].
        rewrite <- seq_shift, map_map. apply map_ext. intros i. f_equal. lia.
      * lia.
      * intros i Hi. destruct i as [|i].
        -- exists err. rewrite Nat.add_0_r. split; assumption.
        -- destruct (Hfail i ltac:(lia)) as (e & He & Het). exists e.
           split; [|exact Het]. rewrite <- He. f_equal. lia.
      * replace (calls + S j)%nat with (S calls + j)%nat by lia.
        replace (a + S j)%nat with (S a + j)%nat by lia. exact Hres.
Qed.

Lemma withRetry_sound (fn : nat -> attempt_result T E) :
  (0 <= maxRetries)%Z ->
  exists (r : run T E) (j : nat),
    withRetry message_of fn maxRetries baseDelayMs = Some r /\
    attempts r = S j /\
    sleeps r = map (backoff baseDelayMs) (seq 0 j) /\
    (Z.of_nat j <= maxRetries)%Z /\
    (forall i, (i < j)%nat ->
       exists e, fn i = Failed e /\ isTransientError message_of e = true) /\
    match result r with
    | Returned v => fn j = Fulfilled v
    | Threw e =>
        fn j = Failed e /\
        (Z.of_nat j = maxRetries \/ isTransientError message_of e = false)
    | ThrewExhausted => False
    end.
Proof.
  intros Hmax.
  destruct (withRetry_total message_of maxRetries baseDelayMs fn) as (r & Hr & _).
  exists r. unfold withRetry in Hr.
  destruct (retry_loop_sound fn _ 0%nat 0%nat [] r Hmax Hr)
    as (j & Hatt & Hsl & Hle & Hfail & Hres).
  exists j. repeat split; assumption.
Qed.

Lemma sum_backoff (j : nat) :
  fold_right Z.add 0%Z (map (backoff baseDelayMs) (seq 0 j))
  = (baseDelayMs * (2 ^ Z.of_nat j - 1))%Z.
Proof.
  induction j as [|j IH]; [simpl; lia|].
  rewrite seq_S, map_app, fold_right_app. simpl.
  assert (forall l x, fold_right Z.add x l = (fold_right Z.add 0 l + x)%Z) as Hacc.
  { induction l as [|y l IHl]; intros x; simpl; [lia|]. rewrite (IHl x). lia. }
  rewrite Hacc, IH. unfold backoff.
  replace (Z.of_nat (S j)) with (Z.of_nat j + 1)%Z by lia.
  rewrite Z.pow_add_r by lia. lia.
Qed.

End Runs.

(** X3. A failure that is not retried is rethrown as it is. If the first
    [k] calls fail with a transient error, [k <= maxRetries], and call
    [k] fails with an error that is not transient, or is the last attempt
    allowed ([k = maxRetries]), then [withRetry] throws that very error
    after [k + 1] calls, having slept the [k] delays
    [baseDelayMs * 2^0 .. 2^(k-1)]; a first failure that is not transient
    is thrown without any sleep. *)
Theorem withRetry_rethrows_failure
  {T E : Type} (message_of : E -> jsstring) (maxRetries baseDelayMs : Z)
  (fn : nat -> attempt_result T E) (k : nat) (e : E) :
  (Z.of_nat k <= maxRetries)%Z ->
  (forall i, (i < k)%nat ->
     exists e', fn i = Failed e' /\ isTransientError message_of e' = true) ->
  fn k = Failed e ->
  (Z.of_nat k = maxRetries \/ isTransientError message_of e = false) ->
  withRetry message_of fn maxRetries baseDelayMs
  = Some (mkRun (Threw e) (S k) (map (backoff baseDelayMs) (seq 0 k))).
Proof.
  intros Hk Hfail Hlast Hstop.
  destruct (withRetry_sound message_of maxRetries baseDelayMs fn ltac:(lia))
    as (r & j & Hr & Hatt & Hsl & Hj & Hpre & Hres).
  assert (j = k) as ->.
  { destruct (lt_eq_lt_dec j k) as [[Hlt|Heq]|Hgt]; [|exact Heq|].
    - destruct (Hfail j Hlt) as (e' & He' & Htr).
      destruct (result r) as [v|e0|]; [congruence | | contradiction].
      destruct Hres as [H0 [Hm|Hn]]; [lia|]. congruence.
    - destruct (Hpre k Hgt) as (e' & He' & Htr).
      assert (e' = e) as -> by congruence.
      destruct Hstop as [Hm|Hn]; [lia | congruence]. }
  rewrite Hr. f_equal. destruct r as [res att sl]. simpl in *. subst att sl.
  destruct res as [v|e0|]; [congruence | | contradiction].
  destruct Hres as [H0 _]. f_equal. congruence.
Qed.

Lemma withRetry_rethrows_failure_witness :
  withRetry (fun e : jsstring => e)
    (scripted [Failed (str "Timeout"); Failed (str "relation missing")] 7%Z) 3 5000
  = Some (mkRun (Threw (str "relation missing")) 2 (map (backoff 5000) (seq 0 1))).
Proof.
  apply (withRetry_rethrows_failure (fun e : jsstring => e) 3 5000
           (scripted [Failed (str "Timeout"); Failed (str "relation missing")] 7%Z)
           1 (str "relation missing")).
  - lia.
  - intros i Hi. destruct i as [|i]; [|lia].
    exists (str "Timeout"). split; [reflexivity | vm_compute; reflexivity].
  - reflexivity.
  - right. vm_compute. reflexivity.
Defined.

(** *** [maxRetries] that is not an integer *)

Section Numbers.
Context {T E : Type}.
Variable message_of : E -> jsstring.
Variable maxRetries : number.
Variable baseDelayMs : Z.

(** On integers the loop is the loop of [retry_loop]. *)
Lemma retry_loop_number_Integer (fn : nat -> attempt_result T E) (z : Z) :
  forall (fuel : nat) (attempt : Z) (calls : nat) (slept : list Z),
    retry_loop_number message_of fn (Integer z) baseDelayMs fuel attempt calls slept
    = retry_loop message_of fn z baseDelayMs fuel attempt calls slept.
Proof.
  induction fuel as [|fuel IH]; intros attempt calls slept; [reflexivity|].
  simpl. destruct (attempt <=? z)%Z; [|reflexivity].
  destruct (fn calls) as [v|err]; [reflexivity|].
  destruct (_ || _); [reflexivity|]. apply IH.
Qed.

Lemma le_number_budget (n a : nat) :
  budget maxRetries = Some n ->
  le_number (Z.of_nat a) maxRetries = (a <? n)%nat.
Proof.
  destruct maxRetries as [z|below| | |]; simpl; intros Hn; try discriminate;
    injection Hn as <-.
  - destruct (Z.leb_spec (Z.of_nat a) z), (Nat.ltb_spec a (Z.to_nat (z + 1)));
      try reflexivity; lia.
  - destruct (Z.leb_spec (Z.of_nat a) below), (Nat.ltb_spec a (Z.to_nat (below + 1)));
      try reflexivity; lia.
  - reflexivity.
  - reflexivity.
Qed.

Lemma eq_number_budget (n a : nat) :
  budget maxRetries = Some n ->
  eq_number (Z.of_nat a) maxRetries = true ->
  is_integer maxRetries = true /\ S a = n.
Proof.
  destruct maxRetries as [z|below| | |]; simpl; intros Hn Heq; try discriminate.
  injection Hn as <-. apply Z.eqb_eq in Heq. split; [reflexivity | lia].
Qed.

(** What a finished loop says about the operation: entered at attempt
    [a] with [calls] calls made, it saw [j] more calls fail with a
    transient error, each followed by its delay; then either the next call
    decided the result, or the head of the loop admitted no further turn
    and the throw after the loop was reached. *)
Lemma retry_loop_number_sound (fn : nat -> attempt_result T E) (n : nat) :
  budget maxRetries = Some n ->
  forall (fuel a calls : nat) (slept : list Z) (r : run T E),
    retry_loop_number message_of fn maxRetries baseDelayMs fuel (Z.of_nat a) calls slept
    = Some r ->
    exists j : nat,
      sleeps r = slept ++ map (fun i => backoff baseDelayMs (a + i)) (seq 0 j) /\
      (forall i, (i < j)%nat ->
         (a + i < n)%nat /\
         exists e, fn (calls + i)%nat = Failed e /\
                   isTransientError message_of e = true) /\
      match result r with
      | Returned v =>
          attempts r = S (calls + j) /\ (a + j < n)%nat /\
          fn (calls + j)%nat = Fulfilled v
      | Threw e =>
          attempts r = S (calls + j) /\ (a + j < n)%nat /\
          fn (calls + j)%nat = Failed e /\
          ((is_integer maxRetries = true /\ S (a + j) = n) \/
           isTransientError message_of e = false)
      | ThrewExhausted =>
          attempts r = (calls + j)%nat /\ (n <= a + j)%nat /\
          (0 < j -> is_integer maxRetries = false)%nat
      end.
Proof.
  intros Hn. induction fuel as [|fuel IH]; intros a calls slept r Hrun; [discriminate|].
  simpl in Hrun. rewrite (le_number_budget n a Hn) in Hrun.
  destruct (Nat.ltb_spec a n) as [Hlt|Hge].
  - destruct (fn calls) as [v|err] eqn:Hfn.
    + injection Hrun as <-. exists 0%nat. simpl. rewrite !Nat.add_0_r, app_nil_r.
      split; [reflexivity|]. split; [intros i Hi; lia|]. repeat split; assumption.
    + destruct (eq_number (Z.of_nat a) maxRetries || negb (isTransientError message_of err))
        eqn:Hstop.
      * injection Hrun as <-. exists 0%nat. simpl. rewrite !Nat.add_0_r, app_nil_r.
        split; [reflexivity|]. split; [intros i Hi; lia|].
        split; [reflexivity|]. split; [exact Hlt|]. split; [exact Hfn|].
        apply orb_true_iff in Hstop as [H|H].
        -- left. exact (eq_number_budget n a Hn H).
        -- right. apply negb_true_iff. exact H.
      * apply orb_false_iff in Hstop as [Hne Htr]. apply negb_false_iff in Htr.
        replace (Z.of_nat a + 1)%Z with (Z.of_nat (S a)) in Hrun by lia.
        destruct (IH (S a) (S calls) _ r Hrun) as (j & Hsl & Hfail & Hres).
        exists (S j). split; [|split].
        -- rewrite Hsl, <- app_assoc. f_equal.
           change (seq 0 (S j)) with (0%nat :: seq 1 j). simpl map. simpl app.
           f_equal; [unfold backoff; rewrite Nat.add_0_r; reflexivity|].
           rewrite <- seq_shift, map_map. apply map_ext. intros i. f_equal. lia.
        -- intros i Hi. destruct i as [|i].
           ++ rewrite !Nat.add_0_r. split; [exact Hlt|]. exists err. split; assumption.
           ++ destruct (Hfail i ltac:(lia)) as (Hb & e & He & Het).
              split; [lia|]. exists e. split; [|exact Het]. rewrite <- He. f_equal. lia.
        -- replace (calls + S j)%nat with (S calls + j)%nat by lia.
           replace (a + S j)%nat with (S a + j)%nat by lia.
           destruct (result r) as [v|e0|]; try exact Hres.
           destruct Hres as (H1 & H2 & H3). split; [exact H1|]. split; [exact H2|].
           intros _. destruct j as [|j]; [|apply H3; lia].
           destruct maxRetries as [z| | | |]; try reflexivity.
           simpl in Hn, Hne. injection Hn as <-. apply Z.eqb_neq in Hne. lia.
  - injection Hrun as <-. exists 0%nat. simpl. rewrite !Nat.add_0_r, app_nil_r.
    split; [reflexivity|]. split; [intros i Hi; lia|].
    split; [reflexivity|]. split; [exact Hge|]. intros H. lia.
Qed.

(** The loop ends within the turns the head admits, and more fuel does
    not change its result. *)
Lemma retry_loop_number_total (fn : nat -> attempt_result T E) (n : nat) :
  budget maxRetries = Some n ->
  forall (fuel a calls : nat) (slept : list Z),
    (n - a < fuel)%nat ->
    exists r,
      retry_loop_number message_of fn maxRetries baseDelayMs fuel (Z.of_nat a) calls slept
      = Some r.
Proof.
  intros Hn. induction fuel as [|fuel IH]; intros a calls slept Hfuel; [lia|].
  simpl. rewrite (le_number_budget n a Hn).
  destruct (Nat.ltb_spec a n) as [Hlt|Hge]; [|eexists; reflexivity].
  destruct (fn calls) as [v|err]; [eexists; reflexivity|].
  destruct (_ || _); [eexists; reflexivity|].
  replace (Z.of_nat a + 1)%Z with (Z.of_nat (S a)) by lia.
  apply IH. lia.
Qed.

Lemma retry_loop_number_more_fuel (fn : nat -> attempt_result T E) :
  forall (fuel fuel' : nat) (attempt : Z) (calls : nat) (slept : list Z) (r : run T E),
    retry_loop_number message_of fn maxRetries baseDelayMs fuel attempt calls slept = Some r ->
    (fuel <= fuel')%nat ->
    retry_loop_number message_of fn maxRetries baseDelayMs fuel' attempt calls slept = Some r.
Proof.
  induction fuel as [|fuel IH]; intros fuel' attempt calls slept r Hrun Hle; [discriminate|].
  destruct fuel' as [|fuel']; [lia|]. simpl in Hrun |- *.
  destruct (le_number attempt maxRetries); [|exact Hrun].
  destruct (fn calls) as [v|err]; [exact Hrun|].
  destruct (_ || _); [exact Hrun|]. apply (IH fuel'); [exact Hrun | lia].
Qed.

(** With [maxRetries = Infinity] and an operation that always fails with
    a transient error, the loop is still running after any number of
    turns. *)
Lemma retry_loop_number_forever (fn : nat -> attempt_result T E) :
  maxRetries = Infinity ->
  (forall i, exists e, fn i = Failed e /\ isTransientError message_of e = true) ->
  forall (fuel : nat) (attempt : Z) (calls : nat) (slept : list Z),
    retry_loop_number message_of fn maxRetries baseDelayMs fuel attempt calls slept = None.
Proof.
  intros -> Hfail. induction fuel as [|fuel IH]; intros attempt calls slept; [reflexivity|].
  simpl. destruct (Hfail calls) as (e & -> & ->). simpl. apply IH.
Qed.

End Numbers.

(** [maxRetries = 1.5]: two calls, two sleeps, and the throw the source
    marks as unreachable. *)
Example withRetry_one_and_a_half :
  withRetry_number (fun e : jsstring => e)
    (fun _ => Failed (str "ECONNRESET") : attempt_result Z jsstring) (Fraction 1) 100 3
  = Some (mkRun ThrewExhausted 2 [100; 200]%Z).
Proof. vm_compute. reflexivity. Qed.

Example withRetry_NaN :
  withRetry_number (fun e : jsstring => e)
    (fun _ => Fulfilled 7%Z : attempt_result Z jsstring) NaN 100 1
  = Some (mkRun ThrewExhausted 0 []).
Proof. vm_compute. reflexivity. Qed.

(** X4. The time spent waiting is bounded, for every number as
    [maxRetries] but Infinity and every [baseDelayMs >= 0]. The run ends;
    the i-th sleep lasts [baseDelayMs * 2^i]; there are at most
    [ceiling maxRetries] sleeps ([maxRetries] rounded up, 0 when it is
    negative or NaN), lasting at most
    [baseDelayMs * (2^(ceiling maxRetries) - 1)] ms in all (35 s with the
    default options). A sleep follows every call but the last, except
    when the throw after the loop is reached: then a sleep follows the
    last call too. *)
Theorem withRetry_delay_bound
  {T E : Type} (message_of : E -> jsstring) (maxRetries : number) (baseDelayMs : Z)
  (fn : nat -> attempt_result T E) (n : nat) :
  budget maxRetries = Some n -> (0 <= baseDelayMs)%Z ->
  exists r,
    withRetry_number message_of fn maxRetries baseDelayMs (S n) = Some r /\
    sleeps r = map (backoff baseDelayMs) (seq 0 (length (sleeps r))) /\
    length (sleeps r) = (if exhausted r then attempts r else pred (attempts r)) /\
    (Z.of_nat (length (sleeps r)) <= ceiling maxRetries)%Z /\
    (total_delay r <= baseDelayMs * (2 ^ ceiling maxRetries - 1))%Z.
Proof.
  intros Hn Hbase.
  destruct (retry_loop_number_total message_of maxRetries baseDelayMs fn n Hn
              (S n) 0%nat 0%nat []) as (r & Hr); [lia|].
  exists r. split; [exact Hr|].
  destruct (retry_loop_number_sound message_of maxRetries baseDelayMs fn n Hn
              (S n) 0%nat 0%nat [] r Hr) as (j & Hsl & Hfail & Hres).
  simpl in Hsl.
  assert (length (sleeps r) = j) as Hlen by (rewrite Hsl, length_map, length_seq; reflexivity).
  assert (Z.of_nat j <= ceiling maxRetries)%Z as Hcap.
  { unfold exhausted in *. destruct (result r) as [v|e|].
    - destruct Hres as (_ & Hb & _). simpl in Hb.
      destruct maxRetries; simpl in *; try discriminate; injection Hn as <-; lia.
    - destruct Hres as (_ & Hb & _). simpl in Hb.
      destruct maxRetries; simpl in *; try discriminate; injection Hn as <-; lia.
    - destruct Hres as (_ & Hb & Hint). simpl in Hb.
      destruct j as [|j]; [destruct maxRetries; simpl; lia|].
      destruct (Hfail j ltac:(lia)) as (Hj & _). simpl in Hj.
      specialize (Hint ltac:(lia)).
      destruct maxRetries; simpl in *; try discriminate; injection Hn as <-; lia. }
  rewrite Hlen. split; [exact Hsl|]. split; [|split; [exact Hcap|]].
  - unfold exhausted. destruct (result r) as [v|e|].
    + destruct Hres as (-> & _). reflexivity.
    + destruct Hres as (-> & _). reflexivity.
    + destruct Hres as (-> & _). reflexivity.
  - unfold total_delay. rewrite Hsl, sum_backoff.
    apply Z.mul_le_mono_nonneg_l; [exact Hbase|].
    assert (2 ^ Z.of_nat j <= 2 ^ ceiling maxRetries)%Z; [|lia].
    apply Z.pow_le_mono_r; lia.
Qed.

Lemma withRetry_delay_bound_witness :
  exists r,
    withRetry_number (fun e : jsstring => e)
      (fun _ => Failed (str "ECONNRESET") : attempt_result Z jsstring) (Fraction 1) 100 3
    = Some r /\
    sleeps r = map (backoff 100) (seq 0 (length (sleeps r))) /\
    length (sleeps r) = (if exhausted r then attempts r else pred (attempts r)) /\
    (Z.of_nat (length (sleeps r)) <= 2)%Z /\
    (total_delay r <= 100 * (2 ^ 2 - 1))%Z.
Proof.
  apply (withRetry_delay_bound (fun e : jsstring => e) (Fraction 1) 100
           (fun _ => Failed (str "ECONNRESET")) 2); [reflexivity | lia].
Defined.

(** X5. How [withRetry] settles, for every number as [maxRetries]. When
    [maxRetries] is not Infinity the run ends, with the same result
    whatever the fuel beyond the turns the loop head admits. The throw
    after the loop ("failed after N retries", marked unreachable in the
    source) is reached exactly when the head admits no turn at all
    ([maxRetries] negative or NaN), the operation then being never called,
    or when [maxRetries] is not an integer and every admitted call failed
    with a transient error. In every other case the value returned, or the
    error thrown, is that of the last call made, and every call before it
    failed with a transient error. With [maxRetries = Infinity] and an
    operation that always fails with a transient error the loop never
    ends. *)
Theorem withRetry_outcome_is_last_call
  {T E : Type} (message_of : E -> jsstring) (maxRetries : number) (baseDelayMs : Z)
  (fn : nat -> attempt_result T E) :
  (forall n, budget maxRetries = Some n ->
     exists r,
       (forall fuel, (n < fuel)%nat ->
          withRetry_number message_of fn maxRetries baseDelayMs fuel = Some r) /\
       (result r = ThrewExhausted <->
        n = 0%nat \/
        (is_integer maxRetries = false /\
         forall i, (i < n)%nat ->
           exists e, fn i = Failed e /\ isTransientError message_of e = true)) /\
       (result r = ThrewExhausted -> attempts r = n) /\
       (forall v, result r = Returned v -> fn (pred (attempts r)) = Fulfilled v) /\
       (forall e, result r = Threw e -> fn (pred (attempts r)) = Failed e) /\
       (forall i, (S i < attempts r)%nat ->
          exists e, fn i = Failed e /\ isTransientError message_of e = true)) /\
  (maxRetries = Infinity ->
   (forall i, exists e, fn i = Failed e /\ isTransientError message_of e = true) ->
   forall fuel, withRetry_number message_of fn maxRetries baseDelayMs fuel = None).
Proof.
  split.
  - intros n Hn.
    destruct (retry_loop_number_total message_of maxRetries baseDelayMs fn n Hn
                (S n) 0%nat 0%nat []) as (r & Hr); [lia|].
    exists r. split.
    { intros fuel Hfuel. unfold withRetry_number.
      apply (retry_loop_number_more_fuel message_of maxRetries baseDelayMs fn (S n));
        [exact Hr | lia]. }
    destruct (retry_loop_number_sound message_of maxRetries baseDelayMs fn n Hn
                (S n) 0%nat 0%nat [] r Hr) as (j & _ & Hfail & Hres).
    simpl in Hfail, Hres.
    destruct (result r) as [v|e|] eqn:Hresult.
    + destruct Hres as (Hatt & Hb & Hfn). rewrite Hatt. simpl pred.
      split; [|split; [discriminate|split; [|split; [discriminate|]]]].
      * split; [discriminate|]. intros [->|(_ & Hall)]; [lia|].
        destruct (Hall j Hb) as (e & He & _). congruence.
      * intros v' Hv. injection Hv as <-. exact Hfn.
      * intros i Hi. apply Hfail. lia.
    + destruct Hres as (Hatt & Hb & Hfn & Hwhy). rewrite Hatt. simpl pred.
      split; [|split; [discriminate|split; [discriminate|split]]].
      * split; [discriminate|]. intros [->|(Hint & Hall)]; [lia|].
        destruct Hwhy as [(Hint' & _)|Hnt]; [congruence|].
        destruct (Hall j Hb) as (e' & He' & Htr). congruence.
      * intros e' He'. injection He' as <-. exact Hfn.
      * intros i Hi. apply Hfail. lia.
    + destruct Hres as (Hatt & Hb & Hint). rewrite Hatt.
      assert (j = n) as ->.
      { destruct j as [|j]; [lia|]. destruct (Hfail j ltac:(lia)) as (Hj & _). lia. }
      split; [|split; [reflexivity|split; [discriminate|split; [discriminate|]]]].
      * split; [|reflexivity]. intros _.
        destruct n as [|n]; [left; reflexivity|]. right.
        split; [apply Hint; lia|]. intros i Hi. apply Hfail. exact Hi.
      * intros i Hi. apply Hfail. lia.
  - intros Hinf Hfail fuel. unfold withRetry_number.
    apply retry_loop_number_forever; assumption.
Qed.

Lemma starts_with_app (pat s post : jsstring) :
  starts_with pat s = true -> starts_with pat (s ++ post) = true.
Proof.
  revert s. induction pat as [|p pr IH]; intros s; [reflexivity|].
  destruct s as [|c r]; simpl; [discriminate|].
  intros H. apply andb_true_iff in H as [Hc Hr].
  rewrite Hc. simpl. exact (IH r Hr).
Qed.

Lemma includes_nil (s : jsstring) : includes s [] = true.
Proof. destruct s; reflexivity. Qed.

(** A pattern found in a string is found in every string around it. *)
Lemma includes_context (pre s post pat : jsstring) :
  includes s pat = true -> includes (pre ++ s ++ post) pat = true.
Proof.
  intros Hs. induction pre as [|c pre IH].
  - simpl app. induction s as [|x r IHr].
    + simpl in Hs. destruct pat; [apply includes_nil | discriminate].
    + simpl in Hs |- *. apply orb_true_iff in Hs as [H|H].
      * change (x :: r ++ post) with ((x :: r) ++ post).
        rewrite (starts_with_app pat (x :: r) post H). reflexivity.
      * rewrite (IHr H). apply orb_true_r.
  - simpl. rewrite IH. apply orb_true_r.
Qed.

(** X6. Wrapping an error keeps it retryable. The ten patterns are
    searched anywhere in the message, so an error whose message embeds
    the message of a transient error (with any text before and after) is
    transient as well. *)
Theorem isTransientError_in_context
  {E : Type} (message_of : E -> jsstring) (e e' : E) (pre post : jsstring) :
  isTransientError message_of e = true ->
  message_of e' = pre ++ message_of e ++ post ->
  isTransientError message_of e' = true.
Proof.
  unfold isTransientError. intros He Hmsg.
  apply existsb_exists in He as (p & Hp & Htest).
  apply existsb_exists. exists p. split; [exact Hp|].
  unfold pattern_test in *. rewrite Hmsg.
  destruct (snd p).
  - unfold includes_ci in *. rewrite !map_app. apply includes_context. exact Htest.
  - apply includes_context. exact Htest.
Qed.

Lemma isTransientError_in_context_witness :
  isTransientError (fun e : jsstring => e)
    (str "query failed: connect etimedout 10.0.0.5:5432 (attempt 1)") = true.
Proof.
  apply (isTransientError_in_context (fun e : jsstring => e)
           (str "connect etimedout")
           (str "query failed: connect etimedout 10.0.0.5:5432 (attempt 1)")
           (str "query failed: ") (str " 10.0.0.5:5432 (attempt 1)")).
  - vm_compute. reflexivity.
  - reflexivity.
Defined.

End RetryFacts.
(** ** Sliding-window rate limiter *)

Module RateLimitFacts.
Import RateLimit.

Lemma evict_suffix now ts :
  exists pre, ts = pre ++ evict now ts /\ Forall (fun t => in_window now t = false) pre.
Proof.
  induction ts as [|t rest IH]; simpl.
  - exists []. split; [reflexivity | constructor].
  - destruct (t <=? now - RATE_LIMIT_WINDOW_MS)%Z eqn:Ht.
    + destruct IH as (pre & Heq & Hall). exists (t :: pre). split.
      * simpl. f_equal. exact Heq.
      * constructor; [unfold in_window; rewrite Ht; reflexivity | exact Hall].
    + exists []. split; [reflexivity | constructor].
Qed.

Lemma evict_length now ts : (length (evict now ts) <= length ts)%nat.
Proof.
  destruct (evict_suffix now ts) as (pre & Heq & _).
  rewrite Heq at 2. rewrite length_app. lia.
Qed.

Lemma filter_window_length now ts :
  (length (List.filter (in_window now) ts) <= length ts)%nat.
Proof.
  induction ts as [|t rest IH]; simpl; [lia|].
  destruct (in_window now t); simpl; lia.
Qed.

Lemma evict_keeps_window now ts :
  (length (List.filter (in_window now) ts) <= length (evict now ts))%nat.
Proof.
  induction ts as [|t rest IH]; simpl; [lia|].
  unfold in_window at 1.
  destruct (t <=? now - RATE_LIMIT_WINDOW_MS)%Z eqn:Ht; simpl.
  - exact IH.
  - pose proof (filter_window_length now rest). lia.
Qed.

Lemma checkRateLimit_length now ts :
  (length ts <= RATE_LIMIT_MAX)%nat ->
  (length (snd (checkRateLimit now ts)) <= RATE_LIMIT_MAX)%nat.
Proof.
  intros Hlen. unfold checkRateLimit.
  pose proof (evict_length now ts) as He.
  destruct (Nat.leb_spec RATE_LIMIT_MAX (length (evict now ts))); simpl.
  - lia.
  - rewrite length_app. simpl. lia.
Qed.

(** The array never holds more than [RATE_LIMIT_MAX] entries. *)
Lemma reachable_length ts : reachable ts -> (length ts <= RATE_LIMIT_MAX)%nat.
Proof.
  induction 1 as [|now ts _ IH].
  - simpl. unfold RATE_LIMIT_MAX. lia.
  - apply checkRateLimit_length. exact IH.
Qed.

Lemma reachable_calls nows : reachable (snd (calls nows [])).
Proof.
  assert (forall ts, reachable ts -> reachable (snd (calls nows ts))) as H.
  { induction nows as [|now rest IH]; intros ts Hts; simpl; [exact Hts|].
    pose proof (reach_call now ts Hts) as Hstep.
    destruct (checkRateLimit now ts) as [ok ts1]. simpl in Hstep.
    specialize (IH ts1 Hstep).
    destruct (calls rest ts1) as [oks ts2]. exact IH. }
  apply H. constructor.
Qed.

(** With the budget used up inside the window the call is refused and the
    array is left exactly as it was. *)
Lemma checkRateLimit_refuses now ts :
  reachable ts ->
  length (List.filter (in_window now) ts) = RATE_LIMIT_MAX ->
  checkRateLimit now ts = (false, ts).
Proof.
  intros Hreach Hfull.
  pose proof (reachable_length ts Hreach) as Hlen.
  pose proof (evict_keeps_window now ts) as Hkeep.
  destruct (evict_suffix now ts) as (pre & Heq & _).
  assert (length ts = length pre + length (evict now ts))%nat as Hsplit
    by (rewrite Heq at 1; apply length_app).
  assert (pre = []) as -> by (destruct pre; [reflexivity | simpl in Hsplit; lia]).
  simpl in Heq. unfold checkRateLimit. rewrite <- Heq.
  destruct (Nat.leb_spec RATE_LIMIT_MAX (length ts)); [reflexivity | lia].
Qed.

(** Once the oldest entry has left the window it is evicted and the call
    is admitted. *)
Lemma checkRateLimit_resumes now t0 rest :
  reachable (t0 :: rest) ->
  (t0 <= now - RATE_LIMIT_WINDOW_MS)%Z ->
  checkRateLimit now (t0 :: rest) = (true, evict now rest ++ [now]).
Proof.
  intros Hreach Hold.
  pose proof (reachable_length _ Hreach) as Hlen. simpl in Hlen.
  pose proof (evict_length now rest) as He.
  unfold checkRateLimit. simpl evict.
  replace (t0 <=? now - RATE_LIMIT_WINDOW_MS)%Z with true
    by (symmetry; apply Z.leb_le; exact Hold).
  destruct (Nat.leb_spec RATE_LIMIT_MAX (length (evict now rest))); [lia | reflexivity].
Qed.

Lemma checkRateLimit_admit_appends now ts ts' :
  checkRateLimit now ts = (true, ts') -> ts' = evict now ts ++ [now].
Proof.
  unfold checkRateLimit.
  destruct (RATE_LIMIT_MAX <=? length (evict now ts))%nat; intros H; inversion H.
  reflexivity.
Qed.

Lemma checkRateLimit_refuse_no_append now ts ts' :
  checkRateLimit now ts = (false, ts') -> ts' = evict now ts.
Proof.
  unfold checkRateLimit.
  destruct (RATE_LIMIT_MAX <=? length (evict now ts))%nat; intros H; inversion H.
  reflexivity.
Qed.

Ltac keep_head :=
  match goal with
  | |- context [(?t <=? ?n - RATE_LIMIT_WINDOW_MS)%Z] =>
      replace (t <=? n - RATE_LIMIT_WINDOW_MS)%Z with false
        by (symmetry; apply Z.leb_gt; lia)
  end.

(** Six calls inside one window, starting from the empty array: five are
    admitted, the sixth is refused. *)
Lemma sixth_call_refused n1 n2 n3 n4 n5 n6 :
  (n2 - RATE_LIMIT_WINDOW_MS < n1)%Z -> (n3 - RATE_LIMIT_WINDOW_MS < n1)%Z ->
  (n4 - RATE_LIMIT_WINDOW_MS < n1)%Z -> (n5 - RATE_LIMIT_WINDOW_MS < n1)%Z ->
  (n6 - RATE_LIMIT_WINDOW_MS < n1)%Z ->
  calls [n1; n2; n3; n4; n5; n6] []
  = ([true; true; true; true; true; false], [n1; n2; n3; n4; n5]).
Proof.
  intros H2 H3 H4 H5 H6.
  unfold calls, checkRateLimit. simpl evict at 1. simpl.
  repeat (keep_head; simpl).
  reflexivity.
Qed.

Example rate_limit_burst :
  calls [0; 10; 20; 30; 40; 50; 59999; 60000; 60005]%Z []
  = ([true; true; true; true; true; false; false; true; false],
     [10; 20; 30; 40; 60000]%Z).
Proof. vm_compute. reflexivity. Qed.

(** C2. Sliding-window limiter with 5 admissions per 60 000 ms.
    (1) When the array holds 5 admissions inside the window, the call
        returns false and the array is unchanged.
    (2) When the oldest entry lies outside the window, it is evicted and
        the call returns true.
    (3) A call that returns true appends exactly its own timestamp to the
        evicted array; a call that returns false appends nothing.
    (4) From the empty array, of six calls inside one window the first
        five return true and the sixth returns false. *)
Theorem checkRateLimit_sliding_window :
  (forall now ts,
     reachable ts ->
     length (List.filter (in_window now) ts) = RATE_LIMIT_MAX ->
     checkRateLimit now ts = (false, ts)) /\
  (forall now t0 rest,
     reachable (t0 :: rest) ->
     in_window now t0 = false ->
     checkRateLimit now (t0 :: rest) = (true, evict now rest ++ [now])) /\
  (forall now ts ok ts',
     checkRateLimit now ts = (ok, ts') ->
     ts' = evict now ts ++ (if ok then [now] else [])) /\
  (forall n1 n2 n3 n4 n5 n6,
     (n2 - RATE_LIMIT_WINDOW_MS < n1)%Z -> (n3 - RATE_LIMIT_WINDOW_MS < n1)%Z ->
     (n4 - RATE_LIMIT_WINDOW_MS < n1)%Z -> (n5 - RATE_LIMIT_WINDOW_MS < n1)%Z ->
     (n6 - RATE_LIMIT_WINDOW_MS < n1)%Z ->
     fst (calls [n1; n2; n3; n4; n5; n6] []) = [true; true; true; true; true; false]).
Proof.
  split; [|split; [|split]].
  - exact checkRateLimit_refuses.
  - intros now t0 rest Hreach Hout. apply checkRateLimit_resumes; [exact Hreach|].
    unfold in_window in Hout. apply negb_false_iff in Hout. apply Z.leb_le. exact Hout.
  - intros now ts [|] ts' H.
    + apply checkRateLimit_admit_appends. exact H.
    + rewrite app_nil_r. apply checkRateLimit_refuse_no_append. exact H.
  - intros. rewrite sixth_call_refused by assumption. reflexivity.
Qed.

Lemma checkRateLimit_sliding_window_witness :
  checkRateLimit 50000 [1000; 20000; 30000; 40000; 45000]%Z
    = (false, [1000; 20000; 30000; 40000; 45000]%Z) /\
  checkRateLimit 61000 [1000; 20000; 30000; 40000; 45000]%Z
    = (true, [20000; 30000; 40000; 45000; 61000]%Z) /\
  fst (calls [0; 1; 2; 3; 4; 5]%Z []) = [true; true; true; true; true; false].
Proof.
  assert (reachable [1000; 20000; 30000; 40000; 45000]%Z) as Hreach
    by exact (reachable_calls [1000; 20000; 30000; 40000; 45000]%Z).
  destruct checkRateLimit_sliding_window as (Hfull & Hold & _ & Hsix).
  split; [|split].
  - apply (Hfull 50000%Z _ Hreach). reflexivity.
  - apply (Hold 61000%Z 1000%Z _ Hreach). reflexivity.
  - apply (Hsix 0 1 2 3 4 5)%Z; unfold RATE_LIMIT_WINDOW_MS; lia.
Defined.

(** *** The limiter over a whole run *)

Lemma admitted_app pre post ts :
  admitted (pre ++ post) ts
  = admitted pre ts ++ admitted post (snd (calls pre ts)).
Proof.
  revert ts. induction pre as [|now rest IH]; intros ts; simpl; [reflexivity|].
  destruct (checkRateLimit now ts) as [ok ts1].
  rewrite IH. destruct (calls rest ts1) as [oks ts2]. simpl.
  rewrite app_assoc. reflexivity.
Qed.

Lemma admitted_In nows ts u : In u (admitted nows ts) -> In u nows.
Proof.
  revert ts. induction nows as [|now rest IH]; intros ts; simpl; [tauto|].
  destruct (checkRateLimit now ts) as [ok ts1].
  rewrite in_app_iff. intros [H|H].
  - destruct ok; simpl in H; [left; tauto | tauto].
  - right. exact (IH _ H).
Qed.

Lemma monotone_ge prev nows u : monotone prev nows -> In u nows -> (prev <= u)%Z.
Proof.
  revert prev. induction nows as [|now rest IH]; intros prev; simpl; [tauto|].
  intros [Hle Hrest] [ -> | Hin]; [exact Hle|].
  specialize (IH _ Hrest Hin). lia.
Qed.

Lemma last_cons (x : Z) r d : List.last (x :: r) d = List.last r x.
Proof.
  revert x d. induction r as [|y r IH]; intros x d; [reflexivity|].
  change (List.last (y :: r) d = List.last (y :: r) x).
  rewrite !IH. reflexivity.
Qed.

Lemma monotone_last prev nows :
  monotone prev nows -> (prev <= List.last nows prev)%Z.
Proof.
  revert prev. induction nows as [|now rest IH]; intros prev; [simpl; lia|].
  intros [Hle Hrest]. rewrite last_cons. specialize (IH _ Hrest). lia.
Qed.

(** Readings in clock order split at any instant [s]. *)
Lemma monotone_split prev nows s :
  monotone prev nows ->
  exists pre post,
    nows = pre ++ post /\ monotone prev pre /\
    Forall (fun u => (u <= s)%Z) pre /\ Forall (fun u => (s < u)%Z) post.
Proof.
  revert prev. induction nows as [|now rest IH]; intros prev Hm.
  - exists [], []. repeat split; constructor.
  - destruct Hm as [Hle Hrest]. destruct (Z.le_gt_cases now s) as [Hs|Hs].
    + destruct (IH _ Hrest) as (pre & post & -> & Hpre & Hall & Hpost).
      exists (now :: pre), post. repeat split; try assumption.
      constructor; assumption.
    + exists [], (now :: rest). repeat split; [constructor|].
      apply List.Forall_forall. intros u Hu.
      pose proof (monotone_ge now (now :: rest) u) as H.
      simpl in H. specialize (H (conj (Z.le_refl _) Hrest)).
      destruct Hu as [ -> | Hu]; [lia|]. specialize (H (or_intror Hu)). lia.
Qed.

Lemma filter_all (f : Z -> bool) l :
  Forall (fun u => f u = true) l -> List.filter f l = l.
Proof.
  induction 1 as [|u l Hu _ IH]; simpl; [reflexivity|].
  rewrite Hu, IH. reflexivity.
Qed.

Lemma filter_none (f : Z -> bool) l :
  Forall (fun u => f u = false) l -> List.filter f l = [].
Proof.
  induction 1 as [|u l Hu _ IH]; simpl; [reflexivity|].
  rewrite Hu, IH. reflexivity.
Qed.

(** On an array in clock order the eviction loop keeps exactly the
    entries inside the window. *)
Lemma evict_ascending now ts :
  ascending ts -> evict now ts = List.filter (in_window now) ts.
Proof.
  induction ts as [|t rest IH]; [reflexivity|].
  intros [Hle Hasc]. simpl. unfold in_window at 1.
  destruct (Z.leb_spec t (now - RATE_LIMIT_WINDOW_MS)) as [Ht|Ht]; simpl.
  - apply IH. exact Hasc.
  - f_equal. symmetry. apply filter_all.
    eapply List.Forall_impl; [|exact Hle]. intros u Hu. simpl in Hu. unfold in_window.
    apply negb_true_iff, Z.leb_gt. lia.
Qed.

Lemma ascending_suffix pre ts : ascending (pre ++ ts) -> ascending ts.
Proof.
  induction pre as [|p pre IH]; simpl; [tauto|]. intros [_ H]. exact (IH H).
Qed.

Lemma ascending_snoc ts now :
  ascending ts -> Forall (fun u => (u <= now)%Z) ts -> ascending (ts ++ [now]).
Proof.
  induction ts as [|t rest IH]; simpl.
  - intros _ _. split; constructor.
  - intros [Hle Hasc] Hall. inversion Hall as [|? ? Ht Hrest]; subst. split.
    + apply Forall_app. split; [exact Hle | constructor; [exact Ht | constructor]].
    + apply IH; assumption.
Qed.

(** One call keeps the array the tail of the log. *)
Lemma checkRateLimit_tail_of_log log ts last now :
  tail_of_log log ts last -> (last <= now)%Z ->
  tail_of_log (log ++ (if fst (checkRateLimit now ts) then [now] else []))
              (snd (checkRateLimit now ts)) now.
Proof.
  intros ((dropped & -> & Hdrop) & Hasc & Hall) Hle.
  destruct (evict_suffix now ts) as (pre & Heq & Hpre).
  assert (Forall (fun u => in_window now u = false) (dropped ++ pre)) as Hd'.
  { apply Forall_app. split; [|exact Hpre].
    eapply List.Forall_impl; [|exact Hdrop]. intros u Hu. simpl in Hu.
    unfold in_window in *. apply negb_false_iff, Z.leb_le in Hu.
    apply negb_false_iff, Z.leb_le. lia. }
  assert (ascending (evict now ts)) as Hasc'
    by (rewrite Heq in Hasc; exact (ascending_suffix _ _ Hasc)).
  assert (Forall (fun u => (u <= now)%Z) (evict now ts)) as Hall'.
  { rewrite Heq in Hall. apply Forall_app in Hall. destruct Hall as [_ Hall].
    eapply List.Forall_impl; [|exact Hall]. intros u Hu. simpl in Hu. lia. }
  unfold checkRateLimit.
  destruct (RATE_LIMIT_MAX <=? length (evict now ts))%nat; simpl.
  - split; [|split; assumption].
    exists (dropped ++ pre). split; [|exact Hd'].
    rewrite app_nil_r, <- app_assoc, <- Heq. reflexivity.
  - split; [|split].
    + exists (dropped ++ pre). split; [|exact Hd'].
      rewrite <- !app_assoc. f_equal. rewrite app_assoc, <- Heq. reflexivity.
    + apply ascending_snoc; assumption.
    + apply Forall_app. split; [exact Hall' | constructor; [lia | constructor]].
Qed.

(** A run of calls in clock order keeps it so. *)
Lemma calls_tail_of_log nows :
  forall log ts last,
    tail_of_log log ts last -> monotone last nows ->
    tail_of_log (log ++ admitted nows ts) (snd (calls nows ts))
                (List.last nows last).
Proof.
  induction nows as [|now rest IH]; intros log ts last Hinv Hm.
  - simpl. rewrite app_nil_r. exact Hinv.
  - destruct Hm as [Hle Hrest].
    pose proof (checkRateLimit_tail_of_log log ts last now Hinv Hle) as Hstep.
    cbn [admitted calls]. destruct (checkRateLimit now ts) as [ok ts1].
    cbn [fst snd] in Hstep.
    specialize (IH _ _ _ Hstep Hrest).
    destruct (calls rest ts1) as [oks ts2]. cbn [snd] in *.
    rewrite <- app_assoc in IH.
    rewrite last_cons. exact IH.
Qed.

Lemma tail_of_log_init last : tail_of_log [] [] last.
Proof.
  split; [|split; [exact I | constructor]].
  exists []. split; [reflexivity | constructor].
Qed.

(** X1. Safety of the limiter. For calls made at clock readings that
    never go back, starting from the empty array, no window of 60 000 ms
    holds more than 5 admitted calls: whatever the instant [s], at most
    [RATE_LIMIT_MAX] admissions have a timestamp in (s - 60000, s]. *)
Theorem rate_limit_window_safety prev nows s :
  monotone prev nows ->
  (length (List.filter (in_window_ending s) (admitted nows []))
   <= RATE_LIMIT_MAX)%nat.
Proof.
  intros Hm.
  destruct (monotone_split prev nows s Hm) as (pre & post & -> & Hpre & Hle & Hgt).
  rewrite admitted_app, List.filter_app, length_app.
  assert (List.filter (in_window_ending s)
            (admitted post (snd (calls pre []))) = []) as ->.
  { apply filter_none. apply List.Forall_forall. intros u Hu.
    apply admitted_In in Hu.
    rewrite List.Forall_forall in Hgt. specialize (Hgt _ Hu).
    unfold in_window_ending. apply andb_false_iff. right. apply Z.leb_gt. exact Hgt. }
  simpl. rewrite Nat.add_0_r.
  pose proof (calls_tail_of_log pre [] [] prev (tail_of_log_init prev) Hpre)
    as ((dropped & Hlog & Hdrop) & _ & _).
  simpl in Hlog. rewrite Hlog.
  pose proof (reachable_length _ (reachable_calls pre)) as Hlen.
  destruct pre as [|p pre'].
  { destruct dropped; [|discriminate Hlog]. simpl. unfold RATE_LIMIT_MAX. lia. }
  assert (List.last (p :: pre') prev <= s)%Z as Hlast.
  { rewrite List.Forall_forall in Hle. apply Hle.
    pose proof (@exists_last _ (p :: pre')) as [l' [a Ha]]; [discriminate|].
    rewrite Ha, last_last. apply in_app_iff. right. left. reflexivity. }
  rewrite List.filter_app, length_app.
  rewrite (filter_none (in_window_ending s) dropped).
  - cbn [length Nat.add].
    pose proof (List.filter_length_le (in_window_ending s)
                  (snd (calls (p :: pre') []))). lia.
  - eapply List.Forall_impl; [|exact Hdrop]. intros u Hu. cbv beta in Hu.
    unfold in_window_ending, in_window in *.
    apply negb_false_iff, Z.leb_le in Hu.
    apply andb_false_iff. left. apply negb_false_iff, Z.leb_le. lia.
Qed.

Lemma rate_limit_window_safety_witness :
  monotone 0 [0; 10; 20; 30; 40; 50; 59999; 60000; 60005]%Z /\
  (length (List.filter (in_window_ending 60009)
             (admitted [0; 10; 20; 30; 40; 50; 59999; 60000; 60005]%Z []))
   <= RATE_LIMIT_MAX)%nat.
Proof.
  assert (monotone 0 [0; 10; 20; 30; 40; 50; 59999; 60000; 60005]%Z) as Hm
    by (simpl; lia).
  split; [exact Hm|].
  exact (rate_limit_window_safety 0 _ 60009 Hm).
Defined.

(** X2. The limiter is exact. For calls made at clock readings that never
    go back, starting from the empty array, a call is admitted if and only
    if fewer than 5 of the calls admitted before it have a timestamp
    inside the 60 000 ms window of that call. *)
Theorem rate_limit_admits_iff_budget prev pre now :
  monotone prev (pre ++ [now]) ->
  fst (checkRateLimit now (snd (calls pre []))) = true <->
  (length (List.filter (in_window now) (admitted pre [])) < RATE_LIMIT_MAX)%nat.
Proof.
  intros Hm.
  assert (monotone prev pre /\ (List.last pre prev <= now)%Z) as [Hpre Hlast].
  { clear -Hm. revert prev Hm. induction pre as [|p pre IH]; intros prev Hm.
    - simpl in *. tauto.
    - destruct Hm as [Hle Hrest]. destruct (IH _ Hrest) as [H1 H2].
      split; [split; assumption|]. rewrite last_cons. exact H2. }
  pose proof (calls_tail_of_log pre [] [] prev (tail_of_log_init prev) Hpre)
    as ((dropped & Hlog & Hdrop) & Hasc & _).
  simpl in Hlog. rewrite Hlog, List.filter_app, length_app.
  rewrite (filter_none (in_window now) dropped).
  - rewrite <- evict_ascending by exact Hasc. simpl.
    unfold checkRateLimit.
    destruct (Nat.leb_spec RATE_LIMIT_MAX
                (length (evict now (snd (calls pre []))))); simpl.
    + split; [discriminate | lia].
    + split; [intros _; assumption | reflexivity].
  - eapply List.Forall_impl; [|exact Hdrop]. intros u Hu. simpl in Hu.
    unfold in_window in *. apply negb_false_iff, Z.leb_le in Hu.
    apply negb_false_iff, Z.leb_le. lia.
Qed.

Lemma rate_limit_admits_iff_budget_witness :
  monotone 0 ([0; 10; 20; 30; 40; 50; 59999] ++ [60000])%Z /\
  (fst (checkRateLimit 60000 (snd (calls [0; 10; 20; 30; 40; 50; 59999]%Z [])))
   = true <->
   (length (List.filter (in_window 60000)
              (admitted [0; 10; 20; 30; 40; 50; 59999]%Z [])) < RATE_LIMIT_MAX)%nat).
Proof.
  assert (monotone 0 ([0; 10; 20; 30; 40; 50; 59999] ++ [60000])%Z) as Hm
    by (simpl; lia).
  split; [exact Hm|].
  exact (rate_limit_admits_iff_budget 0 _ 60000 Hm).
Defined.

End RateLimitFacts.

(** ** Team chain *)

Module ChainFacts.
Import JS Chain.

Section Facts.
Context {AgentDescriptor : Type}.
Variable agents : gmap agent_id AgentDescriptor.
Variable invoke : AgentDescriptor -> jsstring -> jsstring.

(** The member loop over a non-empty list of configured members. *)
Lemma steps_configured (rest : list agent_id) :
  forall (m : agent_id) (i : nat) (cur : jsstring),
    Forall (fun x => is_Some (agents !! x)) (m :: rest) ->
    exists evs out,
      steps agents invoke i (m :: rest) cur = (evs, ChainDone out) /\
      length (List.filter is_step_done evs) = S (length rest) /\
      length (List.filter is_handoff evs) = length rest /\
      List.filter is_chain_ended evs = [] /\
      omap kind_of evs
        = concat (replicate (length rest) [KStepDone; KHandoff]) ++ [KStepDone] /\
      omap step_done_agent evs = m :: rest /\
      omap handoff_of evs = consecutive i (m :: rest).
Proof.
  induction rest as [|m' rest IH]; intros m i cur Hall.
  - apply Forall_cons in Hall as [[a Ha] _].
    exists [StepStarted m i; StepDone m (invoke a cur)], (invoke a cur).
    simpl. rewrite Ha. simpl. repeat split; reflexivity.
  - apply Forall_cons in Hall as [[a Ha] Hrest].
    destruct (IH m' (S i) (invoke a cur) Hrest)
      as (evs & out & Heq & Hsd & Hho & Hce & Hk & Hag & Hpairs).
    exists (StepStarted m i :: StepDone m (invoke a cur) :: Handoff m m' i :: evs), out.
    split.
    { change (steps agents invoke i (m :: m' :: rest) cur)
        with (match agents !! m with
              | None => ([], ChainFailed m)
              | Some a0 =>
                  let '(evs0, res) :=
                    steps agents invoke (S i) (m' :: rest) (invoke a0 cur) in
                  (StepStarted m i :: StepDone m (invoke a0 cur)
                     :: [Handoff m m' i] ++ evs0, res)
              end).
      rewrite Ha, Heq. reflexivity. }
    repeat split.
    + simpl. rewrite Hsd. reflexivity.
    + simpl. rewrite Hho. reflexivity.
    + simpl. exact Hce.
    + simpl. do 2 f_equal. exact Hk.
    + simpl. f_equal. exact Hag.
    + simpl. f_equal. exact Hpairs.
Qed.

Lemma filter_bool_app {A} (f : A -> bool) (l1 l2 : list A) :
  List.filter f (l1 ++ l2) = List.filter f l1 ++ List.filter f l2.
Proof. induction l1 as [|x l1 IH]; simpl; [reflexivity|]. destruct (f x); simpl; congruence. Qed.

Lemma run_chain_configured (team : TeamDescriptor) (payload : jsstring) :
  members team <> [] ->
  Forall (fun x => is_Some (agents !! x)) (members team) ->
  exists evs out,
    steps agents invoke 0 (members team) payload = (evs, ChainDone out) /\
    run_chain agents invoke team payload
    = (ChainStarted (team_id team) (members team)
         :: evs ++ [ChainEnded (team_id team) (members team)], ChainDone out) /\
    length (List.filter is_step_done evs) = length (members team) /\
    length (List.filter is_handoff evs) = (length (members team) - 1)%nat /\
    List.filter is_chain_ended evs = [] /\
    omap kind_of evs
      = concat (replicate (length (members team) - 1) [KStepDone; KHandoff])
        ++ [KStepDone] /\
    omap step_done_agent evs = members team /\
    omap handoff_of evs = consecutive 0 (members team).
Proof.
  intros Hne Hall. unfold run_chain.
  destruct (members team) as [|m rest] eqn:Hms; [congruence|].
  destruct (steps_configured rest m 0 payload Hall)
    as (evs & out & Heq & Hsd & Hho & Hce & Hk & Hag & Hpairs).
  exists evs, out. rewrite Heq.
  replace (length (m :: rest) - 1)%nat with (length rest) by (simpl; lia).
  repeat split; assumption.
Qed.

End Facts.

Example chain_two_members :
  run_chain
    (<[str "a" := str "Y"]> (<[str "b" := str "Z"]> (∅ : gmap agent_id jsstring)))
    (fun reply _ => reply)
    (mkTeam (str "t") [str "a"; str "b"] (str "a")) (str "X")
  = ([ChainStarted (str "t") [str "a"; str "b"];
      StepStarted (str "a") 0; StepDone (str "a") (str "Y");
      Handoff (str "a") (str "b") 0;
      StepStarted (str "b") 1; StepDone (str "b") (str "Z");
      ChainEnded (str "t") [str "a"; str "b"]],
     ChainDone (str "Z")).
Proof. vm_compute. reflexivity. Qed.

(** C3, as stated, fails for a team that names a member missing from the
    agent configuration: the chain of the two-member team [ghost; a] stops
    at [ghost] and emits no step-done event at all. *)
Lemma chain_unknown_member_counterexample :
  let team := mkTeam (str "t") [str "ghost"; str "a"] (str "a") in
  let evs :=
    fst (run_chain (<[str "a" := str "Y"]> (∅ : gmap agent_id jsstring))
           (fun reply _ => reply) team (str "X")) in
  length (List.filter is_step_done evs) <> length (members team) /\
  List.filter is_chain_ended evs = [].
Proof. vm_compute. split; [discriminate | reflexivity]. Qed.

(** C3 (amended). For every team of N >= 1 members that are all present in
    the agent configuration, one chain execution emits exactly N step-done
    events, exactly N-1 handoff events and exactly one chain-ended event,
    which lists all N members; step-done and handoff alternate and
    chain-ended comes last; the step-done events name the members in order
    and handoff i goes from member i to member i+1.  For N = 1 there is no
    handoff. *)
Theorem chain_events_when_all_configured
  {AgentDescriptor : Type} (agents : gmap agent_id AgentDescriptor)
  (invoke : AgentDescriptor -> jsstring -> jsstring)
  (team : TeamDescriptor) (payload : jsstring) :
  (1 <= length (members team))%nat ->
  (forall m, In m (members team) -> is_Some (agents !! m)) ->
  let evs := fst (run_chain agents invoke team payload) in
  let n := length (members team) in
  length (List.filter is_step_done evs) = n /\
  length (List.filter is_handoff evs) = (n - 1)%nat /\
  List.filter is_chain_ended evs = [ChainEnded (team_id team) (members team)] /\
  omap kind_of evs
    = concat (replicate (n - 1) [KStepDone; KHandoff]) ++ [KStepDone; KChainEnded] /\
  omap step_done_agent evs = members team /\
  omap handoff_of evs = consecutive 0 (members team) /\
  (n = 1%nat -> List.filter is_handoff evs = []) /\
  exists out, snd (run_chain agents invoke team payload) = ChainDone out.
Proof.
  intros Hn Hall.
  assert (members team <> []) as Hne by (destruct (members team); [simpl in Hn; lia | discriminate]).
  assert (Forall (fun x => is_Some (agents !! x)) (members team)) as HF
    by (apply List.Forall_forall; exact Hall).
  destruct (run_chain_configured agents invoke team payload Hne HF)
    as (evs & out & _ & Hrun & Hsd & Hho & Hce & Hk & Hag & Hpairs).
  rewrite Hrun. cbn zeta. simpl fst. simpl snd.
  assert (List.filter is_handoff
            (ChainStarted (team_id team) (members team)
               :: evs ++ [ChainEnded (team_id team) (members team)])
          = List.filter is_handoff evs) as Hfh.
  { simpl. rewrite filter_bool_app. simpl. apply app_nil_r. }
  repeat split.
  - simpl. rewrite filter_bool_app, length_app. simpl. lia.
  - rewrite Hfh. exact Hho.
  - simpl. rewrite filter_bool_app, Hce. reflexivity.
  - change (omap kind_of (ChainStarted (team_id team) (members team)
               :: evs ++ [ChainEnded (team_id team) (members team)]))
      with (omap kind_of (evs ++ [ChainEnded (team_id team) (members team)])).
    rewrite omap_app, Hk, <- app_assoc. reflexivity.
  - change (omap step_done_agent (ChainStarted (team_id team) (members team)
               :: evs ++ [ChainEnded (team_id team) (members team)]))
      with (omap step_done_agent (evs ++ [ChainEnded (team_id team) (members team)])).
    rewrite omap_app, Hag. apply app_nil_r.
  - change (omap handoff_of (ChainStarted (team_id team) (members team)
               :: evs ++ [ChainEnded (team_id team) (members team)]))
      with (omap handoff_of (evs ++ [ChainEnded (team_id team) (members team)])).
    rewrite omap_app, Hpairs. apply app_nil_r.
  - intros H1. rewrite Hfh. rewrite H1 in Hho. simpl in Hho.
    destruct (List.filter is_handoff evs); [reflexivity | discriminate].
  - exists out. reflexivity.
Qed.

Lemma chain_events_when_all_configured_witness :
  let agents := <[str "a" := str "Y"]> (<[str "b" := str "Z"]> (∅ : gmap agent_id jsstring)) in
  let team := mkTeam (str "t") [str "a"; str "b"] (str "a") in
  let evs := fst (run_chain agents (fun reply _ => reply) team (str "X")) in
  length (List.filter is_step_done evs) = 2%nat /\
  length (List.filter is_handoff evs) = 1%nat /\
  List.filter is_chain_ended evs = [ChainEnded (str "t") [str "a"; str "b"]].
Proof.
  intros agents team evs.
  destruct (chain_events_when_all_configured agents (fun reply _ => reply) team (str "X"))
    as (Hsd & Hho & Hce & _).
  - simpl. lia.
  - intros m Hm. simpl in Hm. destruct Hm as [<-|[<-|[]]]; vm_compute; eauto.
  - split; [exact Hsd | split; [exact Hho | exact Hce]].
Defined.

End ChainFacts.
(** ** Heartbeat scheduler *)

Module HeartbeatFacts.
Import JS Heartbeat.

(** *** The agent ids as the loop sees them *)

Lemma split_ifs_nonempty (s : text) : split_ifs s <> [].
Proof.
  destruct s as [|c r]; simpl; [discriminate|].
  destruct (is_ifs c); [discriminate|]. destruct (split_ifs r); discriminate.
Qed.

Lemma split_ifs_word (w rest : text) :
  forallb (fun c => negb (is_ifs c)) w = true ->
  split_ifs (w ++ LF :: rest) = w :: split_ifs rest.
Proof.
  induction w as [|c w IH]; intros Hw; [reflexivity|].
  simpl in Hw. apply andb_true_iff in Hw as [Hc Hw].
  apply negb_true_iff in Hc. simpl. rewrite Hc, (IH Hw). reflexivity.
Qed.

Lemma split_ifs_newlines (t : text) (k : nat) :
  split_ifs (t ++ replicate k LF) = split_ifs t ++ replicate k [].
Proof.
  induction t as [|c t IH].
  - simpl app. induction k as [|k IHk]; [reflexivity|].
    cbn [replicate split_ifs]. change (is_ifs LF) with true. cbv iota.
    rewrite IHk. reflexivity.
  - cbn [app split_ifs]. rewrite IH. destruct (is_ifs c); [reflexivity|].
    pose proof (split_ifs_nonempty t) as Hne.
    destruct (split_ifs t) as [|h tl]; [contradiction|]. reflexivity.
Qed.

Lemma drop_newlines_split (r : text) :
  exists k, r = replicate k LF ++ drop_newlines r.
Proof.
  induction r as [|c r (k & IH)]; [exists 0%nat; reflexivity|].
  simpl. destruct (N.eqb_spec c LF) as [->|Hne].
  - exists (S k). simpl. f_equal. exact IH.
  - exists 0%nat. reflexivity.
Qed.

(** A command substitution only drops newlines at the end. *)
Lemma substitution_split (s : text) :
  exists k, s = substitution s ++ replicate k LF.
Proof.
  destruct (drop_newlines_split (rev s)) as (k & Hk). exists k.
  unfold substitution. rewrite <- (rev_involutive s) at 1. rewrite Hk at 1.
  rewrite rev_app_distr. f_equal.
  clear. induction k as [|k IH]; [reflexivity|].
  simpl. rewrite IH. clear. induction k as [|k IH]; [reflexivity|].
  simpl. rewrite <- IH. reflexivity.
Qed.

Lemma fields_substitution (s : text) : fields (substitution s) = fields s.
Proof.
  destruct (substitution_split s) as (k & Hk). rewrite Hk at 2.
  unfold fields. rewrite split_ifs_newlines, List.filter_app.
  replace (List.filter _ (replicate k [])) with (@nil text); [symmetry; apply app_nil_r|].
  clear. induction k as [|k IH]; [reflexivity|]. simpl. exact IH.
Qed.

Lemma is_plain_spec (w : text) :
  is_plain w = true ->
  w <> [] /\
  forallb (fun c => negb (is_ifs c)) w = true /\
  existsb is_glob w = false /\
  is_jq_key w = true.
Proof.
  unfold is_plain. destruct w as [|c0 w0]; [discriminate|].
  set (w := c0 :: w0). intros Hw. split; [discriminate|].
  assert (forall c, In c w -> is_plain_char c = true) as Hall
    by (apply forallb_forall; exact Hw).
  assert (forall c, In c w ->
            is_ifs c = false /\ is_glob c = false /\
            N.eqb c DQUOTE = false /\ N.eqb c BACKSLASH = false) as Hc.
  { intros c Hin. specialize (Hall c Hin). unfold is_plain_char in Hall.
    apply negb_true_iff in Hall.
    do 4 (apply orb_false_iff in Hall as [Hall ?]). repeat split; assumption. }
  split; [|split].
  - apply forallb_forall. intros c Hin. destruct (Hc c Hin) as (-> & _). reflexivity.
  - destruct (existsb is_glob w) eqn:Hg; [|reflexivity].
    apply existsb_exists in Hg as (c & Hin & Hg).
    destruct (Hc c Hin) as (_ & Hn & _). congruence.
  - apply forallb_forall. intros c Hin. destruct (Hc c Hin) as (_ & _ & -> & ->).
    reflexivity.
Qed.

Lemma fields_ids (agents : list agent) :
  Forall (fun a => is_plain (agent_id a) = true) agents ->
  fields (flat_map (fun a => agent_id a ++ [LF]) agents) = map agent_id agents.
Proof.
  induction 1 as [|a rest Ha _ IH]; [reflexivity|].
  destruct (is_plain_spec _ Ha) as (Hne & Hifs & _).
  cbn [flat_map map]. rewrite <- app_assoc. cbn [app].
  unfold fields in *. rewrite (split_ifs_word _ _ Hifs). cbn [List.filter].
  destruct (agent_id a) as [|c w]; [contradiction|]. rewrite IH. reflexivity.
Qed.

(** Plain ids come through field splitting and pathname expansion as they
    are: the loop runs over the ids, in the order of settings.json. *)
Lemma words_of_plain (e : env) (agents : list agent) :
  Forall (fun a => is_plain (agent_id a) = true) agents ->
  words_of e agents = map agent_id agents.
Proof.
  intros Hplain. unfold words_of, AGENT_IDS.
  rewrite fields_substitution, (fields_ids _ Hplain).
  induction Hplain as [|a rest Ha _ IH]; [reflexivity|].
  cbn [map flat_map]. rewrite IH. unfold expand.
  destruct (is_plain_spec _ Ha) as (_ & _ & -> & _). reflexivity.
Qed.

Lemma find_agent (agents : list agent) (a : agent) :
  NoDup (map agent_id agents) -> In a agents ->
  List.find (fun b => bool_decide (agent_id b = agent_id a)) agents = Some a.
Proof.
  induction agents as [|b rest IH]; intros Hnd Hin; [destruct Hin|].
  simpl in Hnd. apply NoDup_cons in Hnd as [Hfresh Hnd].
  simpl. case_bool_decide as Heq.
  - destruct Hin as [->|Hin]; [reflexivity|].
    exfalso. apply Hfresh. rewrite Heq. apply list_elem_of_In, in_map. exact Hin.
  - destruct Hin as [->|Hin]; [contradiction|]. exact (IH Hnd Hin).
Qed.

Lemma settings_for_agent (e : env) (agents : list agent) (a : agent) :
  NoDup (map agent_id agents) -> In a agents -> is_plain (agent_id a) = true ->
  settings_for e agents (agent_id a) = (heartbeat_interval a, heartbeat_mode a).
Proof.
  intros Hnd Hin Hplain. unfold settings_for.
  destruct (is_plain_spec _ Hplain) as (_ & _ & _ & ->).
  rewrite (find_agent agents a Hnd Hin). reflexivity.
Qed.

(** *** A run in which no command fails *)

Lemma bind_some {A B : Type} (m : sh A) (k : A -> sh B) (st st' : state) (x : A) :
  m st = (Some x, st') -> bind m k st = k x st'.
Proof. intros H. unfold bind. rewrite H. reflexivity. Qed.

Lemma fired_refl (st : state) : fired st st 0 [] [] [].
Proof.
  unfold fired. rewrite Nat.add_0_r, !app_nil_r. repeat split; reflexivity.
Qed.

Lemma fired_trans (a b c : state) k1 q1 p1 r1 k2 q2 p2 r2 :
  fired a b k1 q1 p1 r1 -> fired b c k2 q2 p2 r2 ->
  fired a c (k1 + k2) (q1 ++ q2) (p1 ++ p2) (r1 ++ r2).
Proof.
  intros (Ha1 & Ha2 & Ha3 & Ha4 & Ha5 & Ha6) (Hb1 & Hb2 & Hb3 & Hb4 & Hb5 & Hb6).
  unfold fired. rewrite Hb1, Hb2, Hb3, Hb4, Hb5, Ha1, Ha2, Ha3, Ha4, Ha5, !app_assoc.
  repeat split; try reflexivity; [lia|]. intros id. rewrite Hb6. apply Ha6.
Qed.

Lemma fired_log (l : log_entry) (st : state) :
  (forall id, is_due_entry id l = false) ->
  fired st (add_log l st) 0 [] [] [].
Proof.
  intros Hl. unfold fired. simpl. rewrite Nat.add_0_r, !app_nil_r.
  repeat split; try reflexivity. intros id.
  rewrite List.filter_app. simpl. rewrite Hl. apply app_nil_r.
Qed.

Section Calm.
Variable e : env.
Hypothesis e_calm : calm e.

Lemma guard_calm (c : command) (st : state) : guard e c st = (Some tt, st).
Proof. unfold guard. rewrite e_calm. reflexivity. Qed.

Lemma log_line_calm (l : log_entry) (st : state) :
  log_line e l st = (Some tt, add_log l st).
Proof.
  unfold log_line. rewrite (bind_some _ _ _ _ _ (guard_calm _ st)). reflexivity.
Qed.

Lemma post_webhook_calm (content : text) (st : state) :
  exists st',
    post_webhook e content st = (Some tt, st') /\
    fired st st' 0 [] (webhook_posts e content) [].
Proof.
  unfold post_webhook, webhook_posts.
  destruct (WEBHOOK_URL e) as [|c url]; [exists st; split; [reflexivity | apply fired_refl]|].
  assert (fired st (add_post (body_of e content) st) 0 [] [body_of e content] []) as Hpost.
  { unfold fired. simpl. rewrite Nat.add_0_r, !app_nil_r. repeat split; reflexivity. }
  destruct (curl_ok e (length (posted st))).
  - eexists. split; [reflexivity | exact Hpost].
  - rewrite log_line_calm. eexists. split; [reflexivity|].
    apply (fired_trans _ _ _ _ _ _ _ _ _ _ _ Hpost).
    apply fired_log. reflexivity.
Qed.

Lemma fire_script_calm (id : text) (st : state) :
  exists st',
    fire_script e id st = (Some tt, st') /\
    fired st st' 0 [] (script_posts e id) (script_runs e id).
Proof.
  unfold fire_script, script_posts, script_runs.
  destruct (script_run e id) as [out|].
  - rewrite (bind_some _ _ _ _ _ (log_line_calm _ st)).
    unfold modify at 1. unfold bind at 1.
    rewrite (bind_some _ _ _ _ _ (log_line_calm _ _)).
    set (st1 := add_log _ (add_run id (add_log _ st))).
    assert (fired st st1 0 [] [] [id]) as H1.
    { unfold fired, st1. simpl. rewrite Nat.add_0_r, !app_nil_r.
      repeat split; try reflexivity. intros id'.
      rewrite !List.filter_app. simpl. rewrite !app_nil_r. reflexivity. }
    destruct (substitution out) as [|c r] eqn:Hout.
    + exists st1. split; [reflexivity | exact H1].
    + destruct (post_webhook_calm (c :: r) st1) as (st' & Hrun & H2).
      exists st'. split; [exact Hrun|].
      exact (fired_trans _ _ _ _ _ _ _ _ _ _ _ H1 H2).
  - rewrite log_line_calm. eexists. split; [reflexivity|].
    apply fired_log. reflexivity.
Qed.

Lemma collect_calm (id : text) (f : response_file) (st : state) :
  exists st',
    collect e id f st = (Some tt, st') /\
    fired st st' 0 [] (response_posts e id f) [].
Proof.
  unfold collect, response_posts.
  destruct (substitution _) as [|c r].
  - exists st. split; [reflexivity | apply fired_refl].
  - rewrite (bind_some _ _ _ _ _ (log_line_calm _ st)).
    destruct (post_webhook_calm (HEADER id ++ take 1800 (c :: r)) (add_log (Response id (take 120 (c :: r))) st))
      as (st1 & Hrun & H1).
    rewrite (bind_some _ _ _ _ _ Hrun).
    rewrite (bind_some _ _ _ _ _ (guard_calm _ st1)).
    eexists. split; [reflexivity|].
    assert (fired st (add_log (Response id (take 120 (c :: r))) st) 0 [] [] []) as H0
      by (apply fired_log; reflexivity).
    pose proof (fired_trans _ _ _ _ _ _ _ _ _ _ _ H0 H1) as H01.
    assert (fired st1 (add_removed (rf_name f) st1) 0 [] [] []) as H2.
    { unfold fired. simpl. rewrite Nat.add_0_r, !app_nil_r. repeat split; reflexivity. }
    pose proof (fired_trans _ _ _ _ _ _ _ _ _ _ _ H01 H2) as H.
    simpl in H. rewrite !app_nil_r in H. exact H.
Qed.

Lemma for_each_collect_calm (id : text) (files : list response_file) :
  forall st, exists st',
    for_each (collect e id) files st = (Some tt, st') /\
    fired st st' 0 [] (flat_map (response_posts e id) files) [].
Proof.
  induction files as [|f rest IH]; intros st.
  - exists st. split; [reflexivity | apply fired_refl].
  - destruct (collect_calm id f st) as (st1 & Hrun & H1).
    destruct (IH st1) as (st' & Hrest & H2).
    exists st'. cbn [for_each]. rewrite (bind_some _ _ _ _ _ Hrun).
    split; [exact Hrest|]. exact (fired_trans _ _ _ _ _ _ _ _ _ _ _ H1 H2).
Qed.

Lemma fire_claude_calm (NOW : Z) (id : text) (st : state) :
  exists st',
    fire_claude e NOW id st = (Some tt, st') /\
    fired st st' 1 [queue_file_of e NOW id (reads st)]
      (flat_map (response_posts e id)
         (response_files e (MESSAGE_ID_of e id (date e (reads st))))) [].
Proof.
  unfold fire_claude.
  assert (exists st0,
            (match heartbeat_md e id with
             | Some _ => bind (guard e (CatPrompt id)) (fun _ => log_line e (UsingHeartbeatMd id))
             | None => log_line e UsingDefaultPrompt
             end) st = (Some tt, st0) /\
            fired st st0 0 [] [] []) as (st0 & Hrun0 & H0).
  { destruct (heartbeat_md e id).
    - rewrite (bind_some _ _ _ _ _ (guard_calm _ st)), log_line_calm.
      eexists. split; [reflexivity | apply fired_log; reflexivity].
    - rewrite log_line_calm.
      eexists. split; [reflexivity | apply fired_log; reflexivity]. }
  rewrite (bind_some _ _ _ _ _ Hrun0).
  assert (reads st0 = reads st) as Hreads
    by (destruct H0 as (_ & -> & _); lia).
  unfold read_date at 1. unfold bind at 1. rewrite Hreads.
  rewrite (bind_some _ _ _ _ _ (guard_calm _ _)).
  unfold modify at 1. unfold bind at 1.
  rewrite (bind_some _ _ _ _ _ (log_line_calm _ _)).
  set (st1 := add_log _ _).
  destruct (for_each_collect_calm id
              (response_files e (MESSAGE_ID_of e id (date e (reads st)))) st1)
    as (st' & Hrun & H2).
  exists st'. split; [exact Hrun|].
  assert (fired st0 st1 1 [queue_file_of e NOW id (reads st)] [] []) as H1.
  { unfold fired, st1. simpl. rewrite !app_nil_r, Hreads.
    repeat split; try reflexivity; [lia|]. intros id'.
    rewrite List.filter_app. simpl. apply app_nil_r. }
  pose proof (fired_trans _ _ _ _ _ _ _ _ _ _ _ (fired_trans _ _ _ _ _ _ _ _ _ _ _ H0 H1) H2)
    as H.
  simpl in H. exact H.
Qed.

(** An iteration of the agent loop: either the test sends it on to the
    next word with nothing done, or it logs the Due line, takes the fire
    path of the MODE and writes the record with the clock reading that
    follows. *)
Lemma heartbeat_agent_calm (agents : list agent) (NOW : Z) (w : text) (st : state) :
  let INTERVAL := fst (settings_for e agents w) in
  let MODE := snd (settings_for e agents w) in
  let ELAPSED := (NOW - last_of w st)%Z in
  if test_lt ELAPSED INTERVAL
  then heartbeat_agent e agents NOW w st = (Some tt, st)
  else exists st',
    heartbeat_agent e agents NOW w st = (Some tt, st') /\
    records st' = <[w := date e (reads st + fire_reads MODE)]> (records st) /\
    reads st' = S (reads st + fire_reads MODE) /\
    queued st' = queued st ++ fire_queue e NOW MODE w (reads st) /\
    posted st' = posted st ++ fire_posts e MODE w (reads st) /\
    ran st' = ran st ++ fire_runs e MODE w /\
    forall id,
      List.filter (is_due_entry id) (log st')
      = List.filter (is_due_entry id) (log st)
        ++ (if bool_decide (w = id) then [Due w ELAPSED INTERVAL MODE] else []).
Proof.
  cbn zeta. unfold heartbeat_agent.
  rewrite (bind_some _ _ _ _ _ (guard_calm _ st)).
  assert (get_last_heartbeat e w st = (Some (last_of w st), st)) as Hlast.
  { unfold get_last_heartbeat, last_of. destruct (records st !! w); [|reflexivity].
    rewrite (bind_some _ _ _ _ _ (guard_calm _ st)). reflexivity. }
  rewrite (bind_some _ _ _ _ _ Hlast).
  destruct (test_lt _ _); [reflexivity|].
  rewrite (bind_some _ _ _ _ _ (log_line_calm _ st)).
  set (l := Due w _ _ _). set (st0 := add_log l st).
  assert (exists st1,
            (if bool_decide (snd (settings_for e agents w) = str "script")
             then fire_script e w else fire_claude e NOW w) st0 = (Some tt, st1) /\
            fired st0 st1 (fire_reads (snd (settings_for e agents w)))
              (fire_queue e NOW (snd (settings_for e agents w)) w (reads st))
              (fire_posts e (snd (settings_for e agents w)) w (reads st))
              (fire_runs e (snd (settings_for e agents w)) w)) as (st1 & Hrun & H1).
  { unfold fire_reads, fire_queue, fire_posts, fire_runs.
    change (reads st) with (reads st0).
    destruct (bool_decide (snd (settings_for e agents w) = str "script")).
    - apply fire_script_calm.
    - apply fire_claude_calm. }
  rewrite (bind_some _ _ _ _ _ Hrun).
  unfold set_last_heartbeat.
  rewrite (bind_some _ _ _ _ _ (guard_calm _ st1)).
  unfold read_date at 1. unfold bind at 1. unfold modify.
  eexists. split; [reflexivity|].
  destruct H1 as (Hr & Hc & Hq & Hp & Hs & Hl). simpl.
  rewrite Hr, Hc, Hq, Hp, Hs. simpl.
  repeat split. intros id. rewrite Hl. unfold st0. simpl.
  rewrite List.filter_app. simpl. unfold l at 1. simpl.
  destruct (bool_decide (w = id)); reflexivity.
Qed.

End Calm.

(** *** The agent loop *)

Lemma filter_agent_other (id w : text) (qs : list queue_file) :
  w <> id -> Forall (fun q => qf_agent q = w) qs ->
  List.filter (fun q => bool_decide (qf_agent q = id)) qs = [].
Proof.
  intros Hne. induction 1 as [|q qs Hq _ IH]; [reflexivity|].
  simpl. rewrite bool_decide_eq_false_2 by congruence. exact IH.
Qed.

Lemma filter_agent_own (w : text) (qs : list queue_file) :
  Forall (fun q => qf_agent q = w) qs ->
  List.filter (fun q => bool_decide (qf_agent q = w)) qs = qs.
Proof.
  induction 1 as [|q qs Hq _ IH]; [reflexivity|].
  simpl. rewrite bool_decide_eq_true_2 by exact Hq. f_equal. exact IH.
Qed.

Lemma fire_queue_agent (e : env) (NOW : Z) (MODE w : text) (k : nat) :
  Forall (fun q => qf_agent q = w) (fire_queue e NOW MODE w k).
Proof.
  unfold fire_queue. destruct (bool_decide _); repeat constructor.
Qed.

Lemma fire_runs_agent (e : env) (MODE w : text) :
  Forall (fun r => r = w) (fire_runs e MODE w).
Proof.
  unfold fire_runs, script_runs.
  destruct (bool_decide _); [|constructor].
  destruct (script_run e w); repeat constructor.
Qed.

Lemma count_other (id w : text) (rs : list text) :
  w <> id -> Forall (fun r => r = w) rs ->
  List.filter (fun r => bool_decide (r = id)) rs = [].
Proof.
  intros Hne. induction 1 as [|r rs Hr _ IH]; [reflexivity|].
  simpl. rewrite bool_decide_eq_false_2 by congruence. exact IH.
Qed.

Lemma count_own (w : text) (rs : list text) :
  Forall (fun r => r = w) rs ->
  List.filter (fun r => bool_decide (r = w)) rs = rs.
Proof.
  induction 1 as [|r rs Hr _ IH]; [reflexivity|].
  simpl. rewrite bool_decide_eq_true_2 by exact Hr. f_equal. exact IH.
Qed.

Section Loop.
Variable e : env.
Hypothesis e_calm : calm e.
Variable agents : list agent.
Variable NOW : Z.

(** An iteration never fails, never turns the clock index back, and
    leaves what belongs to the other ids alone. *)
Lemma heartbeat_agent_frame (w : text) (st : state) :
  exists st',
    heartbeat_agent e agents NOW w st = (Some tt, st') /\
    (reads st <= reads st')%nat /\
    forall id, id <> w ->
      records st' !! id = records st !! id /\
      fired_count id st' = fired_count id st /\
      queued_for id st' = queued_for id st /\
      runs_of id st' = runs_of id st.
Proof.
  pose proof (heartbeat_agent_calm e e_calm agents NOW w st) as H. cbn zeta in H.
  destruct (test_lt _ _).
  - exists st. split; [exact H|]. split; [lia|]. intros id _. repeat split.
  - destruct H as (st' & Hrun & Hr & Hc & Hq & _ & Hs & Hl).
    exists st'. split; [exact Hrun|]. split; [lia|]. intros id Hne.
    unfold fired_count, queued_for, runs_of.
    rewrite Hr, Hq, Hs, Hl, !List.filter_app.
    rewrite lookup_insert_ne by congruence.
    rewrite (filter_agent_other id w _ (not_eq_sym Hne) (fire_queue_agent _ _ _ _ _)).
    rewrite (count_other id w _ (not_eq_sym Hne) (fire_runs_agent _ _ _)).
    rewrite bool_decide_eq_false_2 by congruence.
    rewrite !app_nil_r. repeat split.
Qed.

(** What an iteration does for its own id. *)
Lemma heartbeat_agent_own (w : text) (st : state) :
  let INTERVAL := fst (settings_for e agents w) in
  let MODE := snd (settings_for e agents w) in
  let st' := snd (heartbeat_agent e agents NOW w st) in
  if test_lt (NOW - last_of w st) INTERVAL
  then st' = st
  else
    fired_count w st' = S (fired_count w st) /\
    records st' !! w = Some (date e (reads st + fire_reads MODE)) /\
    reads st' = S (reads st + fire_reads MODE) /\
    queued_for w st' = queued_for w st ++ fire_queue e NOW MODE w (reads st) /\
    runs_of w st' = (runs_of w st + length (fire_runs e MODE w))%nat.
Proof.
  pose proof (heartbeat_agent_calm e e_calm agents NOW w st) as H. cbn zeta in H |- *.
  destruct (test_lt _ _).
  - rewrite H. reflexivity.
  - destruct H as (st' & Hrun & Hr & Hc & Hq & _ & Hs & Hl).
    rewrite Hrun. cbn [snd]. unfold fired_count, queued_for, runs_of.
    rewrite Hr, Hc, Hq, Hs, Hl, !List.filter_app, !length_app.
    rewrite lookup_insert_eq.
    rewrite (filter_agent_own w _ (fire_queue_agent e NOW _ w (reads st))).
    rewrite (count_own w _ (fire_runs_agent e _ w)).
    rewrite bool_decide_eq_true_2 by reflexivity.
    simpl. repeat split; lia.
Qed.

Lemma visit_frame (words : list text) :
  forall st, exists st',
    visit e agents NOW words st = (Some tt, st') /\
    (reads st <= reads st')%nat /\
    forall id, ~ In id words ->
      records st' !! id = records st !! id /\
      fired_count id st' = fired_count id st /\
      queued_for id st' = queued_for id st /\
      runs_of id st' = runs_of id st.
Proof.
  unfold visit. induction words as [|w rest IH]; intros st.
  - exists st. split; [reflexivity|]. split; [lia|]. intros id _. repeat split.
  - destruct (heartbeat_agent_frame w st) as (st1 & Hrun & Hc1 & Hf1).
    destruct (IH st1) as (st' & Hrest & Hc2 & Hf2).
    exists st'. cbn [for_each]. rewrite (bind_some _ _ _ _ _ Hrun).
    split; [exact Hrest|]. split; [lia|]. intros id Hnotin.
    destruct (Hf1 id) as (H1 & H2 & H3 & H4); [intros ->; apply Hnotin; left; reflexivity|].
    destruct (Hf2 id) as (H5 & H6 & H7 & H8); [intros Hin; apply Hnotin; right; exact Hin|].
    rewrite H5, H6, H7, H8. repeat split; assumption.
Qed.

(** The loop over distinct words: each word gets its iteration on a state
    in which its own record, count, files and runs are still those of
    the start. *)
Lemma visit_word (words : list text) :
  NoDup words ->
  forall st w, In w words ->
    exists st0 st1 st',
      visit e agents NOW words st = (Some tt, st') /\
      st1 = snd (heartbeat_agent e agents NOW w st0) /\
      (reads st <= reads st0)%nat /\ (reads st1 <= reads st')%nat /\
      (records st0 !! w = records st !! w /\
       fired_count w st0 = fired_count w st /\
       queued_for w st0 = queued_for w st /\
       runs_of w st0 = runs_of w st) /\
      (records st' !! w = records st1 !! w /\
       fired_count w st' = fired_count w st1 /\
       queued_for w st' = queued_for w st1 /\
       runs_of w st' = runs_of w st1).
Proof.
  induction words as [|v rest IH]; intros Hnd st w Hin; [destruct Hin|].
  apply NoDup_cons in Hnd as [Hfresh Hnd].
  assert (~ In v rest) as Hfresh' by (intros H; apply Hfresh, list_elem_of_In; exact H).
  destruct (heartbeat_agent_frame v st) as (s1 & Hrun & Hc1 & Hf1).
  unfold visit in *. cbn [for_each]. rewrite (bind_some _ _ _ _ _ Hrun).
  destruct Hin as [->|Hin].
  - destruct (visit_frame rest s1) as (st' & Hrest & Hc2 & Hf2).
    exists st, s1, st'. unfold visit in Hrest.
    split; [exact Hrest|]. split; [rewrite Hrun; reflexivity|].
    split; [lia|]. split; [exact Hc2|]. split; [repeat split|].
    exact (Hf2 w Hfresh').
  - assert (w <> v) as Hne by (intros ->; contradiction).
    destruct (IH Hnd s1 w Hin) as (st0 & st1 & st' & Hrest & Hst1 & Hc0 & Hc2 & Hpre & Hpost).
    exists st0, st1, st'.
    split; [exact Hrest|]. split; [exact Hst1|]. split; [lia|]. split; [exact Hc2|].
    split; [|exact Hpost].
    destruct (Hf1 w Hne) as (H1 & H2 & H3 & H4).
    destruct Hpre as (H5 & H6 & H7 & H8).
    rewrite H5, H6, H7, H8. repeat split; assumption.
Qed.

End Loop.

(** *** One tick *)

Lemma date_mono (e : env) :
  clock_monotone e -> forall j k, (j <= k)%nat -> (date e j <= date e k)%Z.
Proof.
  intros Hmono j k Hjk. induction Hjk as [|k _ IH]; [lia|].
  pose proof (Hmono k). lia.
Qed.

Section Tick.
Variable e : env.
Hypothesis e_calm : calm e.
Variable agents : list agent.
Hypothesis ids_plain : Forall (fun b => is_plain (agent_id b) = true) agents.
Hypothesis ids_distinct : NoDup (map agent_id agents).

Lemma tick_calm (st : state) :
  tick e agents st
  = visit e agents (date e (reads st)) (map agent_id agents) (snd (read_date e st)).
Proof.
  unfold tick. unfold read_date at 1. unfold bind at 1.
  rewrite (bind_some _ _ _ _ _ (guard_calm e e_calm _ _)).
  rewrite (words_of_plain e agents ids_plain). reflexivity.
Qed.

(** What a tick does for one agent of settings.json. *)
Lemma tick_agent (a : agent) (st : state) :
  In a agents ->
  let NOW := date e (reads st) in
  let id := agent_id a in
  let MODE := heartbeat_mode a in
  let st' := snd (tick e agents st) in
  fst (tick e agents st) = Some tt /\
  (reads st < reads st')%nat /\
  if test_lt (NOW - last_of id st) (heartbeat_interval a)
  then
    fired_count id st' = fired_count id st /\
    records st' !! id = records st !! id /\
    queued_for id st' = queued_for id st /\
    runs_of id st' = runs_of id st
  else
    fired_count id st' = S (fired_count id st) /\
    runs_of id st' = (runs_of id st + length (fire_runs e MODE id))%nat /\
    exists k,
      (reads st < k)%nat /\ (k + fire_reads MODE < reads st')%nat /\
      records st' !! id = Some (date e (k + fire_reads MODE)) /\
      queued_for id st' = queued_for id st ++ fire_queue e NOW MODE id k.
Proof.
  intros Hin. cbn zeta. rewrite tick_calm.
  destruct (visit_word e e_calm agents (date e (reads st)) (map agent_id agents)
              ids_distinct (snd (read_date e st)) (agent_id a) (in_map _ _ _ Hin))
    as (st0 & st1 & st' & Hrun & Hst1 & Hc0 & Hc1 & (Hr0 & Hf0 & Hq0 & Hs0)
        & (Hr1 & Hf1 & Hq1 & Hs1)).
  rewrite Hrun. cbn [fst snd]. split; [reflexivity|].
  change (reads (snd (read_date e st))) with (S (reads st)) in Hc0.
  pose proof (heartbeat_agent_own e e_calm agents (date e (reads st)) (agent_id a) st0)
    as Hown.
  cbn zeta in Hown. rewrite <- Hst1 in Hown.
  rewrite (settings_for_agent e agents a ids_distinct Hin) in Hown
    by (eapply (proj1 (List.Forall_forall _ _) ids_plain); exact Hin).
  cbn [fst snd] in Hown.
  assert (last_of (agent_id a) st0 = last_of (agent_id a) st) as Hlast
    by (unfold last_of; rewrite Hr0; reflexivity).
  rewrite Hlast in Hown.
  assert (fired_count (agent_id a) (snd (read_date e st)) = fired_count (agent_id a) st)
    as Hf by reflexivity.
  assert (queued_for (agent_id a) (snd (read_date e st)) = queued_for (agent_id a) st)
    as Hq by reflexivity.
  assert (runs_of (agent_id a) (snd (read_date e st)) = runs_of (agent_id a) st)
    as Hs by reflexivity.
  assert (records (snd (read_date e st)) = records st) as Hr by reflexivity.
  destruct (test_lt _ _).
  - rewrite Hown in Hc1. split; [lia|]. rewrite Hown in Hf1, Hr1, Hq1, Hs1.
    rewrite Hf1, Hr1, Hq1, Hs1, Hf0, Hr0, Hq0, Hs0. repeat split.
  - destruct Hown as (Hcount & Hrec & Hreads & Hqueue & Hruns).
    split; [lia|].
    rewrite Hf1, Hr1, Hq1, Hs1, Hcount, Hruns, Hf0, Hs0, Hf, Hs.
    split; [reflexivity|]. split; [reflexivity|].
    exists (reads st0). split; [lia|]. split; [lia|].
    split; [exact Hrec|]. rewrite Hqueue, Hq0. reflexivity.
Qed.

End Tick.

(** A tick at clock 1000 over two agents with a 30 s interval: [early]
    fired 29 s ago, [late] 31 s ago and has no heartbeat.sh to run. *)
Example heartbeat_29_31 :
  let agents := [mkAgent (str "early") (str "30") (str "claude");
                 mkAgent (str "late") (str "30") (str "script")] in
  let st' := snd (tick sample_env agents sample_state) in
  records st' !! str "early" = Some 971%Z /\
  records st' !! str "late" = Some 1005%Z /\
  log st' = [Due (str "late") 31 (str "30") (str "script"); NoScript (str "late")] /\
  queued st' = [] /\ ran st' = [].
Proof. vm_compute. repeat split. Qed.




(** *** What a tick sends out *)

Section Outputs.
Variable e : env.
Hypothesis e_calm : calm e.
Variable agents : list agent.
Variable NOW : Z.

Lemma visit_queue (l : list agent) :
  NoDup (map agent_id l) ->
  (forall b, In b l ->
     settings_for e agents (agent_id b) = (heartbeat_interval b, heartbeat_mode b)) ->
  forall st,
    map queue_entry (queued (snd (visit e agents NOW (map agent_id l) st)))
    = map queue_entry (queued st)
      ++ flat_map (fun a => if due NOW st a then work_items e NOW a else []) l.
Proof.
  induction l as [|a rest IH]; intros Hnd Hset st.
  - simpl. rewrite app_nil_r. reflexivity.
  - simpl in Hnd. apply NoDup_cons in Hnd as [Hfresh Hnd].
    pose proof (heartbeat_agent_calm e e_calm agents NOW (agent_id a) st) as H.
    cbn zeta in H. rewrite (Hset a (or_introl eq_refl)) in H. cbn [fst snd] in H.
    unfold visit in *. cbn [map for_each flat_map]. unfold due at 1.
    assert (forall b, In b rest ->
              settings_for e agents (agent_id b)
              = (heartbeat_interval b, heartbeat_mode b)) as Hset'
      by (intros b Hb; apply Hset; right; exact Hb).
    destruct (test_lt _ _); cbn [negb].
    + rewrite (bind_some _ _ _ _ _ H). exact (IH Hnd Hset' st).
    + destruct H as (st1 & Hrun & Hr & _ & Hq & _).
      rewrite (bind_some _ _ _ _ _ Hrun), (IH Hnd Hset' st1), Hq, map_app, <- app_assoc.
      f_equal. f_equal.
      * unfold fire_queue, work_items, is_script.
        destruct (bool_decide _); reflexivity.
      * assert (forall b, In b rest -> due NOW st1 b = due NOW st b) as Hdue.
        { intros b Hb. unfold due, last_of. rewrite Hr, lookup_insert_ne; [reflexivity|].
          intros Heq. apply Hfresh. rewrite Heq. apply list_elem_of_In, in_map. exact Hb. }
        clear -Hdue. induction rest as [|b rest IHr]; [reflexivity|].
        cbn [flat_map]. rewrite (Hdue b (or_introl eq_refl)). f_equal.
        apply IHr. intros b' Hb'. apply Hdue. right. exact Hb'.
Qed.

Lemma body_of_length (content : text) :
  (length (post_content (body_of e content)) <= length content + 1)%nat.
Proof.
  unfold body_of. destruct (python_ok e _); [|simpl; lia].
  cbn [post_content]. unfold echo_out.
  destruct (is_echo_option content); [|rewrite length_app; simpl; lia].
  destruct (existsb _ _); simpl; lia.
Qed.

Lemma webhook_posts_length (content : text) :
  Forall (fun p => (length (post_content p) <= length content + 1)%nat)
    (webhook_posts e content).
Proof.
  unfold webhook_posts. destruct (WEBHOOK_URL e); repeat constructor.
  apply body_of_length.
Qed.

Lemma response_posts_capped (id : text) (f : response_file) :
  Forall (fun p => (length (post_content p) <= length (HEADER id) + 1801)%nat)
    (response_posts e id f).
Proof.
  unfold response_posts. destruct (substitution _) as [|c r]; [constructor|].
  eapply List.Forall_impl; [|apply webhook_posts_length].
  intros p Hp. cbv beta in Hp. rewrite length_app, length_take in Hp. lia.
Qed.

End Outputs.

(** X10. What a tick queues. With plain, distinct agent ids and no
    command failing, a tick writes to queue/incoming exactly one file for
    every agent that is due and not in script mode, in the order of the
    agents.  Its message field is the agent's heartbeat.md without its
    trailing newlines, or else the default prompt, with a backslash put
    before every double quote and nothing else escaped; its timestamp is
    NOW.  Agents in script mode and agents that are not due queue
    nothing. *)
Theorem heartbeat_tick_queue (e : env) (agents : list agent) (st : state) :
  calm e ->
  Forall (fun b => is_plain (agent_id b) = true) agents ->
  NoDup (map agent_id agents) ->
  let NOW := date e (reads st) in
  map queue_entry (queued (snd (tick e agents st)))
  = map queue_entry (queued st)
    ++ flat_map (fun a => if due NOW st a then work_items e NOW a else []) agents.
Proof.
  intros Hcalm Hplain Hnd. cbn zeta. rewrite (tick_calm e Hcalm agents Hplain).
  rewrite (visit_queue e Hcalm agents (date e (reads st)) agents Hnd).
  - reflexivity.
  - intros b Hb. apply settings_for_agent; [exact Hnd | exact Hb |].
    exact (proj1 (List.Forall_forall _ _) Hplain b Hb).
Qed.

Lemma heartbeat_tick_queue_witness :
  let e := answering_env (str "Say " ++ quoted (str "hi") ++ [LF; LF]) (str "hi") in
  let agents := [mkAgent (str "early") (str "30") (str "claude");
                 mkAgent (str "late") (str "30") (str "script");
                 mkAgent (str "desk") (str "30") (str "claude")] in
  map queue_entry (queued (snd (tick e agents sample_state)))
  = [(str "desk", str "Say " ++ [BACKSLASH; DQUOTE] ++ str "hi" ++ [BACKSLASH; DQUOTE],
      1000%Z)].
Proof.
  cbn zeta. rewrite heartbeat_tick_queue.
  - vm_compute. reflexivity.
  - intros c. reflexivity.
  - repeat constructor.
  - compute_done.
Defined.

(** The file queued for a prompt without quotes, as the here-document
    writes it. *)
Example queue_file_text_sample :
  queue_file_text (queue_file_of sample_env 1000 (str "desk") 1)
  = str "{" ++ [LF]
    ++ str "  " ++ quoted (str "channel") ++ str ": " ++ quoted (str "heartbeat")
    ++ str "," ++ [LF]
    ++ str "  " ++ quoted (str "sender") ++ str ": " ++ quoted (str "System")
    ++ str "," ++ [LF]
    ++ str "  " ++ quoted (str "senderId") ++ str ": " ++ quoted (str "heartbeat_desk")
    ++ str "," ++ [LF]
    ++ str "  " ++ quoted (str "message") ++ str ": "
    ++ quoted (str "Quick status check: Any pending tasks? Keep response brief.")
    ++ str "," ++ [LF]
    ++ str "  " ++ quoted (str "timestamp") ++ str ": 1000000," ++ [LF]
    ++ str "  " ++ quoted (str "messageId") ++ str ": "
    ++ quoted (str "heartbeat_desk_1005_4242") ++ str "," ++ [LF]
    ++ str "  " ++ quoted (str "agent") ++ str ": " ++ quoted (str "desk")
    ++ str "," ++ [LF]
    ++ str "  " ++ quoted (str "command") ++ str ": " ++ quoted (str "heartbeat") ++ [LF]
    ++ str "}" ++ [LF].
Proof. vm_compute. reflexivity. Qed.

(** X11. What the turn of one agent posts to the webhook. With no command
    failing, an agent that is not due posts nothing, and nothing is
    posted when WEBHOOK_URL is empty. A due agent in script mode posts one
    body when the output of its heartbeat.sh, trailing newlines dropped,
    is not empty: that output whole, however long, with the newline
    [echo] appends (an output [echo] takes for options, -n or -e, is not
    written), or as it is, unescaped, when the python encoder fails. A
    due agent in any other mode posts one body for every
    response file for which jq prints something: the header, the first
    1800 characters of what jq printed, and that newline; so each of these
    bodies has at most 1801 characters after the header. *)
Theorem heartbeat_agent_posts
  (e : env) (agents : list agent) (NOW : Z) (w : text) (st : state) :
  calm e ->
  let INTERVAL := fst (settings_for e agents w) in
  let MODE := snd (settings_for e agents w) in
  let st' := snd (heartbeat_agent e agents NOW w st) in
  posted st'
  = posted st
    ++ (if test_lt (NOW - last_of w st) INTERVAL then []
        else fire_posts e MODE w (reads st)) /\
  (WEBHOOK_URL e = [] -> posted st' = posted st) /\
  (MODE = str "script" ->
   fire_posts e MODE w (reads st)
   = match script_run e w with
     | Some out =>
         match substitution out, WEBHOOK_URL e with
         | _ :: _, _ :: _ =>
             [if python_ok e (echo_out (substitution out))
              then Dumped (echo_out (substitution out))
              else Spliced (substitution out)]
         | _, _ => []
         end
     | None => []
     end) /\
  (MODE <> str "script" ->
   Forall (fun p => (length (post_content p) <= length (HEADER w) + 1801)%nat)
     (fire_posts e MODE w (reads st))).
Proof.
  intros Hcalm. cbn zeta.
  pose proof (heartbeat_agent_calm e Hcalm agents NOW w st) as H. cbn zeta in H.
  assert (posted (snd (heartbeat_agent e agents NOW w st))
          = posted st
            ++ (if test_lt (NOW - last_of w st) (fst (settings_for e agents w)) then []
                else fire_posts e (snd (settings_for e agents w)) w (reads st))) as Hposted.
  { destruct (test_lt _ _).
    - rewrite H, app_nil_r. reflexivity.
    - destruct H as (st' & Hrun & _ & _ & _ & Hp & _). rewrite Hrun. exact Hp. }
  split; [exact Hposted|]. split; [|split].
  - intros Hoff. rewrite Hposted. destruct (test_lt _ _); [apply app_nil_r|].
    replace (fire_posts _ _ _ _) with (@nil post); [apply app_nil_r|].
    unfold fire_posts, script_posts, response_posts, webhook_posts. rewrite Hoff.
    destruct (bool_decide _).
    + destruct (script_run e w) as [out|]; [|reflexivity].
      destruct (substitution out); reflexivity.
    + induction (response_files e _) as [|f rest IH]; [reflexivity|].
      cbn [flat_map]. rewrite <- IH. destruct (substitution _); reflexivity.
  - intros Hmode. unfold fire_posts. rewrite bool_decide_eq_true_2 by exact Hmode.
    unfold script_posts, webhook_posts, body_of.
    destruct (script_run e w) as [out|]; [|reflexivity].
    destruct (substitution out); [reflexivity|].
    destruct (WEBHOOK_URL e); reflexivity.
  - intros Hmode. unfold fire_posts. rewrite bool_decide_eq_false_2 by exact Hmode.
    induction (response_files e _) as [|f rest IH]; [constructor|].
    cbn [flat_map]. apply Forall_app. split; [apply response_posts_capped | exact IH].
Qed.

Lemma heartbeat_agent_posts_witness :
  let e := answering_env (str "status?") (str "all quiet") in
  let agents := [mkAgent (str "late") (str "30") (str "claude")] in
  posted (snd (heartbeat_agent e agents 1000 (str "late") sample_state))
  = [Dumped (str "**@late heartbeat:**\nall quiet" ++ [LF])].
Proof.
  cbn zeta.
  match goal with
  | |- posted (snd (heartbeat_agent ?e ?agents ?NOW ?w ?st)) = _ =>
      destruct (heartbeat_agent_posts e agents NOW w st) as (Hp & _);
        [intros c; reflexivity|]
  end.
  rewrite Hp. vm_compute. reflexivity.
Defined.

(** C9. The output of a heartbeat.sh goes to the webhook whole, where the
    claude path next to it cuts the response at 1800 characters: a script
    that prints 3000 characters has them posted as one body of 3001, the
    newline of [echo] included. *)
Theorem heartbeat_script_output_not_capped :
  let out := replicate 3000 120%N in
  let a := mkAgent (str "late") (str "30") (str "script") in
  let st' := snd (tick (script_env out) [a] sample_state) in
  posted st' = [Dumped (out ++ [LF])] /\
  map (fun p => length (post_content p)) (posted st') = [3001%nat].
Proof. vm_compute. split; reflexivity. Qed.

(** *** Over many ticks *)

Section Rate.
Variable e : env.
Hypothesis e_calm : calm e.
Hypothesis e_clock : clock_monotone e.
Variable agents : list agent.
Hypothesis ids_plain : Forall (fun b => is_plain (agent_id b) = true) agents.
Hypothesis ids_distinct : NoDup (map agent_id agents).
Variable a : agent.
Hypothesis a_listed : In a agents.
Variable interval : Z.
Hypothesis a_interval : shell_int (heartbeat_interval a) = Some interval.

(** Every fire moves the agent's record forward by its interval at
    least, and the record never runs ahead of the clock. *)
Lemma tick_rate (st : state) (r0 f0 : Z) :
  let id := agent_id a in
  (interval * (Z.of_nat (fired_count id st) - f0) <= last_of id st - r0)%Z ->
  (last_of id st <= Z.max r0 (date e (reads st)))%Z ->
  let st' := snd (tick e agents st) in
  fst (tick e agents st) = Some tt /\
  (fired_count id st <= fired_count id st')%nat /\
  (interval * (Z.of_nat (fired_count id st') - f0) <= last_of id st' - r0)%Z /\
  (last_of id st' <= Z.max r0 (date e (reads st')))%Z.
Proof.
  cbn zeta. intros Hrate Hcap.
  pose proof (tick_agent e e_calm agents ids_plain ids_distinct a st a_listed) as H.
  cbn zeta in H. destruct H as (Hrun & Hreads & H). split; [exact Hrun|].
  pose proof (date_mono e e_clock (reads st) (reads (snd (tick e agents st)))
                ltac:(lia)) as Hnow.
  unfold test_lt in H. rewrite a_interval in H.
  destruct (Z.ltb_spec (date e (reads st) - last_of (agent_id a) st) interval)
    as [Hskip|Hdue].
  - destruct H as (Hcount & Hrec & _).
    assert (last_of (agent_id a) (snd (tick e agents st)) = last_of (agent_id a) st)
      as Hlast by (unfold last_of; rewrite Hrec; reflexivity).
    rewrite Hlast, Hcount. repeat split; lia.
  - destruct H as (Hcount & _ & k & Hk1 & Hk2 & Hrec & _).
    assert (last_of (agent_id a) (snd (tick e agents st))
            = date e (k + fire_reads (heartbeat_mode a))) as Hlast
      by (unfold last_of; rewrite Hrec; reflexivity).
    pose proof (date_mono e e_clock (reads st) (k + fire_reads (heartbeat_mode a))
                  ltac:(lia)) as H1.
    pose proof (date_mono e e_clock (k + fire_reads (heartbeat_mode a))
                  (reads (snd (tick e agents st))) ltac:(lia)) as H2.
    rewrite Hlast, Hcount. repeat split; lia.
Qed.

Lemma turns_rate (n : nat) :
  forall (st : state) (r0 f0 : Z),
    let id := agent_id a in
    (interval * (Z.of_nat (fired_count id st) - f0) <= last_of id st - r0)%Z ->
    (last_of id st <= Z.max r0 (date e (reads st)))%Z ->
    let st' := snd (turns e agents n st) in
    fst (turns e agents n st) = Some tt /\
    (fired_count id st <= fired_count id st')%nat /\
    (interval * (Z.of_nat (fired_count id st') - f0) <= last_of id st' - r0)%Z /\
    (last_of id st' <= Z.max r0 (date e (reads st')))%Z.
Proof.
  induction n as [|n IH]; intros st r0 f0; cbn zeta; intros Hrate Hcap.
  - simpl. repeat split; [lia | exact Hrate | exact Hcap].
  - destruct (tick_rate st r0 f0 Hrate Hcap) as (Hrun & Hgrow & H1 & H2).
    cbn [turns]. destruct (tick e agents st) as [r st1] eqn:Htick.
    cbn [fst snd] in *. subst r.
    rewrite (bind_some _ _ _ _ _ Htick).
    destruct (IH st1 r0 f0 H1 H2) as (Hrun' & Hgrow' & H3 & H4).
    repeat split; [exact Hrun' | lia | exact H3 | exact H4].
Qed.

End Rate.

(** X12. An agent never fires faster than its interval. Over any number
    of turns of the main loop, with plain and distinct agent ids, no
    command failing and a clock that does not go back, an agent whose
    INTERVAL reads as an integer comes due a number of times which,
    multiplied by that interval, is at most the time between its
    heartbeat record at the start and the clock after the last turn (and
    at most 0 when that record lies in the future). *)
Theorem heartbeat_rate_bound
  (e : env) (agents : list agent) (a : agent) (interval : Z) (n : nat) (st : state) :
  calm e -> clock_monotone e ->
  Forall (fun b => is_plain (agent_id b) = true) agents ->
  NoDup (map agent_id agents) ->
  In a agents ->
  shell_int (heartbeat_interval a) = Some interval ->
  let st' := snd (turns e agents n st) in
  fst (turns e agents n st) = Some tt /\
  (interval * Z.of_nat (fired_count (agent_id a) st' - fired_count (agent_id a) st)
   <= Z.max 0 (date e (reads st') - last_of (agent_id a) st))%Z /\
  (fired_count (agent_id a) st <= fired_count (agent_id a) st')%nat.
Proof.
  intros Hcalm Hmono Hplain Hnd Hin Hint. cbn zeta.
  destruct (turns_rate e Hcalm Hmono agents Hplain Hnd a Hin interval Hint n st
              (last_of (agent_id a) st) (Z.of_nat (fired_count (agent_id a) st)))
    as (Hrun & Hgrow & H1 & H2); [lia | lia |].
  cbn zeta in H1, H2. split; [exact Hrun|]. split; [|exact Hgrow].
  rewrite Nat2Z.inj_sub by exact Hgrow. lia.
Qed.

Lemma heartbeat_rate_bound_witness :
  let e := script_env (str "ok") in
  let a := mkAgent (str "late") (str "100") (str "script") in
  let agents := [mkAgent (str "early") (str "30") (str "claude"); a] in
  let st' := snd (turns e agents 4 sample_state) in
  fst (turns e agents 4 sample_state) = Some tt /\
  (100 * Z.of_nat (fired_count (agent_id a) st' - fired_count (agent_id a) sample_state)
   <= Z.max 0 (date e (reads st') - last_of (agent_id a) sample_state))%Z /\
  (fired_count (agent_id a) sample_state <= fired_count (agent_id a) st')%nat.
Proof.
  cbn zeta. apply heartbeat_rate_bound.
  - intros c. reflexivity.
  - intros k. simpl. lia.
  - repeat constructor.
  - compute_done.
  - right. left. reflexivity.
  - vm_compute. reflexivity.
Defined.

End HeartbeatFacts.

(** ** Invocation engine *)

Module InvokeFacts.
Import JS Invoke InvokeObs.

(** *** Local subprocesses *)

Lemma runCommand_step_settled timeoutMs st ev r :
  settled st = Some r -> settled (runCommand_step timeoutMs st ev) = Some r.
Proof.
  intros Hs. destruct ev as [c|c| |m|[[|p|p]|]]; simpl; unfold settle; simpl;
    try destruct (timer_armed st); simpl; rewrite ?Hs; try reflexivity; exact Hs.
Qed.

(** A settled promise stays settled, whatever arrives later. *)
Lemma runCommand_fold_settled timeoutMs events :
  forall st r, settled st = Some r ->
    result_of (fold_left (runCommand_step timeoutMs) events st) = r.
Proof.
  induction events as [|ev rest IH]; intros st r Hs; simpl.
  - unfold result_of. rewrite Hs. reflexivity.
  - apply IH. apply runCommand_step_settled. exact Hs.
Qed.

(** Data events only fill the two buffers. *)
Lemma runCommand_fold_data timeoutMs pre :
  Forall (fun ev => is_data ev = true) pre ->
  forall st,
    fold_left (runCommand_step timeoutMs) pre st
    = mkRunState (out st ++ stdout_of pre) (err st ++ stderr_of pre)
        (timer_armed st) (settled st).
Proof.
  induction 1 as [|ev rest Hev _ IH]; intros st; simpl.
  - rewrite !app_nil_r. destruct st; reflexivity.
  - destruct ev; try discriminate; simpl; rewrite IH; simpl;
      rewrite <- ?app_assoc; reflexivity.
Qed.

(** The claim's predicted settlement for a process that closes with [code]
    after the data in [pre]. *)
Lemma runCommand_close_first timeoutMs pre code post :
  Forall (fun ev => is_data ev = true) pre ->
  runCommand timeoutMs (pre ++ Close code :: post)
  = close_settlement (stdout_of pre) (stderr_of pre) code.
Proof.
  intros Hpre. unfold runCommand. rewrite fold_left_app.
  rewrite (runCommand_fold_data timeoutMs pre Hpre). simpl fold_left.
  apply runCommand_fold_settled.
  unfold close_settlement. destruct code as [[|p|p]|]; reflexivity.
Qed.

Example runCommand_exit_1_with_stderr :
  runCommand LOCAL_TIMEOUT_MS
    [Stdout (str "partial"); Stderr (str "  boom "); Stderr [LF]; Close (Some 1%Z)]
  = Rejected (str "boom").
Proof. vm_compute. reflexivity. Qed.

Example runCommand_exit_2_silent :
  runCommand LOCAL_TIMEOUT_MS [Stderr [LF]; Close (Some 2%Z)]
  = Rejected (str "Command exited with code 2").
Proof. vm_compute. reflexivity. Qed.

Example runCommand_exit_0 :
  runCommand LOCAL_TIMEOUT_MS [Stdout (str "he"); Stderr (str "warn"); Stdout (str "llo"); Close (Some 0%Z)]
  = Resolved (str "hello").
Proof. vm_compute. reflexivity. Qed.

(** C6, as stated, fails when the timeout has already rejected the promise:
    the child is killed after 300 s, exits with code 1 having written to
    stderr, and the rejection still carries the timeout text. *)
Lemma runCommand_timeout_then_exit_counterexample :
  runCommand LOCAL_TIMEOUT_MS [Stderr (str "boom"); TimerFired; Close (Some 1%Z)]
    = Rejected (str "Command timed out after 300s") /\
  runCommand LOCAL_TIMEOUT_MS [Stderr (str "boom"); TimerFired; Close (Some 1%Z)]
    <> Rejected (str "boom").
Proof. vm_compute. split; [reflexivity | discriminate]. Qed.

(** C6 (amended). When the child's close event arrives before any timeout
    or spawn error has settled the promise (only output chunks came
    earlier): on exit code 0 [runCommand] resolves with the captured stdout;
    on any other code N it rejects with the trimmed captured stderr, or with
    "Command exited with code N" when the trimmed stderr is empty. *)
Theorem runCommand_settles_on_close
  (timeoutMs : Z) (pre post : list proc_event) (code : option Z) :
  Forall (fun ev => is_data ev = true) pre ->
  let result := runCommand timeoutMs (pre ++ Close code :: post) in
  (code = Some 0%Z -> result = Resolved (stdout_of pre)) /\
  (code <> Some 0%Z ->
     (trim (stderr_of pre) <> [] -> result = Rejected (trim (stderr_of pre))) /\
     (trim (stderr_of pre) = [] ->
        result = Rejected (str "Command exited with code " ++ code_text code))).
Proof.
  intros Hpre. cbn zeta. rewrite (runCommand_close_first timeoutMs pre code post Hpre).
  unfold close_settlement. split.
  - intros ->. reflexivity.
  - intros Hne.
    assert (match code with
            | Some 0%Z => Resolved (stdout_of pre)
            | _ => Rejected (or_else (trim (stderr_of pre))
                               (str "Command exited with code " ++ code_text code))
            end
            = Rejected (or_else (trim (stderr_of pre))
                          (str "Command exited with code " ++ code_text code))) as ->
      by (destruct code as [[|p|p]|]; congruence).
    unfold or_else. split.
    + intros Hmsg. destruct (trim (stderr_of pre)); [congruence | reflexivity].
    + intros ->. reflexivity.
Qed.

Lemma runCommand_settles_on_close_witness :
  runCommand LOCAL_TIMEOUT_MS
    ([Stdout (str "partial"); Stderr (str "  boom ")] ++ Close (Some 1%Z) :: [])
  = Rejected (str "boom").
Proof.
  assert (Forall (fun ev => is_data ev = true) [Stdout (str "partial"); Stderr (str "  boom ")])
    as Hpre by (repeat constructor).
  destruct (runCommand_settles_on_close LOCAL_TIMEOUT_MS
              [Stdout (str "partial"); Stderr (str "  boom ")] [] (Some 1%Z) Hpre)
    as (_ & Hfail).
  destruct (Hfail ltac:(discriminate)) as (Hmsg & _).
  rewrite Hmsg; [vm_compute; reflexivity | vm_compute; discriminate].
Defined.

(** *** Local subprocesses: which event settles the promise *)

Lemma runCommand_fold_quiet timeoutMs pre :
  Forall (fun ev => is_quiet timeoutMs ev = true) pre ->
  forall st,
    timer_armed st = negb (timeoutMs =? 0)%Z ->
    fold_left (runCommand_step timeoutMs) pre st
    = mkRunState (out st ++ stdout_of pre) (err st ++ stderr_of pre)
        (timer_armed st) (settled st).
Proof.
  induction 1 as [|ev rest Hev _ IH]; intros st Harm; simpl.
  - rewrite !app_nil_r. destruct st; reflexivity.
  - destruct ev; try discriminate; simpl.
    + rewrite IH by exact Harm. simpl. rewrite <- ?app_assoc. reflexivity.
    + rewrite IH by exact Harm. simpl. rewrite <- ?app_assoc. reflexivity.
    + simpl in Hev.
      assert (timer_armed st = false) as Hf by (rewrite Harm, Hev; reflexivity).
      transitivity (fold_left (runCommand_step timeoutMs) rest st);
        [rewrite Hf; reflexivity | apply IH; exact Harm].
Qed.

Lemma runCommand_quiet_then timeoutMs pre ev post :
  Forall (fun ev => is_quiet timeoutMs ev = true) pre ->
  runCommand timeoutMs (pre ++ ev :: post)
  = result_of
      (fold_left (runCommand_step timeoutMs) post
         (runCommand_step timeoutMs
            (mkRunState (stdout_of pre) (stderr_of pre)
               (negb (timeoutMs =? 0)%Z) None) ev)).
Proof.
  intros Hpre. unfold runCommand. rewrite fold_left_app.
  rewrite (runCommand_fold_quiet timeoutMs pre Hpre) by reflexivity.
  reflexivity.
Qed.

(** The first event that is not quiet settles the promise, and resolves
    it only if it is a close with exit code 0. *)
Lemma runCommand_step_unquiet timeoutMs o e ev :
  is_quiet timeoutMs ev = false ->
  exists r,
    settled (runCommand_step timeoutMs
               (mkRunState o e (negb (timeoutMs =? 0)%Z) None) ev) = Some r /\
    (forall s, r = Resolved s -> ev = Close (Some 0%Z) /\ s = o).
Proof.
  intros Hev. destruct ev as [c|c| |m|code]; try discriminate.
  - simpl in Hev. unfold runCommand_step. cbn [timer_armed]. rewrite Hev.
    cbn [negb]. eexists. split; [reflexivity | discriminate].
  - eexists. split; [reflexivity | discriminate].
  - destruct code as [[|p|p]|]; (eexists; split; [reflexivity|]);
      intros s Hs; try discriminate.
    injection Hs as <-. split; reflexivity.
Qed.

Lemma runCommand_resolved_inv
  (timeoutMs : Z) (events : list proc_event) (s : jsstring) :
  runCommand timeoutMs events = Resolved s ->
  exists pre post,
    events = pre ++ Close (Some 0%Z) :: post /\
    Forall (fun ev => is_quiet timeoutMs ev = true) pre /\
    s = stdout_of pre.
Proof.
  assert (forall evs pre0,
            Forall (fun ev => is_quiet timeoutMs ev = true) pre0 ->
            runCommand timeoutMs (pre0 ++ evs) = Resolved s ->
            exists pre post,
              pre0 ++ evs = pre ++ Close (Some 0%Z) :: post /\
              Forall (fun ev => is_quiet timeoutMs ev = true) pre /\
              s = stdout_of pre) as Hgen.
  { induction evs as [|ev rest IH]; intros pre0 Hq Hrun.
    - rewrite app_nil_r in Hrun. unfold runCommand in Hrun.
      rewrite (runCommand_fold_quiet timeoutMs pre0 Hq) in Hrun by reflexivity.
      discriminate.
    - destruct (is_quiet timeoutMs ev) eqn:Hev.
      + assert (Forall (fun ev => is_quiet timeoutMs ev = true) (pre0 ++ [ev])) as Hq'
          by (apply Forall_app; split; [exact Hq | constructor; [exact Hev | constructor]]).
        specialize (IH (pre0 ++ [ev]) Hq').
        rewrite <- app_assoc in IH. exact (IH Hrun).
      + rewrite (runCommand_quiet_then timeoutMs pre0 ev rest Hq) in Hrun.
        destruct (runCommand_step_unquiet timeoutMs (stdout_of pre0) (stderr_of pre0)
                    ev Hev) as (r & Hr & Hres).
        rewrite (runCommand_fold_settled timeoutMs rest _ _ Hr) in Hrun.
        destruct (Hres s Hrun) as [-> ->].
        exists pre0, rest. repeat split. exact Hq. }
  intros Hrun. exact (Hgen events [] (List.Forall_nil _) Hrun).
Qed.

(** X7. [runCommand] resolves only on a clean exit. Whenever the promise
    resolves with a value, the child has closed with exit code 0 before
    any spawn error, any other close and (when a timeout is set) the
    timer, and the value is exactly what the child wrote to stdout up to
    that close event. *)
Theorem runCommand_resolves_only_on_clean_exit
  (timeoutMs : Z) (events : list proc_event) (s : jsstring) :
  runCommand timeoutMs events = Resolved s ->
  exists pre post,
    events = pre ++ Close (Some 0%Z) :: post /\
    Forall (fun ev => is_quiet timeoutMs ev = true) pre /\
    s = stdout_of pre.
Proof. apply runCommand_resolved_inv. Qed.

Lemma runCommand_resolves_only_on_clean_exit_witness :
  exists pre post,
    [Stdout (str "he"); Stderr (str "warn"); Stdout (str "llo"); Close (Some 0%Z);
     TimerFired]
    = pre ++ Close (Some 0%Z) :: post /\
    Forall (fun ev => is_quiet LOCAL_TIMEOUT_MS ev = true) pre /\
    str "hello" = stdout_of pre.
Proof.
  apply (runCommand_resolves_only_on_clean_exit LOCAL_TIMEOUT_MS).
  vm_compute. reflexivity.
Defined.

(** X8. What [runCommand] does without a close event. While only output
    arrives the promise stays pending; a spawn error that comes first
    rejects with the error as it is; and when a timeout is set and the
    timer fires first, the promise rejects with "Command timed out after
    Ns", N being the timeout in seconds, whatever the child does
    afterwards. *)
Theorem runCommand_error_and_timeout
  (timeoutMs : Z) (pre post : list proc_event) (message : jsstring) :
  Forall (fun ev => is_quiet timeoutMs ev = true) pre ->
  runCommand timeoutMs pre = Pending /\
  runCommand timeoutMs (pre ++ ErrorEvent message :: post) = Rejected message /\
  (timeoutMs <> 0%Z ->
   runCommand timeoutMs (pre ++ TimerFired :: post)
   = Rejected (str "Command timed out after " ++ seconds_text timeoutMs ++ str "s")).
Proof.
  intros Hq. repeat split.
  - unfold runCommand.
    rewrite (runCommand_fold_quiet timeoutMs pre Hq) by reflexivity. reflexivity.
  - rewrite (runCommand_quiet_then timeoutMs pre _ post Hq). simpl.
    apply runCommand_fold_settled. reflexivity.
  - intros Hne. rewrite (runCommand_quiet_then timeoutMs pre _ post Hq). simpl.
    replace (timeoutMs =? 0)%Z with false by (symmetry; apply Z.eqb_neq; exact Hne).
    simpl. apply runCommand_fold_settled. reflexivity.
Qed.

Lemma runCommand_error_and_timeout_witness :
  runCommand LOCAL_TIMEOUT_MS [Stdout (str "thinking")] = Pending /\
  runCommand LOCAL_TIMEOUT_MS
    ([Stdout (str "thinking")] ++ ErrorEvent (str "spawn claude ENOENT")
       :: [Close None])
  = Rejected (str "spawn claude ENOENT") /\
  (LOCAL_TIMEOUT_MS <> 0%Z ->
   runCommand LOCAL_TIMEOUT_MS
     ([Stdout (str "thinking")] ++ TimerFired :: [Close None])
   = Rejected (str "Command timed out after " ++ seconds_text LOCAL_TIMEOUT_MS
                 ++ str "s")).
Proof.
  apply (runCommand_error_and_timeout LOCAL_TIMEOUT_MS [Stdout (str "thinking")]).
  repeat constructor.
Defined.

(** *** Codex output *)

Section Codex.
Context `{Host}.

(** One loop iteration, in the words of the specification: a line that
    carries a final answer replaces the response, any other line (also one
    that does not parse, or parses to null) leaves it as it was. *)
Lemma codex_line_final (response : value) (line : jsstring) :
  codex_line response line = default response (JSON_parse line ≫= final_answer).
Proof.
  unfold codex_line, codex_try.
  destruct (JSON_parse line) as [json|]; [|reflexivity].
  cbn [mbind option_bind default].
  destruct json as [| |b|f|s|items|fields]; try reflexivity.
  unfold final_answer, get_prop.
  destruct (assoc (str "type") fields) as [ty|]; cbn [mbind option_bind strict_eq_str default].
  2:{ reflexivity. }
  destruct ty as [| |b|f|t|items|tfields]; cbn [strict_eq_str]; try reflexivity.
  destruct (bool_decide (t = str "item.completed")).
  2:{ destruct (assoc (str "item") fields) as [[]|]; reflexivity. }
  destruct (assoc (str "item") fields) as [item|]; cbn [mbind option_bind default].
  2:{ reflexivity. }
  destruct item as [| |b|f|s|items|ifields]; cbn [get_prop_opt get_prop mbind option_bind strict_eq_str default];
    try reflexivity.
  destruct (assoc (str "type") ifields) as [ity|]; cbn [mbind option_bind strict_eq_str default].
  2:{ reflexivity. }
  destruct ity as [| |b|f|it|items|itfields]; cbn [strict_eq_str]; try reflexivity.
  destruct (bool_decide (it = str "agent_message")); [|reflexivity].
  destruct (assoc (str "text") ifields); reflexivity.
Qed.

Lemma omap_cons_case {A B : Type} (f : A -> option B) (x : A) (l : list A) :
  omap f (x :: l) = match f x with Some y => y :: omap f l | None => omap f l end.
Proof. reflexivity. Qed.

Lemma codex_fold_last (lines : list jsstring) :
  forall response,
    fold_left codex_line lines response
    = default response (last (omap (fun line => JSON_parse line ≫= final_answer) lines)).
Proof.
  induction lines as [|line rest IH]; intros response; [reflexivity|].
  cbn [fold_left]. rewrite IH, codex_line_final, omap_cons_case.
  destruct (JSON_parse line ≫= final_answer) as [t|]; [|reflexivity].
  rewrite last_cons. cbn [default].
  destruct (last (omap (fun line0 => JSON_parse line0 ≫= final_answer) rest)); reflexivity.
Qed.

(** Lines that do not parse can be deleted without changing the result. *)
Lemma codex_fold_ignores_unparsable (lines : list jsstring) (response : value) :
  fold_left codex_line lines response
  = fold_left codex_line
      (List.filter (fun line => bool_decide (is_Some (JSON_parse line))) lines) response.
Proof.
  rewrite !codex_fold_last. do 2 f_equal.
  induction lines as [|line rest IH]; [reflexivity|].
  cbn [List.filter]. rewrite omap_cons_case.
  destruct (JSON_parse line) as [json|] eqn:Hp.
  - rewrite bool_decide_eq_true_2 by eauto.
    rewrite omap_cons_case, Hp. cbn [mbind option_bind]. rewrite IH. reflexivity.
  - rewrite bool_decide_eq_false_2 by (intros [? ?]; discriminate).
    cbn [mbind option_bind]. exact IH.
Qed.

Lemma parseCodexOutput_last (codexOutput : jsstring) :
  parseCodexOutput codexOutput
  = match last (final_answers codexOutput) with
    | Some text => if truthy text then text else VStr CODEX_FALLBACK
    | None => VStr CODEX_FALLBACK
    end.
Proof.
  unfold parseCodexOutput, final_answers. cbn zeta. rewrite codex_fold_last.
  destruct (last _); reflexivity.
Qed.

End Codex.

Example codex_output_last_message_wins :
  parseCodexOutput (H := CodexSamples.sample_host)
    (str "warming up" ++ [LF] ++ CodexSamples.agent_message_line "first" ++ [LF]
       ++ str "null" ++ [LF] ++ CodexSamples.reasoning_line ++ [LF]
       ++ CodexSamples.agent_message_line "final" ++ [LF])
  = VStr (str "final").
Proof. vm_compute. reflexivity. Qed.

Example codex_output_without_answer :
  parseCodexOutput (H := CodexSamples.sample_host)
    (str "warming up" ++ [LF] ++ CodexSamples.reasoning_line)
  = VStr CODEX_FALLBACK.
Proof. vm_compute. reflexivity. Qed.

(** C5, as stated, fails in two ways.  When the last agent_message record
    carries an empty text, the record exists and its text is the empty
    string, yet the fallback sentence is returned (also in place of the
    earlier answer).  And an agent whose provider is openai but whose
    invoke_mode is remote is run through the remote branch, which returns
    the trimmed stdout as it is, without reading it as JSON lines. *)
Lemma codex_last_answer_counterexample :
  let output :=
    CodexSamples.agent_message_line "first" ++ [LF]
      ++ CodexSamples.agent_message_line EmptyString in
  let w : world := fun _ =>
    [Stdout (CodexSamples.agent_message_line "final" ++ [LF]); Close (Some 0%Z)] in
  (last (final_answers (H := CodexSamples.sample_host) output) = Some (VStr []) /\
   parseCodexOutput (H := CodexSamples.sample_host) output = VStr CODEX_FALLBACK /\
   parseCodexOutput (H := CodexSamples.sample_host) output <> VStr []) /\
  (fst (invokeAgent (H := CodexSamples.sample_host) w 0 CodexSamples.remote_codex_agent
          (str "coder") (str "hi") (str "/ws") false)
     = Resolved (VStr (CodexSamples.agent_message_line "final")) /\
   fst (invokeAgent (H := CodexSamples.sample_host) w 0 CodexSamples.remote_codex_agent
          (str "coder") (str "hi") (str "/ws") false)
     <> Resolved (VStr (str "final"))).
Proof. vm_compute. repeat split; discriminate. Qed.

(** C5 (amended). For an agent with provider openai whose invoke_mode is
    not remote, [invokeAgent] spawns codex once and maps the stdout it resolves with
    through the line loop, which never raises: the result is the [text] of
    the last line that parses to a record of type item.completed whose item
    has type agent_message, provided that text is truthy (a non-empty
    string); when there is no such record, or the last one's text is empty
    or otherwise falsy, the result is the fixed fallback sentence.  Lines
    that do not parse have no influence on the result. *)
Theorem codex_final_answer_or_fallback `{Host}
  (w : world) (now : Z) (agent : AgentConfig)
  (agentId message workspacePath : jsstring) (shouldReset : bool) :
  (forall codexOutput,
     parseCodexOutput codexOutput
     = match last (final_answers codexOutput) with
       | Some text => if truthy text then text else VStr CODEX_FALLBACK
       | None => VStr CODEX_FALLBACK
       end) /\
  (forall lines response,
     fold_left codex_line lines response
     = fold_left codex_line
         (List.filter (fun line => bool_decide (is_Some (JSON_parse line))) lines)
         response) /\
  (invoke_mode agent <> Some Remote ->
   provider agent = str "openai" ->
   exists req,
     spawns_of (snd (invokeAgent w now agent agentId message workspacePath shouldReset))
       = [req] /\
     command req = str "codex" /\
     forall stdout,
       runCommand LOCAL_TIMEOUT_MS (w req) = Resolved stdout ->
       fst (invokeAgent w now agent agentId message workspacePath shouldReset)
       = Resolved (parseCodexOutput stdout)).
Proof.
  split; [exact parseCodexOutput_last | split; [exact codex_fold_ignores_unparsable |]].
  intros Hmode Hprov. unfold invokeAgent. cbn zeta. rewrite Hprov.
  assert (or_else (str "openai") (str "anthropic") = str "openai") as -> by reflexivity.
  rewrite bool_decide_eq_true_2 by reflexivity.
  destruct (invoke_mode agent) as [[|]|]; try congruence;
    (eexists; split; [reflexivity | split; [reflexivity |]];
     intros stdout Hres; cbn [fst]; rewrite Hres; reflexivity).
Qed.

Lemma codex_final_answer_or_fallback_witness :
  let w : world := fun _ =>
    [Stdout (CodexSamples.agent_message_line "first" ++ [LF]);
     Stdout (CodexSamples.agent_message_line "final" ++ [LF]); Close (Some 0%Z)] in
  fst (invokeAgent (H := CodexSamples.sample_host) w 0 CodexSamples.codex_agent
         (str "coder") (str "hi") (str "/ws") false)
  = Resolved (VStr (str "final")).
Proof.
  intros w.
  destruct (codex_final_answer_or_fallback (H := CodexSamples.sample_host) w 0
              CodexSamples.codex_agent (str "coder") (str "hi") (str "/ws") false)
    as (_ & _ & Hinv).
  destruct Hinv as (req & _ & _ & Hres); [discriminate | reflexivity |].
  rewrite (Hres (CodexSamples.agent_message_line "first" ++ [LF]
                   ++ CodexSamples.agent_message_line "final" ++ [LF])).
  - vm_compute. reflexivity.
  - vm_compute. reflexivity.
Defined.

(** *** Remote agents *)

(** C7. For an agent with invoke_mode remote of which remote_host,
    remote_user or remote_project_root is missing (or empty), [invokeAgent]
    rejects with the configuration error naming the agent, and has spawned
    no subprocess: it has only prepared the agent directory. *)
Theorem invokeAgent_remote_missing_config `{Host}
  (w : world) (now : Z) (agent : AgentConfig)
  (agentId message workspacePath : jsstring) (shouldReset : bool) :
  invoke_mode agent = Some Remote ->
  falsy_opt (remote_host agent) = true \/ falsy_opt (remote_user agent) = true
    \/ falsy_opt (remote_project_root agent) = true ->
  invokeAgent w now agent agentId message workspacePath shouldReset
    = (Rejected (str "Agent " ++ agentId
         ++ str " has invoke_mode=remote but missing remote_host/remote_user/remote_project_root"),
       [EnsureAgentDirectory (path_join workspacePath agentId);
        UpdateAgentTeammates (path_join workspacePath agentId) agentId]) /\
  spawns_of (snd (invokeAgent w now agent agentId message workspacePath shouldReset)) = [].
Proof.
  intros Hmode Hmissing. unfold invokeAgent. cbn zeta. rewrite Hmode.
  assert (falsy_opt (remote_host agent) || falsy_opt (remote_user agent)
          || falsy_opt (remote_project_root agent) = true) as ->.
  { destruct Hmissing as [ -> | [ -> | -> ] ]; rewrite ?orb_true_r; reflexivity. }
  split; reflexivity.
Qed.

Lemma invokeAgent_remote_missing_config_witness :
  let w : world := fun _ => [Stdout (str "unused"); Close (Some 0%Z)] in
  invokeAgent (H := CodexSamples.sample_host) w 0 CodexSamples.remote_agent_no_host
    (str "researcher") (str "hi") (str "/ws") false
  = (Rejected (str "Agent researcher has invoke_mode=remote but missing remote_host/remote_user/remote_project_root"),
     [EnsureAgentDirectory (str "/ws/researcher");
      UpdateAgentTeammates (str "/ws/researcher") (str "researcher")]).
Proof.
  intros w.
  apply (invokeAgent_remote_missing_config (H := CodexSamples.sample_host) w 0
           CodexSamples.remote_agent_no_host (str "researcher") (str "hi") (str "/ws") false).
  - reflexivity.
  - left. reflexivity.
Defined.

(** *** What a remote command line is made of *)

Lemma starts_with_In (pat : jsstring) :
  forall s c, starts_with pat s = true -> In c pat -> In c s.
Proof.
  induction pat as [|p pr IH]; intros s c Hs Hc; [destruct Hc|].
  destruct s as [|x r]; [discriminate|]. simpl in Hs.
  apply andb_true_iff in Hs as [Hx Hr]. apply N.eqb_eq in Hx. subst x.
  destruct Hc as [->|Hc]; [left; reflexivity | right; exact (IH r c Hr Hc)].
Qed.

(** A string that contains [pat] contains every code unit of [pat]. *)
Lemma includes_In (s pat : jsstring) (c : N) :
  includes s pat = true -> In c pat -> In c s.
Proof.
  induction s as [|x r IH]; simpl; intros Hs Hc.
  - exact (starts_with_In pat [] c Hs Hc).
  - apply orb_true_iff in Hs as [Hs|Hs].
    + exact (starts_with_In pat (x :: r) c Hs Hc).
    + right. exact (IH Hs Hc).
Qed.

Lemma uint_text_digits (d : Decimal.uint) (c : N) :
  In c (str (NilEmpty.string_of_uint d)) -> In c RemoteText.DIGITS.
Proof.
  induction d as [|d IH|d IH|d IH|d IH|d IH|d IH|d IH|d IH|d IH|d IH]; simpl;
    intros Hc; [destruct Hc | ..];
    (destruct Hc as [<-|Hc]; [vm_compute; tauto | exact (IH Hc)]).
Qed.

Lemma dec_digits (z : Z) (c : N) : In c (dec z) -> In c RemoteText.DIGITS.
Proof.
  unfold dec, NilZero.string_of_int. intros Hc.
  destruct (Z.to_int z) as [d|d].
  - unfold NilZero.string_of_uint in Hc.
    destruct d; try exact (uint_text_digits _ c Hc).
    simpl in Hc. destruct Hc as [<-|[]]. vm_compute. tauto.
  - simpl in Hc. destruct Hc as [<-|Hc]; [vm_compute; tauto|].
    unfold NilZero.string_of_uint in Hc.
    destruct d; try exact (uint_text_digits _ c Hc).
    simpl in Hc. destruct Hc as [<-|[]]. vm_compute. tauto.
Qed.

Lemma join_In (sep : jsstring) (parts : list jsstring) (c : N) :
  In c (join sep parts) -> In c sep \/ In c (concat parts).
Proof.
  induction parts as [|p rest IH]; [intros []|].
  destruct rest as [|q rest].
  - simpl. rewrite app_nil_r. auto.
  - change (join sep (p :: q :: rest)) with (p ++ sep ++ join sep (q :: rest)).
    change (concat (p :: q :: rest)) with (p ++ concat (q :: rest)).
    rewrite !in_app_iff. intros [H|[H|H]]; [tauto | tauto |].
    destruct (IH H); tauto.
Qed.

(** Every code unit of a remote argv string comes from the host, the user,
    the project root, a flag, or the fixed command text. *)
Lemma remote_argv_units (host user root : jsstring) (claudeArgs : list jsstring)
  (now : Z) (a : jsstring) (c : N) :
  In a (write_args host user now ++ exec_args host user root claudeArgs now) ->
  In c a ->
  In c (host ++ user ++ root ++ concat claudeArgs ++ RemoteText.COMMAND_TEXT).
Proof.
  intros Ha Hc.
  assert (In c (tmpFile now) -> In c RemoteText.COMMAND_TEXT) as Htmp.
  { unfold tmpFile. rewrite !in_app_iff. intros [H|[H|H]].
    - unfold RemoteText.COMMAND_TEXT. rewrite !in_app_iff. tauto.
    - apply dec_digits in H. unfold RemoteText.COMMAND_TEXT. rewrite !in_app_iff. tauto.
    - unfold RemoteText.COMMAND_TEXT. rewrite !in_app_iff. tauto. }
  assert (In c (ssh_target user host) ->
          In c (host ++ user ++ root ++ concat claudeArgs ++ RemoteText.COMMAND_TEXT)) as Hssh.
  { unfold ssh_target, RemoteText.COMMAND_TEXT. rewrite !in_app_iff. tauto. }
  unfold write_args, exec_args in Ha. cbn [app In] in Ha.
  destruct Ha as [<-|[<-|[<-|[<-|[]]]]].
  - exact (Hssh Hc).
  - rewrite in_app_iff in Hc. destruct Hc as [Hc|Hc].
    + rewrite !in_app_iff. do 4 right.
      unfold RemoteText.COMMAND_TEXT. rewrite !in_app_iff. tauto.
    + rewrite !in_app_iff. do 4 right. exact (Htmp Hc).
  - exact (Hssh Hc).
  - unfold remoteCmd in Hc. cbv zeta in Hc. apply join_In in Hc.
    destruct Hc as [Hc|Hc].
    + rewrite !in_app_iff. do 4 right.
      unfold RemoteText.COMMAND_TEXT. rewrite !in_app_iff. tauto.
    + cbn [concat] in Hc. rewrite !in_app_iff in Hc.
      assert (In c (join (str " ") claudeArgs) ->
              In c (str " ") \/ In c (concat claudeArgs)) as Hjoin by apply join_In.
      unfold RemoteText.COMMAND_TEXT in *. rewrite !in_app_iff in *.
      cbn [In] in *. tauto.
Qed.

(** The two processes of a remote run, as built from everything but the
    prompt; only the first is handed the prompt, on its stdin. *)
Lemma runCommandRemote_spawns (w : world) (now : Z)
  (host user root : jsstring) (claudeArgs : list jsstring) (prompt : jsstring) :
  let writeProc := mkSpawn (str "ssh") (write_args host user now) None (Some prompt) in
  let child := mkSpawn (str "ssh") (exec_args host user root claudeArgs now) None None in
  snd (runCommandRemote w now host user root claudeArgs prompt) = [writeProc] \/
  snd (runCommandRemote w now host user root claudeArgs prompt) = [writeProc; child].
Proof.
  cbn zeta. unfold runCommandRemote.
  destruct (result_of (fold_left write_step _ _)); simpl; auto.
Qed.

Lemma runCommandRemote_argv_at (w : world) (now : Z)
  (host user root : jsstring) (claudeArgs : list jsstring) (prompt : jsstring)
  (i : nat) (r : spawn_request) :
  snd (runCommandRemote w now host user root claudeArgs prompt) !! i = Some r ->
  command r = str "ssh" /\
  args r = nth i [write_args host user now; exec_args host user root claudeArgs now] [] /\
  stdin r = match i with O => Some prompt | S _ => None end.
Proof.
  intros Hi.
  destruct (runCommandRemote_spawns w now host user root claudeArgs prompt) as [Heq|Heq];
    rewrite Heq in Hi; destruct i as [|[|i]]; simpl in Hi; inversion Hi; subst;
    repeat split.
Qed.

Lemma spawns_of_app (l1 l2 : list effect) :
  spawns_of (l1 ++ l2) = spawns_of l1 ++ spawns_of l2.
Proof. apply omap_app. Qed.

Lemma spawns_of_Spawn (procs : list spawn_request) : spawns_of (map Spawn procs) = procs.
Proof.
  induction procs as [|p procs IH]; [reflexivity|].
  change (spawns_of (map Spawn (p :: procs))) with (p :: spawns_of (map Spawn procs)).
  rewrite IH. reflexivity.
Qed.

Lemma invokeAgent_remote_spawns `{Host} (w : world) (now : Z) (agent : AgentConfig)
  (agentId message workspacePath : jsstring) (shouldReset : bool) :
  invoke_mode agent = Some Remote ->
  spawns_of (snd (invokeAgent w now agent agentId message workspacePath shouldReset)) = [] \/
  exists claudeArgs,
    spawns_of (snd (invokeAgent w now agent agentId message workspacePath shouldReset))
    = snd (runCommandRemote w now (opt_str (remote_host agent)) (opt_str (remote_user agent))
             (opt_str (remote_project_root agent)) claudeArgs message) /\
    claudeArgs = [str "--dangerously-skip-permissions"]
                   ++ model_args (resolveClaudeModel (model agent))
                   ++ (if shouldReset then [] else [str "-c"]).
Proof.
  intros Hmode. unfold invokeAgent. cbn zeta. rewrite Hmode.
  destruct (falsy_opt (remote_host agent) || falsy_opt (remote_user agent)
            || falsy_opt (remote_project_root agent)); [left; reflexivity|].
  right. eexists. split; [|reflexivity].
  destruct (runCommandRemote _ _ _ _ _ _ _) as [res procs]. cbn [snd].
  rewrite spawns_of_app, spawns_of_Spawn. reflexivity.
Qed.

Example remote_run_argv :
  let w : world := fun _ => [Stdout (str " ok "); Close (Some 0%Z)] in
  invokeAgent (H := CodexSamples.sample_host) w 1700000000000 CodexSamples.remote_agent
    (str "researcher") (str "rm -rf /; echo $HOME") (str "/ws") true
  = (Resolved (VStr (str "ok")),
     [EnsureAgentDirectory (str "/ws/researcher");
      UpdateAgentTeammates (str "/ws/researcher") (str "researcher");
      Spawn (mkSpawn (str "ssh")
               [str "root@ct110"; str "cat > /tmp/tinyclaw-prompt-1700000000000.txt"]
               None (Some (str "rm -rf /; echo $HOME")));
      Spawn (mkSpawn (str "ssh")
               [str "root@ct110";
                str "cd /opt/trading && source /etc/trading-signal-ai.env 2>/dev/null || true && PROMPT=$(cat /tmp/tinyclaw-prompt-1700000000000.txt) && rm -f /tmp/tinyclaw-prompt-1700000000000.txt && claude --dangerously-skip-permissions --model opus -p "
                  ++ quoted "$PROMPT"]
               None None)]).
Proof. vm_compute. reflexivity. Qed.

(** C8. In a remote invocation the command line of each ssh process is
    computed from host, user, project root, the agent flags and the clock
    only: [runCommandRemote] spawns the prompt-writing ssh and, when that
    succeeded, the executing ssh, with the argv given by [write_args] and
    [exec_args], neither of which takes the message; the message is handed
    to the first process on its stdin and the second has no stdin.  Hence
    two runs that differ in the message (and in how the processes behave)
    spawn, position by position, the same commands with the same argv, both
    for [runCommandRemote] and for [invokeAgent] on a remote agent.  And a
    message with a code unit that occurs neither in host, user, project
    root and flags nor in the fixed command text is a substring of no argv
    string. *)
Theorem remote_prompt_only_via_stdin :
  (forall (w : world) now host user root claudeArgs prompt i r,
     snd (runCommandRemote w now host user root claudeArgs prompt) !! i = Some r ->
     command r = str "ssh" /\
     args r = nth i [write_args host user now; exec_args host user root claudeArgs now] [] /\
     stdin r = match i with O => Some prompt | S _ => None end) /\
  (forall (w1 w2 : world) now host user root claudeArgs prompt1 prompt2 i r1 r2,
     snd (runCommandRemote w1 now host user root claudeArgs prompt1) !! i = Some r1 ->
     snd (runCommandRemote w2 now host user root claudeArgs prompt2) !! i = Some r2 ->
     command r1 = command r2 /\ args r1 = args r2) /\
  (forall (H : Host) (w1 w2 : world) now agent agentId message1 message2 workspacePath
          shouldReset i r1 r2,
     invoke_mode agent = Some Remote ->
     spawns_of (snd (invokeAgent w1 now agent agentId message1 workspacePath shouldReset))
       !! i = Some r1 ->
     spawns_of (snd (invokeAgent w2 now agent agentId message2 workspacePath shouldReset))
       !! i = Some r2 ->
     command r1 = command r2 /\ args r1 = args r2) /\
  (forall (w : world) now host user root claudeArgs prompt c i r a,
     In c prompt ->
     ~ In c (host ++ user ++ root ++ concat claudeArgs ++ RemoteText.COMMAND_TEXT) ->
     snd (runCommandRemote w now host user root claudeArgs prompt) !! i = Some r ->
     In a (args r) ->
     includes a prompt = false).
Proof.
  split; [exact runCommandRemote_argv_at | split; [|split]].
  3:{ intros w now host user root claudeArgs prompt c i r a Hc Hfresh Hi Ha.
      destruct (runCommandRemote_argv_at _ _ _ _ _ _ _ _ _ Hi) as (_ & Hargs & _).
      destruct (includes a prompt) eqn:Hinc; [|reflexivity].
      exfalso. apply Hfresh.
      apply (remote_argv_units host user root claudeArgs now a c);
        [|exact (includes_In a prompt c Hinc Hc)].
      rewrite Hargs in Ha. apply in_or_app.
      destruct i as [|[|i]]; simpl nth in Ha;
        [left; exact Ha | right; exact Ha | destruct i; destruct Ha]. }
  - intros w1 w2 now host user root claudeArgs prompt1 prompt2 i r1 r2 H1 H2.
    destruct (runCommandRemote_argv_at _ _ _ _ _ _ _ _ _ H1) as (Hc1 & Ha1 & _).
    destruct (runCommandRemote_argv_at _ _ _ _ _ _ _ _ _ H2) as (Hc2 & Ha2 & _).
    split; congruence.
  - intros H w1 w2 now agent agentId message1 message2 workspacePath shouldReset i r1 r2
      Hmode H1 H2.
    destruct (invokeAgent_remote_spawns w1 now agent agentId message1 workspacePath
                shouldReset Hmode) as [He1|(a1 & He1 & Ha1)];
      rewrite He1 in H1; [discriminate|].
    destruct (invokeAgent_remote_spawns w2 now agent agentId message2 workspacePath
                shouldReset Hmode) as [He2|(a2 & He2 & Ha2)];
      rewrite He2 in H2; [discriminate|].
    destruct (runCommandRemote_argv_at _ _ _ _ _ _ _ _ _ H1) as (Hc1 & Hg1 & _).
    destruct (runCommandRemote_argv_at _ _ _ _ _ _ _ _ _ H2) as (Hc2 & Hg2 & _).
    subst a1 a2. split; congruence.
Qed.

Lemma remote_prompt_only_via_stdin_witness :
  let w : world := fun _ => [Close (Some 0%Z)] in
  let first :=
    snd (runCommandRemote w 7 (str "ct110") (str "root") (str "/opt") [str "-c"]
           (str "first message")) in
  let second :=
    snd (runCommandRemote w 7 (str "ct110") (str "root") (str "/opt") [str "-c"]
           (str "drop it; now!")) in
  let r := mkSpawn (str "ssh")
             (exec_args (str "ct110") (str "root") (str "/opt") [str "-c"] 7) None None in
  first !! 1%nat = Some r /\ second !! 1%nat = Some r /\
  includes (remoteCmd (str "/opt") [str "-c"] 7) (str "drop it; now!") = false.
Proof.
  intros w first second r.
  assert (first !! 1%nat = Some r) as H1 by (vm_compute; reflexivity).
  assert (second !! 1%nat = Some r) as H2 by (vm_compute; reflexivity).
  split; [exact H1 | split; [exact H2 |]].
  apply (proj2 (proj2 (proj2 remote_prompt_only_via_stdin)) w 7%Z (str "ct110") (str "root")
           (str "/opt") [str "-c"] (str "drop it; now!") 33%N 1%nat r).
  - vm_compute. repeat (first [left; reflexivity | right]).
  - vm_compute. intros H. repeat (destruct H as [H|H]; [discriminate H|]). exact H.
  - exact H2.
  - right. left. reflexivity.
Defined.

(** *** The upload step of a remote run *)

Lemma write_fold_settled events :
  forall st r, settled st = Some r ->
    result_of (fold_left write_step events st) = r.
Proof.
  induction events as [|ev rest IH]; intros st r Hs; simpl.
  - unfold result_of. rewrite Hs. reflexivity.
  - apply IH. destruct ev as [c|c| |m|[[|p|p]|]]; simpl; unfold settle;
      try exact Hs; rewrite Hs; exact Hs.
Qed.

(** The upload promise against the events of the writing process. *)
Lemma write_result events :
  result_of (fold_left write_step events (mkRunState [] [] false None))
  = match first_exit events with
    | Some (Close (Some 0%Z)) => Resolved []
    | Some (Close code) =>
        Rejected (str "Failed to write prompt via SSH (exit "
                    ++ code_text code ++ str ")")
    | Some (ErrorEvent message) => Rejected message
    | _ => Pending
    end.
Proof.
  induction events as [|ev rest IH]; [reflexivity|].
  destruct ev as [c|c| |m|code]; try exact IH.
  - cbn [fold_left first_exit]. apply write_fold_settled. reflexivity.
  - cbn [fold_left first_exit]. apply write_fold_settled.
    destruct code as [[|p|p]|]; reflexivity.
Qed.

(** X9. The agent runs on the remote host only after the prompt has been
    uploaded. [runCommandRemote] spawns the second ssh process exactly
    when the first close or error event of the uploading process is a
    close with exit code 0. If the upload closes with another code the
    call rejects with "Failed to write prompt via SSH (exit N)", if it
    reports an error the call rejects with that error, and as long as it
    does neither the call stays pending (the upload has no timeout); in
    these three cases the uploading process is the only one spawned. *)
Theorem runCommandRemote_upload_gate
  (w : world) (now : Z) (host user remoteProjectRoot : jsstring)
  (claudeArgs : list jsstring) (prompt : jsstring) :
  let writeProc := mkSpawn (str "ssh") (write_args host user now) None (Some prompt) in
  let run := runCommandRemote w now host user remoteProjectRoot claudeArgs prompt in
  (length (snd run) = 2%nat <-> first_exit (w writeProc) = Some (Close (Some 0%Z))) /\
  (forall code,
     code <> Some 0%Z -> first_exit (w writeProc) = Some (Close code) ->
     run = (Rejected (str "Failed to write prompt via SSH (exit "
                        ++ code_text code ++ str ")"), [writeProc])) /\
  (forall message,
     first_exit (w writeProc) = Some (ErrorEvent message) ->
     run = (Rejected message, [writeProc])) /\
  (first_exit (w writeProc) = None -> run = (Pending, [writeProc])).
Proof.
  intros writeProc run. subst run. unfold runCommandRemote.
  fold writeProc. rewrite (write_result (w writeProc)).
  destruct (first_exit (w writeProc)) as [[c|c| |m|code]|] eqn:Hfirst.
  - cbn [snd length]. repeat split; try discriminate.
  - cbn [snd length]. repeat split; try discriminate.
  - cbn [snd length]. repeat split; try discriminate.
  - cbn [snd length]. repeat split; try discriminate.
    intros m' Hm. injection Hm as <-. reflexivity.
  - destruct code as [[|p|p]|]; cbn [snd length]; repeat split;
      try discriminate; try reflexivity;
      try (intros code' Hne Hc; injection Hc as <-; try reflexivity; congruence).
  - cbn [snd length]. repeat split; try discriminate.
Qed.

Example runCommandRemote_upload_refused :
  runCommandRemote (fun _ => [Stderr (str "Permission denied"); Close (Some 255%Z)])
    1700000000000 (str "ct100") (str "trader") (str "/opt/app") [str "-c"] (str "hello")
  = (Rejected (str "Failed to write prompt via SSH (exit 255)"),
     [mkSpawn (str "ssh")
        [str "trader@ct100"; str "cat > /tmp/tinyclaw-prompt-1700000000000.txt"]
        None (Some (str "hello"))]).
Proof. vm_compute. reflexivity. Qed.

(** *** Success of an invocation *)

Lemma first_exit_clean (events : list proc_event) :
  first_exit events = Some (Close (Some 0%Z)) -> clean_exit events.
Proof.
  induction events as [|ev rest IH]; [discriminate|].
  destruct ev as [c|c| |m|code]; cbn [first_exit]; intros Hf.
  - destruct (IH Hf) as (pre & post & -> & Hpre).
    exists (Stdout c :: pre), post. split; [reflexivity | constructor; [reflexivity | exact Hpre]].
  - destruct (IH Hf) as (pre & post & -> & Hpre).
    exists (Stderr c :: pre), post. split; [reflexivity | constructor; [reflexivity | exact Hpre]].
  - destruct (IH Hf) as (pre & post & -> & Hpre).
    exists (TimerFired :: pre), post. split; [reflexivity | constructor; [reflexivity | exact Hpre]].
  - discriminate.
  - injection Hf as ->. exists [], rest. split; [reflexivity | constructor].
Qed.

Lemma remote_step_settled st ev r :
  settled st = Some r -> settled (remote_step st ev) = Some r.
Proof.
  intros Hs. destruct ev as [c|c| |m|[[|p|p]|]]; simpl; unfold settle; simpl;
    try destruct (timer_armed st); simpl; rewrite ?Hs; try reflexivity; exact Hs.
Qed.

Lemma remote_fold_settled events :
  forall st r, settled st = Some r ->
    result_of (fold_left remote_step events st) = r.
Proof.
  induction events as [|ev rest IH]; intros st r Hs; simpl.
  - unfold result_of. rewrite Hs. reflexivity.
  - apply IH. apply remote_step_settled. exact Hs.
Qed.

Lemma remote_step_exit o e ev :
  is_data ev = false ->
  exists r,
    settled (remote_step (mkRunState o e true None) ev) = Some r /\
    (forall s, r = Resolved s -> ev = Close (Some 0%Z)).
Proof.
  intros Hev. destruct ev as [c|c| |m|code]; try discriminate.
  - eexists. split; [reflexivity | discriminate].
  - eexists. split; [reflexivity | discriminate].
  - destruct code as [[|p|p]|]; (eexists; split; [reflexivity|]);
      intros s Hs; try discriminate. reflexivity.
Qed.

(** The executing ssh process resolves the call only by closing with exit
    code 0 before its timer and before any error. *)
Lemma remote_resolved_inv (events : list proc_event) (s : jsstring) :
  forall out0 err0,
    result_of (fold_left remote_step events (mkRunState out0 err0 true None)) = Resolved s ->
    clean_exit events.
Proof.
  induction events as [|ev rest IH]; intros out0 err0 Hrun; [discriminate|].
  destruct (is_data ev) eqn:Hev.
  - destruct ev as [c|c| |m|code]; try discriminate;
      cbn [fold_left remote_step out err timer_armed settled] in Hrun;
      destruct (IH _ _ Hrun) as (pre & post & -> & Hpre).
    + exists (Stdout c :: pre), post.
      split; [reflexivity | constructor; [reflexivity | exact Hpre]].
    + exists (Stderr c :: pre), post.
      split; [reflexivity | constructor; [reflexivity | exact Hpre]].
  - cbn [fold_left] in Hrun.
    destruct (remote_step_exit out0 err0 ev Hev) as (r & Hr & Hres).
    rewrite (remote_fold_settled rest _ _ Hr) in Hrun.
    rewrite (Hres s Hrun). exists [], rest. split; [reflexivity | constructor].
Qed.

Lemma quiet_not_exit timeoutMs pre :
  Forall (fun ev => is_quiet timeoutMs ev = true) pre ->
  Forall (fun ev => is_exit ev = false) pre.
Proof.
  intros Hq. eapply List.Forall_impl; [|exact Hq].
  intros ev Hev. destruct ev; try reflexivity; discriminate.
Qed.

(** X27. [invokeAgent] reports success only when every process it started
    ended cleanly. Whenever the call resolves, it has started at least
    one process, and each process it started closed with exit code 0
    before any other close event and any error event of that process:
    the single claude or codex child of a local agent, and for a remote
    agent both the ssh process that uploads the prompt and the one that
    runs the agent. *)
Theorem invokeAgent_resolves_only_after_clean_exits `{Host}
  (w : world) (now : Z) (agent : AgentConfig)
  (agentId message workspacePath : jsstring) (shouldReset : bool) (v : value) :
  fst (invokeAgent w now agent agentId message workspacePath shouldReset) = Resolved v ->
  spawns_of (snd (invokeAgent w now agent agentId message workspacePath shouldReset)) <> [] /\
  Forall (fun req => clean_exit (w req))
    (spawns_of (snd (invokeAgent w now agent agentId message workspacePath shouldReset))).
Proof.
  assert (forall timeoutMs req (f : jsstring -> value),
            outcome_map f (runCommand timeoutMs (w req)) = Resolved v ->
            clean_exit (w req)) as Hlocal.
  { intros timeoutMs req f Hres.
    destruct (runCommand timeoutMs (w req)) as [s| |] eqn:Hrun; try discriminate.
    destruct (runCommand_resolved_inv timeoutMs (w req) s Hrun) as (pre & post & Heq & Hq & _).
    exists pre, post. split; [exact Heq | exact (quiet_not_exit timeoutMs pre Hq)]. }
  unfold invokeAgent. cbv zeta.
  destruct (invoke_mode agent) as [[|]|].
  - destruct (bool_decide _); cbn [fst snd]; intros Hres;
      rewrite spawns_of_app; apply Hlocal in Hres;
      (split; [intros Hnil; apply app_eq_nil in Hnil as [_ Hnil]; discriminate|]);
      apply Forall_app; split; [constructor | | constructor |];
      (constructor; [exact Hres | constructor]).
  - destruct (falsy_opt (remote_host agent) || falsy_opt (remote_user agent)
              || falsy_opt (remote_project_root agent)); [discriminate|].
    unfold runCommandRemote. rewrite write_result.
    match goal with
    | |- context [first_exit (w ?wp)] => set (writeProc := wp)
    end.
    destruct (first_exit (w writeProc)) as [[c|c| |m|[[|p|p]|]]|] eqn:Hfirst;
      cbn [fst snd outcome_map]; try discriminate.
    intros Hres. rewrite spawns_of_app, spawns_of_Spawn. cbn [spawns_of omap app].
    split; [discriminate|].
    constructor; [exact (first_exit_clean _ Hfirst)|].
    constructor; [|constructor].
    match type of Hres with
    | outcome_map _ (result_of (fold_left remote_step ?evs _)) = _ =>
        destruct (result_of (fold_left remote_step evs (mkRunState [] [] true None)))
          as [s| |] eqn:Hrun; try discriminate;
        exact (remote_resolved_inv evs s [] [] Hrun)
    end.
  - destruct (bool_decide _); cbn [fst snd]; intros Hres;
      rewrite spawns_of_app; apply Hlocal in Hres;
      (split; [intros Hnil; apply app_eq_nil in Hnil as [_ Hnil]; discriminate|]);
      apply Forall_app; split; [constructor | | constructor |];
      (constructor; [exact Hres | constructor]).
Qed.


Lemma invokeAgent_resolves_only_after_clean_exits_witness :
  let w : world := fun _ => [Stdout (str "  done "); Close (Some 0%Z)] in
  let run :=
    @invokeAgent CodexSamples.sample_host w 1700000000000 CodexSamples.remote_agent
      (str "researcher") (str "backtest it") (str "/ws") false in
  spawns_of (snd run) <> [] /\ Forall (fun req => clean_exit (w req)) (spawns_of (snd run)).
Proof.
  cbv zeta.
  apply (@invokeAgent_resolves_only_after_clean_exits CodexSamples.sample_host
           (fun _ => [Stdout (str "  done "); Close (Some 0%Z)]) 1700000000000
           CodexSamples.remote_agent (str "researcher") (str "backtest it") (str "/ws")
           false (VStr (str "done"))).
  vm_compute. reflexivity.
Defined.

End InvokeFacts.
(** ** Discord webhook helpers *)

Module DiscordFacts.
Import JS JSFacts Discord.

Lemma starts_with_head (p : N) (pr s : jsstring) :
  starts_with (p :: pr) s = true -> exists r, s = p :: r.
Proof.
  destruct s as [|c r]; simpl; [discriminate|].
  intros H. apply andb_true_iff in H as [Hc _]. apply N.eqb_eq in Hc. subst. eauto.
Qed.

(** The split index lies in [0, 1900]; it is 0 only in front of a
    separator, which is white space. *)
Lemma split_index_range (remaining : jsstring) :
  (0 <= split_index remaining <= MAX_MESSAGE_LENGTH)%Z /\
  (split_index remaining = 0%Z ->
   exists c r, remaining = c :: r /\ is_ws c = true).
Proof.
  unfold split_index. cbv zeta.
  assert (0 <= MAX_MESSAGE_LENGTH)%Z as Hmax by (unfold MAX_MESSAGE_LENGTH; lia).
  assert (forall p pr,
            is_ws p = true ->
            match_at remaining (p :: pr) (Z.to_nat 0) = true ->
            exists c r, remaining = c :: r /\ is_ws c = true) as Hhead.
  { intros p pr Hp Hm. unfold match_at in Hm. simpl in Hm.
    destruct (starts_with_head p pr remaining Hm) as (r & ->). eauto. }
  destruct (lastIndexOf_range remaining [LF; LF] MAX_MESSAGE_LENGTH Hmax) as [-> | (H1 & _ & M1)].
  2:{ assert ((lastIndexOf remaining [LF; LF] MAX_MESSAGE_LENGTH =? -1)%Z = false) as E
        by (apply Z.eqb_neq; lia).
      repeat (rewrite ?E; cbv iota). split; [lia|].
      intros H0. rewrite H0 in M1. exact (Hhead LF [LF] eq_refl M1). }
  simpl Z.eqb. cbv iota.
  destruct (lastIndexOf_range remaining [LF] MAX_MESSAGE_LENGTH Hmax) as [-> | (H2 & _ & M2)].
  2:{ assert ((lastIndexOf remaining [LF] MAX_MESSAGE_LENGTH =? -1)%Z = false) as E
        by (apply Z.eqb_neq; lia).
      repeat (rewrite ?E; cbv iota). split; [lia|].
      intros H0. rewrite H0 in M2. exact (Hhead LF [] eq_refl M2). }
  simpl Z.eqb. cbv iota.
  destruct (lastIndexOf_range remaining [SPACE] MAX_MESSAGE_LENGTH Hmax) as [-> | (H3 & _ & M3)].
  2:{ assert ((lastIndexOf remaining [SPACE] MAX_MESSAGE_LENGTH =? -1)%Z = false) as E
        by (apply Z.eqb_neq; lia).
      repeat (rewrite ?E; cbv iota). split; [lia|].
      intros H0. rewrite H0 in M3. exact (Hhead SPACE [] eq_refl M3). }
  simpl Z.eqb. cbv iota. split; [lia|]. unfold MAX_MESSAGE_LENGTH. discriminate.
Qed.

(** Trailing white space can be pushed into the last gap. *)
Lemma weave_trailing (new : list jsstring) :
  forall gaps r,
    new <> [] -> length gaps = length new ->
    Forall all_ws gaps -> all_ws r ->
    exists gaps', length gaps' = length new /\ Forall all_ws gaps' /\
                  weave new gaps ++ r = weave new gaps'.
Proof.
  induction new as [|c cs IH]; intros gaps r Hne Hlen Hws Hr; [congruence|].
  destruct gaps as [|g gs]; [discriminate|].
  apply Forall_cons in Hws as [Hg Hgs]. simpl in Hlen.
  destruct cs as [|c2 cs].
  - destruct gs; [|discriminate]. exists [g ++ r]. split; [reflexivity|]. split.
    + constructor; [apply Forall_app; split; assumption | constructor].
    + simpl. rewrite !app_nil_r, <- !app_assoc. reflexivity.
  - destruct (IH gs r) as (gs' & Hlen' & Hws' & Heq);
      [discriminate | lia | assumption | assumption |].
    exists (g :: gs'). split; [simpl; simpl in Hlen'; lia|]. split; [constructor; assumption|].
    change (weave (c :: c2 :: cs) (g :: gs)) with (c ++ g ++ weave (c2 :: cs) gs).
    change (weave (c :: c2 :: cs) (g :: gs')) with (c ++ g ++ weave (c2 :: cs) gs').
    rewrite <- Heq, <- !app_assoc. reflexivity.
Qed.

(** The chunking loop ends, given fuel beyond the length of what remains,
    and cuts [remaining] into pieces of at most 1900 units that follow each
    other in it, separated by white space only. *)
Lemma chunk_loop_spec (fuel : nat) :
  forall remaining chunks,
    (length remaining < fuel)%nat ->
    exists new gaps,
      chunk_loop fuel remaining chunks = Some (chunks ++ new) /\
      Forall (fun c => (Z.of_nat (length c) <= MAX_MESSAGE_LENGTH)%Z) new /\
      length gaps = length new /\
      Forall all_ws gaps /\
      remaining = weave new gaps /\
      (remaining <> [] -> new <> []).
Proof.
  induction fuel as [|fuel IH]; intros remaining chunks Hfuel; [lia|].
  simpl chunk_loop.
  destruct (Z.ltb_spec 0 (Z.of_nat (length remaining))) as [Hpos|Hzero].
  2:{ exists [], []. destruct remaining; [|simpl in Hzero; lia].
      rewrite app_nil_r. repeat split; try constructor. congruence. }
  destruct (Z.leb_spec (Z.of_nat (length remaining)) MAX_MESSAGE_LENGTH) as [Hshort|Hlong].
  { exists [remaining], [[]]. repeat split.
    - constructor; [exact Hshort | constructor].
    - constructor; [constructor | constructor].
    - simpl. rewrite !app_nil_r. reflexivity.
    - discriminate. }
  destruct (split_index_range remaining) as (Hrange & Hfront).
  destruct (substring_prefix remaining (split_index remaining) ltac:(lia)) as (Hchunk & Hrest).
  rewrite Hchunk, Hrest.
  set (si := Z.to_nat (split_index remaining)) in *.
  assert (length (trim (drop si remaining)) < length remaining)%nat as Hshrink.
  { destruct (Z.eq_dec (split_index remaining) 0%Z) as [H0|Hn0].
    - destruct (Hfront H0) as (c & r & -> & Hc).
      replace si with 0%nat by (unfold si; rewrite H0; reflexivity).
      simpl drop. apply trim_head_ws. exact Hc.
    - pose proof (trim_length (drop si remaining)) as Ht.
      rewrite length_drop in Ht. unfold si in *. lia. }
  destruct (IH (trim (drop si remaining)) (chunks ++ [take si remaining]) ltac:(lia))
    as (new & gaps & Hrun & Hsmall & Hlen & Hws & Hweave & Hnonempty).
  destruct (trim_split (drop si remaining)) as (l & r & Hsplit & Hl & Hr).
  assert (remaining = take si remaining ++ l ++ trim (drop si remaining) ++ r) as Hwhole.
  { rewrite <- Hsplit. symmetry. apply take_drop. }
  assert (Z.of_nat (length (take si remaining)) <= MAX_MESSAGE_LENGTH)%Z as Hcap.
  { rewrite length_take. unfold si. lia. }
  destruct new as [|c cs].
  - (* nothing is left after trimming *)
    assert (trim (drop si remaining) = []) as Hnil.
    { destruct (trim (drop si remaining)); [reflexivity|].
      exfalso. apply Hnonempty; [discriminate | reflexivity]. }
    exists [take si remaining], [l ++ r]. rewrite Hrun, app_nil_r. repeat split.
    + constructor; [exact Hcap | constructor].
    + constructor; [apply Forall_app; split; assumption | constructor].
    + rewrite Hwhole at 1. rewrite Hnil. simpl. rewrite app_nil_r. reflexivity.
    + discriminate.
  - destruct (weave_trailing (c :: cs) gaps r ltac:(discriminate) Hlen Hws Hr)
      as (gaps' & Hlen' & Hws' & Heq).
    exists (take si remaining :: c :: cs), (l :: gaps'). rewrite Hrun, <- app_assoc.
    repeat split.
    + constructor; assumption.
    + simpl. simpl in Hlen'. lia.
    + constructor; assumption.
    + rewrite Hwhole at 1. rewrite Hweave at 1.
      change (weave (take si remaining :: c :: cs) (l :: gaps'))
        with (take si remaining ++ l ++ weave (c :: cs) gaps').
      rewrite <- Heq. reflexivity.
    + discriminate.
Qed.

Lemma chunks_of_spec (message : jsstring) :
  exists chunks gaps,
    chunks_of message = Some chunks /\
    Forall (fun c => (Z.of_nat (length c) <= MAX_MESSAGE_LENGTH)%Z) chunks /\
    length gaps = length chunks /\
    Forall all_ws gaps /\
    message = weave chunks gaps.
Proof.
  destruct (chunk_loop_spec (S (length message)) message [] ltac:(lia))
    as (new & gaps & Hrun & Hsmall & Hlen & Hws & Hweave & _).
  exists new, gaps. unfold chunks_of. rewrite Hrun. repeat split; assumption.
Qed.

Lemma posts_of_app (t1 t2 : list net_event) : posts_of (t1 ++ t2) = posts_of t1 ++ posts_of t2.
Proof. apply omap_app. Qed.

Lemma sendDiscord_set (url : jsstring) (ep : endpoint) (message : jsstring)
  (trace : list net_event) :
  url <> [] ->
  sendDiscord url ep message trace
  = (match ep (length (posts_of trace)) with
     | Response ok => ok
     | FetchThrows => false
     end,
     trace ++ [Post (substring message 0 2000)]).
Proof.
  intros Hurl. unfold sendDiscord. destruct url as [|u url]; [congruence|].
  destruct (ep (length (posts_of trace))); reflexivity.
Qed.

Lemma send_chunks_posts (url : jsstring) (ep : endpoint) (chunks : list jsstring) :
  url <> [] ->
  Forall (fun c => (Z.of_nat (length c) <= MAX_MESSAGE_LENGTH)%Z) chunks ->
  forall allOk trace,
    posts_of (snd (send_chunks url ep chunks allOk trace)) = posts_of trace ++ chunks.
Proof.
  intros Hurl Hsmall. induction Hsmall as [|c cs Hc _ IH]; intros allOk trace.
  - simpl. rewrite app_nil_r. reflexivity.
  - cbn [send_chunks]. rewrite (sendDiscord_set url ep c trace Hurl).
    rewrite IH, !posts_of_app. simpl. rewrite app_nil_r, <- app_assoc.
    rewrite substring_0_prefix by lia. rewrite take_ge; [reflexivity|].
    unfold MAX_MESSAGE_LENGTH in Hc. lia.
Qed.

Lemma send_chunks_unset (ep : endpoint) (chunks : list jsstring) :
  forall allOk trace,
    posts_of (snd (send_chunks [] ep chunks allOk trace)) = posts_of trace /\
    (chunks <> [] -> fst (send_chunks [] ep chunks allOk trace) = false).
Proof.
  induction chunks as [|c cs IH]; intros allOk trace.
  - split; [reflexivity | congruence].
  - cbn [send_chunks sendDiscord].
    destruct (IH false (trace ++ [Sleep 500])) as (Hposts & Hok).
    split.
    + rewrite Hposts, posts_of_app. simpl. apply app_nil_r.
    + intros _. destruct cs as [|c2 cs]; [reflexivity|]. apply Hok. discriminate.
Qed.

(** 1895 units, a blank, then more text: the cut falls on the last blank
    at or before index 1900 and the blank is dropped. *)
Example chunks_split_at_blank :
  chunks_of (replicate 1895 97%N ++ str " hello world" ++ replicate 100 98%N)
  = Some [replicate 1895 97%N; str "hello world" ++ replicate 100 98%N].
Proof. vm_compute. reflexivity. Qed.

(** No separator at all: hard cuts every 1900 units. *)
Example chunks_hard_cut :
  chunks_of (replicate 4000 97%N)
  = Some [replicate 1900 97%N; replicate 1900 97%N; replicate 200 97%N].
Proof. vm_compute. reflexivity. Qed.

(** The two TypeScript senders cap what they post. [sendDiscord]
    returns false without a POST when the webhook URL is
    unset; otherwise it issues exactly one POST, whose content is the first
    2000 units of the message at most, and returns true only if that POST
    was answered with an ok response (false when fetch throws or the
    response is not ok).  [sendDiscordChunked] hands a message of at most
    1900 units to [sendDiscord] as it is; a longer message it cuts (the
    loop ends) into chunks of at most 1900 units each, which follow each
    other in the message with only white space between and after them, and
    it posts every chunk, in that order, one POST each. *)
Theorem discord_posts_are_capped
  (url : jsstring) (ep : endpoint) (message : jsstring) (trace : list net_event) :
  (url = [] -> sendDiscord url ep message trace = (false, trace)) /\
  (url <> [] ->
     snd (sendDiscord url ep message trace) = trace ++ [Post (take 2000 message)] /\
     (length (take 2000 message) <= 2000)%nat /\
     (fst (sendDiscord url ep message trace) = true <->
      ep (length (posts_of trace)) = Response true)) /\
  ((length message <= 1900)%nat ->
     sendDiscordChunked url ep message trace = Some (sendDiscord url ep message trace)) /\
  ((1900 < length message)%nat ->
     exists chunks gaps ok trace',
       chunks_of message = Some chunks /\
       Forall (fun c => (length c <= 1900)%nat) chunks /\
       length gaps = length chunks /\ Forall all_ws gaps /\
       message = weave chunks gaps /\
       sendDiscordChunked url ep message trace = Some (ok, trace') /\
       (url <> [] -> posts_of trace' = posts_of trace ++ chunks) /\
       (url = [] -> posts_of trace' = posts_of trace /\ ok = false)).
Proof.
  split; [|split; [|split]].
  - intros ->. reflexivity.
  - intros Hurl. rewrite (sendDiscord_set url ep message trace Hurl). cbn [fst snd].
    rewrite substring_0_prefix by lia. split; [reflexivity|]. split.
    + rewrite length_take. lia.
    + destruct (ep (length (posts_of trace))) as [|[|]]; split; congruence.
  - intros Hshort. unfold sendDiscordChunked.
    replace (Z.of_nat (length message) <=? MAX_MESSAGE_LENGTH)%Z with true
      by (symmetry; apply Z.leb_le; unfold MAX_MESSAGE_LENGTH; lia).
    reflexivity.
  - intros Hlong.
    destruct (chunks_of_spec message) as (chunks & gaps & Hrun & Hsmall & Hlen & Hws & Hweave).
    exists chunks, gaps,
      (fst (send_chunks url ep chunks true trace)),
      (snd (send_chunks url ep chunks true trace)).
    split; [exact Hrun|]. split.
    { eapply Forall_impl; [exact Hsmall|]. intros c Hc. simpl in Hc.
      unfold MAX_MESSAGE_LENGTH in Hc. lia. }
    split; [exact Hlen|]. split; [exact Hws|]. split; [exact Hweave|]. split.
    { unfold sendDiscordChunked.
      replace (Z.of_nat (length message) <=? MAX_MESSAGE_LENGTH)%Z with false
        by (symmetry; apply Z.leb_gt; unfold MAX_MESSAGE_LENGTH; lia).
      rewrite Hrun. destruct (send_chunks url ep chunks true trace); reflexivity. }
    split.
    + intros Hurl. apply send_chunks_posts; assumption.
    + intros ->. destruct (send_chunks_unset ep chunks true trace) as (Hposts & Hok).
      split; [exact Hposts|]. apply Hok.
      intros ->. simpl in Hweave. subst message. simpl in Hlong. lia.
Qed.

Lemma discord_posts_are_capped_witness :
  let message := replicate 1895 97%N ++ str " hello world" ++ replicate 100 98%N in
  exists ok trace',
    sendDiscordChunked (str "https://discord.example/hook") (fun _ => Response true)
      message [] = Some (ok, trace') /\
    posts_of trace' = [replicate 1895 97%N; str "hello world" ++ replicate 100 98%N].
Proof.
  intros message.
  destruct (discord_posts_are_capped (str "https://discord.example/hook")
              (fun _ => Response true) message [])
    as (_ & _ & _ & Hlong).
  destruct Hlong as (chunks & gaps & ok & trace' & Hrun & _ & _ & _ & _ & Hsend & Hposts & _).
  - vm_compute. lia.
  - exists ok, trace'. split; [exact Hsend|].
    rewrite Hposts by discriminate.
    assert (chunks_of message
            = Some [replicate 1895 97%N; str "hello world" ++ replicate 100 98%N]) as Hc
      by (vm_compute; reflexivity).
    rewrite Hc in Hrun. injection Hrun as <-. reflexivity.
Defined.

(** *** The boolean the senders return *)

Lemma sendDiscord_result (url : jsstring) (ep : endpoint) (message : jsstring)
  (trace : list net_event) :
  url <> [] ->
  fst (sendDiscord url ep message trace) = answered_ok (ep (length (posts_of trace))) /\
  length (posts_of (snd (sendDiscord url ep message trace)))
  = S (length (posts_of trace)).
Proof.
  intros Hurl. rewrite (sendDiscord_set url ep message trace Hurl). cbn [fst snd].
  rewrite posts_of_app, length_app. simpl. split; [|lia].
  destruct (ep (length (posts_of trace))) as [|[|]]; reflexivity.
Qed.

Lemma forallb_seq_shift (f : nat -> bool) (n : nat) :
  forall a, forallb f (seq (S a) n) = forallb (fun i => f (S i)) (seq a n).
Proof.
  induction n as [|n IH]; intros a; [reflexivity|].
  simpl. rewrite IH. reflexivity.
Qed.

Lemma send_chunks_result (url : jsstring) (ep : endpoint) (chunks : list jsstring) :
  url <> [] ->
  forall allOk trace,
    fst (send_chunks url ep chunks allOk trace)
    = allOk && forallb (fun i => answered_ok (ep (length (posts_of trace) + i)%nat))
                 (seq 0 (length chunks)) /\
    length (posts_of (snd (send_chunks url ep chunks allOk trace)))
    = (length (posts_of trace) + length chunks)%nat.
Proof.
  intros Hurl. induction chunks as [|c cs IH]; intros allOk trace.
  - simpl. rewrite andb_true_r, Nat.add_0_r. split; reflexivity.
  - cbn [send_chunks].
    destruct (sendDiscord_result url ep c trace Hurl) as (Hok & Hlen).
    destruct (sendDiscord url ep c trace) as [ok trace1]. cbn [fst snd] in Hok, Hlen.
    destruct (IH (if ok then allOk else false) (trace1 ++ [Sleep 500])) as (IHok & IHlen).
    assert (length (posts_of (trace1 ++ [Sleep 500])) = S (length (posts_of trace))) as Hk
      by (rewrite posts_of_app, length_app; simpl; lia).
    rewrite IHok, IHlen, Hk. split; [|simpl; lia].
    cbn [length seq forallb]. rewrite Nat.add_0_r, <- Hok.
    rewrite forallb_seq_shift.
    assert (forall l,
              forallb (fun i => answered_ok (ep (S (length (posts_of trace)) + i)%nat)) l
              = forallb (fun i => answered_ok (ep (length (posts_of trace) + S i)%nat)) l)
      as Hshift.
    { induction l as [|i l IHl]; [reflexivity|]. cbn [forallb]. rewrite IHl.
      do 3 f_equal. lia. }
    rewrite (Hshift (seq 0 (length cs))).
    destruct ok, allOk; reflexivity.
Qed.

(** X16. [sendDiscordChunked] reports every failure and stops at none.
    With the webhook URL set, the call ends for every message; it returns
    true exactly when each POST it issued was answered with an ok
    response, a failed POST (fetch throwing, or a response that is not ok)
    making the result false without keeping the later chunks from being
    posted. *)
Theorem sendDiscordChunked_reports_failures
  (url : jsstring) (ep : endpoint) (message : jsstring) :
  url <> [] ->
  exists ok trace,
    sendDiscordChunked url ep message [] = Some (ok, trace) /\
    (ok = true <->
     forall i, (i < length (posts_of trace))%nat -> answered_ok (ep i) = true) /\
    (forall chunks, chunks_of message = Some chunks ->
       (MAX_MESSAGE_LENGTH < Z.of_nat (length message))%Z ->
       posts_of trace = chunks).
Proof.
  intros Hurl. unfold sendDiscordChunked.
  destruct (Z.leb_spec (Z.of_nat (length message)) MAX_MESSAGE_LENGTH) as [Hshort|Hlong].
  - destruct (sendDiscord_result url ep message [] Hurl) as (Hok & Hlen).
    destruct (sendDiscord url ep message []) as [ok trace]. cbn [fst snd] in Hok, Hlen.
    exists ok, trace. split; [reflexivity|]. split; [|intros; lia].
    rewrite Hlen, Hok. simpl. split.
    + intros H i Hi. replace i with 0%nat by lia. exact H.
    + intros H. apply H. lia.
  - destruct (chunks_of_spec message) as (chunks & gaps & Hchunks & Hsmall & _).
    rewrite Hchunks.
    destruct (send_chunks_result url ep chunks Hurl true []) as (Hok & Hlen).
    pose proof (send_chunks_posts url ep chunks Hurl Hsmall true []) as Hposts.
    destruct (send_chunks url ep chunks true []) as [ok trace].
    cbn [fst snd] in Hok, Hlen, Hposts. simpl in Hok, Hlen, Hposts.
    exists ok, trace. split; [reflexivity|]. split.
    + rewrite Hlen, Hok. rewrite forallb_forall. split.
      * intros H i Hi. apply H. apply in_seq. lia.
      * intros H i Hi. apply in_seq in Hi. apply H. lia.
    + intros chunks' Hc _. congruence.
Qed.

Lemma sendDiscordChunked_reports_failures_witness :
  exists ok trace,
    sendDiscordChunked (str "https://discord.example/hook")
      (fun n => if (n =? 1)%nat then Response false else Response true)
      (replicate 1895 97%N ++ str " hello world" ++ replicate 100 98%N) []
    = Some (ok, trace) /\
    (ok = true <->
     forall i, (i < length (posts_of trace))%nat ->
       answered_ok (if (i =? 1)%nat then Response false else Response true) = true) /\
    (forall chunks,
       chunks_of (replicate 1895 97%N ++ str " hello world" ++ replicate 100 98%N)
       = Some chunks ->
       (MAX_MESSAGE_LENGTH
        < Z.of_nat (length (replicate 1895 97%N ++ str " hello world"
                              ++ replicate 100 98%N)))%Z ->
       posts_of trace = chunks).
Proof.
  apply (sendDiscordChunked_reports_failures (str "https://discord.example/hook")
           (fun n => if (n =? 1)%nat then Response false else Response true)).
  discriminate.
Defined.

End DiscordFacts.

(** ** /activate *)

Module CommandsFacts.
Import JS Commands.

Lemma getStrategy_after_log ok okl r c cmd id d :
  getStrategy ok id (logConversation okl r c cmd d) = getStrategy ok id d.
Proof. unfold getStrategy, logConversation. destruct okl; reflexivity. Qed.

Lemma strategies_after_log okl r c cmd d :
  strategies (logConversation okl r c cmd d) = strategies d.
Proof. unfold logConversation. destruct okl; reflexivity. Qed.

(** The outcome of the handler, case by case on the validations. *)
Lemma buildActivatePrompt_cases (e : env) (strategyId : jsstring) (d : db) :
  let run := buildActivatePrompt e strategyId d in
  (validations_pass e strategyId d /\
   (strategies (snd run) = strategies d \/
    strategies (snd run) = map (set_paper (db_now e) strategyId) (strategies d))) \/
  (~ validations_pass e strategyId d /\
   (exists message, fst run = Reply [] (Some message)) /\
   strategies (snd run) = strategies d).
Proof.
  cbn zeta. unfold buildActivatePrompt, validateStrategyId, validations_pass.
  destruct (STRATEGY_ID_RE_test strategyId) eqn:Hre; cbn [negb].
  2:{ right. split; [intros [Hc _]; discriminate|]. split; [eauto | reflexivity]. }
  rewrite getStrategy_after_log.
  destruct (getStrategy (get_query_ok e) strategyId d) as [strategy|] eqn:Hget.
  2:{ right. split; [intros (_ & s & Hs & _); discriminate|].
      split; [eauto | apply strategies_after_log]. }
  destruct (bool_decide (status strategy = str "paper")) eqn:Hpaper.
  { right. apply bool_decide_eq_true_1 in Hpaper. cbn [orb]. split.
    - intros (_ & s & Hs & Hnp & _). congruence.
    - split; [eauto | apply strategies_after_log]. }
  destruct (bool_decide (status strategy = str "live")) eqn:Hlive.
  { right. apply bool_decide_eq_true_1 in Hlive. cbn [orb]. split.
    - intros (_ & s & Hs & _ & Hnl & _). congruence.
    - split; [eauto | apply strategies_after_log]. }
  cbn [orb].
  destruct (falsy_text (backtest_results strategy)) eqn:Hbt.
  { right. split.
    - intros (_ & s & Hs & _ & _ & Hb). congruence.
    - split; [eauto | apply strategies_after_log]. }
  left. split.
  - split; [reflexivity|]. exists strategy.
    apply bool_decide_eq_false_1 in Hpaper. apply bool_decide_eq_false_1 in Hlive.
    repeat split; assumption.
  - unfold activateStrategy. destruct (activate_query_ok e).
    + right. destruct (buildPrompt e _); cbn [snd strategies]; rewrite strategies_after_log;
        reflexivity.
    + left. apply strategies_after_log.
Qed.

Example activate_draft_with_backtest :
  let run := buildActivatePrompt sample_env (str "btc-momentum") sample_db in
  fst run
    = Reply (str "PROMPT: Strategy 'btc-momentum' has been activated for paper trading. Refresh /srv/state/active-strategies.json with all active strategies from the DB. Confirm activation with the strategy details.") None /\
  strategies (snd run)
    = [ mkStrategy (str "btc-momentum") (str "paper") (Some (str "{}")) 1700000000;
        mkStrategy (str "eth_mean_rev") (str "paper") (Some (str "{}")) 6;
        mkStrategy (str "untested") (str "draft") None 7 ].
Proof. vm_compute. split; reflexivity. Qed.

Example activate_already_paper :
  buildActivatePrompt sample_env (str "eth_mean_rev") sample_db
  = (Reply [] (Some (str "Strategy `eth_mean_rev` is already active (status: paper).")),
     mkDb (strategies sample_db)
          [mkConversation (str "user") (str "/activate eth_mean_rev") (Some (str "/activate"))]).
Proof. vm_compute. reflexivity. Qed.

Example activate_bad_id :
  buildActivatePrompt sample_env (str "x'; DROP TABLE--") sample_db
  = (Reply [] (Some (str "Invalid strategy_id. Use only letters, numbers, hyphens, underscores (max 50 chars).")),
     sample_db).
Proof. vm_compute. reflexivity. Qed.

(** C10. [buildActivatePrompt] changes the strategies table only when all
    validations pass (well-formed id, strategy found, status neither paper
    nor live, backtest results present), and then exactly by setting the
    status of that strategy to paper; when a validation fails it returns an
    error message with an empty prompt and leaves the strategies table as
    it was. *)
Theorem buildActivatePrompt_mutates_only_when_valid
  (e : env) (strategyId : jsstring) (d : db) :
  let run := buildActivatePrompt e strategyId d in
  (strategies (snd run) <> strategies d ->
     validations_pass e strategyId d /\
     strategies (snd run) = map (set_paper (db_now e) strategyId) (strategies d)) /\
  (~ validations_pass e strategyId d ->
     (exists message, fst run = Reply [] (Some message)) /\
     strategies (snd run) = strategies d) /\
  (validations_pass e strategyId d -> activate_query_ok e = true ->
     strategies (snd run) = map (set_paper (db_now e) strategyId) (strategies d) /\
     forall row, In row (strategies (snd run)) -> strategy_id row = strategyId ->
                 status row = str "paper").
Proof.
  cbn zeta.
  destruct (buildActivatePrompt_cases e strategyId d) as [(Hpass & Hdb)|(Hfail & Hreply & Hdb)].
  - split; [|split].
    + intros Hchanged. split; [exact Hpass|]. destruct Hdb as [Hsame|Hset]; [congruence | exact Hset].
    + intros Hnot. contradiction.
    + intros _ Hact.
      assert (strategies (snd (buildActivatePrompt e strategyId d))
              = map (set_paper (db_now e) strategyId) (strategies d)) as Hset.
      { destruct Hpass as (Hre & strategy & Hget & Hnp & Hnl & Hbt).
        unfold buildActivatePrompt, validateStrategyId. rewrite Hre. cbn [negb].
        rewrite getStrategy_after_log, Hget.
        rewrite (bool_decide_eq_false_2 _ Hnp), (bool_decide_eq_false_2 _ Hnl). cbn [orb].
        rewrite Hbt. unfold activateStrategy. rewrite Hact.
        destruct (buildPrompt e _); cbn [snd strategies]; rewrite strategies_after_log;
          reflexivity. }
      split; [exact Hset|]. intros row Hin Hid. rewrite Hset in Hin.
      apply in_map_iff in Hin as (row0 & <- & _). unfold set_paper in *.
      destruct (has_id strategyId row0) eqn:Hhas; [reflexivity|].
      unfold has_id in Hhas. apply bool_decide_eq_false_1 in Hhas. contradiction.
  - split; [|split].
    + intros Hchanged. contradiction.
    + intros _. split; assumption.
    + intros Hpass. contradiction.
Qed.

Lemma buildActivatePrompt_mutates_only_when_valid_witness :
  ((exists message,
      fst (buildActivatePrompt sample_env (str "untested") sample_db)
      = Reply [] (Some message)) /\
   strategies (snd (buildActivatePrompt sample_env (str "untested") sample_db))
   = strategies sample_db) /\
  strategies (snd (buildActivatePrompt sample_env (str "btc-momentum") sample_db))
  = map (set_paper 1700000000 (str "btc-momentum")) (strategies sample_db).
Proof.
  split.
  - apply (buildActivatePrompt_mutates_only_when_valid sample_env (str "untested") sample_db).
    intros (_ & strategy & Hget & _ & _ & Hbt).
    vm_compute in Hget. injection Hget as <-. discriminate Hbt.
  - apply (buildActivatePrompt_mutates_only_when_valid sample_env (str "btc-momentum")
             sample_db).
    + split; [vm_compute; reflexivity|].
      exists (mkStrategy (str "btc-momentum") (str "draft") (Some (str "{}")) 5).
      split; [vm_compute; reflexivity|].
      split; [vm_compute; discriminate|].
      split; [vm_compute; discriminate | reflexivity].
    + reflexivity.
Defined.

(** *** The strategies table under activation *)

Lemma set_paper_id now id row : strategy_id (set_paper now id row) = strategy_id row.
Proof. unfold set_paper. destruct (has_id id row); reflexivity. Qed.

Lemma filter_set_paper now id id' rows :
  List.filter (has_id id') (map (set_paper now id) rows)
  = map (set_paper now id) (List.filter (has_id id') rows).
Proof.
  induction rows as [|row rows IH]; [reflexivity|]. simpl.
  assert (has_id id' (set_paper now id row) = has_id id' row) as ->
    by (unfold has_id; rewrite set_paper_id; reflexivity).
  destruct (has_id id' row); simpl; rewrite IH; reflexivity.
Qed.

Lemma set_paper_other now id id' rows :
  id' <> id ->
  map (set_paper now id) (List.filter (has_id id') rows) = List.filter (has_id id') rows.
Proof.
  intros Hne. induction rows as [|row rows IH]; [reflexivity|]. simpl.
  destruct (has_id id' row) eqn:Hrow; [|exact IH].
  simpl. rewrite IH. f_equal. unfold set_paper, has_id in *.
  apply bool_decide_eq_true_1 in Hrow.
  rewrite bool_decide_eq_false_2 by congruence. reflexivity.
Qed.

Lemma getStrategy_found id d row :
  getStrategy true id d = Some row -> strategy_id row = id.
Proof.
  unfold getStrategy. induction (strategies d) as [|r rows IH]; [discriminate|].
  simpl. destruct (has_id id r) eqn:Hr; [|exact IH].
  simpl. intros H. injection H as <-. apply bool_decide_eq_true_1 in Hr. exact Hr.
Qed.

(** X13. [activateStrategy] against [getStrategy]. When the UPDATE goes
    through, it reports true exactly when the strategy exists; a later
    [getStrategy] of that id finds the same row with status paper and the
    update time, its backtest results untouched; every other id reads as
    before; no row is added or removed, and the conversation log is left
    alone. *)
Theorem activateStrategy_then_getStrategy
  (now : Z) (id : jsstring) (d d' : db) (updated : bool) :
  activateStrategy true now id d = Some (updated, d') ->
  (updated = true <-> getStrategy true id d <> None) /\
  getStrategy true id d'
  = option_map (fun row => mkStrategy id (str "paper") (backtest_results row) now)
      (getStrategy true id d) /\
  (forall id', id' <> id -> getStrategy true id' d' = getStrategy true id' d) /\
  map strategy_id (strategies d') = map strategy_id (strategies d) /\
  conversations d' = conversations d.
Proof.
  unfold activateStrategy. intros H. injection H as <- <-.
  cbn [strategies conversations]. repeat split.
  - unfold getStrategy. destruct (List.filter (has_id id) (strategies d)); simpl;
      [discriminate | congruence].
  - unfold getStrategy. destruct (List.filter (has_id id) (strategies d)); simpl;
      [congruence | reflexivity].
  - pose proof (getStrategy_found id d) as Hid. unfold getStrategy in *.
    cbn [strategies]. rewrite filter_set_paper.
    destruct (List.filter (has_id id) (strategies d)) as [|row rows]; [reflexivity|].
    simpl. f_equal. specialize (Hid row eq_refl).
    unfold set_paper, has_id. rewrite bool_decide_eq_true_2 by exact Hid.
    rewrite Hid. reflexivity.
  - intros id' Hne. unfold getStrategy. cbn [strategies].
    rewrite filter_set_paper, set_paper_other by exact Hne. reflexivity.
  - rewrite map_map. apply map_ext. intros row. apply set_paper_id.
Qed.

Lemma activateStrategy_then_getStrategy_witness :
  getStrategy true (str "btc-momentum")
    (mkDb (map (set_paper 1700000000 (str "btc-momentum")) (strategies sample_db))
          (conversations sample_db))
  = Some (mkStrategy (str "btc-momentum") (str "paper") (Some (str "{}")) 1700000000).
Proof.
  destruct (activateStrategy_then_getStrategy 1700000000 (str "btc-momentum") sample_db
              (mkDb (map (set_paper 1700000000 (str "btc-momentum")) (strategies sample_db))
                    (conversations sample_db)) true eq_refl) as (_ & Hget & _).
  rewrite Hget. reflexivity.
Defined.

(** X14. A strategy cannot be activated twice. After a call of
    [buildActivatePrompt] that returned a prompt, any later call for the
    same id whose lookup reaches the database is refused with "Strategy
    `id` is already active (status: paper)." and leaves the strategies
    table as the first call left it. *)
Theorem buildActivatePrompt_twice_is_refused
  (e e2 : env) (strategyId prompt : jsstring) (d d' : db) :
  buildActivatePrompt e strategyId d = (Reply prompt None, d') ->
  get_query_ok e2 = true ->
  exists d'',
    buildActivatePrompt e2 strategyId d'
    = (Reply [] (Some (strategy_label strategyId
                         ++ str " is already active (status: paper).")), d'') /\
    strategies d'' = strategies d'.
Proof.
  intros Hfirst Hget2.
  assert (validateStrategyId strategyId = None /\
          exists row, getStrategy true strategyId d' = Some row /\
                      status row = str "paper") as (Hid & row & Hrow & Hstatus).
  { unfold buildActivatePrompt in Hfirst.
    destruct (validateStrategyId strategyId) as [idError|]; [discriminate|].
    split; [reflexivity|].
    rewrite getStrategy_after_log in Hfirst.
    destruct (getStrategy (get_query_ok e) strategyId d) as [strategy|] eqn:Hget;
      [|discriminate].
    destruct (bool_decide (status strategy = str "paper")
              || bool_decide (status strategy = str "live")); [discriminate|].
    destruct (falsy_text (backtest_results strategy)); [discriminate|].
    destruct (activate_query_ok e); [|discriminate].
    cbn [activateStrategy] in Hfirst.
    destruct (buildPrompt e _); [|discriminate].
    injection Hfirst as _ <-.
    assert (get_query_ok e = true) as Hok
      by (destruct (get_query_ok e); [reflexivity | discriminate]).
    rewrite Hok in Hget.
    pose proof (getStrategy_found _ _ _ Hget) as Hsid.
    unfold getStrategy in *. cbn [strategies]. rewrite filter_set_paper.
    rewrite strategies_after_log.
    destruct (List.filter (has_id strategyId) (strategies d)) as [|r rows];
      [discriminate|].
    simpl in Hget. injection Hget as ->. simpl.
    eexists. split; [reflexivity|].
    unfold set_paper, has_id. rewrite bool_decide_eq_true_2 by exact Hsid.
    reflexivity. }
  unfold buildActivatePrompt. rewrite Hid, getStrategy_after_log, Hget2, Hrow, Hstatus.
  rewrite bool_decide_eq_true_2 by reflexivity. cbn [orb].
  eexists. split; [reflexivity|]. apply strategies_after_log.
Qed.

Lemma buildActivatePrompt_twice_is_refused_witness :
  exists d'',
    buildActivatePrompt sample_env (str "btc-momentum")
      (snd (buildActivatePrompt sample_env (str "btc-momentum") sample_db))
    = (Reply [] (Some (strategy_label (str "btc-momentum")
                         ++ str " is already active (status: paper).")), d'') /\
    strategies d''
    = strategies (snd (buildActivatePrompt sample_env (str "btc-momentum") sample_db)).
Proof.
  apply (buildActivatePrompt_twice_is_refused sample_env sample_env (str "btc-momentum")
           (str "PROMPT: Strategy 'btc-momentum' has been activated for paper trading. Refresh /srv/state/active-strategies.json with all active strategies from the DB. Confirm activation with the strategy details.")
           sample_db).
  - vm_compute. reflexivity.
  - reflexivity.
Defined.

(** *** Free-text commands *)

Lemma validateTextInput_spec text maxLen fieldName :
  ((Z.of_nat (length text) <= maxLen)%Z -> validateTextInput text maxLen fieldName = None) /\
  ((maxLen < Z.of_nat (length text))%Z ->
   validateTextInput text maxLen fieldName
   = Some (fieldName ++ str " too long (max " ++ dec maxLen ++ str " chars, got "
             ++ dec (Z.of_nat (length text)) ++ str ").")).
Proof.
  unfold validateTextInput.
  destruct (Z.ltb_spec maxLen (Z.of_nat (length text))); split; intros; try lia; reflexivity.
Qed.

Lemma logConversation_short okl r c cmd d :
  (Z.of_nat (length c) <= 10000)%Z ->
  logConversation okl r c cmd d
  = if okl then mkDb (strategies d) (conversations d ++ [mkConversation r c cmd]) else d.
Proof.
  intros Hc. unfold logConversation. destruct okl; [|reflexivity].
  rewrite JSFacts.substring_0_prefix by lia. rewrite take_ge by lia. reflexivity.
Qed.

(** X15. /ask and /research check the length before anything is logged.
    A question of more than 2000 units (a description of more than 500)
    makes the builder throw "Question too long (max 2000 chars, got N)."
    ("Description too long (max 500 chars, got N).") with the database
    untouched. Within the limit, the builder inserts one conversation row
    whose content is the whole command text, "/ask " or "/research "
    followed by the input: the 10 000 unit cap of [logConversation] never
    cuts it. *)
Theorem free_text_prompts_validate_before_logging
  (e : env) (buildResearchPrompt : jsstring -> jsstring) (text : jsstring) (d : db) :
  log_query_ok e = true ->
  ((2000 < Z.of_nat (length text))%Z ->
   buildAskPrompt e text d
   = (ThrowsError (str "Question too long (max 2000 chars, got "
                     ++ dec (Z.of_nat (length text)) ++ str ")."), d)) /\
  ((Z.of_nat (length text) <= 2000)%Z ->
   buildAskPrompt e text d
   = (prompt_of (buildPrompt e text),
      mkDb (strategies d)
           (conversations d
              ++ [mkConversation (str "user") (str "/ask " ++ text) (Some (str "/ask"))]))) /\
  ((500 < Z.of_nat (length text))%Z ->
   buildResearchCommandPrompt e buildResearchPrompt text d
   = (ThrowsError (str "Description too long (max 500 chars, got "
                     ++ dec (Z.of_nat (length text)) ++ str ")."), d)) /\
  ((Z.of_nat (length text) <= 500)%Z ->
   buildResearchCommandPrompt e buildResearchPrompt text d
   = (Prompt (buildResearchPrompt text),
      mkDb (strategies d)
           (conversations d
              ++ [mkConversation (str "user") (str "/research " ++ text)
                    (Some (str "/research"))]))).
Proof.
  intros Hlog. unfold buildAskPrompt, buildResearchCommandPrompt.
  destruct (validateTextInput_spec text 2000 (str "Question")) as (Ha1 & Ha2).
  destruct (validateTextInput_spec text 500 (str "Description")) as (Hr1 & Hr2).
  repeat split.
  - intros H. rewrite (Ha2 H). reflexivity.
  - intros H. rewrite (Ha1 H), Hlog. f_equal.
    rewrite logConversation_short; [reflexivity|].
    rewrite length_app. change (length (str "/ask ")) with 5%nat. lia.
  - intros H. rewrite (Hr2 H). reflexivity.
  - intros H. rewrite (Hr1 H), Hlog. f_equal.
    rewrite logConversation_short; [reflexivity|].
    rewrite length_app. change (length (str "/research ")) with 10%nat. lia.
Qed.

Lemma free_text_prompts_validate_before_logging_witness :
  buildAskPrompt sample_env (replicate 2001 97%N) sample_db
  = (ThrowsError (str "Question too long (max 2000 chars, got 2001)."), sample_db).
Proof.
  destruct (free_text_prompts_validate_before_logging sample_env (fun t => t)
              (replicate 2001 97%N) sample_db eq_refl) as (Hlong & _).
  rewrite Hlong; [vm_compute; reflexivity | rewrite length_replicate; lia].
Defined.

End CommandsFacts.

(** ** Discord client *)

Module DiscordClientFacts.
Import JS Discord DiscordClient.

Lemma splitIndex_of_range (maxLength : Z) (remaining : jsstring) :
  (1 <= maxLength)%Z ->
  (1 <= splitIndex_of maxLength remaining <= maxLength)%Z.
Proof.
  intros Hmax. unfold splitIndex_of. cbv zeta.
  destruct (JSFacts.lastIndexOf_range remaining [LF] maxLength ltac:(lia))
    as [H1|(H1 & _)];
    destruct (JSFacts.lastIndexOf_range remaining [SPACE] maxLength ltac:(lia))
      as [H2|(H2 & _)];
    repeat match goal with
           | |- context [(?x <=? 0)%Z] => destruct (Z.leb_spec x 0)
           end; lia.
Qed.

Lemma strip_newline_split (s : jsstring) :
  exists g, newline_gap g /\ s = g ++ strip_newline s.
Proof.
  destruct s as [|c r]; [exists []; split; [left|]; reflexivity|].
  simpl. destruct (N.eqb_spec c LF) as [->|Hne].
  - exists [LF]. split; [right|]; reflexivity.
  - exists []. split; [left|]; reflexivity.
Qed.

(** The loop ends, given fuel beyond the length of what remains, and cuts
    [remaining] into pieces of 1 to [maxLength] units that follow each
    other in it, at most one newline being dropped at each cut. *)
Lemma splitMessage_loop_spec (maxLength : Z) (fuel : nat) :
  (1 <= maxLength)%Z ->
  forall remaining chunks,
    (length remaining < fuel)%nat ->
    exists new gaps,
      splitMessage_loop fuel maxLength remaining chunks = Some (chunks ++ new) /\
      Forall (fun c => (1 <= Z.of_nat (length c) <= maxLength)%Z) new /\
      length gaps = length new /\
      Forall newline_gap gaps /\
      remaining = weave new gaps.
Proof.
  intros Hmax. induction fuel as [|fuel IH]; intros remaining chunks Hfuel; [lia|].
  cbn [splitMessage_loop].
  destruct (Z.ltb_spec 0 (Z.of_nat (length remaining))) as [Hpos|Hzero].
  2:{ exists [], []. destruct remaining; [|simpl in Hzero; lia].
      rewrite app_nil_r. repeat split; constructor. }
  destruct (Z.leb_spec (Z.of_nat (length remaining)) maxLength) as [Hshort|Hlong].
  { exists [remaining], [[]]. repeat split.
    - constructor; [lia | constructor].
    - constructor; [left; reflexivity | constructor].
    - simpl. rewrite !app_nil_r. reflexivity. }
  pose proof (splitIndex_of_range maxLength remaining Hmax) as Hrange.
  destruct (JSFacts.substring_prefix remaining (splitIndex_of maxLength remaining)
              ltac:(lia)) as (Hchunk & Hrest).
  rewrite Hchunk, Hrest.
  set (si := Z.to_nat (splitIndex_of maxLength remaining)) in *.
  destruct (strip_newline_split (drop si remaining)) as (g & Hg & Hsplit).
  assert (length (strip_newline (drop si remaining)) < length remaining)%nat as Hshrink.
  { assert (length (drop si remaining)
            = (length g + length (strip_newline (drop si remaining)))%nat) as Hl
      by (rewrite Hsplit at 1; apply length_app).
    rewrite length_drop in Hl. unfold si in *. lia. }
  destruct (IH (strip_newline (drop si remaining)) (chunks ++ [take si remaining])
              ltac:(lia)) as (new & gaps & Hrun & Hsmall & Hlen & Hgaps & Hweave).
  exists (take si remaining :: new), (g :: gaps). rewrite Hrun, <- app_assoc.
  repeat split.
  - constructor; [|exact Hsmall]. rewrite length_take. unfold si. lia.
  - simpl. lia.
  - constructor; assumption.
  - cbn [weave]. rewrite <- Hweave, <- Hsplit. symmetry. apply take_drop.
Qed.

(** X17. [splitMessage] cuts a reply into Discord-sized pieces and loses
    nothing but newlines at the cuts. For a limit of at least 1 (the
    default is 2000) the function returns for every text; it returns at
    least one chunk, no chunk is longer than the limit, no chunk of a
    non-empty text is empty, and the text is the chunks in order with, after
    each one, either nothing or the single newline that was dropped
    there. *)
Theorem splitMessage_spec (text : jsstring) (maxLength : Z) :
  (1 <= maxLength)%Z ->
  exists chunks gaps,
    splitMessage text maxLength = Some chunks /\
    chunks <> [] /\
    Forall (fun c => (Z.of_nat (length c) <= maxLength)%Z) chunks /\
    (text <> [] -> Forall (fun c => c <> []) chunks) /\
    length gaps = length chunks /\
    Forall newline_gap gaps /\
    text = weave chunks gaps.
Proof.
  intros Hmax. unfold splitMessage.
  destruct (Z.leb_spec (Z.of_nat (length text)) maxLength) as [Hshort|Hlong].
  - exists [text], [[]]. repeat split.
    + discriminate.
    + constructor; [exact Hshort | constructor].
    + intros Hne. constructor; [exact Hne | constructor].
    + constructor; [left; reflexivity | constructor].
    + simpl. rewrite !app_nil_r. reflexivity.
  - destruct (splitMessage_loop_spec maxLength (S (length text)) Hmax text [] ltac:(lia))
      as (new & gaps & Hrun & Hsmall & Hlen & Hgaps & Hweave).
    exists new, gaps. repeat split; try assumption.
    + intros ->. destruct gaps; [|discriminate]. simpl in Hweave. subst text.
      simpl in Hlong. lia.
    + eapply List.Forall_impl; [|exact Hsmall]. intros c Hc. simpl in Hc. lia.
    + intros _. eapply List.Forall_impl; [|exact Hsmall]. intros c Hc Hnil.
      simpl in Hc. subst c. simpl in Hc. lia.
Qed.

Lemma splitMessage_spec_witness :
  exists chunks gaps,
    splitMessage (replicate 1990 97%N ++ [LF] ++ replicate 100 98%N) DEFAULT_MAX_LENGTH
    = Some chunks /\
    chunks <> [] /\
    Forall (fun c => (Z.of_nat (length c) <= DEFAULT_MAX_LENGTH)%Z) chunks /\
    (replicate 1990 97%N ++ [LF] ++ replicate 100 98%N <> [] ->
     Forall (fun c => c <> []) chunks) /\
    length gaps = length chunks /\
    Forall newline_gap gaps /\
    replicate 1990 97%N ++ [LF] ++ replicate 100 98%N = weave chunks gaps.
Proof.
  apply (splitMessage_spec (replicate 1990 97%N ++ [LF] ++ replicate 100 98%N)
           DEFAULT_MAX_LENGTH).
  unfold DEFAULT_MAX_LENGTH. lia.
Defined.

Example splitMessage_at_newline :
  splitMessage (replicate 1990 97%N ++ [LF] ++ replicate 100 98%N) DEFAULT_MAX_LENGTH
  = Some [replicate 1990 97%N; replicate 100 98%N].
Proof. vm_compute. reflexivity. Qed.

(** A blank at the cut stays, at the head of the next chunk. *)
Example splitMessage_at_blank :
  splitMessage (replicate 1990 97%N ++ [SPACE] ++ replicate 100 98%N) DEFAULT_MAX_LENGTH
  = Some [replicate 1990 97%N; [SPACE] ++ replicate 100 98%N].
Proof. vm_compute. reflexivity. Qed.

(** *** File names *)

Lemma trim_In (s : jsstring) (c : N) : In c (trim s) -> In c s.
Proof.
  intros Hc. destruct (JSFacts.trim_split s) as (l & r & Heq & _).
  rewrite Heq. apply in_app_iff. right. apply in_app_iff. left. exact Hc.
Qed.

(** X18. A sanitized file name is safe to join to a directory. Whatever
    the name of the attachment and whatever path.basename makes of it,
    [sanitizeFileName] returns a name that is not empty and holds none of
    the nine marks the regular expression lists (less-than, greater-than,
    colon, double quote, slash, backslash, bar, question mark, star) nor a
    control character below U+0020; in particular it holds no path
    separator. *)
Theorem sanitizeFileName_safe (basename : jsstring -> jsstring) (fileName : jsstring) :
  sanitizeFileName basename fileName <> [] /\
  Forall (fun c => is_forbidden c = false) (sanitizeFileName basename fileName).
Proof.
  unfold sanitizeFileName. cbv zeta.
  set (mapped := map (fun c => if is_forbidden c then UNDERSCORE else c)
                     (basename fileName)).
  destruct (Nat.ltb_spec 0 (length (trim mapped))) as [Hpos|Hzero].
  - split; [intros Hnil; rewrite Hnil in Hpos; simpl in Hpos; lia|].
    apply List.Forall_forall. intros c Hc. apply trim_In in Hc.
    unfold mapped in Hc. apply in_map_iff in Hc as (x & <- & _).
    destruct (is_forbidden x) eqn:Hx; [reflexivity | exact Hx].
  - split; [discriminate|]. vm_compute. repeat constructor.
Qed.

Example sanitizeFileName_traversal :
  sanitizeFileName (fun p => p) (str " ../../etc/passwd ") = str ".._.._etc_passwd".
Proof. vm_compute. reflexivity. Qed.

Example sanitizeFileName_blank :
  sanitizeFileName (fun p => p) (str "   ") = str "file.bin".
Proof. vm_compute. reflexivity. Qed.

(** *** Authorization *)

(** X19. Authorization fails closed. [isAuthorized] answers true only for
    a user id that is not empty and equals the configured id, which is
    the [user_id] of settings.json when that is set (truthy) and the
    variable DISCORD_USER_ID otherwise; a [user_id] in the settings that is
    not a string authorizes nobody, the variable not being consulted; and
    when neither is set the function throws for every user. *)
Theorem isAuthorized_fail_closed `{Invoke.Host} (a : auth_env) (userId : jsstring) :
  let configured :=
    opt_get (opt_get (opt_get (loadSettings a) (str "channels")) (str "discord"))
      (str "user_id") in
  (isAuthorized a userId = Some true <->
   userId <> [] /\
   (configured = Invoke.VStr userId \/
    (Invoke.truthy configured = false /\ DISCORD_USER_ID a = Some userId))) /\
  (isAuthorized a userId = None <->
   Invoke.truthy configured = false /\
   (DISCORD_USER_ID a = None \/ DISCORD_USER_ID a = Some [])) /\
  (Invoke.truthy configured = true ->
   (forall s, configured <> Invoke.VStr s) ->
   isAuthorized a userId = Some false).
Proof.
  cbv zeta. unfold isAuthorized, allowedUserId. cbv zeta.
  set (configured := opt_get _ _).
  destruct (Invoke.truthy configured) eqn:Htruthy.
  - rewrite Htruthy. cbn [negb]. split; [split|split; [split|]].
    + intros Heq. injection Heq as Heq.
      destruct configured as [| | | |s| |]; simpl in Heq; try discriminate.
      apply bool_decide_eq_true_1 in Heq. subst s.
      split; [intros ->; discriminate | left; reflexivity].
    + intros (Hne & [Hc|(Hc & _)]); [|discriminate].
      rewrite Hc. simpl. rewrite bool_decide_eq_true_2 by reflexivity. reflexivity.
    + discriminate.
    + intros (Hc & _). discriminate.
    + intros _ Hns. f_equal.
      destruct configured as [| | | |s| |]; try reflexivity.
      exfalso. exact (Hns s eq_refl).
  - assert (forall s, configured <> Invoke.VStr s \/ s = []) as Hcfg.
    { intros s. destruct s; [right; reflexivity | left].
      intros Hc. rewrite Hc in Htruthy. discriminate. }
    destruct (DISCORD_USER_ID a) as [[|c s]|]; cbn [Invoke.truthy negb];
      (split; [split|split; [split|]]); try discriminate.
    + intros (Hne & [Hc|(_ & Hc)]).
      * destruct (Hcfg userId) as [Hx|Hx]; [contradiction | congruence].
      * congruence.
    + intros _. split; [reflexivity | right; reflexivity].
    + reflexivity.
    + intros Heq. injection Heq as Heq. simpl in Heq.
      apply bool_decide_eq_true_1 in Heq. subst userId.
      split; [discriminate | right; split; reflexivity].
    + intros (Hne & [Hc|(_ & Hc)]).
      * destruct (Hcfg userId) as [Hx|Hx]; [contradiction | congruence].
      * injection Hc as <-. simpl. rewrite bool_decide_eq_true_2 by reflexivity.
        reflexivity.
    + intros (_ & [Hc|Hc]); discriminate.
    + intros (Hne & [Hc|(_ & Hc)]); [|discriminate].
      destruct (Hcfg userId) as [Hx|Hx]; [contradiction | congruence].
    + intros _. split; [reflexivity | left; reflexivity].
    + reflexivity.
Qed.

(** *** The slash command handler *)

Section Handler.
Context `{Invoke.Host}.
Variable e : client_env.
Variable i : interaction.

Lemma api_shared c s : shared (snd (api e c s)) = shared s.
Proof. unfold api. destruct (api_ok e (length (calls s))); reflexivity. Qed.

Lemma on_error_shared s : shared (snd (on_error e s)) = shared s.
Proof.
  unfold on_error, try_catch, editReply, reply.
  destruct (deferred s).
  - pose proof (api_shared (EditReply (str "An error occurred processing your command.")) s) as Hs.
    destruct (api e _ s) as [[u|m] s']; exact Hs.
  - pose proof (api_shared (ReplyCall (str "An error occurred.") true) s) as Hs.
    destruct (api e _ s) as [[u|m] s']; exact Hs.
Qed.

Lemma try_on_error_shared (m : M unit) s :
  shared (snd (try_catch m (fun _ => on_error e) s)) = shared (snd (m s)).
Proof.
  unfold try_catch. destruct (m s) as [[u|msg] s']; [reflexivity|].
  apply on_error_shared.
Qed.

Lemma queue_and_track_run prompt agent command s :
  queue_and_track e i prompt agent command s
  = if write_ok e then
      (Ok tt,
       mkRun (mkBot (claudeSpawnTimestamps (shared s))
                (<[fresh_id e := mkPending PendingInteraction (now_pending e)]>
                   (pendingResponses (shared s)))
                (incoming (shared s)
                   ++ [mkQueueMessage (str "discord") (username i) (user_id i) prompt
                         (now_queue e) (fresh_id e) (Some agent) (Some command)])
                (reset_flag (shared s)) (database (shared s)))
         (calls s) (deferred s))
    else (Thrown (failure e), s).
Proof.
  unfold queue_and_track, writeQueueMessage, set_pending, bind, update, ret, throw.
  destruct (write_ok e); reflexivity.
Qed.

Ltac norm :=
  cbn [shared calls deferred claudeSpawnTimestamps pendingResponses incoming
       reset_flag database fst snd negb] in *.

(** Take the next call on the interaction: it goes through or throws,
    the shared state staying as it is. *)
Ltac api_step :=
  match goal with
  | |- context [api ?e ?c ?s] =>
      let Hs := fresh "Hs" in
      let b := fresh "b" in
      let cs := fresh "cs" in
      let df := fresh "df" in
      pose proof (api_shared c s) as Hs;
      destruct (api e c s) as [[[]|?] [b cs df]];
      norm; subst b; norm
  end.

Ltac nothing_queued :=
  right; split; [reflexivity|]; split; [reflexivity|]; left;
  split; [reflexivity | try discriminate; intros _; split; reflexivity].

(** The three shapes of a command that reaches Claude. *)
Lemma fixed_command_outcome builder agent s :
  claude_outcome e i agent (shared s)
    (shared (snd (fixed_command e i builder agent (str "/" ++ commandName i) s))).
Proof.
  unfold claude_outcome, fixed_command, bind, checkRateLimit, deferReply, reply, build.
  cbv zeta. destruct s as [b cs df]. norm.
  destruct (RateLimit.checkRateLimit (now_limit e) (claudeSpawnTimestamps b))
    as [ok ts'].
  destruct ok; norm.
  - api_step; [|nothing_queued].
    destruct (builder (database b)) as [[prompt|m|] d]; norm; try nothing_queued.
    rewrite queue_and_track_run.
    destruct (write_ok e) eqn:Hw; norm; [|nothing_queued].
    unfold cleanOldPending, update. norm.
    right. split; [reflexivity|]. split; [reflexivity|]. right.
    repeat split. exists prompt. reflexivity.
  - api_step; nothing_queued.
Qed.

Lemma text_command_outcome option_name builder agent s :
  claude_outcome e i agent (shared s)
    (shared (snd (text_command e i option_name builder agent
                    (str "/" ++ commandName i) s))).
Proof.
  unfold claude_outcome, text_command. cbv zeta.
  destruct (getString i option_name) as [text|]; [|left; reflexivity].
  unfold bind, checkRateLimit, deferReply, reply, editReply, build, try_catch.
  destruct s as [b cs df]. norm.
  destruct (RateLimit.checkRateLimit (now_limit e) (claudeSpawnTimestamps b))
    as [ok ts'].
  destruct ok; norm.
  - api_step; [|nothing_queued].
    destruct (builder text (database b)) as [[prompt|m|] d]; norm.
    + rewrite queue_and_track_run.
      destruct (write_ok e) eqn:Hw; norm.
      * unfold cleanOldPending, update. norm.
        right. split; [reflexivity|]. split; [reflexivity|]. right.
        repeat split. exists prompt. reflexivity.
      * api_step; unfold cleanOldPending, update; norm; nothing_queued.
    + api_step; unfold cleanOldPending, update; norm; nothing_queued.
    + api_step; unfold cleanOldPending, update; norm; nothing_queued.
  - api_step; nothing_queued.
Qed.

Lemma activate_command_outcome s :
  commandName i = str "activate" ->
  claude_outcome e i (str "strategist") (shared s)
    (shared (snd (activate_command e i s))).
Proof.
  intros Hname. unfold claude_outcome, activate_command, queued_for. cbv zeta.
  rewrite Hname.
  destruct (getString i (str "strategy_id")) as [strategyId|]; [|left; reflexivity].
  unfold bind, checkRateLimit, deferReply, reply, editReply, buildActivate.
  destruct s as [b cs df]. norm.
  destruct (RateLimit.checkRateLimit (now_limit e) (claudeSpawnTimestamps b))
    as [ok ts'].
  destruct ok; norm.
  - api_step; [|nothing_queued].
    destruct (Commands.buildActivatePrompt (commands e) strategyId (database b))
      as [[prompt error|] d]; norm; [|nothing_queued].
    destruct (Commands.falsy_text error); norm.
    + rewrite queue_and_track_run.
      destruct (write_ok e) eqn:Hw; norm; [|nothing_queued].
      unfold cleanOldPending, update. norm.
      right. split; [reflexivity|]. split; [reflexivity|]. right.
      repeat split. exists prompt. reflexivity.
    + api_step; nothing_queued.
  - api_step; nothing_queued.
Qed.

Lemma status_command_shared s : shared (snd (status_command e s)) = shared s.
Proof.
  unfold status_command, bind, deferReply, editReply, throw.
  destruct s as [b cs df]. api_step; [|reflexivity].
  destruct (statusText e); [api_step; reflexivity | reflexivity].
Qed.

Lemma dispatch_outcome s :
  match agent_for (commandName i) with
  | Some agent => claude_outcome e i agent (shared s) (shared (snd (dispatch e i s)))
  | None => instant_outcome (shared s) (shared (snd (dispatch e i s)))
  end.
Proof.
  unfold dispatch. cbv zeta.
  destruct (decide (commandName i = str "status")) as [E|N1].
  { rewrite bool_decide_eq_true_2 by exact E.
    replace (agent_for (commandName i)) with (@None jsstring)
      by (rewrite E; vm_compute; reflexivity).
    rewrite status_command_shared. repeat split. }
  rewrite bool_decide_eq_false_2 by exact N1.
  destruct (decide (commandName i = str "help")) as [E|N2].
  { rewrite bool_decide_eq_true_2 by exact E.
    replace (agent_for (commandName i)) with (@None jsstring)
      by (rewrite E; vm_compute; reflexivity).
    unfold reply. rewrite api_shared. repeat split. }
  rewrite bool_decide_eq_false_2 by exact N2.
  destruct (decide (commandName i = str "regime")) as [E|N3].
  { rewrite bool_decide_eq_true_2 by exact E.
    replace (agent_for (commandName i)) with (Some (str "regime-analyst"))
      by (rewrite E; vm_compute; reflexivity).
    pose proof (fixed_command_outcome (Commands.buildRegimePrompt (commands e))
                  (str "regime-analyst") s) as Hout.
    rewrite E in Hout. exact Hout. }
  rewrite bool_decide_eq_false_2 by exact N3.
  destruct (decide (commandName i = str "performance")) as [E|N4].
  { rewrite bool_decide_eq_true_2 by exact E.
    replace (agent_for (commandName i)) with (Some (str "trade-reviewer"))
      by (rewrite E; vm_compute; reflexivity).
    pose proof (fixed_command_outcome (Commands.buildPerformancePrompt (commands e))
                  (str "trade-reviewer") s) as Hout.
    rewrite E in Hout. exact Hout. }
  rewrite bool_decide_eq_false_2 by exact N4.
  destruct (decide (commandName i = str "strategies")) as [E|N5].
  { rewrite bool_decide_eq_true_2 by exact E.
    replace (agent_for (commandName i)) with (Some (str "strategist"))
      by (rewrite E; vm_compute; reflexivity).
    pose proof (fixed_command_outcome (Commands.buildStrategiesPrompt (commands e))
                  (str "strategist") s) as Hout.
    rewrite E in Hout. exact Hout. }
  rewrite bool_decide_eq_false_2 by exact N5.
  destruct (decide (commandName i = str "activate")) as [E|N6].
  { rewrite bool_decide_eq_true_2 by exact E.
    replace (agent_for (commandName i)) with (Some (str "strategist"))
      by (rewrite E; vm_compute; reflexivity).
    exact (activate_command_outcome s E). }
  rewrite bool_decide_eq_false_2 by exact N6.
  destruct (decide (commandName i = str "research")) as [E|N7].
  { rewrite bool_decide_eq_true_2 by exact E.
    replace (agent_for (commandName i)) with (Some (str "researcher"))
      by (rewrite E; vm_compute; reflexivity).
    pose proof (text_command_outcome (str "query")
                  (fun text => Commands.buildResearchCommandPrompt (commands e)
                                 (buildResearchPrompt e) text)
                  (str "researcher") s) as Hout.
    rewrite E in Hout. exact Hout. }
  rewrite bool_decide_eq_false_2 by exact N7.
  destruct (decide (commandName i = str "ask")) as [E|N8].
  { rewrite bool_decide_eq_true_2 by exact E.
    replace (agent_for (commandName i)) with (Some (str "strategist"))
      by (rewrite E; vm_compute; reflexivity).
    pose proof (text_command_outcome (str "question")
                  (Commands.buildAskPrompt (commands e)) (str "strategist") s) as Hout.
    rewrite E in Hout. exact Hout. }
  rewrite bool_decide_eq_false_2 by exact N8.
  replace (agent_for (commandName i)) with (@None jsstring)
    by (unfold agent_for; rewrite !bool_decide_eq_false_2 by assumption; reflexivity).
  destruct (decide (commandName i = str "reset")) as [E|N9].
  - rewrite bool_decide_eq_true_2 by exact E.
    unfold reset_command, bind, update, throw, reply. destruct s as [b cs df].
    destruct (write_ok e); norm; [api_step|]; repeat split.
  - rewrite bool_decide_eq_false_2 by exact N9.
    unfold reply. rewrite api_shared. repeat split.
Qed.

(** The state an authorized interaction leaves is the one its command
    leaves: the [catch] of the listener only talks to the interaction. *)
Lemma state_after_authorized b :
  isAuthorized (auth e) (user_id i) = Some true ->
  state_after e i b = shared (snd (dispatch e i (mkRun b [] false))).
Proof.
  intros Hauth. unfold state_after, handle, on_interaction. rewrite Hauth.
  pose proof (try_on_error_shared (dispatch e i) (mkRun b [] false)) as Hs.
  destruct (try_catch (dispatch e i) (fun _ => on_error e) (mkRun b [] false))
    as [r s]. exact Hs.
Qed.

Lemma handle_unauthorized b :
  isAuthorized (auth e) (user_id i) <> Some true ->
  state_after e i b = b /\
  calls_of e i b <> [] /\
  Forall (fun c => c = ReplyCall (str "Unauthorized.") true \/
                   c = ReplyCall (str "Authorization not configured.") true)
         (calls_of e i b).
Proof.
  intros Hauth. unfold state_after, calls_of, handle, on_interaction.
  destruct (isAuthorized (auth e) (user_id i)) as [[|]|]; [congruence | |].
  - unfold try_catch, reply, api. cbn [calls length shared deferred app].
    destruct (api_ok e 0); cbn [fst snd shared calls length app].
    + repeat split; [discriminate|]. repeat constructor.
    + destruct (api_ok e 1); cbn [fst snd shared calls];
        (repeat split; [discriminate|]);
        (constructor; [left; reflexivity|]); (constructor; [right; reflexivity|]);
        constructor.
  - unfold reply, api. cbn [calls length shared deferred app].
    destruct (api_ok e 0); cbn [fst snd shared calls];
      (repeat split; [discriminate|]); (constructor; [right; reflexivity|]);
      constructor.
Qed.

End Handler.


(** X20. Nobody but the configured user gets past the authorization
    check. When [isAuthorized] does not answer true for the user of a
    slash command, whether it answers false or throws, the listener
    leaves the limiter, the pending map, the queue, the reset flag and the
    database exactly as they were, and all it does is reply "Unauthorized."
    or "Authorization not configured." (ephemeral), whatever the command
    and its options. *)
Theorem slash_command_auth_gate `{Invoke.Host}
  (e : client_env) (i : interaction) (b : bot) :
  isAuthorized (auth e) (user_id i) <> Some true ->
  state_after e i b = b /\
  calls_of e i b <> [] /\
  Forall (fun c => c = ReplyCall (str "Unauthorized.") true \/
                   c = ReplyCall (str "Authorization not configured.") true)
         (calls_of e i b).
Proof. apply handle_unauthorized. Qed.

Lemma slash_command_auth_gate_witness :
  @state_after sample_host sample_client_env stranger_activate sample_bot = sample_bot /\
  @calls_of sample_host sample_client_env stranger_activate sample_bot <> [] /\
  Forall (fun c => c = ReplyCall (str "Unauthorized.") true \/
                   c = ReplyCall (str "Authorization not configured.") true)
         (@calls_of sample_host sample_client_env stranger_activate sample_bot).
Proof.
  apply (@slash_command_auth_gate sample_host).
  vm_compute. discriminate.
Defined.

(** X21. One command queues at most one message, and only for an
    authorized user the limiter has admitted. After a slash command the
    queue is as before, or it has grown by exactly one file; in that case
    the user is authorized, the command is one of regime, performance,
    strategies, activate, research and ask, the limiter has admitted the
    call and recorded it, the file names the channel discord, the user,
    the command and the agent the head of the file assigns to it, and the
    pending map is the old one with the new message id, cleaned of every
    entry more than ten minutes old. *)
Theorem slash_command_queue_discipline `{Invoke.Host}
  (e : client_env) (i : interaction) (b : bot) :
  let b' := state_after e i b in
  incoming b' = incoming b \/
  exists agent prompt,
    isAuthorized (auth e) (user_id i) = Some true /\
    agent_for (commandName i) = Some agent /\
    RateLimit.checkRateLimit (now_limit e) (claudeSpawnTimestamps b)
    = (true, claudeSpawnTimestamps b') /\
    incoming b' = incoming b ++ [queued_for e i agent prompt] /\
    pendingResponses b' = tracked e b /\
    (forall id p, pendingResponses b' !! id = Some p ->
       ~ (p_timestamp p < now_clean e - 10 * 60 * 1000)%Z) /\
    (~ (now_pending e < now_clean e - 10 * 60 * 1000)%Z ->
     pendingResponses b' !! fresh_id e
     = Some (mkPending PendingInteraction (now_pending e))).
Proof.
  cbv zeta.
  destruct (decide (isAuthorized (auth e) (user_id i) = Some true)) as [Hauth|Hno].
  2:{ left. destruct (handle_unauthorized e i b Hno) as (-> & _). reflexivity. }
  rewrite (state_after_authorized e i b Hauth).
  pose proof (dispatch_outcome e i (mkRun b [] false)) as Hout.
  destruct (agent_for (commandName i)) as [agent|].
  - destruct Hout as [->|(Hts & _ & [(Hin & _)|(Hok & _ & Hpend & prompt & Hin)])];
      [left; reflexivity | left; exact Hin |].
    right. exists agent, prompt. cbn [shared] in *.
    split; [exact Hauth|]. split; [reflexivity|]. split.
    { rewrite Hts. destruct (RateLimit.checkRateLimit _ _) as [ok ts'].
      cbn [fst snd] in *. subst ok. reflexivity. }
    split; [exact Hin|]. split; [exact Hpend|]. rewrite Hpend. unfold tracked. split.
    + intros id p Hp. apply map_lookup_filter_Some in Hp as (_ & Hfresh). exact Hfresh.
    + intros Hfresh. apply map_lookup_filter_Some. split; [|exact Hfresh].
      apply lookup_insert_eq.
  - left. apply Hout.
Qed.

(** X22. A refusal by the limiter stops the command before it touches
    anything. If the limiter refuses a call at the time of the command
    (five admissions are still inside the window), the slash command,
    whichever it is, queues nothing, leaves the database as it was (no
    conversation row, no activation) and leaves the pending map as it
    was. *)
Theorem slash_command_rate_limited `{Invoke.Host}
  (e : client_env) (i : interaction) (b : bot) :
  fst (RateLimit.checkRateLimit (now_limit e) (claudeSpawnTimestamps b)) = false ->
  incoming (state_after e i b) = incoming b /\
  database (state_after e i b) = database b /\
  pendingResponses (state_after e i b) = pendingResponses b.
Proof.
  intros Hrefused.
  destruct (decide (isAuthorized (auth e) (user_id i) = Some true)) as [Hauth|Hno].
  2:{ destruct (handle_unauthorized e i b Hno) as (-> & _). repeat split. }
  rewrite (state_after_authorized e i b Hauth).
  pose proof (dispatch_outcome e i (mkRun b [] false)) as Hout.
  destruct (agent_for (commandName i)) as [agent|].
  - destruct Hout as [->|(_ & _ & [(Hin & Hrest)|(Hok & _)])]; cbn [shared] in *.
    + repeat split.
    + destruct (Hrest Hrefused) as (Hdb & Hp). repeat split; assumption.
    + congruence.
  - destruct Hout as (_ & Hp & Hin & Hdb). repeat split; assumption.
Qed.

Lemma slash_command_rate_limited_witness :
  incoming (@state_after sample_host sample_client_env owner_activate busy_bot)
  = incoming busy_bot /\
  database (@state_after sample_host sample_client_env owner_activate busy_bot)
  = database busy_bot /\
  pendingResponses (@state_after sample_host sample_client_env owner_activate busy_bot)
  = pendingResponses busy_bot.
Proof.
  apply (@slash_command_rate_limited sample_host).
  vm_compute. reflexivity.
Defined.

(** X23. The instant commands cost nothing. A slash command that is not
    one of regime, performance, strategies, activate, research and ask
    (that is status, help, reset, or a name the listener does not know)
    spends none of the limiter's budget: it leaves the limiter's array,
    the queue, the pending map and the database as they were. *)
Theorem slash_command_instant `{Invoke.Host}
  (e : client_env) (i : interaction) (b : bot) :
  agent_for (commandName i) = None ->
  claudeSpawnTimestamps (state_after e i b) = claudeSpawnTimestamps b /\
  pendingResponses (state_after e i b) = pendingResponses b /\
  incoming (state_after e i b) = incoming b /\
  database (state_after e i b) = database b.
Proof.
  intros Hname.
  destruct (decide (isAuthorized (auth e) (user_id i) = Some true)) as [Hauth|Hno].
  2:{ destruct (handle_unauthorized e i b Hno) as (-> & _). repeat split. }
  rewrite (state_after_authorized e i b Hauth).
  pose proof (dispatch_outcome e i (mkRun b [] false)) as Hout.
  rewrite Hname in Hout. exact Hout.
Qed.

Lemma slash_command_instant_witness :
  claudeSpawnTimestamps (@state_after sample_host sample_client_env owner_status busy_bot)
  = claudeSpawnTimestamps busy_bot /\
  pendingResponses (@state_after sample_host sample_client_env owner_status busy_bot)
  = pendingResponses busy_bot /\
  incoming (@state_after sample_host sample_client_env owner_status busy_bot)
  = incoming busy_bot /\
  database (@state_after sample_host sample_client_env owner_status busy_bot)
  = database busy_bot.
Proof.
  apply (@slash_command_instant sample_host).
  vm_compute. reflexivity.
Defined.

Example owner_activate_queues :
  incoming (@state_after sample_host sample_client_env owner_activate sample_bot)
  = [mkQueueMessage (str "discord") (str "sam") (str "42")
       (str "PROMPT: Strategy 'btc-momentum' has been activated for paper trading. Refresh /srv/state/active-strategies.json with all active strategies from the DB. Confirm activation with the strategy details.")
       1001 (str "1001_abc") (Some (str "strategist")) (Some (str "/activate"))] /\
  claudeSpawnTimestamps (@state_after sample_host sample_client_env owner_activate sample_bot)
  = [1000%Z] /\
  @calls_of sample_host sample_client_env owner_activate sample_bot = [DeferReply].
Proof. vm_compute. repeat split. Qed.


(** *** The outgoing queue watcher *)

Lemma send_all_spec (e : out_env) (plan : list delivery) :
  forall s,
    processingOutgoingQueue (snd (send_all e plan s)) = processingOutgoingQueue s /\
    pending_map (snd (send_all e plan s)) = pending_map s /\
    outbox (snd (send_all e plan s)) = outbox s /\
    exists n,
      (n <= length plan)%nat /\
      sent (snd (send_all e plan s)) = sent s ++ take n plan /\
      (fst (send_all e plan s) = true -> n = length plan) /\
      (fst (send_all e plan s) = true <->
       forall k, (k < length plan)%nat -> send_ok e (length (sent s) + k) = true).
Proof.
  induction plan as [|d rest IH]; intros s.
  - simpl. do 3 (split; [reflexivity|]). exists 0%nat. simpl. rewrite app_nil_r.
    split; [lia|]. split; [reflexivity|]. split; [reflexivity|].
    split; [intros _ k Hk; lia | reflexivity].
  - cbn [send_all]. destruct (send_ok e (length (sent s))) eqn:Hok.
    + match goal with
      | |- context [send_all e rest ?s1] =>
          destruct (IH s1) as (Hp & Hm & Ho & n & Hn & Hsent & Hfull & Hiff)
      end.
      cbn [processingOutgoingQueue pending_map outbox sent] in *.
      rewrite Hp, Hm, Ho. do 3 (split; [reflexivity|]). exists (S n). simpl.
      split; [lia|]. split; [rewrite Hsent, <- app_assoc; reflexivity|].
      split; [intros Ht; rewrite (Hfull Ht); reflexivity|].
      rewrite Hiff, length_app. simpl. split.
      * intros Hall k Hk. destruct k as [|k]; [rewrite Nat.add_0_r; exact Hok|].
        specialize (Hall k ltac:(lia)). rewrite <- Hall. f_equal. lia.
      * intros Hall k Hk. specialize (Hall (S k) ltac:(lia)). rewrite <- Hall.
        f_equal. lia.
    + cbn [fst snd processingOutgoingQueue pending_map outbox sent].
      do 3 (split; [reflexivity|]). exists 1%nat. simpl. split; [lia|]. rewrite take_0.
      split; [reflexivity|]. split; [discriminate|]. split; [discriminate|].
      intros Hall. specialize (Hall 0%nat ltac:(lia)). rewrite Nat.add_0_r in Hall.
      congruence.
Qed.

Lemma interaction_plan_ids id chunks attachments :
  Forall (fun d => delivery_id d = id) (interaction_plan id chunks attachments).
Proof.
  unfold interaction_plan. destruct chunks as [|c rest].
  - destruct attachments; repeat constructor.
  - constructor; [reflexivity|]. apply List.Forall_forall. intros d Hd.
    apply in_map_iff in Hd as (x & <- & _). reflexivity.
Qed.

Lemma message_plan_ids id chunks attachments :
  Forall (fun d => delivery_id d = id) (message_plan id chunks attachments).
Proof.
  unfold message_plan. apply Forall_app. split.
  - destruct attachments; repeat constructor.
  - destruct chunks as [|c rest]; [constructor|].
    constructor; [reflexivity|]. apply List.Forall_forall. intros d Hd.
    apply in_map_iff in Hd as (x & <- & _). reflexivity.
Qed.

Lemma Forall_take {A : Type} (P : A -> Prop) (n : nat) (l : list A) :
  Forall P l -> Forall P (take n l).
Proof.
  intros Hl. revert n. induction Hl as [|x l Hx _ IH]; intros n.
  - rewrite take_nil. constructor.
  - destruct n; [constructor|]. simpl. constructor; [exact Hx | apply IH].
Qed.


(** What one response file can change: it lets go of pending entries and
    of files, never adds any, and calls Discord only for the message id
    of the file, which is pending. *)
Lemma process_file_frame (e : out_env) (f : outgoing_file) (s : out_state) :
  let s' := process_file e f s in
  processingOutgoingQueue s' = processingOutgoingQueue s /\
  (forall id p, pending_map s' !! id = Some p -> pending_map s !! id = Some p) /\
  (forall g, In g (outbox s') -> In g (outbox s)) /\
  exists new,
    sent s' = sent s ++ new /\
    Forall (fun d => is_Some (pending_map s !! delivery_id d)) new.
Proof.
  cbv zeta. unfold process_file.
  destruct (parsed f) as [data|].
  2:{ repeat split; try tauto. exists []. rewrite app_nil_r. split; constructor. }
  destruct (pending_map s !! r_messageId data) as [p|] eqn:Hp.
  2:{ cbn. repeat split; try tauto.
      - intros g Hg. apply filter_In in Hg. tauto.
      - exists []. rewrite app_nil_r. split; constructor. }
  set (attachments := List.filter (file_exists e) (r_files data)).
  set (chunks := chunks_of_text (r_message data)).
  assert (forall plan,
            Forall (fun d => delivery_id d = r_messageId data) plan ->
            forall s1 ok, (ok, s1) = (fst (send_all e plan s), snd (send_all e plan s)) \/
                          (ok, s1) = (true, snd (send_all e plan s)) ->
            let s' := if ok then match r_message data with
                                 | None => s1
                                 | Some _ => finish (r_messageId data) (file_name f) s1
                                 end
                      else s1 in
            processingOutgoingQueue s' = processingOutgoingQueue s /\
            (forall id q, pending_map s' !! id = Some q -> pending_map s !! id = Some q) /\
            (forall g, In g (outbox s') -> In g (outbox s)) /\
            exists new,
              sent s' = sent s ++ new /\
              Forall (fun d => is_Some (pending_map s !! delivery_id d)) new) as Hgen.
  { intros plan Hids s1 ok Hrun.
    destruct (send_all_spec e plan s) as (Hflag & Hmap & Hbox & n & _ & Hsent & _).
    assert (s1 = snd (send_all e plan s)) as -> by (destruct Hrun; congruence).
    assert (Forall (fun d => is_Some (pending_map s !! delivery_id d)) (take n plan)) as Hall.
    { apply Forall_take. eapply List.Forall_impl; [|exact Hids].
      intros d Hd. simpl in Hd. rewrite Hd, Hp. eexists. reflexivity. }
    cbv zeta. destruct ok; [destruct (r_message data)|];
      cbn [finish processingOutgoingQueue pending_map outbox sent];
      rewrite ?Hflag, ?Hmap, ?Hbox, ?Hsent;
      (split; [reflexivity|]); (split; [|split; [|exists (take n plan); split;
                                                   [reflexivity | exact Hall]]]);
      try tauto.
    - intros id q Hq. apply lookup_delete_Some in Hq. tauto.
    - intros g Hg. apply filter_In in Hg. tauto. }
  destruct (p_type p).
  - specialize (Hgen (message_plan (r_messageId data) chunks attachments)
                  (message_plan_ids _ _ _)).
    destruct (send_all e (message_plan (r_messageId data) chunks attachments) s)
      as [ok s1] eqn:Hrun.
    apply (Hgen s1 ok). left. reflexivity.
  - specialize (Hgen (interaction_plan (r_messageId data) chunks attachments)
                  (interaction_plan_ids _ _ _)).
    apply (Hgen _ true). right. reflexivity.
Qed.

(** X25. The watcher answers only what the bot is waiting for. One run
    of [checkOutgoingQueue] calls Discord only on behalf of message ids
    that were pending when the run began; it adds no pending entry and no
    file; a response file whose message id is not pending is deleted
    without any call; and while another run is in progress (the flag is
    set) the run does nothing. *)
Theorem outgoing_queue_only_answers_pending (e : out_env) (s : out_state) :
  let s' := checkOutgoingQueue e s in
  (exists new,
     sent s' = sent s ++ new /\
     Forall (fun d => is_Some (pending_map s !! delivery_id d)) new) /\
  (forall id p, pending_map s' !! id = Some p -> pending_map s !! id = Some p) /\
  (forall g, In g (outbox s') -> In g (outbox s)) /\
  (processingOutgoingQueue s = true -> s' = s) /\
  (forall f data,
     processingOutgoingQueue s = false ->
     In f (outbox s) -> is_response_file (file_name f) = true ->
     parsed f = Some data -> pending_map s !! r_messageId data = None ->
     forall g, In g (outbox s') -> file_name g <> file_name f).
Proof.
  cbv zeta. unfold checkOutgoingQueue.
  destruct (processingOutgoingQueue s) eqn:Hflag.
  { split; [exists []; rewrite app_nil_r; split; constructor|].
    repeat split; try tauto; discriminate. }
  set (files := List.filter (fun f => is_response_file (file_name f)) (outbox s)).
  assert (forall fs s0,
            (forall id p, pending_map s0 !! id = Some p -> pending_map s !! id = Some p) ->
            (forall g, In g (outbox s0) -> In g (outbox s)) ->
            (exists new0, sent s0 = sent s ++ new0 /\
               Forall (fun d => is_Some (pending_map s !! delivery_id d)) new0) ->
            let s' := fold_left (fun s f => process_file e f s) fs s0 in
            (exists new, sent s' = sent s ++ new /\
               Forall (fun d => is_Some (pending_map s !! delivery_id d)) new) /\
            (forall id p, pending_map s' !! id = Some p -> pending_map s !! id = Some p) /\
            (forall g, In g (outbox s') -> In g (outbox s)) /\
            (forall g, In g (outbox s') -> In g (outbox s0)) /\
            (forall f data, In f fs -> parsed f = Some data ->
               pending_map s !! r_messageId data = None ->
               forall g, In g (outbox s') -> file_name g <> file_name f)) as Hloop.
  { induction fs as [|f fs IH]; intros s0 Hmap Hbox (new0 & Hsent & Hall).
    - simpl. split; [exists new0; split; assumption|]. repeat split; try tauto.
    - cbn [fold_left].
      destruct (process_file_frame e f s0) as (_ & Hmap1 & Hbox1 & new1 & Hsent1 & Hall1).
      destruct (IH (process_file e f s0)) as (Hs & Hm & Hb & Hb0 & Horph).
      + intros id p Hp. apply Hmap, Hmap1, Hp.
      + intros g Hg. apply Hbox, Hbox1, Hg.
      + exists (new0 ++ new1). rewrite Hsent1, Hsent, <- app_assoc.
        split; [reflexivity|]. apply Forall_app. split; [exact Hall|].
        eapply List.Forall_impl; [|exact Hall1]. intros d [p Hd]. simpl in Hd.
        exists p. apply Hmap, Hd.
      + split; [exact Hs|]. split; [exact Hm|]. split; [exact Hb|].
        split; [intros g Hg; apply Hbox1, Hb0, Hg|].
        intros f' data [->|Hin] Hparsed Hnone g Hg.
        * apply Hb0 in Hg. revert Hg. unfold process_file. rewrite Hparsed.
          assert (pending_map s0 !! r_messageId data = None) as ->.
          { destruct (pending_map s0 !! r_messageId data) as [p|] eqn:Hp;
              [|reflexivity]. apply Hmap in Hp. congruence. }
          cbn [unlink outbox]. intros Hg. apply filter_In in Hg as (_ & Hne).
          apply negb_true_iff, bool_decide_eq_false_1 in Hne. exact Hne.
        * exact (Horph f' data Hin Hparsed Hnone g Hg). }
  destruct (Hloop files s) as (Hs & Hm & Hb & _ & Horph).
  - tauto.
  - tauto.
  - exists []. rewrite app_nil_r. split; constructor.
  - split; [exact Hs|]. split; [exact Hm|]. split; [exact Hb|].
    split; [discriminate|].
    intros f data _ Hin Hname Hparsed Hnone. apply (Horph f data); try assumption.
    unfold files. apply filter_In. split; assumption.
Qed.

(** X26. A reply to a slash command is attempted once, a reply to a plain
    message until it has gone out. For a response file whose message id is
    pending and whose message is present, the watcher calls Discord along
    the plan of the pending entry and stops at the first call that
    throws. For an interaction (edit the deferred reply with the first
    chunk, follow up with the others) the pending entry and the file are
    then removed whether or not the calls went through. For a message
    (send the files, reply with the first chunk, send the others) they are
    removed when every call went through and both are kept, for the next
    run, when one did not. *)
Theorem outgoing_response_delivery
  (e : out_env) (f : outgoing_file) (s : out_state)
  (data : response_data) (p : pending) (text : jsstring) :
  parsed f = Some data ->
  pending_map s !! r_messageId data = Some p ->
  r_message data = Some text ->
  let id := r_messageId data in
  let attachments := List.filter (file_exists e) (r_files data) in
  let plan :=
    match p_type p with
    | PendingInteraction => interaction_plan id (chunks_of_text (Some text)) attachments
    | PendingMessage => message_plan id (chunks_of_text (Some text)) attachments
    end in
  let all_sent :=
    forall k, (k < length plan)%nat -> send_ok e (length (sent s) + k) = true in
  let s' := process_file e f s in
  (exists n, (n <= length plan)%nat /\ sent s' = sent s ++ take n plan) /\
  (all_sent -> sent s' = sent s ++ plan) /\
  (p_type p = PendingInteraction \/ all_sent ->
   pending_map s' = delete id (pending_map s) /\
   forall g, In g (outbox s') -> file_name g <> file_name f) /\
  (p_type p = PendingMessage -> ~ all_sent ->
   pending_map s' = pending_map s /\ outbox s' = outbox s).
Proof.
  intros Hparsed Hp Htext. cbv zeta. unfold process_file.
  rewrite Hparsed, Hp, Htext.
  assert (forall s1, pending_map s1 = pending_map s -> outbox s1 = outbox s ->
            pending_map (finish (r_messageId data) (file_name f) s1)
            = delete (r_messageId data) (pending_map s) /\
            forall g, In g (outbox (finish (r_messageId data) (file_name f) s1)) ->
                      file_name g <> file_name f) as Hfinish.
  { intros s1 Hm Hb. cbn [finish pending_map outbox]. rewrite Hm. split; [reflexivity|].
    intros g Hg. apply filter_In in Hg as (_ & Hne).
    apply negb_true_iff, bool_decide_eq_false_1 in Hne. exact Hne. }
  destruct (p_type p).
  - set (plan := message_plan _ _ _).
    destruct (send_all_spec e plan s) as (_ & Hmap & Hbox & n & Hn & Hsent & Hfull & Hiff).
    destruct (send_all e plan s) as [ok s1]. cbn [fst snd] in *.
    destruct ok.
    + rewrite (Hfull eq_refl) in Hsent. rewrite firstn_all in Hsent.
      cbn [finish sent]. split; [exists (length plan); rewrite firstn_all; split;
                                   [lia | exact Hsent]|].
      split; [intros _; exact Hsent|].
      split; [intros _; apply Hfinish; assumption|].
      intros _ Hnot. exfalso. apply Hnot. apply Hiff. reflexivity.
    + split; [exists n; split; assumption|].
      split; [intros Hall; apply Hiff in Hall; discriminate|].
      split; [intros [Hc|Hall]; [discriminate | apply Hiff in Hall; discriminate]|].
      intros _ _. split; assumption.
  - set (plan := interaction_plan _ _ _).
    destruct (send_all_spec e plan s) as (_ & Hmap & Hbox & n & Hn & Hsent & Hfull & Hiff).
    cbn [finish sent]. split; [exists n; split; assumption|].
    split; [intros Hall; apply Hiff in Hall; rewrite (Hfull Hall) in Hsent;
            rewrite firstn_all in Hsent; exact Hsent|].
    split; [intros _; apply Hfinish; assumption|].
    intros Hc. discriminate.
Qed.


Lemma outgoing_response_delivery_witness :
  let plan := [InteractionEdit (str "1001_abc") (str "Regime: NEUTRAL") []] in
  let s' := process_file sample_out_env sample_response sample_out_state in
  (exists n, (n <= length plan)%nat /\ sent s' = sent sample_out_state ++ take n plan) /\
  pending_map s' = delete (str "1001_abc") (pending_map sample_out_state) /\
  forall g, In g (outbox s') -> file_name g <> file_name sample_response.
Proof.
  cbv zeta.
  destruct (outgoing_response_delivery sample_out_env sample_response sample_out_state
              (mkResponse (str "1001_abc") (Some (str "Regime: NEUTRAL")) [])
              (mkPending PendingInteraction 1002) (str "Regime: NEUTRAL")
              eq_refl eq_refl eq_refl) as (Hsent & _ & Hclean & _).
  split; [exact Hsent|]. apply Hclean. left. reflexivity.
Defined.

(** The first call fails: the reply to the slash command is lost, the
    file and the pending entry are gone all the same. *)
Example outgoing_interaction_lost :
  process_file sample_out_env sample_response sample_out_state
  = mkOut false (delete (str "1001_abc") (pending_map sample_out_state)) []
      [InteractionEdit (str "1001_abc") (str "Regime: NEUTRAL") []].
Proof. reflexivity. Qed.


(** *** What a slash command can do to the strategies table *)

Ltac norm :=
  cbn [shared calls deferred claudeSpawnTimestamps pendingResponses incoming
       reset_flag database fst snd negb] in *.

Ltac api_step :=
  match goal with
  | |- context [api ?e ?c ?s] =>
      let Hs := fresh "Hs" in
      let b := fresh "b" in
      let cs := fresh "cs" in
      let df := fresh "df" in
      pose proof (api_shared e c s) as Hs;
      destruct (api e c s) as [[[]|?] [b cs df]];
      norm; subst b; norm
  end.

Ltac db_same := left; reflexivity.

Section HandlerDatabase.
Context `{Invoke.Host}.
Variable e : client_env.
Variable i : interaction.

(** A command that runs a builder leaves the database as it was, or as
    the builder left it after the limiter admitted the call. *)
Lemma fixed_command_database builder agent command s :
  let verdict :=
    RateLimit.checkRateLimit (now_limit e) (claudeSpawnTimestamps (shared s)) in
  let d' := database (shared (snd (fixed_command e i builder agent command s))) in
  d' = database (shared s) \/
  (fst verdict = true /\ d' = snd (builder (database (shared s)))).
Proof.
  cbv zeta. unfold fixed_command, bind, checkRateLimit, deferReply, reply, build.
  destruct s as [b cs df]. norm.
  destruct (RateLimit.checkRateLimit (now_limit e) (claudeSpawnTimestamps b))
    as [ok ts'].
  destruct ok; norm.
  - api_step; [|db_same]. right. split; [reflexivity|].
    destruct (builder (database b)) as [[prompt|m|] d]; norm; try reflexivity.
    rewrite queue_and_track_run.
    destruct (write_ok e); norm; [|reflexivity].
    unfold cleanOldPending, update. norm. reflexivity.
  - api_step; db_same.
Qed.

Lemma text_command_database option_name builder agent command s :
  let verdict :=
    RateLimit.checkRateLimit (now_limit e) (claudeSpawnTimestamps (shared s)) in
  let d' :=
    database (shared (snd (text_command e i option_name builder agent command s))) in
  d' = database (shared s) \/
  (fst verdict = true /\
   exists text, getString i option_name = Some text /\
                d' = snd (builder text (database (shared s)))).
Proof.
  cbv zeta. unfold text_command.
  destruct (getString i option_name) as [text|]; [|left; reflexivity].
  unfold bind, checkRateLimit, deferReply, reply, editReply, build, try_catch.
  destruct s as [b cs df]. norm.
  destruct (RateLimit.checkRateLimit (now_limit e) (claudeSpawnTimestamps b))
    as [ok ts'].
  destruct ok; norm.
  - api_step; [|db_same]. right. split; [reflexivity|]. exists text.
    split; [reflexivity|].
    destruct (builder text (database b)) as [[prompt|m|] d]; norm.
    + rewrite queue_and_track_run.
      destruct (write_ok e); norm.
      * unfold cleanOldPending, update. norm. reflexivity.
      * api_step; unfold cleanOldPending, update; norm; reflexivity.
    + api_step; unfold cleanOldPending, update; norm; reflexivity.
    + api_step; unfold cleanOldPending, update; norm; reflexivity.
  - api_step; db_same.
Qed.

Lemma activate_command_database s :
  let verdict :=
    RateLimit.checkRateLimit (now_limit e) (claudeSpawnTimestamps (shared s)) in
  let d' := database (shared (snd (activate_command e i s))) in
  d' = database (shared s) \/
  (fst verdict = true /\
   exists strategyId,
     getString i (str "strategy_id") = Some strategyId /\
     d' = snd (Commands.buildActivatePrompt (commands e) strategyId (database (shared s)))).
Proof.
  cbv zeta. unfold activate_command.
  destruct (getString i (str "strategy_id")) as [strategyId|]; [|left; reflexivity].
  unfold bind, checkRateLimit, deferReply, reply, editReply, buildActivate.
  destruct s as [b cs df]. norm.
  destruct (RateLimit.checkRateLimit (now_limit e) (claudeSpawnTimestamps b))
    as [ok ts'].
  destruct ok; norm.
  - api_step; [|db_same]. right. split; [reflexivity|]. exists strategyId.
    split; [reflexivity|].
    destruct (Commands.buildActivatePrompt (commands e) strategyId (database b))
      as [[prompt error|] d]; norm; [|reflexivity].
    destruct (Commands.falsy_text error); norm.
    + rewrite queue_and_track_run.
      destruct (write_ok e); norm; [|reflexivity].
      unfold cleanOldPending, update. norm. reflexivity.
    + api_step; reflexivity.
  - api_step; db_same.
Qed.

Lemma free_text_strategies text d :
  Commands.strategies (snd (Commands.buildAskPrompt (commands e) text d))
  = Commands.strategies d /\
  Commands.strategies
    (snd (Commands.buildResearchCommandPrompt (commands e) (buildResearchPrompt e) text d))
  = Commands.strategies d.
Proof.
  unfold Commands.buildAskPrompt, Commands.buildResearchCommandPrompt.
  split.
  - destruct (Commands.validateTextInput text 2000 _); [reflexivity|].
    apply CommandsFacts.strategies_after_log.
  - destruct (Commands.validateTextInput text 500 _); [reflexivity|].
    apply CommandsFacts.strategies_after_log.
Qed.

(** The strategies table after the command of an interaction: as it was,
    or as an admitted /activate whose validations passed left it. *)
Lemma dispatch_strategies s :
  let d := database (shared s) in
  let d' := database (shared (snd (dispatch e i s))) in
  Commands.strategies d' = Commands.strategies d \/
  (commandName i = str "activate" /\
   fst (RateLimit.checkRateLimit (now_limit e) (claudeSpawnTimestamps (shared s))) = true /\
   exists strategyId,
     getString i (str "strategy_id") = Some strategyId /\
     Commands.validations_pass (commands e) strategyId d /\
     Commands.strategies d'
     = map (Commands.set_paper (Commands.db_now (commands e)) strategyId)
         (Commands.strategies d)).
Proof.
  cbv zeta. unfold dispatch. cbv zeta.
  assert (forall builder agent command,
            (forall d, Commands.strategies (snd (builder d)) = Commands.strategies d) ->
            Commands.strategies
              (database (shared (snd (fixed_command e i builder agent command s))))
            = Commands.strategies (database (shared s))) as Hfixed.
  { intros builder agent command Hb.
    destruct (fixed_command_database builder agent command s) as [->|(_ & ->)];
      [reflexivity | apply Hb]. }
  assert (forall cmd task d,
            Commands.strategies (snd (Commands.buildFixedPrompt (commands e) cmd task d))
            = Commands.strategies d) as Hlog
    by (intros; apply CommandsFacts.strategies_after_log).
  repeat case_bool_decide.
  - left. rewrite (status_command_shared e). reflexivity.
  - left. unfold reply. rewrite api_shared. reflexivity.
  - left. apply Hfixed. intros d. apply Hlog.
  - left. apply Hfixed. intros d. apply Hlog.
  - left. apply Hfixed. intros d. apply Hlog.
  - destruct (activate_command_database s) as [->|(Hok & strategyId & Hget & ->)];
      [left; reflexivity|].
    destruct (CommandsFacts.buildActivatePrompt_cases (commands e) strategyId
                (database (shared s))) as [(Hpass & [Hsame|Hset])|(_ & _ & Hsame)];
      cbv zeta in *; [left; exact Hsame | | left; exact Hsame].
    right. split; [assumption|]. split; [exact Hok|].
    exists strategyId. repeat split; try assumption; apply Hpass.
  - left.
    destruct (text_command_database (str "query")
                (fun text => Commands.buildResearchCommandPrompt (commands e)
                               (buildResearchPrompt e) text)
                (str "researcher") (str "/research") s)
      as [->|(_ & text & _ & ->)]; [reflexivity|].
    apply free_text_strategies.
  - left.
    destruct (text_command_database (str "question")
                (Commands.buildAskPrompt (commands e))
                (str "strategist") (str "/ask") s)
      as [->|(_ & text & _ & ->)]; [reflexivity|].
    apply free_text_strategies.
  - left. unfold reset_command, bind, update, throw, reply. destruct s as [b cs df].
    destruct (write_ok e); norm; [api_step|]; reflexivity.
  - left. unfold reply. rewrite api_shared. reflexivity.
Qed.

End HandlerDatabase.

(** X28. A strategy is activated from Discord only by the authorized
    user, under the limiter, and after validation. If a slash command
    changes the strategies table at all, then the user is the authorized
    one, the command is /activate, the limiter admitted the call, the
    strategy id given passes the four validations (well formed, found,
    neither paper nor live, with backtest results), and the change is
    exactly that this strategy is set to paper. *)
Theorem slash_command_activation_guard `{Invoke.Host}
  (e : client_env) (i : interaction) (b : bot) :
  Commands.strategies (database (state_after e i b)) <> Commands.strategies (database b) ->
  isAuthorized (auth e) (user_id i) = Some true /\
  commandName i = str "activate" /\
  fst (RateLimit.checkRateLimit (now_limit e) (claudeSpawnTimestamps b)) = true /\
  exists strategyId,
    getString i (str "strategy_id") = Some strategyId /\
    Commands.validations_pass (commands e) strategyId (database b) /\
    Commands.strategies (database (state_after e i b))
    = map (Commands.set_paper (Commands.db_now (commands e)) strategyId)
        (Commands.strategies (database b)).
Proof.
  intros Hchanged.
  destruct (decide (isAuthorized (auth e) (user_id i) = Some true)) as [Hauth|Hno].
  2:{ destruct (handle_unauthorized e i b Hno) as (Hsame & _).
      rewrite Hsame in Hchanged. congruence. }
  split; [exact Hauth|].
  rewrite (state_after_authorized e i b Hauth) in *.
  destruct (dispatch_strategies e i (mkRun b [] false)) as [Hsame|Hact];
    [cbn [shared] in Hsame; congruence|].
  exact Hact.
Qed.

Lemma slash_command_activation_guard_witness :
  isAuthorized (H := sample_host) (auth sample_client_env) (user_id owner_activate)
  = Some true /\
  commandName owner_activate = str "activate" /\
  fst (RateLimit.checkRateLimit (now_limit sample_client_env)
         (claudeSpawnTimestamps sample_bot)) = true /\
  exists strategyId,
    getString owner_activate (str "strategy_id") = Some strategyId /\
    Commands.validations_pass (commands sample_client_env) strategyId (database sample_bot) /\
    Commands.strategies
      (database (@state_after sample_host sample_client_env owner_activate sample_bot))
    = map (Commands.set_paper (Commands.db_now (commands sample_client_env)) strategyId)
        (Commands.strategies (database sample_bot)).
Proof.
  apply (@slash_command_activation_guard sample_host).
  vm_compute. discriminate.
Defined.

End DiscordClientFacts.

(** ** State files *)

Module StateFileFacts.
Import JS StateFile.

Lemma tmp_path_differs (p : jsstring) : p ++ str ".tmp" <> p.
Proof.
  intros Heq. apply (f_equal (@length N)) in Heq.
  rewrite length_app in Heq. simpl in Heq. lia.
Qed.

(** X24. [writeState] replaces a state file in one step or not at all.
    Whatever fails on the way (creating the directory, writing the
    temporary file, renaming it), the state file holds afterwards either
    what it held before or the complete new text, the latter exactly when
    the call resolved; no file other than the state file and its ".tmp"
    companion is touched; and after a call that resolved [readState]
    returns what JSON.parse makes of the text written, the temporary file
    being gone. *)
Theorem writeState_atomic {T : Type}
  (stringify : T -> jsstring) (parse : jsstring -> option T)
  (join : jsstring -> jsstring -> jsstring)
  (env : fs_env) (STATE_DIR filename : jsstring) (data : T) (fs : files) :
  let filePath := join STATE_DIR filename in
  let run := writeState stringify join env STATE_DIR filename data fs in
  (fst run = true ->
   snd run !! filePath = Some (stringify data) /\
   snd run !! (filePath ++ str ".tmp") = None /\
   readState parse join STATE_DIR filename (snd run) = parse (stringify data)) /\
  (fst run = false ->
   snd run !! filePath = fs !! filePath /\
   readState parse join STATE_DIR filename (snd run)
   = readState parse join STATE_DIR filename fs) /\
  (forall path, path <> filePath -> path <> filePath ++ str ".tmp" ->
     snd run !! path = fs !! path).
Proof.
  cbv zeta. unfold writeState, readState.
  pose proof (tmp_path_differs (join STATE_DIR filename)) as Htmp.
  destruct (mkdir_ok env); cbn [negb].
  2:{ repeat split; try discriminate; reflexivity. }
  destruct (write_result env) as [|[text|]].
  - destruct (rename_ok env); cbn [fst snd].
    + split; [|split; [discriminate|]].
      * intros _. rewrite lookup_insert_eq. split; [reflexivity|]. split; [|reflexivity].
        rewrite lookup_insert_ne by congruence. apply lookup_delete_eq.
      * intros path H1 H2.
        rewrite lookup_insert_ne, lookup_delete_ne, lookup_insert_ne by congruence.
        reflexivity.
    + split; [discriminate|]. split.
      * intros _. rewrite lookup_insert_ne by congruence. split; reflexivity.
      * intros path H1 H2. apply lookup_insert_ne. congruence.
  - cbn [fst snd]. split; [discriminate|]. split.
    + intros _. rewrite lookup_insert_ne by congruence. split; reflexivity.
    + intros path H1 H2. apply lookup_insert_ne. congruence.
  - cbn [fst snd]. repeat split; try discriminate; reflexivity.
Qed.

Example writeState_rename_fails :
  writeState (fun n : Z => dec n) (fun a b => a ++ str "/" ++ b)
    (mkFsEnv true Written false) (str "/srv/state") (str "regime.json") 7%Z
    (<[str "/srv/state/regime.json" := str "6"]> ∅)
  = (false,
     <[str "/srv/state/regime.json.tmp" := str "7"]>
       (<[str "/srv/state/regime.json" := str "6"]> ∅)).
Proof. reflexivity. Qed.

Example writeState_then_readState :
  let run :=
    writeState (fun n : Z => dec n) (fun a b => a ++ str "/" ++ b)
      (mkFsEnv true Written true) (str "/srv/state") (str "regime.json") 7%Z
      (<[str "/srv/state/regime.json" := str "6"]> ∅) in
  fst run = true /\
  readState (fun text => if bool_decide (text = str "7") then Some 7%Z else None)
    (fun a b => a ++ str "/" ++ b) (str "/srv/state") (str "regime.json") (snd run)
  = Some 7%Z.
Proof. vm_compute. split; reflexivity. Qed.

End StateFileFacts.

(** ** Team visualizer *)

Module VisualizerFacts.
Import JS Visualizer.

(** *** The agent board *)

Lemma PROTO_is_builtin : is_builtin PROTO = true.
Proof. reflexivity. Qed.

Lemma get_plain (b : board) (key : jsstring) :
  replaced_prototype b = None -> is_builtin key = false ->
  get b key = match own b !! key with Some o => Entry o | None => Missing end.
Proof.
  intros Hp Hk. unfold get. rewrite Hp, Hk. reflexivity.
Qed.

Lemma replace_known_lookup (aid : jsstring) (f : object -> object) (b : board)
  (key : jsstring) :
  replaced_prototype b = None -> is_builtin aid = false ->
  replaced_prototype (replace_known aid f b) = None /\
  own (replace_known aid f b) !! key
  = if bool_decide (key = aid) then f <$> own b !! aid else own b !! key.
Proof.
  intros Hp Haid. unfold replace_known. rewrite (get_plain b aid Hp Haid).
  destruct (own b !! aid) as [o|] eqn:Ho; cbn [truthy spread literal_with own
    replaced_prototype].
  - split; [reflexivity|]. case_bool_decide as Hk.
    + subst key. rewrite lookup_insert_eq. reflexivity.
    + rewrite lookup_insert_ne by congruence. reflexivity.
  - split; [exact Hp|]. case_bool_decide as Hk; [subst key; exact Ho | reflexivity].
Qed.

Lemma update_known_lookup (aid : jsstring) (f : object -> object) (b : board)
  (key : jsstring) :
  replaced_prototype b = None -> is_builtin aid = false ->
  replaced_prototype (update_known aid f b) = None /\
  own (update_known aid f b) !! key
  = if bool_decide (key = aid) then f <$> own b !! aid else own b !! key.
Proof.
  intros Hp Haid. unfold update_known. rewrite (get_plain b aid Hp Haid).
  destruct (own b !! aid) as [o|] eqn:Ho; cbn [truthy spread].
  - unfold assign. rewrite Hp.
    assert (bool_decide (aid = PROTO) = false) as ->.
    { apply bool_decide_eq_false_2. intros ->. rewrite PROTO_is_builtin in Haid.
      discriminate. }
    cbn [andb own replaced_prototype]. split; [reflexivity|].
    case_bool_decide as Hk.
    + subst key. rewrite lookup_insert_eq. reflexivity.
    + rewrite lookup_insert_ne by congruence. reflexivity.
  - split; [exact Hp|]. case_bool_decide as Hk; [subst key; exact Ho | reflexivity].
Qed.

Lemma demote_lookup (aid : jsstring) (b : board) (key : jsstring) :
  own (demote aid b) !! key
  = (fun o => if negb (bool_decide (key = aid)) && is_active o
              then with_status o Waiting else o) <$> own b !! key.
Proof.
  unfold demote. cbn [own]. rewrite map_lookup_imap.
  destruct (own b !! key); reflexivity.
Qed.

Lemma same_identity_refl (o : object) : same_identity o o.
Proof. intros key _ _ _. reflexivity. Qed.

Lemma same_identity_trans (o1 o2 o3 : object) :
  same_identity o1 o2 -> same_identity o2 o3 -> same_identity o1 o3.
Proof.
  intros H12 H23 key H1 H2 H3. rewrite (H23 key H1 H2 H3). exact (H12 key H1 H2 H3).
Qed.

Lemma with_status_identity (o : object) (st : AgentStatus) :
  same_identity o (with_status o st).
Proof.
  intros key Hs _ _. unfold with_status. rewrite lookup_insert_ne by congruence.
  reflexivity.
Qed.

Lemma with_activity_identity (o : object) (activity : jsstring) :
  same_identity o (with_activity o activity).
Proof.
  intros key _ Ha _. unfold with_activity. rewrite lookup_insert_ne by congruence.
  reflexivity.
Qed.

Lemma with_length_identity (o : object) (len : Z) :
  same_identity o (with_length o len).
Proof.
  intros key _ _ Hl. unfold with_length. rewrite lookup_insert_ne by congruence.
  reflexivity.
Qed.

Lemma shown_identity (o : object) (st : AgentStatus) (activity : jsstring) :
  same_identity o (with_activity (with_status o st) activity).
Proof.
  apply (same_identity_trans _ (with_status o st));
    [apply with_status_identity | apply with_activity_identity].
Qed.

Lemma measured_identity (o : object) (st : AgentStatus) (len : Z) :
  same_identity o (with_length (with_status o st) len).
Proof.
  apply (same_identity_trans _ (with_status o st));
    [apply with_status_identity | apply with_length_identity].
Qed.

Create HintDb board.

#[local] Hint Resolve same_identity_refl with_status_identity shown_identity
  measured_identity : board.

Lemma keeps_refl (b : board) : replaced_prototype b = None -> keeps b b.
Proof.
  intros Hp. split; [exact Hp|]. intros key.
  destruct (own b !! key); [apply same_identity_refl | exact I].
Qed.

Lemma keeps_trans (b1 b2 b3 : board) : keeps b1 b2 -> keeps b2 b3 -> keeps b1 b3.
Proof.
  intros [_ H12] [Hp H23]. split; [exact Hp|]. intros key.
  specialize (H12 key). specialize (H23 key).
  destruct (own b1 !! key), (own b2 !! key), (own b3 !! key); try tauto.
  eapply same_identity_trans; eassumption.
Qed.

Lemma keeps_lookup (b b' : board) (f : jsstring -> object -> object) :
  replaced_prototype b' = None ->
  (forall key, own b' !! key = f key <$> own b !! key) ->
  (forall key o, same_identity o (f key o)) ->
  keeps b b'.
Proof.
  intros Hp Hl Hf. split; [exact Hp|]. intros key. rewrite Hl.
  destruct (own b !! key); simpl; [apply Hf | exact I].
Qed.

Lemma keeps_replace_known (aid : jsstring) (f : object -> object) (b : board) :
  replaced_prototype b = None -> is_builtin aid = false ->
  (forall o, same_identity o (f o)) ->
  keeps b (replace_known aid f b).
Proof.
  intros Hp Haid Hf.
  apply (keeps_lookup b _ (fun key o => if bool_decide (key = aid) then f o else o)).
  - apply (replace_known_lookup aid f b aid Hp Haid).
  - intros key. destruct (replace_known_lookup aid f b key Hp Haid) as [_ ->].
    case_bool_decide as Hk; [subst key|]; destruct (own b !! _); reflexivity.
  - intros key o. case_bool_decide; [apply Hf | apply same_identity_refl].
Qed.

Lemma keeps_update_known (aid : jsstring) (f : object -> object) (b : board) :
  replaced_prototype b = None -> is_builtin aid = false ->
  (forall o, same_identity o (f o)) ->
  keeps b (update_known aid f b).
Proof.
  intros Hp Haid Hf.
  apply (keeps_lookup b _ (fun key o => if bool_decide (key = aid) then f o else o)).
  - apply (update_known_lookup aid f b aid Hp Haid).
  - intros key. destruct (update_known_lookup aid f b key Hp Haid) as [_ ->].
    case_bool_decide as Hk; [subst key|]; destruct (own b !! _); reflexivity.
  - intros key o. case_bool_decide; [apply Hf | apply same_identity_refl].
Qed.

Lemma keeps_demote (aid : jsstring) (b : board) : keeps b (demote aid b).
Proof.
  apply (keeps_lookup b _
           (fun key o => if negb (bool_decide (key = aid)) && is_active o
                         then with_status o Waiting else o)).
  - reflexivity.
  - intros key. apply demote_lookup.
  - intros key o. destruct (_ && _); auto with board.
Qed.

Lemma keeps_copy (b : board) : keeps b (copy b).
Proof.
  split; [reflexivity|]. intros key. cbn [copy own].
  destruct (own b !! key); [apply same_identity_refl | exact I].
Qed.

Lemma fold_update_known (f : object -> object) (agents : list jsstring) (b : board) :
  replaced_prototype b = None ->
  Forall (fun aid => is_builtin aid = false) agents ->
  (forall o, same_identity o (f o)) ->
  (forall o, f (f o) = f o) ->
  let b' := fold_left (fun b0 aid => update_known aid f b0) agents b in
  keeps b b' /\
  forall key o', own b' !! key = Some o' ->
    (In key agents -> exists o, own b !! key = Some o /\ o' = f o) /\
    (~ In key agents -> own b !! key = Some o').
Proof.
  intros Hp Hall Hf Hidem. cbv zeta. revert b Hp.
  induction Hall as [|aid agents Haid Hall IH]; intros b Hp.
  - simpl. split; [apply keeps_refl; exact Hp|]. intros key o' Ho'.
    split; [intros [] | intros _; exact Ho'].
  - simpl.
    destruct (update_known_lookup aid f b aid Hp Haid) as [Hp1 _].
    destruct (IH _ Hp1) as [Hkeep Hrest]. split.
    + apply (keeps_trans _ (update_known aid f b));
        [apply keeps_update_known; assumption | exact Hkeep].
    + intros key o' Ho'. destruct (Hrest key o' Ho') as [Hin Hout].
      destruct (update_known_lookup aid f b key Hp Haid) as [_ Hl].
      split.
      * intros [->|Hk].
        -- destruct (List.in_dec (fun x y : jsstring => decide (x = y)) key agents)
             as [Hi|Hni].
           ++ destruct (Hin Hi) as (o1 & Ho1 & ->). rewrite Hl in Ho1.
              rewrite bool_decide_eq_true_2 in Ho1 by reflexivity.
              destruct (own b !! key) as [o|]; [|discriminate].
              simpl in Ho1. injection Ho1 as <-. exists o. split; [reflexivity|].
              apply Hidem.
           ++ specialize (Hout Hni). rewrite Hl in Hout.
              rewrite bool_decide_eq_true_2 in Hout by reflexivity.
              destruct (own b !! key) as [o|]; [|discriminate].
              simpl in Hout. injection Hout as <-. exists o. split; reflexivity.
        -- destruct (Hin Hk) as (o1 & Ho1 & ->). rewrite Hl in Ho1.
           case_bool_decide as Hka.
           ++ destruct (own b !! aid) as [o|] eqn:Hoa; [|discriminate].
              simpl in Ho1. injection Ho1 as <-. subst key. exists o.
              split; [exact Hoa | apply Hidem].
           ++ exists o1. split; [exact Ho1 | reflexivity].
      * intros Hni. assert (key <> aid) as Hne by (intros ->; apply Hni; left; reflexivity).
        assert (~ In key agents) as Hni' by (intros Hi; apply Hni; right; exact Hi).
        specialize (Hout Hni'). rewrite Hl in Hout.
        rewrite bool_decide_eq_false_2 in Hout by exact Hne. exact Hout.
Qed.

Lemma with_status_twice (o : object) (st : AgentStatus) :
  with_status (with_status o st) st = with_status o st.
Proof. unfold with_status. apply insert_insert_eq. Qed.

Lemma with_status_lookup (o : object) (st : AgentStatus) :
  with_status o st !! STATUS = Some (VString (status_text st)).
Proof. unfold with_status. apply lookup_insert_eq. Qed.

Lemma keeps_spec (b b' : board) :
  keeps b b' ->
  replaced_prototype b' = None /\
  (forall key, is_Some (own b' !! key) <-> is_Some (own b !! key)) /\
  (forall key o o', own b !! key = Some o -> own b' !! key = Some o' ->
     same_identity o o').
Proof.
  intros [Hp Hk]. split; [exact Hp|]. split.
  - intros key. specialize (Hk key).
    destruct (own b !! key), (own b' !! key); try tauto;
      split; intros [? ?]; first [discriminate | eauto].
  - intros key o o' Ho Ho'. specialize (Hk key). rewrite Ho, Ho' in Hk. exact Hk.
Qed.

(** An agent id that names a property of Object.prototype is found on
    every board: the reducer takes the function for an entry. *)
Example agent_routed_constructor :
  let s := mkApp sample_board [] [] 0 true 0 0 in
  let s' := handleEvent (str "12:00:00")
              (mkEvent 0 (AgentRouted (str "constructor") false)) s in
  own (agentStates s) !! str "constructor" = None /\
  own (agentStates s') !! str "constructor"
  = Some (with_activity (with_status ∅ Active) (str "Routing...")).
Proof. split; vm_compute; reflexivity. Qed.

(** A handoff to __proto__ adds no entry: the assignment replaces the
    prototype of the board, and a later event for an agent called status
    reads the text "waiting" there and makes an entry of its letters. *)
Example chain_handoff_proto :
  let s := mkApp sample_board [] [] 0 true 0 0 in
  let s1 := handleEvent (str "12:00:00")
              (mkEvent 0 (ChainHandoff (str "scout") (str "__proto__") 1)) s in
  let s2 := handleEvent (str "12:00:01")
              (mkEvent 1 (AgentRouted (str "status") false)) s1 in
  own (agentStates s1) = own (agentStates s) /\
  replaced_prototype (agentStates s1)
  = Some (with_activity (with_status ∅ Waiting) (str "Handoff from @scout")) /\
  own (agentStates s2) !! str "status"
  = Some (with_activity
            (with_status (index_properties (str "waiting")) Active)
            (str "Routing...")).
Proof. repeat split; vm_compute; reflexivity. Qed.

(** X29. The agent board of the visualizer. Take a board that is a plain
    object (its prototype is Object.prototype) and an event whose agent
    ids name no property of Object.prototype. Only processor_start asks
    for a reload of the settings, which rebuilds the board. For every
    other event the board the reducer leaves is again a plain object
    with the same agents, and each agent keeps every property but
    status, lastActivity and responseLength. After a chain_step_start
    for an agent no other agent is shown active, and the agent itself,
    when on the board, is active at "Step n"; after a team_chain_end
    every listed agent on the board is done and the others are as they
    were. *)
Theorem handleEvent_agent_board (stamp : jsstring) (event : TinyClawEvent) (s : app) :
  replaced_prototype (agentStates s) = None ->
  Forall (fun aid => is_builtin aid = false) (looked_up (ev_body event)) ->
  let b := agentStates s in
  let s' := handleEvent stamp event s in
  let b' := agentStates s' in
  (ev_body event = ProcessorStart -> settingsReloads s' = S (settingsReloads s)) /\
  (ev_body event <> ProcessorStart ->
     settingsReloads s' = settingsReloads s /\
     replaced_prototype b' = None /\
     (forall key, is_Some (own b' !! key) <-> is_Some (own b !! key)) /\
     (forall key o o', own b !! key = Some o -> own b' !! key = Some o' ->
        same_identity o o')) /\
  (forall aid n, ev_body event = ChainStepStart aid n ->
     (forall key o, own b' !! key = Some o -> is_active o = true -> key = aid) /\
     (forall o0, own b !! aid = Some o0 ->
        own b' !! aid
        = Some (with_activity (with_status o0 Active) (str "Step " ++ dec n)))) /\
  (forall agents, ev_body event = TeamChainEnd agents ->
     forall key o', own b' !! key = Some o' ->
       (In key agents ->
          exists o, own b !! key = Some o /\ o' = with_status o Done) /\
       (~ In key agents -> own b !! key = Some o')).
Proof.
  intros Hp Hall. cbv zeta.
  assert (ev_body event <> ProcessorStart ->
          settingsReloads (handleEvent stamp event s) = settingsReloads s /\
          keeps (agentStates s) (agentStates (handleEvent stamp event s))) as Hkeeps.
  { intros Hne. unfold handleEvent.
    destruct (ev_body event) as [|c sd m|aid t|tn ags|aid n|aid len rt|fa ta n|ags| |]
      eqn:Hev; cbn [looked_up] in Hall.
    - congruence.
    - split; [reflexivity | apply keeps_refl; exact Hp].
    - apply Forall_cons in Hall as [Haid _].
      destruct t; (split; [reflexivity|]); cbn [log_into set_agents agentStates];
        apply keeps_replace_known; auto with board.
    - split; [reflexivity | apply keeps_refl; exact Hp].
    - apply Forall_cons in Hall as [Haid _].
      split; [reflexivity|]. cbn [set_agents agentStates].
      apply (keeps_trans _ (demote aid (agentStates s))); [apply keeps_demote|].
      apply keeps_update_known; auto with board.
    - apply Forall_cons in Hall as [Haid _].
      split; [reflexivity|]. cbn [log_into set_agents agentStates].
      apply keeps_replace_known; auto with board.
    - apply Forall_cons in Hall as [Haid _].
      split; [reflexivity|]. cbn [log_into set_agents set_arrows agentStates].
      apply (keeps_trans _ (copy (agentStates s))); [apply keeps_copy|].
      apply keeps_update_known; auto with board.
    - split; [reflexivity|]. cbn [log_into set_agents agentStates].
      apply (keeps_trans _ (copy (agentStates s))); [apply keeps_copy|].
      apply (fold_update_known (fun o => with_status o Done) ags (copy (agentStates s)));
        auto with board.
      intros o. apply with_status_twice.
    - split; [reflexivity | apply keeps_refl; exact Hp].
    - split; [reflexivity | apply keeps_refl; exact Hp]. }
  split; [|split; [|split]].
  - intros Hev. unfold handleEvent. rewrite Hev. reflexivity.
  - intros Hne. destruct (Hkeeps Hne) as [Hr Hk]. split; [exact Hr|].
    apply keeps_spec. exact Hk.
  - intros aid n Hev. rewrite Hev in Hall. cbn [looked_up] in Hall.
    apply Forall_cons in Hall as [Haid _].
    unfold handleEvent. rewrite Hev. cbn [agentStates set_agents].
    assert (replaced_prototype (demote aid (agentStates s)) = None) as Hpd
        by reflexivity.
    split.
    + intros key o Hk Hactive.
      destruct (update_known_lookup aid
                  (fun o => with_activity (with_status o Active) (str "Step " ++ dec n))
                  (demote aid (agentStates s)) key Hpd Haid) as [_ Hl].
      rewrite Hl in Hk. clear Hl.
      case_bool_decide as Hka; [exact Hka|]. exfalso.
      rewrite demote_lookup in Hk.
      destruct (own (agentStates s) !! key) as [o0|]; [|discriminate].
      simpl in Hk. injection Hk as <-.
      rewrite bool_decide_eq_false_2 in Hactive by exact Hka. cbn [negb andb] in Hactive.
      destruct (is_active o0) eqn:Ha0; [|congruence].
      unfold is_active in Hactive. apply bool_decide_eq_true_1 in Hactive.
      rewrite with_status_lookup in Hactive. discriminate.
    + intros o0 Ho0.
      destruct (update_known_lookup aid
                  (fun o => with_activity (with_status o Active) (str "Step " ++ dec n))
                  (demote aid (agentStates s)) aid Hpd Haid) as [_ Hl].
      rewrite Hl. clear Hl. rewrite bool_decide_eq_true_2 by reflexivity.
      rewrite demote_lookup, Ho0. simpl.
      rewrite bool_decide_eq_true_2 by reflexivity. reflexivity.
  - intros agents Hev. rewrite Hev in Hall. cbn [looked_up] in Hall.
    unfold handleEvent. rewrite Hev. cbn [agentStates set_agents log_into].
    apply (fold_update_known (fun o => with_status o Done) agents
             (copy (agentStates s))); auto with board.
    intros o. apply with_status_twice.
Qed.

Lemma handleEvent_agent_board_witness :
  let s := mkApp sample_board [] [] 0 true 0 0 in
  let s' := handleEvent (str "12:00:00")
              (mkEvent 0 (ChainStepStart (str "trader") 2)) s in
  settingsReloads s' = settingsReloads s /\
  replaced_prototype (agentStates s') = None /\
  (forall key, is_Some (own (agentStates s') !! key)
               <-> is_Some (own (agentStates s) !! key)).
Proof.
  cbv zeta.
  destruct (handleEvent_agent_board (str "12:00:00")
              (mkEvent 0 (ChainStepStart (str "trader") 2))
              (mkApp sample_board [] [] 0 true 0 0)) as (_ & Hother & _).
  - reflexivity.
  - repeat constructor.
  - destruct Hother as (Hr & Hp & Hdom & _); [discriminate|].
    split; [exact Hr|]. split; [exact Hp | exact Hdom].
Defined.

(** *** The activity log *)

Lemma addLog_spec (stamp icon text color : jsstring) (prev : list LogEntry) :
  (length prev <= 50)%nat ->
  (length (addLog stamp icon text color prev) <= 50)%nat /\
  exists k, (k <= 1)%nat /\
    addLog stamp icon text color prev
    = drop k prev ++ [mkLogEntry stamp icon text color].
Proof.
  intros Hlen. unfold addLog. cbv zeta. rewrite length_app. simpl.
  destruct (Nat.ltb_spec 50 (length prev + 1)) as [Hfull|Hroom].
  - assert (length prev = 50)%nat as H50 by lia. rewrite H50. simpl Nat.sub.
    split.
    + rewrite length_drop, length_app. simpl. lia.
    + exists 1%nat. split; [lia|]. destruct prev; [discriminate|]. reflexivity.
  - split; [rewrite length_app; simpl; lia|]. exists 0%nat. split; [lia | reflexivity].
Qed.

Lemma truncate_length (s : jsstring) (max : Z) :
  (1 <= max)%Z -> (Z.of_nat (length (truncate s max)) <= max)%Z.
Proof.
  intros Hmax. unfold truncate, slice_to.
  destruct (Z.leb_spec (Z.of_nat (length s)) max); [assumption|].
  replace (max - 1 <? 0)%Z with false by (symmetry; apply Z.ltb_ge; lia).
  rewrite length_app, length_take. simpl. lia.
Qed.

(** X30. The activity log stays a window of the last 50 lines. Starting
    from a log of at most 50 entries, every event leaves at most 50; an
    event adds at most one line, at the end, stamped with the time of its
    handling, and drops at most the oldest line to make room; the body of
    a received message is shown cut to 50 units at most, and [truncate]
    never returns more than [max] units when [max] is at least 1. *)
Theorem handleEvent_log_window (stamp : jsstring) (event : TinyClawEvent) (s : app) :
  (length (logEntries s) <= 50)%nat ->
  let s' := handleEvent stamp event s in
  (length (logEntries s') <= 50)%nat /\
  (logEntries s' = logEntries s \/
   exists k entry,
     (k <= 1)%nat /\ time entry = stamp /\
     logEntries s' = drop k (logEntries s) ++ [entry] /\
     (forall channel sender message,
        ev_body event = MessageReceived channel sender message ->
        exists body,
          text entry = str "[" ++ channel ++ str "] " ++ sender ++ str ": " ++ body /\
          (length body <= 50)%nat)) /\
  (forall (t : jsstring) (max : Z),
     (1 <= max)%Z -> (Z.of_nat (length (truncate t max)) <= max)%Z).
Proof.
  intros Hlen. cbv zeta.
  assert (forall s0 icon text color,
            logEntries s0 = logEntries s ->
            (forall channel sender message,
               ev_body event = MessageReceived channel sender message ->
               exists body,
                 text = str "[" ++ channel ++ str "] " ++ sender ++ str ": " ++ body /\
                 (length body <= 50)%nat) ->
            (length (logEntries (log_into s0 stamp icon text color)) <= 50)%nat /\
            (logEntries (log_into s0 stamp icon text color) = logEntries s \/
             exists k entry,
               (k <= 1)%nat /\ time entry = stamp /\
               logEntries (log_into s0 stamp icon text color)
               = drop k (logEntries s) ++ [entry] /\
               (forall channel sender message,
                  ev_body event = MessageReceived channel sender message ->
                  exists body,
                    Visualizer.text entry
                    = str "[" ++ channel ++ str "] " ++ sender ++ str ": " ++ body /\
                    (length body <= 50)%nat))) as Hlog.
  { intros s0 icon text color Heq Hmsg. cbn [log_into logEntries]. rewrite Heq.
    destruct (addLog_spec stamp icon text color (logEntries s) Hlen) as (Hle & k & Hk & Hadd).
    split; [exact Hle|]. right. exists k, (mkLogEntry stamp icon text color).
    split; [exact Hk|]. split; [reflexivity|]. split; [exact Hadd|]. exact Hmsg. }
  cut ((length (logEntries (handleEvent stamp event s)) <= 50)%nat /\
       (logEntries (handleEvent stamp event s) = logEntries s \/
        exists k entry,
          (k <= 1)%nat /\ time entry = stamp /\
          logEntries (handleEvent stamp event s) = drop k (logEntries s) ++ [entry] /\
          (forall channel sender message,
             ev_body event = MessageReceived channel sender message ->
             exists body,
               Visualizer.text entry
               = str "[" ++ channel ++ str "] " ++ sender ++ str ": " ++ body /\
               (length body <= 50)%nat))).
  { intros [H1 H2]. split; [exact H1|]. split; [exact H2|].
    intros t max. apply truncate_length. }
  unfold handleEvent.
  destruct (ev_body event) as [|c sd m|aid t|tn ags|aid n|aid len rt|fa ta n|ags| |]
    eqn:Hev.
  - apply Hlog; [reflexivity | discriminate].
  - apply Hlog; [reflexivity|]. intros channel sender message Hm.
    injection Hm as <- <- <-. eexists. split; [reflexivity|].
    pose proof (truncate_length (match m with Some ((_ :: _) as m0) => m0 | _ => [] end) 50
                  ltac:(lia)). lia.
  - destruct t; (apply Hlog; [reflexivity | discriminate]).
  - cbn [set_arrows logEntries].
    change (logEntries (set_arrows ?x [])) with (logEntries x).
    apply Hlog; [reflexivity | discriminate].
  - cbn [set_agents logEntries]. split; [exact Hlen | left; reflexivity].
  - apply Hlog; [reflexivity | discriminate].
  - apply Hlog; [reflexivity | discriminate].
  - cbn [set_agents logEntries]. apply Hlog; [reflexivity | discriminate].
  - cbn [logEntries]. split; [exact Hlen | left; reflexivity].
  - split; [exact Hlen | left; reflexivity].
Qed.

Lemma handleEvent_log_window_witness :
  let s := mkApp ∅ [] (replicate 50 (mkLogEntry (str "old") [] [] [])) 0 false 0 0 in
  let s' := handleEvent (str "12:00:00")
              (mkEvent 0 (MessageReceived (str "discord") (str "sam")
                            (Some (replicate 80 97%N)))) s in
  (length (logEntries s') <= 50)%nat.
Proof.
  cbv zeta.
  apply (handleEvent_log_window (str "12:00:00")
           (mkEvent 0 (MessageReceived (str "discord") (str "sam") (Some (replicate 80 97%N))))
           (mkApp ∅ [] (replicate 50 (mkLogEntry (str "old") [] [] [])) 0 false 0 0)).
  cbn [logEntries]. rewrite length_replicate. lia.
Defined.

End VisualizerFacts.
